(* ===== verification/_CoqProject ===== *)
-Q . S2P
Prelude.v
Lifetimes.v
GoStrings.v
GoPath.v
HostOS.v
Proto.v
Wire.v
FsrpcMount.v
FsrpcOps.v
FsrpcInodes.v
FsrpcHandles.v
FsrpcSafe.v
FsrpcHandlers.v
FsrpcServer.v
FsrpcSession.v
MemHost.v
FsrpcTheorems.v
FsrpcFunctional.v
FsrpcTable.v
FsrpcOutput.v
FsrpcFindings.v
GoNet.v
NetworkPolicy.v
NetPolicyProps.v
Secrets.v
SecretsProps.v
Proxy.v
ProxyProps.v
ProxyPrivate.v
MemNet.v
ProxyTunnel.v
VMService.v
VMServiceProps.v
VMConcurrent.v
Goroutines.v
ServiceCalls.v
MemVM.v
VirtioClient.v
VirtioProps.v
VirtioSafe.v
VirtioExec.v
VirtioFlow.v
VirtioFindings.v
HostBackend.v
HostBackendProps.v
HostMounts.v
HostRewrite.v
ExecIO.v
HostStream.v
HostStreamProps.v
HostStreamEnds.v
VMStream.v
StrictTransport.v
StrictTransportProps.v
DaemonStrict.v
CertAuthority.v
CertAuthorityProps.v
CAConcurrent.v
VMArgs.v
VMArgsProps.v
VMBackend.v
VMBackendProps.v
VMBackendLife.v
VMServiceHost.v
ServiceCallsProps.v
DaemonStrictProps.v
VMHostImpl.v
CLI.v
RpcStubs.v
ServerDebug.v
GoFlag.v
CLICommands.v
CLICommandsProps.v
ExecFlow.v
GuestMounts.v
Endpoints.v
CLIDaemon.v
CLIDaemonProps.v
Wsl.v
WslProps.v
