(* ===== verification/Prelude.v ===== *)
(** * klitka: a verification development (root file)

    klitka runs commands in small virtual machines.  A daemon (Go, [src/daemon])
    starts a QEMU process per VM, or falls back to running commands on the host;
    it serves directories to the guest, runs commands in it over a console port,
    and passes the guest's network traffic through a proxy that enforces a
    policy.  A client ([src/cli]) talks to the daemon through an RPC API
    ([src/proto]).  This library translates that code into Rocq functions and
    step relations and proves what makes it correct.

    ** How the parts interact

    [klitka exec] and [klitka shell] parse their flags into a StartVM request
    ([CLI], [CLICommands]), find the daemon ([Endpoints], [Wsl]) and call it
    through the RPC stubs ([RpcStubs]; the whole way is [CLIDaemon]).
    The service ([VMService]) builds the VM's network manager, which holds the
    proxy ([Proxy], [NetworkPolicy], [Secrets]), its certificate authority
    ([CertAuthority]) and, on macOS, packet filter rules ([StrictTransport]), and
    a backend: [VMBackend] prepares mounts and arguments ([VMArgs]), starts one
    FS-RPC server per mount ([FsrpcServer] over [FsrpcOps] over [FsrpcMount]),
    runs QEMU and connects to the guest's console ([VirtioClient]);
    [HostBackend] copies or links the mounts and runs processes ([HostStream]).
    Commands reach a backend's Exec or ExecStream ([VMStream], [HostStream]).

    ** Files

    Shared ground:
    - [Prelude]: Go results, machine integers, runs of steps, association lists,
      tactics, the hint database [klitka]; [Lifetimes]: traces of openings and
      closings; [GoStrings], [GoPath], [GoNet]: what the code uses of packages
      [strings], [strconv], [fmt], [path/filepath] and [net]; [HostOS]: packages
      [os] and [time] as calls of a free monad, with a weakest-precondition
      calculus that holds whatever the host answers; [Proto]: the messages of
      [proto/klitka/v1/daemon.proto]; [Wire]: CBOR values, request fields and
      frames.
    - [MemHost], [MemNet], [MemVM]: small concrete hosts on which theorems stated
      for every host are evaluated.

    FS-RPC server ([daemon/fsrpc_server.go]):
    - [FsrpcMount] (inode table, handle table, collection), [FsrpcOps] (every
      handler and the dispatcher), [FsrpcServer] (the loop of [serve], metrics);
    - [FsrpcInodes], [FsrpcHandles], [FsrpcSafe], [FsrpcHandlers],
      [FsrpcSession]: the invariants and that each handler, and the loop, keep
      them; [FsrpcTheorems]: whole sessions (containment, read-only mounts,
      termination, and, unless the server is closed meanwhile, no file leaked or used
      after its close); [FsrpcFunctional],
      [FsrpcTable], [FsrpcOutput]: what operations answer, what a rename and a
      collection do, what is written; [FsrpcFindings]: where the code leaves its
      documentation, and what a Close from another goroutine does.

    Egress ([daemon/network.go], [secrets.go], [mitm.go],
    [strict_transport_*.go]):
    - [NetworkPolicy] and [NetPolicyProps]: normalising, validating and asking a
      policy; [Secrets] and [SecretsProps]: values never reach the guest, nor the
      wrong host; [Proxy], [ProxyProps], [ProxyPrivate]: what the proxy looks up,
      dials, forwards and answers; [ProxyTunnel]: its tunnels, and how a client
      reads an error reply;
      [CertAuthority] and [CertAuthorityProps]: the authority survives a
      restart, certificates are for the host asked for; [CAConcurrent]: so they
      are when calls run at the same time ([Goroutines]), once there is an authority,
      and all VMs of a daemon share it;
      [StrictTransport] and [StrictTransportProps]: the daemon keeps to its own
      packet filter anchors and flushes them; [DaemonStrict] and
      [DaemonStrictProps]: they are the hooks of the network manager, and what the
      anchors hold, by pfctl's answers, follows the VMs, at every action of calls
      that interleave.

    Service and backends ([daemon/service.go], [backend.go], [fs_backend.go],
    [vm_backend.go], [virtio.go], [vm.go], [exec_helpers.go]):
    - [VMService], [VMServiceProps], [VMConcurrent]: the four calls, and that
      under any interleaving of StartVM and StopVM nothing leaks and strict
      egress is kept; [VMServiceHost]: the laws the service asks of its backends
      ([VMHostLaws]) and what it promises over them; [ServiceCalls] and
      [ServiceCallsProps]: the same for all four calls with each call to the
      machine an action of its own; [VMHostImpl]: the two real backends keep
      those laws;
    - [VMArgs], [VMArgsProps]: mounts, assets and QEMU's arguments,
      and the guest's reading of its kernel command line ([guest/image/init]);
      [VMBackend], [VMBackendProps], [VMBackendLife]: starting and closing a VM,
      with every error path;
    - [VirtioClient], [VirtioProps], [VirtioSafe], [VirtioExec],
      [VirtioFlow], [VirtioFindings]: the console client's goroutines and the result of a
      command; [ExecFlow]: what Exec answers and what the shell
      shows when their receives interleave with the rest; [ExecIO]: the messages
      of a streamed command and its input, which both backends treat alike;
      [VMStream]: Exec and ExecStream in the guest;
    - [HostBackend], [HostBackendProps], [HostMounts], [HostRewrite]:
      the host backend's environment, mounts, path rewriting and directory;
      [HostStream], [HostStreamProps], [HostStreamEnds]: a streamed host command
      as the interleaving of the process, two readers, the call and the client.

    Client and listener ([cli/main.go], [cli/wsl_windows.go], [wsl_stub.go],
    [daemon/server.go], [server_debug.go], [cmd/klitka-daemon],
    [klitkav1connect/daemon.connect.go]):
    - [CLI], [GoFlag], [CLICommands], [CLICommandsProps]: flags, request, calls,
      outputs and exit codes; [Endpoints]: where the daemon listens, what its main
      does and where the client connects; [RpcStubs]: URLs, routes and the mux;
      [ServerDebug]: the debug wrappers; [CLIDaemon], [CLIDaemonProps]: the
      commands against the handlers of [ServiceCalls], with other clients' actions
      before each of theirs; [Wsl], [WslProps]: quoting, paths and starting the daemon
      inside WSL; [GuestMounts]: from [--mount] through the backend to the FS-RPC
      server, what the server of a mount flag names and changes of the host.

    ** How the code is represented

    Integers are [Z] with Go's conversions written out ([uint32_of],
    [int64_of], ...); strings are byte strings; maps are [gmap]s, and an order
    of iteration is a parameter ([GoRuntime]).  A fallible call is an [osres]
    (or an [option]); a panic is a result of its own.  Sequential code that
    changes state is explicit state passing or a small monad with the code's
    order of effects; goroutines are program counters of a step relation, one
    critical section or channel operation per step, and its theorems hold for
    every run ([Goroutines] has the calls whose steps are in sequence).  What is
    acquired and released is recorded in a trace, so that
    leaks and double closes are statements on the trace.

    ** Interfaces

    What is not code of the repository is a class, with its documented laws as
    a second class where theorems need them: [HostOS] (files; [trace_honest]
    is what is assumed of their answers), [GoRuntime]/[GoRuntimeLaws] (order of maps and sorting), [Codec]/
    [CodecLaws] (CBOR), [ConnOS] with [ConnLaws], [ConnTakes] and [ConnReliable]
    (connections), [NetWorld] and [HttpLib] (resolver, dialling, HTTP),
    [UnicodeTables] ([ToLower] beyond ASCII), [VMEnv] and [VMMachine] (programs,
    sockets, clock of the machine), [HostTree] (the host backend's directories),
    [HostProc] (processes and pipes), [PFHost] ([pfctl]), [CAHost]/[CALaws]
    (cryptography, PEM, files), [WslHost] ([wsl.exe]), [ShellReads] (POSIX
    quoting), [ListenHost] (sockets), [DaemonClient] (the API as the client
    sees it; [daemon_client] implements it by the service), [CliEnv] (the
    client's machine), [Connect]/[ConnectLaws] (connect's clients and handlers).
    [VMHost]/[VMHostLaws] lies inside the program: the service is
    proved against it, [VMHostImpl] discharges it with the two backends, and
    [darwin_host] implements its strict-transport part over any other host, and
    [mitm_host] its certificate authority.

    ** What the theorems show

    - Containment and authority: [session_contained], [session_read_only],
      [forwarded_requests_allowed], [strict_dials_ipv4],
      [stable_dns_tunnels_public], [lookups_follow_dns_mode],
      [calls_keep_strict], [secrets_for_other_hosts], [guest_env_hides_values],
      [buildMounts_copies], [calls_rules_follow], [shellEscape_reads].
    - Nothing leaks: [daemon_calls_leave_nothing], [calls_leak_nothing],
      [vm_backend_cleans_up], [session_files], [calls_rules_follow],
      [exec_stops_its_vm], [exec_leaves_nothing], [shell_leaves_nothing],
      [start_stop_leaves_nothing], [klitka_daemon_closes].  Some of it is as far as
      the machine lets: a directory that [os.RemoveAll] cannot remove stays, and an
      anchor that pfctl does not flush; the theorems say so.
    - Results arrive: [exec_result_arrives], [console_faithful], [exec_reports_guest],
      [reader_never_stuck], [rpc_routes], [debug_conn_reads],
      [host_stream_faithful], [host_stream_complete], [stream_equals_exec],
      [input_agrees], [serve_answers], [shell_shows_command], [shell_shows_guest],
      [tunnel_faithful].
    - Things end: [session_returns], [host_stream_returns],
      [dialUnixSocket_returns], [ensureWslDaemon_returns], [tunnel_closes].
    - What is asked is what is done: [flags_bind_guest], [mounts_served_as_asked],
      [mounts_reach_guest], [rewritePath_follows_mounts], [cli_policy_accepted],
      [flags_roundtrip], [buildNetworkPolicy_wf], [authority_shared],
      [ca_survives_restart], [managers_share_authority], [certificates_shared], [certificates_for_hosts],
      [remapPath_follows], [maybeGC_collects],
      [backend_sockets_fit].
    Lemmas of the [..Findings] files and some of the others show behaviours that
    surprise ([readdir_huge_page_panics], [close_race_panics], [silent_after_reader], [output_lost_to_exit],
    [wait_discards_output], [half_close_cuts], [shell_leaves_vm], [shell_leaves_raw],
    [failed_start_keeps_listener], [debug_conn_waits],
    [first_authorities_race], [rewriting_leaves_mounts], [close_during_open_leaks],
    [double_dot_reaches_private], [host_close_leaves], [end_of_input_is_null]).

    ** Bounds and fuel

    - [serve_loop] has one unit of fuel per byte of input and one more: a frame
      takes at least four bytes.  [writeAllConn] has one per byte to write, and
      every write that succeeds takes at least one.
    - [nextHandleID_loop] has one more than there are handles; candidates are
      distinct, so one is free ([nextHandleIDLocked_free], for a table of fewer than
      [2^64 - 1] handles).
    - Inode numbers are 64-bit counters: a request hands out at most [ino_step]
      of them, so an input of fewer than [2^31] bytes does not wrap around
      ([session_budget]).
    - [readLoop_fuel]: one per byte of the stream.  [dial_fuel] and [wait_fuel]:
      the number of pauses that fit in the timeout, and two; enough because the
      clock advances by at least the pause each time.  [find_fuel]: the length of
      the path, as each parent directory is shorter.
    - [weight] of a streamed host command bounds the actions its goroutines can
      still take once the process has ended.

    ** Not modelled

    What libraries do under the code: TLS and HTTP/2 on the wire, the streaming of a
    response's body (a body is a list of bytes), connect's clients and handlers,
    package [flag]'s usage texts; what a signal does to the client or the daemon
    ([klitka_daemon_closes] starts where it is received); the timers that kill
    processes (their outcome is an answer of the machine); log lines.
    What [pf], QEMU, virtiofsd and the guest's kernel make of what
    they are given is theirs.  The guest's programs ([guest/src], Zig) and the SDK
    ([sdk], TypeScript) are not Go code of this program; the generated messages
    are modelled as far as they are read ([Proto]).

    The FS-RPC server runs by itself: [serve] and its handlers are sequential code
    over the mount, whose mutex is therefore not there, although [vmBackend.Close]
    closes a server from another goroutine.  [session_files] is about sessions that are
    not closed so; [close_during_open_leaks] shows what such a close can do.
    A process counts as ended once it has been waited for or killed, and a
    listener or connection once it has been closed, whatever that answered.

    Where components meet, a few things stay coarse.  In [ServiceCalls] a call
    of a strict-transport hook and a backend's Start or Close is one action,
    although each is several calls to the machine ([StrictTransport],
    [VMBackend], [HostBackend] have them).  The proxy's handlers run one at a time
    over the network; what they share (the policy, the secrets) does not change
    once the manager is made, but for the certificate authority, whose
    concurrent calls are in [CAConcurrent].  There [mitm_host] puts [loadOrCreateCA] behind the
    service as one action, which is enough once there is an authority ([authority_shared]),
    and not for the first VMs ([first_authorities_race]). *)
From stdpp Require Export base tactics list gmap strings pretty.
From Stdlib Require Export ZArith Lia.

#[global] Open Scope Z_scope.

(** ** Results of fallible Go calls

    [osres A] is the pair [(value, error)] of a Go call, as a sum: [Good a]
    is [(a, nil)] and [Bad e] is [(_, e)] with [e] non-nil. *)
Inductive osres (E A : Type) : Type :=
| Good (a : A)
| Bad (e : E).
Arguments Good {E A} a.
Arguments Bad {E A} e.

Definition is_good {E A} (r : osres E A) : bool :=
  match r with Good _ => true | Bad _ => false end.

Definition osres_map {E A B} (f : A → B) (r : osres E A) : osres E B :=
  match r with Good a => Good (f a) | Bad e => Bad e end.

(** [if v, ok := e; !ok { return r }; k] and [if x, err := e; err != nil
    { return h(err) }; k]. *)
Declare Scope go_scope.
Delimit Scope go_scope with go.
#[global] Open Scope go_scope.
Notation "'let?' x ':=' e 'or' r 'in' k" :=
  (match e with Some x => k | None => r end)
  (at level 10, x binder, e at level 100, r at level 100, k at level 200,
   only parsing) : go_scope.
Notation "'try' x ':=' e 'catch' y '=>' h 'in' k" :=
  (match e with Good x => k | Bad y => h end)
  (at level 10, x binder, y name, e at level 100, h at level 100, k at level 200,
   only parsing) : go_scope.

(** ** Machine integers

    Go's fixed-width integers are kept as [Z], with the wrap-around of every
    conversion and operation written out. *)
Definition two32 : Z := 4294967296.
Definition two64 : Z := 18446744073709551616.
Definition two31 : Z := 2147483648.
Definition two63 : Z := 9223372036854775808.

Definition uint32_of (z : Z) : Z := z mod two32.
Definition uint64_of (z : Z) : Z := z mod two64.
Definition int64_of (z : Z) : Z := (z + two63) mod two64 - two63.
Definition int32_of (z : Z) : Z := (z + two31) mod two32 - two31.

Definition u32_range (z : Z) : Prop := 0 ≤ z < two32.
Definition u64_range (z : Z) : Prop := 0 ≤ z < two64.
Definition i64_range (z : Z) : Prop := - two63 ≤ z < two63.
Definition i32_range (z : Z) : Prop := - two31 ≤ z < two31.

Lemma uint32_of_range z : u32_range (uint32_of z).
Proof. unfold u32_range, uint32_of, two32. apply Z.mod_pos_bound. lia. Qed.

Lemma uint64_of_range z : u64_range (uint64_of z).
Proof. unfold u64_range, uint64_of, two64. apply Z.mod_pos_bound. lia. Qed.

Lemma int64_of_range z : i64_range (int64_of z).
Proof.
  unfold i64_range, int64_of, two63, two64.
  pose proof (Z.mod_pos_bound (z + 9223372036854775808) 18446744073709551616).
  lia.
Qed.

Lemma int32_of_range z : i32_range (int32_of z).
Proof.
  unfold i32_range, int32_of, two31, two32.
  pose proof (Z.mod_pos_bound (z + 2147483648) 4294967296). lia.
Qed.

Lemma uint32_of_small z : u32_range z → uint32_of z = z.
Proof. unfold u32_range, uint32_of, two32. intros. apply Z.mod_small; lia. Qed.

Lemma uint64_of_small z : u64_range z → uint64_of z = z.
Proof. unfold u64_range, uint64_of, two64. intros. apply Z.mod_small; lia. Qed.

Lemma int64_of_small z : i64_range z → int64_of z = z.
Proof.
  unfold i64_range, int64_of, two63, two64. intros. rewrite Z.mod_small; lia.
Qed.

Lemma int32_of_small z : i32_range z → int32_of z = z.
Proof.
  unfold i32_range, int32_of, two31, two32. intros. rewrite Z.mod_small; lia.
Qed.

(** The upper half of [uint64] becomes negative when converted to [int64]. *)
Lemma int64_of_high z : two63 ≤ z < two64 → int64_of z = z - two64.
Proof.
  unfold int64_of, two63, two64. intros.
  replace (z + 9223372036854775808)
    with ((z - 9223372036854775808) + 1 * 18446744073709551616) by lia.
  rewrite Z.mod_add by lia. rewrite Z.mod_small; lia.
Qed.

Create HintDb klitka discriminated.
#[export] Hint Resolve uint32_of_range uint64_of_range int64_of_range
  int32_of_range : klitka.

(** ** Sequences of steps *)
Section star.
Context {A : Type} (R : A → A → Prop).

Inductive star : A → A → Prop :=
| star_refl a : star a a
| star_step a b c : R a b → star b c → star a c.

Lemma star_one a b : R a b → star a b.
Proof. eauto using star. Qed.

Lemma star_trans a b c : star a b → star b c → star a c.
Proof. induction 1; eauto using star. Qed.

(** Rule induction for invariants: what one step preserves, a run preserves. *)
Lemma star_invariant (I : A → Prop) :
  (∀ a b, I a → R a b → I b) → ∀ a b, star a b → I a → I b.
Proof. intros Hstep a b. induction 1; eauto. Qed.
End star.

(** ** Lists *)
(** Looking up a key in an association list; the first binding counts. *)
Fixpoint assoc {V} (k : string) (l : list (string * V)) : option V :=
  match l with
  | [] => None
  | (k', v) :: l' => if decide (k = k') then Some v else assoc k l'
  end.

Lemma assoc_cons_eq {V} k (v : V) l : assoc k ((k, v) :: l) = Some v.
Proof. simpl. by rewrite decide_True. Qed.

Lemma assoc_cons_ne {V} k k' (v : V) l : k ≠ k' → assoc k ((k', v) :: l) = assoc k l.
Proof. intros. simpl. by rewrite decide_False. Qed.

(** [[]byte(s)] *)
Definition text_bytes (s : string) : list Byte.byte :=
  map Ascii.byte_of_ascii (String.list_ascii_of_string s).

(** ** Tactics shared by the files *)

(** Case analysis on the scrutinee of a [match] of the goal, with cleanup. *)
Ltac go_match :=
  repeat (case_match; simplify_eq/=; try done).

(** The same in a hypothesis. *)
Ltac go_inv H :=
  repeat (let E := fresh "E" in
          match type of H with
          | context [match ?x with _ => _ end] => destruct x eqn:E
          end; simplify_eq/=; try done).
