(* ===== verification/Lifetimes.v ===== *)
(** * What a component holds, as a trace of openings and closings

    A component that opens and closes things (listeners, processes,
    directories) is modelled with a trace of [life] events.  [live_of] is what
    is open at its end, and a trace is [clean] when nothing is opened while it
    is open and nothing is closed that is not. *)
From S2P Require Export Prelude.

Inductive life (R : Type) :=
| EvOpened (r : R)
| EvClosed (r : R).
Arguments EvOpened {R} r.
Arguments EvClosed {R} r.

Section lifetimes.
Context {R : Type} `{Countable R}.
Implicit Types (l : list R) (tr : list (life R)).

Definition live_step (L : gset R) (e : life R) : gset R :=
  match e with EvOpened r => {[r]} ∪ L | EvClosed r => L ∖ {[r]} end.
Definition live_of (tr : list (life R)) : gset R := foldl live_step ∅ tr.

(** Nothing is opened while it is open, nothing is closed unless it is open. *)
Definition ev_clean (L : gset R) (e : life R) : Prop :=
  match e with EvOpened r => r ∉ L | EvClosed r => r ∈ L end.
Definition clean (tr : list (life R)) : Prop :=
  ∀ tr1 e tr2, tr = tr1 ++ e :: tr2 → ev_clean (live_of tr1) e.

Lemma live_of_snoc tr e : live_of (tr ++ [e]) = live_step (live_of tr) e.
Proof. unfold live_of. by rewrite foldl_app. Qed.

Lemma clean_nil : clean [].
Proof. intros [|??] e tr2; done. Qed.

Lemma clean_snoc tr e : clean tr → ev_clean (live_of tr) e → clean (tr ++ [e]).
Proof.
  intros Hc He tr1 e' tr2. destruct tr2 as [|e2 tr2 _] using rev_ind.
  - intros [-> [= ->]]%app_inj_tail. done.
  - rewrite app_comm_cons, app_assoc. intros [-> _]%app_inj_tail. by eapply Hc.
Qed.

Lemma live_open tr l :
  live_of (tr ++ map EvOpened l) = live_of tr ∪ list_to_set l.
Proof.
  revert tr. induction l as [|r l IH]; intros tr; simpl.
  - rewrite app_nil_r. set_solver.
  - rewrite cons_middle, app_assoc, IH, live_of_snoc. simpl. set_solver.
Qed.

Lemma live_close tr l :
  live_of (tr ++ map EvClosed l) = live_of tr ∖ list_to_set l.
Proof.
  revert tr. induction l as [|r l IH]; intros tr; simpl.
  - rewrite app_nil_r. set_solver.
  - rewrite cons_middle, app_assoc, IH, live_of_snoc. simpl. set_solver.
Qed.

Lemma clean_open tr l :
  clean tr → NoDup l → (∀ r, r ∈ l → r ∉ live_of tr) → clean (tr ++ map EvOpened l).
Proof.
  revert tr. induction l as [|r l IH]; intros tr Hc Hn Hl; simpl; [by rewrite app_nil_r|].
  apply NoDup_cons in Hn as [Hr Hn]. rewrite cons_middle, app_assoc. apply IH; [|done|].
  - apply clean_snoc; [done|]. apply Hl. by left.
  - intros r' Hr'. rewrite live_of_snoc. simpl.
    assert (r' ∉ live_of tr) by (apply Hl; by right).
    assert (r' ≠ r) by (intros ->; done). set_solver.
Qed.

Lemma clean_close tr l :
  clean tr → NoDup l → (∀ r, r ∈ l → r ∈ live_of tr) → clean (tr ++ map EvClosed l).
Proof.
  revert tr. induction l as [|r l IH]; intros tr Hc Hn Hl; simpl; [by rewrite app_nil_r|].
  apply NoDup_cons in Hn as [Hr Hn]. rewrite cons_middle, app_assoc. apply IH; [|done|].
  - apply clean_snoc; [done|]. apply Hl. by left.
  - intros r' Hr'. rewrite live_of_snoc. simpl.
    assert (r' ∈ live_of tr) by (apply Hl; by right).
    assert (r' ≠ r) by (intros ->; done). set_solver.
Qed.

(** Opening [l] and closing it again, in any order. *)
Lemma balanced_clean tr l l' :
  clean tr → NoDup l → l' ≡ₚ l → (∀ r, r ∈ l → r ∉ live_of tr) →
  clean (tr ++ map EvOpened l ++ map EvClosed l')
  ∧ live_of (tr ++ map EvOpened l ++ map EvClosed l') = live_of tr.
Proof.
  intros Hc Hn Hp Hnew. rewrite app_assoc. split.
  - apply clean_close; [by apply clean_open|by rewrite Hp|].
    intros r Hr. rewrite live_open. rewrite Hp in Hr. set_solver.
  - rewrite live_close, live_open.
    assert (list_to_set l' = (list_to_set l : gset R)) as -> by (by rewrite Hp).
    set_solver.
Qed.
End lifetimes.
