(* ===== verification/GoStrings.v ===== *)
(** * Go strings

    A Go [string] is a sequence of bytes: [String.string], whose characters
    are bytes.  This file models the functions of the packages [strings],
    [strconv] and [fmt] that klitka calls, with their algebraic lemmas.

    [strings.ToLower] on a string with a non-ASCII byte goes through the
    Unicode case tables; that table is the one parameter here, the class
    [UnicodeTables].  [strings.TrimSpace] is modelled in full: the Unicode
    white space characters are listed as their UTF-8 encodings. *)
From Stdlib Require Import Ascii.
From S2P Require Export Prelude.

Abbreviation slen := String.length.

(** ** Append *)
Lemma sapp_cons c s t : (String c s) +:+ t = String c (s +:+ t).
Proof. done. Qed.

Lemma sapp_nil_l s : "" +:+ s = s.
Proof. done. Qed.

Lemma sapp_nil_r s : s +:+ "" = s.
Proof. induction s; [done|]. by rewrite sapp_cons, IHs. Qed.

Lemma sapp_assoc s t u : s +:+ (t +:+ u) = (s +:+ t) +:+ u.
Proof. induction s; [done|]. by rewrite !sapp_cons, IHs. Qed.

Lemma slen_app s t : slen (s +:+ t) = (slen s + slen t)%nat.
Proof. induction s; [done|]. rewrite sapp_cons. simpl. lia. Qed.

Lemma sapp_inj_l s t u : s +:+ t = s +:+ u → t = u.
Proof. induction s; [done|]. rewrite !sapp_cons. intros. simplify_eq. auto. Qed.

Lemma sapp_nil_inv s t : s +:+ t = "" → s = "" ∧ t = "".
Proof. destruct s; [done|]. by rewrite sapp_cons. Qed.

(** ** Reversal *)
Fixpoint srev (s : string) : string :=
  match s with
  | "" => ""
  | String c s' => srev s' +:+ String c ""
  end.

Lemma srev_app s t : srev (s +:+ t) = srev t +:+ srev s.
Proof.
  induction s as [|c s IH]; [by rewrite sapp_nil_r|].
  rewrite sapp_cons. simpl. by rewrite IH, sapp_assoc.
Qed.

Lemma srev_involutive s : srev (srev s) = s.
Proof. induction s as [|c s IH]; [done|]. simpl. rewrite srev_app. simpl. by rewrite IH. Qed.

Lemma slen_srev s : slen (srev s) = slen s.
Proof. induction s; simpl; [done|]. rewrite slen_app. simpl. lia. Qed.

(** ** Prefixes and suffixes *)

(** The rest of [s] after the prefix [p]. *)
Fixpoint strip_prefix (p s : string) : option string :=
  match p, s with
  | "", _ => Some s
  | String a p', String b s' => if decide (a = b) then strip_prefix p' s' else None
  | String _ _, "" => None
  end.

Lemma strip_prefix_Some p s r : strip_prefix p s = Some r ↔ s = p +:+ r.
Proof.
  revert s. induction p as [|a p IH]; intros s; simpl.
  - rewrite sapp_nil_l. naive_solver.
  - rewrite sapp_cons. destruct s as [|b s]; [naive_solver|].
    case_decide; [subst; rewrite IH|]; naive_solver.
Qed.

Lemma strip_prefix_app p r : strip_prefix p (p +:+ r) = Some r.
Proof. by apply strip_prefix_Some. Qed.

Definition strip_suffix (sfx s : string) : option string :=
  srev <$> strip_prefix (srev sfx) (srev s).

Lemma strip_suffix_Some x s r : strip_suffix x s = Some r ↔ s = r +:+ x.
Proof.
  unfold strip_suffix. rewrite fmap_Some. split.
  - intros (r' & Hr & ->). apply strip_prefix_Some in Hr.
    rewrite <-(srev_involutive s), Hr, srev_app. by rewrite srev_involutive.
  - intros ->. exists (srev r). rewrite srev_app, strip_prefix_app.
    by rewrite srev_involutive.
Qed.

(** [strings.HasPrefix], [strings.HasSuffix], [strings.TrimPrefix],
    [strings.TrimSuffix] *)
Definition HasPrefix (s p : string) : bool := bool_decide (is_Some (strip_prefix p s)).
Definition HasSuffix (s x : string) : bool := bool_decide (is_Some (strip_suffix x s)).
Definition TrimPrefix (s p : string) : string := default s (strip_prefix p s).
Definition TrimSuffix (s x : string) : string := default s (strip_suffix x s).

Lemma HasPrefix_true s p : HasPrefix s p = true ↔ ∃ r, s = p +:+ r.
Proof.
  unfold HasPrefix. rewrite bool_decide_eq_true. unfold is_Some.
  by setoid_rewrite strip_prefix_Some.
Qed.

Lemma HasSuffix_true s x : HasSuffix s x = true ↔ ∃ r, s = r +:+ x.
Proof.
  unfold HasSuffix. rewrite bool_decide_eq_true. unfold is_Some.
  by setoid_rewrite strip_suffix_Some.
Qed.

Lemma TrimPrefix_app p r : TrimPrefix (p +:+ r) p = r.
Proof. unfold TrimPrefix. by rewrite strip_prefix_app. Qed.

Lemma TrimSuffix_app r x : TrimSuffix (r +:+ x) x = r.
Proof. unfold TrimSuffix. by rewrite (proj2 (strip_suffix_Some x (r +:+ x) r) eq_refl). Qed.

Lemma TrimSuffix_cases s x :
  (∃ r, s = r +:+ x ∧ TrimSuffix s x = r) ∨ (HasSuffix s x = false ∧ TrimSuffix s x = s).
Proof.
  unfold TrimSuffix, HasSuffix. destruct (strip_suffix x s) as [r|] eqn:E; simpl.
  - left. exists r. by rewrite strip_suffix_Some in E.
  - by right.
Qed.

(** ** Characters *)
Fixpoint has_char (c : ascii) (s : string) : bool :=
  match s with
  | "" => false
  | String a s' => bool_decide (a = c) || has_char c s'
  end.

Lemma has_char_app c s t : has_char c (s +:+ t) = has_char c s || has_char c t.
Proof. induction s; [done|]. rewrite sapp_cons. simpl. rewrite IHs. by rewrite orb_assoc. Qed.

(** [strings.Contains] *)
Fixpoint Contains (s sub : string) : bool :=
  HasPrefix s sub || match s with "" => false | String _ s' => Contains s' sub end.

Lemma Contains_true s sub : Contains s sub = true ↔ ∃ l r, s = l +:+ sub +:+ r.
Proof.
  induction s as [|c s IH].
  - simpl. rewrite orb_false_r, HasPrefix_true. split.
    + intros [r Hr]. by exists "", r.
    + intros (l & r & H). symmetry in H. apply sapp_nil_inv in H as [-> H]. by exists r.
  - change (Contains (String c s) sub)
      with (HasPrefix (String c s) sub || Contains s sub).
    rewrite orb_true_iff, HasPrefix_true, IH. split.
    + intros [[r ->]|(l & r & ->)]; [by exists "", r|by exists (String c l), r].
    + intros (l & r & H). destruct l as [|a l].
      * left. by exists r.
      * right. rewrite sapp_cons in H. simplify_eq. by exists l, r.
Qed.

Lemma Contains_char s c : Contains s (String c "") = has_char c s.
Proof.
  induction s as [|a s IH]; [done|].
  change (Contains (String a s) (String c ""))
    with (HasPrefix (String a s) (String c "") || Contains s (String c "")).
  rewrite IH. simpl. f_equal. unfold HasPrefix. simpl.
  case_decide; subst.
  - by rewrite !bool_decide_eq_true_2 by eauto.
  - rewrite !bool_decide_eq_false_2; [done|done|]. by intros [? ?].
Qed.

(** [strings.Index(s, c)] and [strings.LastIndex(s, c)] of a one-byte
    separator, as the two parts of the string around it. *)
Fixpoint cut_first (c : ascii) (s : string) : option (string * string) :=
  match s with
  | "" => None
  | String a s' =>
      if decide (a = c) then Some ("", s')
      else '(l, r) ← cut_first c s'; Some (String a l, r)
  end.

Definition cut_last (c : ascii) (s : string) : option (string * string) :=
  '(l, r) ← cut_first c (srev s); Some (srev r, srev l).

Lemma cut_first_Some c s l r :
  cut_first c s = Some (l, r) ↔ s = l +:+ String c r ∧ has_char c l = false.
Proof.
  revert l. induction s as [|a s IH]; intros l; simpl.
  - split; [done|]. intros [H _]. symmetry in H. by apply sapp_nil_inv in H as [_ ?].
  - case_decide; subst.
    + split; [intros; by simplify_eq|]. intros [H1 H2]. destruct l as [|b l].
      * rewrite sapp_nil_l in H1. by simplify_eq.
      * rewrite sapp_cons in H1. simplify_eq. simpl in H2.
        by rewrite bool_decide_eq_true_2 in H2.
    + destruct l as [|b l].
      * split; [|intros [H1 _]; rewrite sapp_nil_l in H1; by simplify_eq].
        destruct (cut_first c s) as [[]|]; by intros ?; simplify_eq/=.
      * rewrite sapp_cons. simpl. split.
        -- destruct (cut_first c s) as [[l' r']|] eqn:E; intros; simplify_eq/=.
           destruct (proj1 (IH l) eq_refl) as [-> ->].
           by rewrite bool_decide_eq_false_2.
        -- intros [H1 H2]. simplify_eq. apply orb_false_iff in H2 as [_ H2].
           by rewrite (proj2 (IH l) (conj eq_refl H2)).
Qed.

Lemma has_char_srev c s : has_char c (srev s) = has_char c s.
Proof.
  induction s as [|a s IH]; [done|]. simpl. rewrite has_char_app, IH. simpl.
  rewrite orb_false_r. apply orb_comm.
Qed.

Lemma cut_last_Some c s l r :
  cut_last c s = Some (l, r) ↔ s = l +:+ String c r ∧ has_char c r = false.
Proof.
  unfold cut_last. split.
  - destruct (cut_first c (srev s)) as [[l' r']|] eqn:E; intros; simplify_eq/=.
    apply cut_first_Some in E as [E1 E2].
    rewrite has_char_srev. split; [|done].
    rewrite <-(srev_involutive s), E1, srev_app. simpl. by rewrite <-sapp_assoc.
  - intros [-> H].
    rewrite (proj2 (cut_first_Some c _ (srev r) (srev l))); simpl.
    + by rewrite !srev_involutive.
    + split; [|by rewrite has_char_srev].
      rewrite srev_app. simpl. by rewrite <-sapp_assoc.
Qed.

Lemma cut_first_None c s : cut_first c s = None ↔ has_char c s = false.
Proof.
  induction s as [|a s IH]; [done|]. simpl. case_decide; subst.
  - by rewrite bool_decide_eq_true_2.
  - rewrite bool_decide_eq_false_2 by done. simpl. rewrite <-IH.
    destruct (cut_first c s) as [[]|]; naive_solver.
Qed.

(** ** [strings.Split] on one byte, and [strings.Join] *)
Fixpoint Split (s : string) (c : ascii) : list string :=
  match s with
  | "" => [""]
  | String a s' =>
      if decide (a = c) then "" :: Split s' c
      else match Split s' c with
           | [] => [String a ""]
           | p :: ps => String a p :: ps
           end
  end.

Fixpoint Join (l : list string) (sep : string) : string :=
  match l with
  | [] => ""
  | [x] => x
  | x :: l' => x +:+ sep +:+ Join l' sep
  end.

Lemma Split_not_nil s c : Split s c ≠ [].
Proof. destruct s; simpl; [done|]. case_decide; [done|]. by destruct (Split s c). Qed.

Lemma Join_cons x l sep :
  l ≠ [] → Join (x :: l) sep = x +:+ sep +:+ Join l sep.
Proof. by destruct l. Qed.

Lemma Split_no_sep s c : Forall (λ p, has_char c p = false) (Split s c).
Proof.
  induction s as [|a s IH]; simpl; [by repeat constructor|].
  case_decide; [by constructor|].
  destruct (Split s c) as [|p ps]; simplify_eq/=.
  - constructor; [|done]. simpl. by rewrite bool_decide_eq_false_2.
  - inversion IH; subst. constructor; [|done]. simpl. by rewrite bool_decide_eq_false_2.
Qed.

Lemma Split_free s c : has_char c s = false → Split s c = [s].
Proof.
  induction s as [|a s IH]; [done|]. simpl. intros [H1 H2]%orb_false_iff.
  apply bool_decide_eq_false in H1. rewrite decide_False by done.
  by rewrite IH.
Qed.

Lemma Split_app_sep p s c :
  has_char c p = false → Split (p +:+ String c s) c = p :: Split s c.
Proof.
  induction p as [|a p IH]; [intros _; rewrite sapp_nil_l; simpl; by rewrite decide_True|].
  rewrite sapp_cons. simpl. intros [H1 H2]%orb_false_iff.
  apply bool_decide_eq_false in H1. rewrite decide_False by done. by rewrite IH.
Qed.

Lemma Split_Join l c :
  l ≠ [] → Forall (λ p, has_char c p = false) l → Split (Join l (String c "")) c = l.
Proof.
  induction l as [|x l IH]; [done|]. intros _ H. inversion H; subst.
  destruct l as [|y l]; [by apply Split_free|].
  rewrite Join_cons by done. change (String c "" +:+ Join (y :: l) (String c ""))
    with (String c (Join (y :: l) (String c ""))).
  rewrite Split_app_sep by done. by rewrite IH.
Qed.

Lemma Join_Split s c : Join (Split s c) (String c "") = s.
Proof.
  induction s as [|a s IH]; [done|]. simpl. case_decide; subst.
  - rewrite Join_cons by apply Split_not_nil. by rewrite IH.
  - pose proof (Split_not_nil s c). destruct (Split s c) as [|p [|q ps]]; [done|..].
    + simpl in *. by subst.
    + rewrite Join_cons in * by done. rewrite sapp_cons. by rewrite IH.
Qed.

(** ** [strings.TrimSpace] *)

Definition bytes_str (l : list nat) : string :=
  foldr (λ n s, String (ascii_of_nat n) s) "" l.

(** The UTF-8 encodings of the characters of [unicode.IsSpace]. *)
Definition space_seqs : list string :=
  bytes_str <$>
  [[9]; [10]; [11]; [12]; [13]; [32]; [194; 133]; [194; 160]; [225; 154; 128];
   [226; 128; 128]; [226; 128; 129]; [226; 128; 130]; [226; 128; 131];
   [226; 128; 132]; [226; 128; 133]; [226; 128; 134]; [226; 128; 135];
   [226; 128; 136]; [226; 128; 137]; [226; 128; 138]; [226; 128; 168];
   [226; 128; 169]; [226; 128; 175]; [226; 129; 159]; [227; 128; 128]]%nat.

(** The rest after the first of [seqs] that is a prefix of [s]. *)
Fixpoint strip_any (seqs : list string) (s : string) : option string :=
  match seqs with
  | [] => None
  | p :: ps => match strip_prefix p s with Some r => Some r | None => strip_any ps s end
  end.

Fixpoint trim_front (fuel : nat) (seqs : list string) (s : string) : string :=
  match fuel with
  | O => s
  | S n => match strip_any seqs s with Some r => trim_front n seqs r | None => s end
  end.

Definition TrimLeftSpace (s : string) : string := trim_front (slen s) space_seqs s.
Definition TrimRightSpace (s : string) : string :=
  srev (trim_front (slen s) (srev <$> space_seqs) (srev s)).
Definition TrimSpace (s : string) : string := TrimRightSpace (TrimLeftSpace s).

Lemma strip_any_None seqs s :
  strip_any seqs s = None ↔ Forall (λ p, strip_prefix p s = None) seqs.
Proof.
  induction seqs as [|p ps IH]; simpl; [by split; constructor|].
  rewrite Forall_cons. destruct (strip_prefix p s); [naive_solver|].
  rewrite IH. naive_solver.
Qed.

Lemma strip_any_Some seqs s r :
  strip_any seqs s = Some r → ∃ p, p ∈ seqs ∧ s = p +:+ r.
Proof.
  induction seqs as [|p ps IH]; simpl; [done|].
  destruct (strip_prefix p s) eqn:E; intros; simplify_eq.
  - apply strip_prefix_Some in E. set_solver.
  - destruct (IH ltac:(done)) as (q & ? & ?). set_solver.
Qed.

(** With fuel for every byte, trimming stops only when no sequence is left. *)
Lemma trim_front_done seqs n s :
  Forall (λ p, p ≠ "") seqs → (slen s ≤ n)%nat →
  strip_any seqs (trim_front n seqs s) = None.
Proof.
  intros Hne. revert s. induction n as [|n IH]; intros s Hlen; simpl.
  - destruct (strip_any seqs s) as [r|] eqn:E; [|done].
    apply strip_any_Some in E as (p & Hp & ->).
    rewrite Forall_forall in Hne. specialize (Hne p Hp). rewrite slen_app in Hlen.
    destruct p; simpl in *; [done|lia].
  - destruct (strip_any seqs s) as [r|] eqn:E; [|done]. apply IH.
    apply strip_any_Some in E as (p & Hp & ->).
    rewrite Forall_forall in Hne. specialize (Hne p Hp). rewrite slen_app in Hlen.
    destruct p; simpl in *; [done|lia].
Qed.

Lemma trim_front_suffix seqs n s : ∃ p, s = p +:+ trim_front n seqs s.
Proof.
  revert s. induction n as [|n IH]; intros s; simpl; [by exists ""|].
  destruct (strip_any seqs s) as [r|] eqn:E; [|by exists ""].
  apply strip_any_Some in E as (p & _ & ->). destruct (IH r) as [q Hq].
  exists (p +:+ q). by rewrite <-sapp_assoc, <-Hq.
Qed.

Lemma trim_front_id seqs n s : strip_any seqs s = None → trim_front n seqs s = s.
Proof. intros H. destruct n; simpl; [done|]. by rewrite H. Qed.

Lemma space_seqs_ne : Forall (λ p, p ≠ "") space_seqs.
Proof. by repeat constructor. Qed.

Lemma space_seqs_rev_ne : Forall (λ p, p ≠ "") (srev <$> space_seqs).
Proof. by repeat constructor. Qed.

(** No white space at the front, none at the back. *)
Definition trimmed (s : string) : Prop :=
  strip_any space_seqs s = None ∧ strip_any (srev <$> space_seqs) (srev s) = None.

Lemma strip_any_prefix_None seqs s t :
  strip_any seqs (s +:+ t) = None → strip_any seqs s = None.
Proof.
  rewrite !strip_any_None. intros HF. apply (Forall_impl _ _ _ HF). intros p Hp.
  destruct (strip_prefix p s) as [r|] eqn:E; [|done].
  apply strip_prefix_Some in E as ->. rewrite <-sapp_assoc, strip_prefix_app in Hp.
  done.
Qed.

Lemma TrimSpace_trimmed s : trimmed (TrimSpace s).
Proof.
  unfold TrimSpace, TrimRightSpace. set (u := TrimLeftSpace s).
  assert (Hu : strip_any space_seqs u = None).
  { apply trim_front_done; [apply space_seqs_ne|done]. }
  destruct (trim_front_suffix (srev <$> space_seqs) (slen u) (srev u)) as [p Hp].
  split.
  - apply (strip_any_prefix_None _ _ (srev p)). rewrite <-srev_app, <-Hp.
    by rewrite srev_involutive.
  - rewrite srev_involutive. apply trim_front_done; [apply space_seqs_rev_ne|].
    by rewrite slen_srev.
Qed.

Lemma TrimSpace_id s : trimmed s → TrimSpace s = s.
Proof.
  intros [H1 H2]. unfold TrimSpace, TrimRightSpace, TrimLeftSpace.
  rewrite (trim_front_id space_seqs) by done. rewrite trim_front_id by done.
  apply srev_involutive.
Qed.

Lemma TrimSpace_idemp s : TrimSpace (TrimSpace s) = TrimSpace s.
Proof. apply TrimSpace_id, TrimSpace_trimmed. Qed.

(** ** [strings.ToLower] *)
Class UnicodeTables := { unicode_lower : string → string }.

(** Tables that lower nothing beyond ASCII. *)
Definition ascii_tables : UnicodeTables := {| unicode_lower := λ s, s |}.

Definition byte_is_ascii (c : ascii) : bool := (nat_of_ascii c <? 128)%nat.

Fixpoint is_ascii (s : string) : bool :=
  match s with "" => true | String c s' => byte_is_ascii c && is_ascii s' end.

Definition lower_byte (c : ascii) : ascii :=
  let n := nat_of_ascii c in
  if ((65 <=? n) && (n <=? 90))%nat then ascii_of_nat (n + 32) else c.

Fixpoint ascii_lower (s : string) : string :=
  match s with "" => "" | String c s' => String (lower_byte c) (ascii_lower s') end.

Definition ToLower `{UT : UnicodeTables} (s : string) : string :=
  if is_ascii s then ascii_lower s else unicode_lower s.

Lemma lower_byte_idemp c : lower_byte (lower_byte c) = lower_byte c.
Proof. by destruct c as [[] [] [] [] [] [] [] []]. Qed.

Lemma lower_byte_ascii c : byte_is_ascii (lower_byte c) = byte_is_ascii c.
Proof. by destruct c as [[] [] [] [] [] [] [] []]. Qed.

Lemma ascii_lower_ascii s : is_ascii (ascii_lower s) = is_ascii s.
Proof. induction s as [|c s IH]; simpl; [done|]. by rewrite lower_byte_ascii, IH. Qed.

Lemma ascii_lower_idemp s : ascii_lower (ascii_lower s) = ascii_lower s.
Proof. induction s as [|c s IH]; simpl; [done|]. by rewrite lower_byte_idemp, IH. Qed.

Lemma ToLower_ascii `{UT : UnicodeTables} s : is_ascii s = true → ToLower s = ascii_lower s.
Proof. unfold ToLower. by intros ->. Qed.

Lemma ToLower_idemp `{UT : UnicodeTables} s :
  is_ascii s = true → ToLower (ToLower s) = ToLower s.
Proof.
  intros H. rewrite (ToLower_ascii s) by done.
  by rewrite ToLower_ascii, ascii_lower_idemp by (by rewrite ascii_lower_ascii).
Qed.

Lemma is_ascii_app s t : is_ascii (s +:+ t) = is_ascii s && is_ascii t.
Proof. induction s; [done|]. rewrite sapp_cons. simpl. by rewrite IHs, andb_assoc. Qed.

Lemma ascii_lower_app s t : ascii_lower (s +:+ t) = ascii_lower s +:+ ascii_lower t.
Proof. induction s; [done|]. rewrite sapp_cons. simpl. by rewrite IHs, sapp_cons. Qed.

(** ** [strings.ReplaceAll], for a non-empty pattern

    [skip] counts the bytes of the current occurrence still to be dropped. *)
Fixpoint replace_go (old new s : string) (skip : nat) : string :=
  match s with
  | "" => ""
  | String c s' =>
      match skip with
      | S k => replace_go old new s' k
      | O => if HasPrefix s old
             then new +:+ replace_go old new s' (slen old - 1)
             else String c (replace_go old new s' 0)
      end
  end.

Definition ReplaceAll (s old new : string) : string := replace_go old new s 0.

Lemma ReplaceAll_absent s old new : Contains s old = false → ReplaceAll s old new = s.
Proof.
  unfold ReplaceAll. induction s as [|c s IH]; [done|].
  change (Contains (String c s) old) with (HasPrefix (String c s) old || Contains s old).
  intros [H1 H2]%orb_false_iff. simpl. rewrite H1. by rewrite IH.
Qed.

(** ** [strconv.Itoa] (and [%d]) and [strconv.Atoi] *)
Definition Itoa (z : Z) : string := pretty z.

Definition digit_of (c : ascii) : option Z :=
  let n := nat_of_ascii c in
  if ((48 <=? n) && (n <=? 57))%nat then Some (Z.of_nat n - 48) else None.

Fixpoint digits_val (s : string) (acc : Z) : option Z :=
  match s with
  | "" => Some acc
  | String c s' => d ← digit_of c; digits_val s' (10 * acc + d)
  end.

Definition parse_digits (s : string) : option Z :=
  match s with "" => None | _ => digits_val s 0 end.

Definition Atoi (s : string) : option Z :=
  v ← match s with
      | String "-"%char r => Z.opp <$> parse_digits r
      | String "+"%char r => parse_digits r
      | _ => parse_digits s
      end;
  if decide (- two63 ≤ v < two63) then Some v else None.

Example Atoi_values :
  Atoi "65535" = Some 65535 ∧ Atoi "+7" = Some 7 ∧ Atoi "-7" = Some (-7)
  ∧ Atoi "" = None ∧ Atoi "-" = None ∧ Atoi "1a" = None
  ∧ Atoi "9223372036854775808" = None.
Proof. by vm_compute. Qed.

Lemma Atoi_range s v : Atoi s = Some v → i64_range v.
Proof.
  unfold Atoi. intros (w & _ & H)%bind_Some. case_decide; by simplify_eq.
Qed.

(** The decimal digits of a number hold no other character. *)
Lemma has_char_pretty_N_go c x : ∀ s,
  digit_of c = None → has_char c (pretty_N_go x s) = has_char c s.
Proof.
  induction (N.lt_wf_0 x) as [x _ IH]. intros s Hc.
  destruct (decide (x = 0%N)) as [->|Hx]; [by rewrite pretty_N_go_0|].
  rewrite pretty_N_go_step by lia. rewrite IH; [|by apply N.div_lt; lia|done].
  simpl. case_bool_decide as D; [|done].
  exfalso. revert Hc. rewrite <-D. unfold pretty_N_char. by repeat case_match.
Qed.

Lemma has_char_Itoa c z : 0 ≤ z → digit_of c = None → has_char c (Itoa z) = false.
Proof.
  intros Hz Hc. unfold Itoa, pretty, pretty_Z, pretty, pretty_N.
  destruct z as [|p|p]; [| |lia].
  - simpl. case_bool_decide as D; [|done]. by subst.
  - unfold pretty_positive, pretty, pretty_N. rewrite decide_False by done.
    by rewrite has_char_pretty_N_go.
Qed.

Lemma has_char_Join c l sep :
  has_char c sep = false → Forall (λ x, has_char c x = false) l → has_char c (Join l sep) = false.
Proof.
  intros Hs. induction 1 as [|x l Hx Hl IH]; [done|]. destruct l as [|y l]; [done|].
  rewrite Join_cons by done. by rewrite !has_char_app, Hx, Hs.
Qed.
