(* ===== verification/GoPath.v ===== *)
(** * Package [path/filepath] on a Unix host

    The lexical path functions klitka calls: [Clean], [IsAbs], [Join], [Dir]
    and [Rel], with the theory of clean absolute paths: such a path is
    [abs_path cs] for a unique list [cs] of good components, and joining,
    taking the directory and comparing with a root act on that list. *)
From Stdlib Require Import Ascii.
From S2P Require Export GoStrings.

Definition slash : ascii := "/"%char.
Definition Separator : string := "/".

Definition IsAbs (p : string) : bool := HasPrefix p Separator.

(** One step of [Clean] over the path's elements, on the reversed output:
    [.] and empty elements vanish, [..] removes the last element. *)
Definition push (rooted : bool) (st : list string) (c : string) : list string :=
  if bool_decide (c = "" ∨ c = ".") then st
  else if bool_decide (c = "..") then
    match st with
    | top :: rest => if bool_decide (top = "..") then c :: st else rest
    | [] => if rooted then [] else [".."]
    end
  else c :: st.

Definition norm (rooted : bool) (cs : list string) : list string :=
  reverse (foldl (push rooted) [] cs).

Definition Clean (p : string) : string :=
  if bool_decide (p = "") then "."
  else
    let cs := norm (IsAbs p) (Split p slash) in
    if IsAbs p then Separator +:+ Join cs Separator
    else match cs with [] => "." | _ => Join cs Separator end.

(** [filepath.Join]: leading empty elements are dropped. *)
Fixpoint PathJoin (elems : list string) : string :=
  match elems with
  | [] => ""
  | e :: es => if bool_decide (e = "") then PathJoin es
               else Clean (Join elems Separator)
  end.

Definition Dir (p : string) : string :=
  match cut_last slash p with
  | None => Clean ""
  | Some (l, _) => Clean (l +:+ Separator)
  end.

(** The elements [Rel] compares: those of an absolute path after its leading
    separator; none for the empty path. *)
Definition words (p : string) : list string :=
  if IsAbs p then filter (λ c, c ≠ "") (Split p slash)
  else if bool_decide (p = "") then [] else Split p slash.

Fixpoint strip_common (bs ts : list string) : list string * list string :=
  match bs, ts with
  | b :: bs', t :: ts' => if decide (b = t) then strip_common bs' ts' else (bs, ts)
  | _, _ => (bs, ts)
  end.

(** [filepath.Rel]; [None] is the error "can't make targ relative to base". *)
Definition Rel (basepath targpath : string) : option string :=
  let base := Clean basepath in
  let targ := Clean targpath in
  if bool_decide (targ = base) then Some "."
  else
    let base := if bool_decide (base = ".") then "" else base in
    if bool_decide (IsAbs base ≠ IsAbs targ) then None
    else
      let '(bs, ts) := strip_common (words base) (words targ) in
      match bs, ts with
      | [], _ => Some (Join ts Separator)
      | b :: _, _ :: _ =>
          if bool_decide (b = "..") then None
          else Some (Join (replicate (length bs) ".." ++ ts) Separator)
      | _, [] => Some (Join (replicate (length bs) "..") Separator)
      end.

Example Clean_values :
  Clean "/a/./b//c/../d/" = "/a/b/d" ∧ Clean "/../x" = "/x" ∧ Clean "../a/../.." = "../.."
  ∧ Clean "" = "." ∧ Clean "a/.." = "." ∧ Clean "/" = "/" ∧ Clean "//" = "/".
Proof. by vm_compute. Qed.

Example Dir_values : Dir "/a/b" = "/a" ∧ Dir "/a" = "/" ∧ Dir "a" = "." ∧ Dir "/a/b/" = "/a/b".
Proof. by vm_compute. Qed.

Example Rel_values :
  Rel "/a" "/a/b/c" = Some "b/c" ∧ Rel "/a/b" "/a/c" = Some "../c" ∧ Rel "/a" "/a" = Some "."
  ∧ Rel "/a" "b" = None ∧ Rel "/" "/x" = Some "x" ∧ Rel "/a/b" "/" = Some "../.."
  ∧ Rel "../.." ".." = Some ".." ∧ Rel ".." "a" = None ∧ Rel "/a" "/ab" = Some "../ab".
Proof. by vm_compute. Qed.

(** ** Good components and clean absolute paths *)
Definition good (c : string) : Prop :=
  c ≠ "" ∧ c ≠ "." ∧ c ≠ ".." ∧ has_char slash c = false.

#[global] Instance good_dec c : Decision (good c).
Proof. unfold good. apply _. Defined.

Definition abs_path (cs : list string) : string := Separator +:+ Join cs Separator.

Lemma push_good rooted st c : good c → push rooted st c = c :: st.
Proof.
  intros (H1 & H2 & H3 & _). unfold push.
  rewrite bool_decide_eq_false_2 by naive_solver.
  by rewrite bool_decide_eq_false_2.
Qed.

Lemma push_skip rooted st : push rooted st "" = st.
Proof. done. Qed.

Lemma foldl_push_good rooted st cs :
  Forall good cs → foldl (push rooted) st cs = reverse cs ++ st.
Proof.
  revert st. induction cs as [|c cs IH]; intros st H; [done|].
  inversion H; subst. simpl. rewrite push_good, IH by done.
  by rewrite reverse_cons, <-app_assoc.
Qed.

Lemma push_keeps_good st c :
  Forall good st → has_char slash c = false → Forall good (push true st c).
Proof.
  intros Hst Hc. unfold push. case_bool_decide as H1; [done|].
  case_bool_decide as H2; [|by constructor; [|done]; split; naive_solver].
  destruct st as [|top rest]; [done|]. inversion Hst; subst.
  case_bool_decide; [|done]. subst. by destruct H3 as (_ & _ & ? & _).
Qed.

Lemma foldl_push_keeps_good st cs :
  Forall good st → Forall (λ c, has_char slash c = false) cs →
  Forall good (foldl (push true) st cs).
Proof.
  revert st. induction cs as [|c cs IH]; intros st Hst H; [done|].
  inversion H; subst. simpl. apply IH; [|done]. by apply push_keeps_good.
Qed.

Lemma norm_good cs : Forall (λ c, has_char slash c = false) cs → Forall good (norm true cs).
Proof.
  intros H. unfold norm. apply Forall_reverse. by apply foldl_push_keeps_good.
Qed.

Lemma IsAbs_slash s : IsAbs (String slash s) = true.
Proof. unfold IsAbs. apply HasPrefix_true. by exists s. Qed.

Lemma IsAbs_inv p : IsAbs p = true → ∃ s, p = String slash s.
Proof. unfold IsAbs. rewrite HasPrefix_true. intros [r ->]. by exists r. Qed.

Lemma abs_path_cons cs : abs_path cs = String slash (Join cs Separator).
Proof. done. Qed.

Lemma IsAbs_abs_path cs : IsAbs (abs_path cs) = true.
Proof. apply IsAbs_slash. Qed.

Lemma good_no_sep cs : Forall good cs → Forall (λ c, has_char slash c = false) cs.
Proof. intros H. apply (Forall_impl _ _ _ H). by intros c (_ & _ & _ & ?). Qed.

Lemma Split_abs_path cs :
  Forall good cs → Split (abs_path cs) slash = "" :: match cs with [] => [""] | _ => cs end.
Proof.
  intros H. rewrite abs_path_cons. simpl. f_equal.
  destruct cs as [|c cs]; [done|]. apply Split_Join; [done|]. by apply good_no_sep.
Qed.

(** [Clean] of an absolute path is [abs_path] of good components. *)
Lemma Clean_abs p :
  IsAbs p = true → Clean p = abs_path (norm true (Split p slash)).
Proof.
  intros H. unfold Clean. rewrite H. destruct (IsAbs_inv p H) as [s ->].
  by rewrite bool_decide_eq_false_2.
Qed.

Lemma Clean_abs_good p :
  IsAbs p = true → ∃ cs, Forall good cs ∧ Clean p = abs_path cs.
Proof.
  intros H. exists (norm true (Split p slash)). split; [|by apply Clean_abs].
  apply norm_good, Split_no_sep.
Qed.

Lemma Clean_abs_path cs : Forall good cs → Clean (abs_path cs) = abs_path cs.
Proof.
  intros H. rewrite Clean_abs by apply IsAbs_abs_path. f_equal.
  rewrite Split_abs_path by done. unfold norm.
  destruct cs as [|c cs]; [done|]. change (foldl (push true) [] ("" :: c :: cs))
    with (foldl (push true) [] (c :: cs)).
  rewrite foldl_push_good by done. by rewrite app_nil_r, reverse_involutive.
Qed.

Lemma abs_path_inj cs ds :
  Forall good cs → Forall good ds → abs_path cs = abs_path ds → cs = ds.
Proof.
  intros Hc Hd E. apply (f_equal (λ p, Split p slash)) in E.
  rewrite !Split_abs_path in E by done.
  destruct cs as [|c cs], ds as [|d ds]; simplify_eq; try done;
    [inversion Hd as [|?? [? _]]|inversion Hc as [|?? [? _]]]; done.
Qed.

Lemma words_abs_path cs : Forall good cs → words (abs_path cs) = cs.
Proof.
  intros H. unfold words. rewrite IsAbs_abs_path, Split_abs_path by done.
  rewrite filter_cons_False by naive_solver.
  destruct cs as [|c cs]; [done|]. induction H as [|x l Hx Hl IH]; [done|].
  destruct Hx as [Hx _]. rewrite filter_cons_True by done. by f_equal.
Qed.

Lemma Join_app_sep cs ds :
  cs ≠ [] → ds ≠ [] →
  Join (cs ++ ds) Separator = Join cs Separator +:+ Separator +:+ Join ds Separator.
Proof.
  induction cs as [|c cs IH]; [done|]. intros _ Hd.
  destruct cs as [|c' cs]; [by apply Join_cons|].
  change ((c :: c' :: cs) ++ ds) with (c :: ((c' :: cs) ++ ds)).
  rewrite !(Join_cons c) by done. rewrite IH by done. by rewrite !sapp_assoc.
Qed.

Lemma Join_snoc cs c :
  cs ≠ [] → Join (cs ++ [c]) Separator = Join cs Separator +:+ Separator +:+ c.
Proof. intros. by rewrite Join_app_sep. Qed.

(** Concatenating a suffix [/ds] to a non-root absolute path appends the
    components. *)
Lemma abs_path_app cs ds :
  cs ≠ [] → abs_path (cs ++ ds) = abs_path cs +:+ (match ds with [] => "" | _ => abs_path ds end).
Proof.
  intros Hc. unfold abs_path. destruct ds as [|d ds].
  - by rewrite app_nil_r, sapp_nil_r.
  - rewrite Join_app_sep by done. by rewrite !sapp_assoc.
Qed.

Lemma norm_comps cs : Forall good cs → norm true cs = cs.
Proof.
  intros H. unfold norm. rewrite foldl_push_good by done.
  by rewrite app_nil_r, reverse_involutive.
Qed.

(** The elements of [abs_path cs +:+ "/" +:+ name]. *)
Lemma Clean_child cs name :
  Forall good cs → has_char slash name = false →
  Clean (abs_path cs +:+ Separator +:+ name) = abs_path (reverse (push true (reverse cs) name)).
Proof.
  intros H Hn. rewrite Clean_abs.
  2: { unfold abs_path. rewrite <-sapp_assoc. apply IsAbs_slash. }
  f_equal.
  destruct cs as [|c cs].
  - unfold abs_path. simpl Join. rewrite sapp_nil_r.
    change (Separator +:+ Separator +:+ name) with ("" +:+ String slash ("" +:+ String slash name)).
    rewrite Split_app_sep by done. rewrite Split_app_sep by done.
    by rewrite Split_free.
  - unfold abs_path. rewrite <-sapp_assoc. rewrite <-Join_snoc by done.
    change (Separator +:+ Join ((c :: cs) ++ [name]) Separator)
      with ("" +:+ String slash (Join ((c :: cs) ++ [name]) Separator)).
    rewrite Split_app_sep by done. unfold Separator. rewrite Split_Join.
    + unfold norm. change (foldl (push true) [] ("" :: (c :: cs) ++ [name]))
        with (foldl (push true) [] ((c :: cs) ++ [name])).
      rewrite foldl_app, (foldl_push_good true [] (c :: cs)) by done. by rewrite app_nil_r.
    + by destruct cs.
    + apply Forall_app. split; [by apply good_no_sep|by constructor].
Qed.

Lemma PathJoin_two p q : p ≠ "" → q ≠ "" → PathJoin [p; q] = Clean (p +:+ Separator +:+ q).
Proof. intros H1 H2. simpl. by rewrite bool_decide_eq_false_2. Qed.

Lemma abs_path_ne cs : abs_path cs ≠ "".
Proof. done. Qed.

(** [filepath.Join(dir, name)] for a one-element name. *)
Lemma PathJoin_child cs name :
  Forall good cs → name ≠ "" → has_char slash name = false →
  PathJoin [abs_path cs; name] = abs_path (reverse (push true (reverse cs) name)).
Proof.
  intros. rewrite PathJoin_two by done. by apply Clean_child.
Qed.

Lemma PathJoin_good cs name :
  Forall good cs → good name → PathJoin [abs_path cs; name] = abs_path (cs ++ [name]).
Proof.
  intros H Hg. rewrite PathJoin_child by (done || apply Hg).
  rewrite push_good by done. by rewrite reverse_cons, reverse_involutive.
Qed.

(** [filepath.Dir] *)
Lemma Dir_root : Dir (abs_path []) = abs_path [].
Proof. done. Qed.

Lemma Dir_snoc cs c : Forall good cs → good c → Dir (abs_path (cs ++ [c])) = abs_path cs.
Proof.
  intros H (_ & _ & _ & Hc). unfold Dir.
  assert (cut_last slash (abs_path (cs ++ [c]))
          = Some (match cs with [] => "" | _ => abs_path cs end, c)) as ->.
  { apply cut_last_Some. split; [|done]. destruct cs as [|d ds]; [done|].
    unfold abs_path. rewrite Join_snoc by done. by rewrite <-sapp_assoc. }
  destruct cs as [|d ds]; [done|].
  change (abs_path (d :: ds) +:+ Separator) with (abs_path (d :: ds) +:+ Separator +:+ "").
  rewrite Clean_child by done. by rewrite push_skip, reverse_involutive.
Qed.

Lemma Split_mid a b c : Split (a +:+ String c b) c = Split a c ++ Split b c.
Proof.
  induction a as [|x a IH]; [rewrite sapp_nil_l; simpl; by rewrite decide_True|].
  rewrite sapp_cons. simpl. case_decide; [by rewrite IH|]. rewrite IH.
  pose proof (Split_not_nil a c). by destruct (Split a c).
Qed.

(** What [filepath.Join(dir, name)] puts before a one-element name. *)
Definition dir_prefix (d : string) : string :=
  if bool_decide (Clean d = ".") then ""
  else if bool_decide (Clean d = Separator) then Separator else Clean d +:+ Separator.

Lemma norm_snoc rooted cs name : good name → norm rooted (cs ++ [name]) = norm rooted cs ++ [name].
Proof.
  intros H. unfold norm. rewrite foldl_app. simpl. rewrite push_good by done. by rewrite reverse_cons.
Qed.

(** A proper element: not empty, not [.], no separator. *)
Definition proper (c : string) : Prop := c ≠ "" ∧ c ≠ "." ∧ has_char slash c = false.

Lemma Join_proper cs : Forall proper cs → cs ≠ [] →
  Join cs Separator ≠ "." ∧ Join cs Separator ≠ "" ∧ Join cs Separator ≠ Separator.
Proof.
  intros H Hne. destruct H as [|c cs (H1 & H2 & H3) H]; [done|]. destruct cs as [|c' cs].
  - change (Join [c] Separator) with c. split_and!; [done|done|by intros ->].
  - rewrite Join_cons by done. destruct c as [|a c]; [done|]. rewrite sapp_cons.
    split_and!; [|done|]; (intros [= -> E]); destruct c; simpl in *; try done.
Qed.

Lemma norm_proper rooted cs :
  Forall (λ c, has_char slash c = false) cs → Forall proper (norm rooted cs).
Proof.
  intros Hcs. unfold norm. apply Forall_reverse.
  assert (Hg : ∀ st, Forall proper st → Forall proper (foldl (push rooted) st cs)); [|by apply Hg].
  induction Hcs as [|c cs Hc _ IH]; intros st Hst; [done|]. simpl. apply IH. unfold push.
  case_bool_decide as H1; [done|]. case_bool_decide as H2; [|constructor; [|done]; unfold proper; tauto].
  subst c. assert (Hdd : proper "..") by (by split_and!).
  destruct Hst as [|t st Ht Hst]; [destruct rooted; auto|]. case_bool_decide; auto.
Qed.

Lemma PathJoin_name d name : good name → PathJoin [d; name] = dir_prefix d +:+ name.
Proof.
  intros Hg. pose proof Hg as (Hn1 & Hn2 & Hn3 & Hn4). destruct (decide (d = "")) as [->|Hd].
  { change (PathJoin [""; name]) with (PathJoin [name]). cbn [PathJoin].
    rewrite bool_decide_false by done. change (Join [name] Separator) with name.
    unfold Clean. rewrite bool_decide_false by done.
    assert (IsAbs name = false) as ->.
    { apply not_true_iff_false. intros (s & ->)%IsAbs_inv. by simpl in Hn4. }
    rewrite Split_free by done. change [name] with ([] ++ [name]). by rewrite norm_snoc. }
  rewrite PathJoin_two by done. unfold dir_prefix.
  assert (Ha : IsAbs (d +:+ Separator +:+ name) = IsAbs d)
    by (destruct d as [|a d]; [done|]; rewrite sapp_cons; unfold IsAbs, HasPrefix; simpl; by repeat case_match).
  unfold Clean. rewrite (bool_decide_false (d = "")) by done.
  rewrite bool_decide_false by (by destruct d). rewrite Ha.
  change (Separator +:+ name) with (String slash name). rewrite Split_mid, (Split_free name) by done.
  rewrite norm_snoc by done.
  pose proof (norm_proper (IsAbs d) (Split d slash) (Split_no_sep _ _)) as Hnd.
  destruct (norm (IsAbs d) (Split d slash)) as [|c cs].
  { destruct (IsAbs d); [done|by rewrite bool_decide_true]. }
  destruct (Join_proper (c :: cs) Hnd) as (H1 & H2 & H3); [done|]. cbn [app].
  change (c :: (cs ++ [name])) with ((c :: cs) ++ [name]). destruct (IsAbs d).
  - rewrite bool_decide_false by done. rewrite bool_decide_false.
    2: { change Separator with (Separator +:+ "") at 3. by intros ?%sapp_inj_l. }
    rewrite Join_snoc by done. by rewrite !sapp_assoc.
  - rewrite !bool_decide_false by done. rewrite Join_snoc by done. by rewrite !sapp_assoc.
Qed.

(** ** Containment under a root *)
Lemma strip_common_spec bs ts :
  ∃ common, bs = common ++ (strip_common bs ts).1 ∧ ts = common ++ (strip_common bs ts).2
    ∧ match (strip_common bs ts).1, (strip_common bs ts).2 with
      | b :: _, t :: _ => b ≠ t
      | _, _ => True
      end.
Proof.
  revert ts. induction bs as [|b bs IH]; intros [|t ts]; try by exists [].
  simpl. case_decide as E; [|by exists []]. subst.
  destruct (IH ts) as (cm & H1 & H2 & H3). exists (t :: cm). simpl. by rewrite <-H1, <-H2.
Qed.

Lemma strip_common_nil bs ts :
  (strip_common bs ts).1 = [] ↔ bs `prefix_of` ts.
Proof.
  revert ts. induction bs as [|b bs IH]; intros ts; simpl.
  - split; [intros _; apply prefix_nil|done].
  - destruct ts as [|t ts]; [split; [done|by intros ?%prefix_nil_inv]|].
    case_decide as E; subst; simpl.
    + rewrite IH. split; [by apply prefix_cons|by apply prefix_cons_inv_2].
    + split; [done|]. intros ?. by apply prefix_cons_inv_1 in H.
Qed.

(** [isWithinRoot] of [fsrpc_server.go] is defined on [Rel]; on clean absolute
    paths the result of [Rel] is [..] or starts with [../] exactly when the
    root's components are not a prefix. *)
Definition rel_escapes (rel : string) : bool :=
  HasPrefix rel (".." +:+ Separator) || bool_decide (rel = "..").

Lemma good_not_escapes ts : Forall good ts → rel_escapes (Join ts Separator) = false.
Proof.
  intros H. apply orb_false_iff. destruct ts as [|t ts]; [done|].
  inversion H as [|?? Hg Hr]; subst. destruct Hg as (_ & _ & Hdd & Hsl). split.
  - apply not_true_iff_false. rewrite HasPrefix_true. intros [r Hp].
    assert (E : Split (Join (t :: ts) Separator) slash = Split (".." +:+ String slash r) slash)
      by (by rewrite Hp).
    unfold Separator in E. rewrite Split_Join, Split_app_sep in E;
      [by simplify_eq|done|done|by apply good_no_sep].
  - apply bool_decide_eq_false. intros Hp.
    assert (E : Split (Join (t :: ts) Separator) slash = Split ".." slash) by (by rewrite Hp).
    unfold Separator in E. rewrite Split_Join in E; [|done|by apply good_no_sep].
    change (Split ".." slash) with [".."] in E. by simplify_eq.
Qed.

Lemma up_escapes n ts : rel_escapes (Join (replicate (S n) ".." ++ ts) Separator) = true.
Proof.
  unfold rel_escapes. simpl replicate. rewrite orb_true_iff.
  change ((".." :: replicate n "..") ++ ts) with (".." :: (replicate n ".." ++ ts)).
  destruct (replicate n ".." ++ ts) as [|u us] eqn:E; [by right|].
  left. rewrite Join_cons by done. apply HasPrefix_true. eexists. by rewrite <-sapp_assoc.
Qed.
