(* ===== verification/HostOS.v ===== *)
(** * The host operating system as an interface

    The daemon's file server is a client of the host: this file declares the
    calls of packages [os] and [time] it makes ([oscall]), programs over them
    ([prog], a free monad whose calls the host answers), a state-and-panic
    monad [M] on top for the code itself, and a weakest-precondition calculus
    for both.  A proof in the calculus holds for every host that keeps the
    contract, whatever other processes do between two calls. *)
From Stdlib Require Import Ascii.
From S2P Require Export GoStrings.

(** ** Go error values of package [os] *)
Inductive goerr : Type :=
| EErrno (n : Z) (text : string)                  (* syscall.Errno *)
| EPath (op path : string) (inner : goerr)        (* *os.PathError *)
| ELink (op old new : string) (inner : goerr)     (* *os.LinkError *)
| EClosed                                         (* os.ErrClosed *)
| EEOF                                            (* io.EOF *)
| EOther (text : string).                         (* errors.New *)

Fixpoint err_string (e : goerr) : string :=
  match e with
  | EErrno _ text => text
  | EPath op path inner => op +:+ " " +:+ path +:+ ": " +:+ err_string inner
  | ELink op old new inner =>
      op +:+ " " +:+ old +:+ " " +:+ new +:+ ": " +:+ err_string inner
  | EClosed => "file already closed"
  | EEOF => "EOF"
  | EOther text => text
  end.

(** The unwrapping [os.IsNotExist] and its siblings do: one level. *)
Definition underlying (e : goerr) : goerr :=
  match e with EPath _ _ i => i | ELink _ _ _ i => i | _ => e end.

Definition errno_of (e : goerr) : option Z :=
  match e with EErrno n _ => Some n | _ => None end.

(** Linux errno numbers: ENOENT; EPERM and EACCES; EEXIST and ENOTEMPTY. *)
Definition IsNotExist (e : goerr) : bool :=
  match errno_of (underlying e) with Some n => n =? 2 | None => false end.
Definition IsPermission (e : goerr) : bool :=
  match errno_of (underlying e) with Some n => (n =? 1) || (n =? 13) | None => false end.
Definition IsExist (e : goerr) : bool :=
  match errno_of (underlying e) with Some n => (n =? 17) || (n =? 39) | None => false end.

(** [errors.Is(err, os.ErrClosed)], and [errors.As] for the three types. *)
Fixpoint is_closed_err (e : goerr) : bool :=
  match e with
  | EPath _ _ i | ELink _ _ _ i => is_closed_err i
  | EClosed => true
  | _ => false
  end.

Fixpoint as_path_inner (e : goerr) : option goerr :=
  match e with EPath _ _ i => Some i | ELink _ _ _ i => as_path_inner i | _ => None end.
Fixpoint as_link_inner (e : goerr) : option goerr :=
  match e with ELink _ _ _ i => Some i | EPath _ _ i => as_link_inner i | _ => None end.
Fixpoint as_errno (e : goerr) : option Z :=
  match e with EErrno n _ => Some n | EPath _ _ i | ELink _ _ _ i => as_errno i | _ => None end.

(** ** File modes ([os.FileMode]) and file information *)
Definition ModeDir : Z := 2147483648.
Definition ModeSymlink : Z := 134217728.
Definition ModePerm : Z := 511.
(** ModeDir, ModeSymlink, ModeNamedPipe, ModeSocket, ModeDevice,
    ModeCharDevice, ModeIrregular *)
Definition ModeType : Z :=
  ModeDir + ModeSymlink + 33554432 + 16777216 + 67108864 + 2097152 + 524288.

Definition mode_IsDir (m : Z) : bool := negb (Z.land m ModeDir =? 0).
Definition mode_IsSymlink (m : Z) : bool := negb (Z.land m ModeSymlink =? 0).
Definition mode_IsRegular (m : Z) : bool := Z.land m ModeType =? 0.
Definition mode_Perm (m : Z) : Z := Z.land m ModePerm.

Record file_info := FileInfo {
  fi_mode : Z;
  fi_size : Z;
  fi_mtime_ms : Z  (* ModTime().UnixMilli() *)
}.
Definition fi_IsDir (i : file_info) : bool := mode_IsDir (fi_mode i).
Definition fi_IsSymlink (i : file_info) : bool := mode_IsSymlink (fi_mode i).

Record dir_entry := DirEntry { de_name : string; de_type : Z }.

(** The flags of [os.OpenFile]: each names one bit of the host's [O_]
    constants, whose values differ between hosts. *)
Inductive access := O_RDONLY | O_WRONLY | O_RDWR.
#[global] Instance access_eq_dec : EqDecision access.
Proof. solve_decision. Defined.

Record open_flags := OpenFlags {
  of_access : access;
  of_create : bool;
  of_excl : bool;
  of_trunc : bool;
  of_append : bool
}.

(** Opening with these flags cannot change the host's files. *)
Definition flags_read_only (fl : open_flags) : bool :=
  bool_decide (of_access fl = O_RDONLY) && negb (of_create fl) && negb (of_trunc fl)
  && negb (of_append fl).

(** A [*os.File], named by the host. *)
Abbreviation file := nat.

(** ** Calls *)
Inductive oscall : Type → Type :=
| Now : oscall Z
| Lstat (path : string) : oscall (osres goerr file_info)
| ReadDir (path : string) : oscall (osres goerr (list dir_entry))
| OpenFile (path : string) (flags : open_flags) (perm : Z) : oscall (osres goerr file)
| FileStat (f : file) : oscall (osres goerr file_info)
| ReadAt (f : file) (n off : Z) : oscall (list Byte.byte * option goerr)
| Write (f : file) (data : list Byte.byte) : oscall (osres goerr Z)
| WriteAt (f : file) (data : list Byte.byte) (off : Z) : oscall (osres goerr Z)
| CloseFile (f : file) : oscall unit
| Mkdir (path : string) (perm : Z) : oscall (osres goerr unit)
| Remove (path : string) : oscall (osres goerr unit)
| Rename (old new : string) : oscall (osres goerr unit)
| Truncate (path : string) (size : Z) : oscall (osres goerr unit).

(** The host paths a call names. *)
Definition call_paths {B} (c : oscall B) : list string :=
  match c with
  | Lstat p | ReadDir p | OpenFile p _ _ | Mkdir p _ | Remove p | Truncate p _ => [p]
  | Rename p q => [p; q]
  | _ => []
  end.

(** The call may change the host's files. *)
Definition call_mutates {B} (c : oscall B) : bool :=
  match c with
  | OpenFile _ fl _ => negb (flags_read_only fl)
  | Write _ _ | WriteAt _ _ _ | Mkdir _ _ | Remove _ | Rename _ _ | Truncate _ _ => true
  | _ => false
  end.

(** The open file a call uses. *)
Definition call_file {B} (c : oscall B) : option file :=
  match c with
  | FileStat f | ReadAt f _ _ | Write f _ | WriteAt f _ _ | CloseFile f => Some f
  | _ => None
  end.

(** ** Programs *)
Inductive prog (A : Type) : Type :=
| Ret (a : A)
| Call {B : Type} (c : oscall B) (k : B → prog A).
Arguments Ret {A} a.
Arguments Call {A B} c k.

Fixpoint prog_bind {A B} (f : A → prog B) (p : prog A) : prog B :=
  match p with
  | Ret a => f a
  | Call c k => Call c (λ b, prog_bind f (k b))
  end.

(** A host: the answer to a call and the next state of the host. *)
Class HostOS (HS : Type) := os_step : ∀ B, oscall B → HS → B * HS.

Definition event : Type := { B : Type & (oscall B * B)%type }.
Definition Event {B} (c : oscall B) (b : B) : event := existT B (c, b).

(** Running a program on a host, with the calls made and their answers. *)
Fixpoint run `{!HostOS HS} {A} (p : prog A) (s : HS) : A * HS * list event :=
  match p with
  | Ret a => (a, s, [])
  | @Call _ B c k =>
      let '(b, s') := os_step B c s in
      let '(a, s'', tr) := run (k b) s' in
      (a, s'', (existT B (c, b)) :: tr)
  end.

(** ** Weakest preconditions for programs

    [g] is the ghost set of files the program has open: [OpenFile] adds one
    and [CloseFile] removes one. *)
Definition call_opens {B} (c : oscall B) : B → gset file → gset file :=
  match c with
  | OpenFile _ _ _ => λ r g, match r with Good f => {[f]} ∪ g | Bad _ => g end
  | CloseFile f => λ _ g, g ∖ {[f]}
  | _ => λ _ g, g
  end.

(** What every host promises: directory entries have proper names and are
    fewer than [2^32]; an opened file is a new one, and a process has fewer
    than [2^32] files open. *)
Definition entry_name_ok (n : string) : Prop :=
  n ≠ "" ∧ n ≠ "." ∧ n ≠ ".." ∧ has_char "/"%char n = false.

Definition call_answer_ok {B} (c : oscall B) : gset file → B → Prop :=
  match c with
  | ReadDir _ => λ _ r,
      match r with
      | Good es => Forall (λ e, entry_name_ok (de_name e)) es ∧ Z.of_nat (length es) ≤ two32
      | Bad _ => True
      end
  | OpenFile _ _ _ => λ g r,
      match r with
      | Good f => f ∉ g ∧ Z.of_nat (size g) < two32
      | Bad _ => True
      end
  | _ => λ _ _, True
  end.

#[global] Instance entry_name_ok_dec n : Decision (entry_name_ok n).
Proof. unfold entry_name_ok. apply _. Defined.
(** The same as a test. *)
Definition call_answer_okb {B} (c : oscall B) : gset file → B → bool :=
  match c with
  | ReadDir _ => λ _ r,
      match r with
      | Good es => forallb (λ e, bool_decide (entry_name_ok (de_name e))) es
                   && (Z.of_nat (length es) <=? two32)
      | Bad _ => true
      end
  | OpenFile _ _ _ => λ g r,
      match r with
      | Good f => bool_decide (f ∉ g) && (Z.of_nat (size g) <? two32)
      | Bad _ => true
      end
  | _ => λ _ _, true
  end.

Lemma call_answer_okb_true {B} (c : oscall B) g b :
  call_answer_okb c g b = true → call_answer_ok c g b.
Proof.
  destruct c; simpl; try done; destruct b; try done.
  - intros [H1 H2%Z.leb_le]%andb_true_iff. split; [|done].
    apply Forall_forall. intros e He. rewrite forallb_forall in H1.
    specialize (H1 e). by apply bool_decide_eq_true in H1; [|apply list_elem_of_In].
  - by intros [H1%bool_decide_eq_true H2%Z.ltb_lt]%andb_true_iff.
Qed.

Section wp.
Context (Pre : ∀ B, gset file → oscall B → Prop).

Fixpoint wp {A} (p : prog A) (g : gset file) (Φ : A → gset file → Prop) : Prop :=
  match p with
  | Ret a => Φ a g
  | @Call _ B c k =>
      Pre B g c ∧ ∀ b, call_answer_ok c g b → wp (k b) (call_opens c b g) Φ
  end.

Lemma wp_mono {A} (p : prog A) g (Φ Ψ : A → gset file → Prop) :
  (∀ a g', Φ a g' → Ψ a g') → wp p g Φ → wp p g Ψ.
Proof.
  intros HΦ. revert g. induction p as [a|B c k IH]; intros g; simpl; [auto|].
  intros [H1 H2]. split; [done|]. intros b Hb. apply IH; auto.
Qed.

Lemma wp_bind {A B} (f : A → prog B) (p : prog A) g Φ :
  wp p g (λ a g', wp (f a) g' Φ) → wp (prog_bind f p) g Φ.
Proof.
  revert g. induction p as [a|C c k IH]; intros g; simpl; [done|].
  intros [H1 H2]. split; [done|]. intros b Hb. apply IH; auto.
Qed.
End wp.

(** The files open after a trace. *)
Fixpoint trace_opens (tr : list event) (g : gset file) : gset file :=
  match tr with
  | [] => g
  | (existT _ (c, b)) :: tr' => trace_opens tr' (call_opens c b g)
  end.

(** Every call of the trace was made under [Pre]. *)
Fixpoint trace_pre (Pre : ∀ B, gset file → oscall B → Prop) (tr : list event)
    (g : gset file) : Prop :=
  match tr with
  | [] => True
  | (existT B (c, b)) :: tr' => Pre B g c ∧ trace_pre Pre tr' (call_opens c b g)
  end.

(** Every answer of the trace keeps the host's promises. *)
Fixpoint trace_honest (tr : list event) (g : gset file) : Prop :=
  match tr with
  | [] => True
  | (existT B (c, b)) :: tr' => call_answer_ok c g b ∧ trace_honest tr' (call_opens c b g)
  end.

Fixpoint trace_honestb (tr : list event) (g : gset file) : bool :=
  match tr with
  | [] => true
  | (existT B (c, b)) :: tr' => call_answer_okb c g b && trace_honestb tr' (call_opens c b g)
  end.

Lemma trace_honestb_true tr g : trace_honestb tr g = true → trace_honest tr g.
Proof.
  revert g. induction tr as [|[B [c b]] tr IH]; intros g; simpl; [done|].
  intros [H1%call_answer_okb_true H2]%andb_true_iff. auto.
Qed.

(** Adequacy: on any host, if the answers of a run keep the promises, the
    run's calls satisfy the precondition and its result the postcondition. *)
Lemma wp_adequate `{!HostOS HS} Pre {A} (p : prog A) g Φ s a s' tr :
  wp Pre p g Φ → run p s = (a, s', tr) → trace_honest tr g →
  Φ a (trace_opens tr g) ∧ trace_pre Pre tr g.
Proof.
  revert g s tr. induction p as [a0|B c k IH]; intros g s tr; simpl.
  - intros ??; simplify_eq/=. auto.
  - intros [Hpre Hk]. destruct (os_step B c s) as [b s1] eqn:E.
    destruct (run (k b) s1) as [[a1 s2] tr1] eqn:E1. intros ?; simplify_eq/=.
    intros [Hb Htr]. destruct (IH b (call_opens c b g) s1 tr1) as [HΦ Htp]; auto.
Qed.

(** What is known of each event of a trace. *)
Definition event_paths (e : event) : list string :=
  match e with existT _ (c, _) => call_paths c end.
Definition event_mutates (e : event) : bool :=
  match e with existT _ (c, _) => call_mutates c end.

(** Every call on a file is on one the program has open at the time. *)
Definition trace_files_ok : list event → gset file → Prop :=
  trace_pre (λ B g c, ∀ f, call_file c = Some f → f ∈ g).

Lemma trace_pre_mono (P Q : ∀ B, gset file → oscall B → Prop) tr g :
  (∀ B g c, P B g c → Q B g c) → trace_pre P tr g → trace_pre Q tr g.
Proof.
  intros HPQ. revert g. induction tr as [|[B [c b]] tr IH]; intros g; simpl; [done|].
  intros [H1 H2]. auto.
Qed.

Lemma trace_pre_Forall (P : ∀ B, gset file → oscall B → Prop) (R : event → Prop) tr g :
  (∀ B g c b, P B g c → R (existT B (c, b))) → trace_pre P tr g → Forall R tr.
Proof.
  intros HPR. revert g. induction tr as [|[B [c b]] tr IH]; intros g; simpl; [constructor|].
  intros [H1 H2]. constructor; eauto.
Qed.

(** ** The monad of the code: state passing, host calls and panics *)
Inductive outcome (St A : Type) : Type :=
| Done (a : A) (st : St)
| Panicked (msg : string).
Arguments Done {St A} a st.
Arguments Panicked {St A} msg.

Definition M (St A : Type) : Type := St → prog (outcome St A).

Section monad.
Context {St : Type}.

Definition M_bind {A B} (f : A → M St B) (m : M St A) : M St B := λ st,
  prog_bind (λ o, match o with Done a st' => f a st' | Panicked e => Ret (Panicked e) end)
            (m st).

#[global] Instance M_mret : MRet (M St) := λ A a st, Ret (Done a st).
#[global] Instance M_mbind : MBind (M St) := λ A B f m, M_bind f m.

Definition oscall_ {B} (c : oscall B) : M St B := λ st, Call c (λ b, Ret (Done b st)).
Definition get : M St St := λ st, Ret (Done st st).
Definition put (st' : St) : M St () := λ _, Ret (Done () st').
Definition modify (f : St → St) : M St () := λ st, Ret (Done () (f st)).
Definition panic {A} (msg : string) : M St A := λ _, Ret (Panicked msg).

(** Weakest precondition in the monad; [Bad] is what is shown of a panic. *)
Definition wpm (Pre : ∀ B, gset file → oscall B → Prop) (Pn : Prop) {A} (m : M St A)
    (st : St) (g : gset file) (Q : A → St → gset file → Prop) : Prop :=
  wp Pre (m st) g
    (λ o g', match o with Done a st' => Q a st' g' | Panicked _ => Pn end).

Context (Pre : ∀ B, gset file → oscall B → Prop) (Pn : Prop).

Lemma wpm_ret {A} (a : A) st g (Q : A → St → gset file → Prop) :
  Q a st g → wpm Pre Pn (mret a) st g Q.
Proof. done. Qed.

Lemma wpm_bind {A B} (f : A → M St B) (m : M St A) st g Q :
  wpm Pre Pn m st g (λ a st' g', wpm Pre Pn (f a) st' g' Q) →
  wpm Pre Pn (m ≫= f) st g Q.
Proof.
  unfold wpm. intros H. apply wp_bind. eapply wp_mono; [|exact H].
  by intros [a st'|e] g'.
Qed.

Lemma wpm_mono {A} (m : M St A) st g (Q Q' : A → St → gset file → Prop) :
  (∀ a st' g', Q a st' g' → Q' a st' g') → wpm Pre Pn m st g Q → wpm Pre Pn m st g Q'.
Proof. intros HQ. apply wp_mono. intros [a st'|e] g'; auto. Qed.

Lemma wpm_call {B} (c : oscall B) st g (Q : B → St → gset file → Prop) :
  Pre B g c → (∀ b, (call_answer_ok c g b) → Q b st (call_opens c b g)) →
  wpm Pre Pn (oscall_ c) st g Q.
Proof. by split. Qed.

Lemma wpm_get st g (Q : St → St → gset file → Prop) :
  Q st st g → wpm Pre Pn get st g Q.
Proof. done. Qed.

Lemma wpm_modify f st g (Q : () → St → gset file → Prop) :
  Q () (f st) g → wpm Pre Pn (modify f) st g Q.
Proof. done. Qed.

Lemma wpm_panic {A} msg st g (Q : A → St → gset file → Prop) :
  Pn → wpm Pre Pn (panic msg) st g Q.
Proof. done. Qed.
End monad.

(** Code over a part of the state. *)
Section zoom.
Context {St T : Type} (part : St → T) (update : T → St → St).

Definition zoom {A} (m : M T A) : M St A := λ st,
  prog_bind (λ o, match o with
                  | Done a t => Ret (Done a (update t st))
                  | Panicked e => Ret (Panicked e)
                  end) (m (part st)).

Lemma wpm_zoom Pre Pn {A} (m : M T A) st g (Q : A → St → gset file → Prop) :
  wpm Pre Pn m (part st) g (λ a t g', Q a (update t st) g') → wpm Pre Pn (zoom m) st g Q.
Proof.
  intros H. apply wp_bind. eapply wp_mono; [|exact H]. by intros [a t|e] g'.
Qed.
End zoom.
