(* ===== verification/Proto.v ===== *)
(** * The messages of the daemon's API

    The message and enum types of [proto/klitka/v1/daemon.proto], as the
    generated Go package declares them.  Proto3 enums are open: a message can
    carry any [int32], so an enum is a [Z] with named constants.  A nil message
    pointer is [None]; the generated getters return zero values on it. *)
From S2P Require Export GoStrings.

Module EgressMode.
Definition UNSPECIFIED : Z := 0.
Definition COMPAT : Z := 1.
Definition STRICT : Z := 2.
End EgressMode.

Module DNSMode.
Definition UNSPECIFIED : Z := 0.
Definition OPEN : Z := 1.
Definition TRUSTED : Z := 2.
Definition SYNTHETIC : Z := 3.
End DNSMode.

Module SecretFormat.
Definition UNSPECIFIED : Z := 0.
Definition BEARER : Z := 1.
Definition RAW : Z := 2.
End SecretFormat.

Module MountMode.
Definition UNSPECIFIED : Z := 0.
Definition RO : Z := 1.
Definition RW : Z := 2.
End MountMode.

Record NetworkPolicy := {
  AllowHosts : list string;
  DenyHosts : list string;
  BlockPrivateRanges : bool;
  np_EgressMode : Z;
  np_DnsMode : Z;
  TrustedDnsServers : list string
}.

Record Secret := {
  Secret_Name : string;
  Secret_Hosts : list string;
  Secret_Value : string;
  Secret_Header : string;
  Secret_Format : Z
}.

Record Mount := {
  GuestPath : string;
  HostPath : string;
  Mount_Mode : Z
}.

Record StartVMRequest := {
  Mounts : list Mount;
  Network : option NetworkPolicy;
  Secrets : list Secret
}.
