(* ===== verification/Wire.v ===== *)
(** * Decoded CBOR values, request fields and frames

    Models the value-level helpers of [fsrpc_server.go] ([getReqUint],
    [getReqString], [getReqBytes], [toUint64]) and of [virtio.go]
    ([readUint32], [readInt32], [readFrame]), and the framing of
    [sendResponse] and [sendMessage].  The CBOR codec itself is a third-party
    package and stays a parameter of the files that use it. *)
From Stdlib Require Import Ascii.
From Stdlib Require Strings.Byte.
From S2P Require Export GoStrings.

Abbreviation byte := Byte.byte.

(** ** [interface{}] values *)
Inductive value : Type :=
| VNil
| VBool (b : bool)
| VU64 (z : Z)
| VU32 (z : Z)
| VU16 (z : Z)
| VU8 (z : Z)
| VI64 (z : Z)
| VI32 (z : Z)
| VInt (z : Z)
| VText (s : string)
| VBytes (bs : list byte)
| VArr (vs : list value)
| VObj (fields : list (string * value))
| VOther (type_name : string).

(** A [map[string]interface{}], as its bindings. *)
Abbreviation obj := (list (string * value)).

(** [value.(string)], [value.(map[string]interface{})], [value.([]byte)]
    with the comma-ok form; a missing key reads as the nil interface. *)
Definition as_text (v : option value) : option string :=
  match v with Some (VText s) => Some s | _ => None end.
Definition as_obj (v : option value) : option obj :=
  match v with Some (VObj o) => Some o | _ => None end.
Definition as_bytes (v : option value) : option (list byte) :=
  match v with Some (VBytes b) => Some b | _ => None end.

(** ** Request fields *)
Definition toUint64 (v : value) : option Z :=
  match v with
  | VU64 z => Some z
  | VU32 z => Some z
  | VU16 z => Some z
  | VU8 z => Some z
  | VI64 z => if z <? 0 then None else Some z
  | VInt z => if z <? 0 then None else Some z
  | _ => None
  end.

Definition getReqUint (req : obj) (key : string) : option Z :=
  match assoc key req with
  | None => None
  | Some v => toUint64 v
  end.

Definition getReqString (req : obj) (key : string) : option string :=
  match assoc key req with
  | None => None
  | Some v => as_text (Some v)
  end.

Definition getReqBytes (req : obj) (key : string) : option (list byte) :=
  match assoc key req with
  | None => None
  | Some v => as_bytes (Some v)
  end.

(** The integers of a value, at any depth, are within the width of their Go
    type. *)
Fixpoint value_ok (v : value) : Prop :=
  match v with
  | VU64 z => u64_range z
  | VU32 z => u32_range z
  | VU16 z => 0 ≤ z < 65536
  | VU8 z => 0 ≤ z < 256
  | VI64 z | VInt z => i64_range z
  | VI32 z => i32_range z
  | VArr vs => foldr (λ v P, value_ok v ∧ P) True vs
  | VObj fields => foldr (λ kv P, value_ok kv.2 ∧ P) True fields
  | _ => True
  end.
Definition obj_ok (o : obj) : Prop := Forall (λ kv, value_ok kv.2) o.

Lemma value_ok_obj o : value_ok (VObj o) ↔ obj_ok o.
Proof.
  unfold obj_ok. induction o as [|kv o IH]; [done|]. rewrite Forall_cons, <-IH. done.
Qed.

Lemma assoc_Some_in {V} k (l : list (string * V)) v : assoc k l = Some v → (k, v) ∈ l.
Proof.
  induction l as [|[k' v'] l IH]; simpl; [done|].
  case_decide; intros; simplify_eq; set_solver.
Qed.

Lemma assoc_ok o k v : obj_ok o → assoc k o = Some v → value_ok v.
Proof. intros Ho E%assoc_Some_in. by apply (proj1 (Forall_forall _ o) Ho (k, v)). Qed.

Lemma toUint64_range v z : value_ok v → toUint64 v = Some z → u64_range z.
Proof.
  unfold u64_range, two64.
  destruct v; simpl; unfold u64_range, u32_range, i64_range, two64, two32, two63;
    try done; intros; try (destruct (z0 <? 0) eqn:?); simplify_eq; lia.
Qed.

Lemma getReqUint_range o k z : obj_ok o → getReqUint o k = Some z → u64_range z.
Proof.
  intros Ho. unfold getReqUint. destruct (assoc k o) as [v|] eqn:E; [|done].
  apply toUint64_range. by eapply assoc_ok.
Qed.

(** ** Message ids and exit codes *)
Inductive decode_error :=
| NegativeId
| UnexpectedIdType
| UnexpectedIntType
| CborError (text : string)
| UnexpectedType (typ : string)
| MissingPayload
| MissingOp
| UnknownType (typ : string).

Definition readUint32 (v : option value) : osres decode_error Z :=
  match v with
  | Some (VU64 z) => Good (uint32_of z)
  | Some (VU32 z) => Good z
  | Some (VI64 z) => if z <? 0 then Bad NegativeId else Good (uint32_of z)
  | Some (VInt z) => if z <? 0 then Bad NegativeId else Good (uint32_of z)
  | _ => Bad UnexpectedIdType
  end.

Definition readInt32 (v : option value) : osres decode_error Z :=
  match v with
  | Some (VU64 z) => Good (int32_of z)
  | Some (VI64 z) => Good (int32_of z)
  | Some (VInt z) => Good (int32_of z)
  | _ => Bad UnexpectedIntType
  end.

Lemma readUint32_range v z :
  (∀ w, v = Some w → value_ok w) → readUint32 v = Good z → u32_range z.
Proof.
  destruct v as [[]|]; simpl; try done; intros Hok H; simplify_eq;
    try apply uint32_of_range.
  - by specialize (Hok _ eq_refl).
  - destruct (z0 <? 0); simplify_eq. apply uint32_of_range.
  - destruct (z0 <? 0); simplify_eq. apply uint32_of_range.
Qed.

(** ** Frames: four bytes of big-endian length, then the payload *)
Definition maxVirtioFrame : Z := 4 * 1024 * 1024.

Definition byte_of_Z (z : Z) : byte :=
  match Byte.of_N (Z.to_N (z mod 256)) with Some b => b | None => Byte.x00 end.
Definition Z_of_byte (b : byte) : Z := Z.of_N (Byte.to_N b).

(** [binary.BigEndian.PutUint32] and [Uint32] *)
Definition PutUint32 (v : Z) : list byte :=
  [byte_of_Z (Z.shiftr v 24); byte_of_Z (Z.shiftr v 16); byte_of_Z (Z.shiftr v 8); byte_of_Z v].

Definition Uint32 (bs : list byte) : Z :=
  match bs with
  | [a; b; c; d] =>
      Z.lor (Z_of_byte d)
        (Z.lor (Z.shiftl (Z_of_byte c) 8)
          (Z.lor (Z.shiftl (Z_of_byte b) 16) (Z.shiftl (Z_of_byte a) 24)))
  | _ => 0
  end.

(** The frame [sendResponse] and [sendMessage] write. *)
Definition encode_frame (payload : list byte) : list byte :=
  PutUint32 (uint32_of (Z.of_nat (length payload))) ++ payload.

Inductive read_error :=
| ReadEOF                      (* io.EOF: the stream ended between frames *)
| ReadUnexpectedEOF            (* io.ErrUnexpectedEOF: it ended inside one *)
| FrameTooLarge (length : Z)
| ReadClosed.                  (* net.ErrClosed *)

(** [io.ReadFull(reader, make([]byte, n))] on what is left of the stream. *)
Definition ReadFull (n : nat) (stream : list byte) : osres read_error (list byte * list byte) :=
  if (n <=? length stream)%nat then Good (take n stream, drop n stream)
  else match stream with [] => Bad ReadEOF | _ => Bad ReadUnexpectedEOF end.

Definition readFrame (stream : list byte) : osres read_error (list byte * list byte) :=
  try r := ReadFull 4 stream catch e => Bad e in
  let '(lenBuf, rest) := r in
  let length := Uint32 lenBuf in
  if maxVirtioFrame <? length then Bad (FrameTooLarge length)
  else ReadFull (Z.to_nat length) rest.

Lemma Z_of_byte_range b : 0 ≤ Z_of_byte b < 256.
Proof. unfold Z_of_byte. pose proof (Byte.to_N_bounded b). lia. Qed.

Lemma Z_of_byte_of_Z z : Z_of_byte (byte_of_Z z) = z mod 256.
Proof.
  unfold Z_of_byte, byte_of_Z. pose proof (Z.mod_pos_bound z 256 ltac:(lia)).
  destruct (Byte.of_N (Z.to_N (z mod 256))) as [b|] eqn:E.
  - apply Byte.to_of_N in E. rewrite E. lia.
  - apply Byte.of_N_None_iff in E. lia.
Qed.

Lemma length_PutUint32 v : length (PutUint32 v) = 4%nat.
Proof. done. Qed.

Lemma lor_add a b n : 0 ≤ a < 2 ^ n → 0 ≤ n → Z.lor a (Z.shiftl b n) = a + b * 2 ^ n.
Proof.
  intros Ha Hn. rewrite <-Z.shiftl_mul_pow2 by done. symmetry.
  rewrite <-Z.lxor_lor; [apply Z.add_nocarry_lxor|].
  all: apply Z.bits_inj'; intros i Hi; rewrite Z.land_spec, Z.bits_0.
  all: destruct (decide (i < n)); [rewrite Z.shiftl_spec_low by lia; apply andb_false_r|].
  all: rewrite <-(Z.mod_small a (2 ^ n)) by done.
  all: by rewrite Z.mod_pow2_bits_high by lia.
Qed.

Lemma shiftl_add8 x n : 0 ≤ n → Z.shiftl x (8 + n) = Z.shiftl (Z.shiftl x 8) n.
Proof. intros. by rewrite Z.shiftl_shiftl. Qed.

Lemma Uint32_bytes a b c d :
  Uint32 [a; b; c; d]
  = Z_of_byte d + 256 * (Z_of_byte c + 256 * (Z_of_byte b + 256 * Z_of_byte a)).
Proof.
  unfold Uint32.
  pose proof (Z_of_byte_range a). pose proof (Z_of_byte_range b).
  pose proof (Z_of_byte_range c). pose proof (Z_of_byte_range d).
  change 24 with (8 + (8 + 8)). change 16 with (8 + 8).
  rewrite !shiftl_add8, <-!Z.shiftl_lor by done.
  rewrite !lor_add by (change (2 ^ 8) with 256; lia). change (2 ^ 8) with 256. lia.
Qed.

Lemma Uint32_PutUint32 v : u32_range v → Uint32 (PutUint32 v) = v.
Proof.
  unfold u32_range, two32. intros Hv. unfold PutUint32.
  rewrite Uint32_bytes, !Z_of_byte_of_Z, !Z.shiftr_div_pow2 by done.
  change (2 ^ 24) with (256 * 256 * 256). change (2 ^ 16) with (256 * 256).
  change (2 ^ 8) with 256. rewrite <-!Z.div_div by done.
  pose proof (Z.div_mod v 256 ltac:(done)).
  pose proof (Z.div_mod (v / 256) 256 ltac:(done)).
  pose proof (Z.div_mod (v / 256 / 256) 256 ltac:(done)).
  assert (v / 256 / 256 / 256 < 256)
    by (rewrite !Z.div_div by done; apply Z.div_lt_upper_bound; lia).
  assert (0 ≤ v / 256 / 256 / 256)
    by (rewrite !Z.div_div by done; apply Z.div_pos; lia).
  rewrite (Z.mod_small (v / 256 / 256 / 256)) by lia. lia.
Qed.

Lemma Uint32_range bs : u32_range (Uint32 bs).
Proof.
  unfold u32_range, two32.
  destruct bs as [|a [|b [|c [|d [|]]]]]; try (unfold Uint32; lia).
  rewrite Uint32_bytes. pose proof (Z_of_byte_range a). pose proof (Z_of_byte_range b).
  pose proof (Z_of_byte_range c). pose proof (Z_of_byte_range d). lia.
Qed.

(** ** Properties of framing *)

Lemma ReadFull_app p s : ReadFull (length p) (p ++ s) = Good (p, s).
Proof.
  unfold ReadFull. rewrite length_app.
  rewrite (proj2 (Nat.leb_le _ _)) by lia.
  by rewrite take_app_length, drop_app_length.
Qed.

Lemma ReadFull_Good n s b r : ReadFull n s = Good (b, r) → s = b ++ r ∧ length b = n.
Proof.
  unfold ReadFull. destruct (n <=? length s)%nat eqn:E.
  - intros; simplify_eq. apply Nat.leb_le in E.
    split; [by rewrite take_drop|]. rewrite length_take. lia.
  - by destruct s.
Qed.

(** Every successful read takes at least the four length bytes. *)
Lemma readFrame_shorter s f r : readFrame s = Good (f, r) → (length r + 4 ≤ length s)%nat.
Proof.
  unfold readFrame. destruct (ReadFull 4 s) as [[lb rest]|] eqn:E; [|done].
  apply ReadFull_Good in E as [-> E]. case_match; [done|]. intros H1.
  apply ReadFull_Good in H1 as [-> _]. rewrite !length_app. lia.
Qed.

Lemma readFrame_encode payload s :
  Z.of_nat (length payload) ≤ maxVirtioFrame →
  readFrame (encode_frame payload ++ s) = Good (payload, s).
Proof.
  intros Hlen. unfold readFrame, encode_frame.
  assert (Hr : u32_range (Z.of_nat (length payload)))
    by (unfold u32_range, maxVirtioFrame, two32 in *; lia).
  rewrite uint32_of_small by done.
  rewrite <-app_assoc. rewrite <-(length_PutUint32 (Z.of_nat (length payload))) at 1.
  rewrite ReadFull_app, Uint32_PutUint32 by done.
  rewrite (proj2 (Z.ltb_ge _ _)) by lia. rewrite Nat2Z.id. apply ReadFull_app.
Qed.

(** All the frames of a stream, and what ends it. *)
Fixpoint read_frames (fuel : nat) (stream : list byte) : list (list byte) * option read_error :=
  match fuel with
  | O => ([], None)
  | S k =>
      match readFrame stream with
      | Bad e => ([], Some e)
      | Good (frame, rest) =>
          let '(frames, e) := read_frames k rest in (frame :: frames, e)
      end
  end.

(** what sendMessage and sendResponse frame, readFrame reads back: any
    sequence of payloads of at most 4 MiB, written one after the other, is
    read as that sequence, then a clean end of stream. *)
Theorem frames_roundtrip payloads :
  Forall (λ p, Z.of_nat (length p) ≤ maxVirtioFrame) payloads →
  read_frames (S (length payloads)) (mjoin (map encode_frame payloads))
  = (payloads, Some ReadEOF).
Proof.
  induction 1 as [|p ps Hp _ IH]; [done|].
  change (read_frames (S (length (p :: ps))) (mjoin (map encode_frame (p :: ps))))
    with (match readFrame (encode_frame p ++ mjoin (map encode_frame ps)) with
          | Bad e => ([], Some e)
          | Good (frame, rest) =>
              let '(frames, e) := read_frames (S (length ps)) rest in (frame :: frames, e)
          end).
  rewrite readFrame_encode by done. by rewrite IH.
Qed.

Lemma frames_roundtrip_witness :
  let ps := [[Byte.x01]; []; [Byte.x02; Byte.x03]] in
  Forall (λ p, Z.of_nat (length p) ≤ maxVirtioFrame) ps
  ∧ read_frames (S (length ps)) (mjoin (map encode_frame ps)) = (ps, Some ReadEOF).
Proof.
  assert (H : Forall (λ p, Z.of_nat (length p) ≤ maxVirtioFrame)
                [[Byte.x01]; []; [Byte.x02; Byte.x03]])
    by (repeat constructor; by vm_compute).
  split; [exact H|]. exact (frames_roundtrip _ H).
Defined.

(** ** The CBOR codec

    [virtioDecMode.Unmarshal] into a map and [virtioEncMode.Marshal], of the
    package [fxamacker/cbor]: parameters of the development.  The decoder
    stores integers in Go's typed integers, so what it answers is in range. *)
Class Codec := {
  Unmarshal : list byte → osres string obj;
  Marshal : obj → osres string (list byte)
}.

Class CodecLaws `{Codec} := {
  Unmarshal_ok frame raw : Unmarshal frame = Good raw → obj_ok raw
}.
