(* ===== verification/FsrpcMount.v ===== *)
(** * The state of an FS-RPC mount ([daemon/fsrpc_server.go])

    [fsrpcMount]: the inode table (two maps, [pathToIno] and [inoToPath]), the
    table of open file handles, their identifiers and their garbage
    collection.  The code runs alone here, so the mutex is not modelled: [serve]'s
    goroutine is the only one that uses the mount until another goroutine closes the
    server ([vmBackend.Close]).  What can go wrong when that happens inside a handler
    is [close_during_open_leaks] of [FsrpcFindings].

    Go ranges over a map in an unspecified order and [sort.Slice] is not
    stable: both are parameters ([GoRuntime]), with the laws Go documents. *)
From Stdlib Require Import Ascii.
From Stdlib Require Import Sorting.Sorted.
From S2P Require Export HostOS GoPath Wire Proto.

(** ** Error numbers and limits *)
Definition linuxErrNoent : Z := 2.
Definition linuxErrIO : Z := 5.
Definition linuxErrBadf : Z := 9.
Definition linuxErrAcces : Z := 13.
Definition linuxErrExist : Z := 17.
Definition linuxErrNotDir : Z := 20.
Definition linuxErrIsDir : Z := 21.
Definition linuxErrInval : Z := 22.
Definition linuxErrROFS : Z := 30.
Definition linuxErrNOSYS : Z := 38.
Definition linuxErrLoop : Z := 40.

Definition linuxOAccMode : Z := 3.
Definition linuxOWrOnly : Z := 1.
Definition linuxORDWR : Z := 2.
Definition linuxOCreat : Z := 64.
Definition linuxOExcl : Z := 128.
Definition linuxOTrunc : Z := 512.
Definition linuxOAppend : Z := 1024.

Definition maxFSRPCReadSize : Z := 256 * 1024.

(** The package variables (tests change them); times are in nanoseconds. *)
Record fsrpcConfig := {
  fsrpcMaxHandleEntries : Z;
  fsrpcHandleIdleTTL : Z;
  fsrpcMaxInodeEntries : Z;
  fsrpcGCInterval : Z
}.

Definition default_config : fsrpcConfig := {|
  fsrpcMaxHandleEntries := 2048;
  fsrpcHandleIdleTTL := 2 * 60 * 1000000000;
  fsrpcMaxInodeEntries := 8192;
  fsrpcGCInterval := 15 * 1000000000
|}.

(** ** Data *)
Record fsrpcHandle := {
  h_file : option file;
  h_append : bool;
  h_ino : Z;
  h_lastUsed : Z
}.

Record fsrpcMount := {
  root : string;
  mount_mode : Z;
  nextIno : Z;
  nextFH : Z;
  pathToIno : gmap string Z;
  inoToPath : gmap Z string;
  handles : gmap Z fsrpcHandle;
  lastGC : Z
}.

(** Field updates. *)
Definition set_inodes (p2i : gmap string Z) (i2p : gmap Z string) (m : fsrpcMount) :=
  {| root := root m; mount_mode := mount_mode m; nextIno := nextIno m; nextFH := nextFH m;
     pathToIno := p2i; inoToPath := i2p; handles := handles m; lastGC := lastGC m |}.
Definition set_nextIno (n : Z) (m : fsrpcMount) :=
  {| root := root m; mount_mode := mount_mode m; nextIno := n; nextFH := nextFH m;
     pathToIno := pathToIno m; inoToPath := inoToPath m; handles := handles m;
     lastGC := lastGC m |}.
Definition set_nextFH (n : Z) (m : fsrpcMount) :=
  {| root := root m; mount_mode := mount_mode m; nextIno := nextIno m; nextFH := n;
     pathToIno := pathToIno m; inoToPath := inoToPath m; handles := handles m;
     lastGC := lastGC m |}.
Definition set_handles (h : gmap Z fsrpcHandle) (m : fsrpcMount) :=
  {| root := root m; mount_mode := mount_mode m; nextIno := nextIno m; nextFH := nextFH m;
     pathToIno := pathToIno m; inoToPath := inoToPath m; handles := h; lastGC := lastGC m |}.
Definition set_lastGC (t : Z) (m : fsrpcMount) :=
  {| root := root m; mount_mode := mount_mode m; nextIno := nextIno m; nextFH := nextFH m;
     pathToIno := pathToIno m; inoToPath := inoToPath m; handles := handles m; lastGC := t |}.

(** [newFSRPCMount]: [getwd] answers the working directory [filepath.Abs]
    needs for a relative root, or fails; [now] is [time.Now()]. *)
Definition Abs (getwd : option string) (p : string) : option string :=
  if IsAbs p then Some (Clean p)
  else wd ← getwd; Some (PathJoin [wd; p]).

Definition newFSRPCMount (getwd : option string) (now : Z) (rt : string) (mode : Z)
    : fsrpcMount :=
  let absRoot := default rt (Abs getwd rt) in
  let absRoot := Clean absRoot in
  {| root := absRoot; mount_mode := mode; nextIno := 2; nextFH := 1;
     pathToIno := {[ absRoot := 1 ]}; inoToPath := {[ 1 := absRoot ]};
     handles := ∅; lastGC := now |}.

Definition readOnly (m : fsrpcMount) : bool :=
  let mode := mount_mode m in
  let mode := if mode =? MountMode.UNSPECIFIED then MountMode.RO else mode in
  mode =? MountMode.RO.

Definition modeLabel (m : fsrpcMount) : string := if readOnly m then "ro" else "rw".

(** ** Paths *)
Definition isWithinRoot (rt candidate : string) : bool :=
  match Rel rt candidate with
  | None => false
  | Some rel =>
      if bool_decide (rel = ".") then true
      else negb (HasPrefix rel (".." +:+ Separator)) && negb (bool_decide (rel = ".."))
  end.

Definition resolveChildPath (m : fsrpcMount) (parentPath name : string)
    : string * Z * string :=
  if bool_decide (name = "") then ("", linuxErrInval, "empty name")
  else if Contains name Separator then
    ("", linuxErrInval, "path separators are not allowed")
  else
    let target :=
      if bool_decide (name = ".") then parentPath
      else if bool_decide (name = "..") then
        if bool_decide (parentPath = root m) then root m else Dir parentPath
      else PathJoin [parentPath; name] in
    let target := Clean target in
    if negb (isWithinRoot (root m) target) then
      ("", linuxErrAcces, "path escapes mount root")
    else (target, 0, "").

(** ** The inode table *)
Definition pathForInode (m : fsrpcMount) (ino : Z) : option string := inoToPath m !! ino.

Definition ensureInode (path : string) (m : fsrpcMount) : Z * fsrpcMount :=
  let clean := Clean path in
  match pathToIno m !! clean with
  | Some ino => (ino, m)
  | None =>
      let ino := nextIno m in
      let m := set_nextIno (uint64_of (nextIno m + 1)) m in
      (ino, set_inodes (<[clean := ino]> (pathToIno m)) (<[ino := clean]> (inoToPath m)) m)
  end.

Definition removePathMappingLocked (clean : string) (m : fsrpcMount) : fsrpcMount :=
  match pathToIno m !! clean with
  | None => m
  | Some ino =>
      let p2i := delete clean (pathToIno m) in
      let i2p := match inoToPath m !! ino with
                 | Some existingPath =>
                     if bool_decide (existingPath = clean) then delete ino (inoToPath m)
                     else inoToPath m
                 | None => inoToPath m
                 end in
      set_inodes p2i i2p m
  end.

Definition removePathMapping (path : string) (m : fsrpcMount) : fsrpcMount :=
  removePathMappingLocked (Clean path) m.

(** ** Handles *)
Definition bump_fh (n : Z) : Z :=
  let n := uint64_of (n + 1) in if n =? 0 then 1 else n.

(** The loop of [nextHandleIDLocked]: [fh] is the candidate; [None] when the
    fuel runs out ([nextHandleIDLocked_free] shows it does not). *)
Fixpoint nextHandleID_loop (fuel : nat) (fh : Z) (m : fsrpcMount) : option (Z * fsrpcMount) :=
  match fuel with
  | O => None
  | S k =>
      match handles m !! fh with
      | None => Some (fh, m)
      | Some _ => nextHandleID_loop k (nextFH m) (set_nextFH (bump_fh (nextFH m)) m)
      end
  end.

Definition nextHandleIDLocked (m : fsrpcMount) : option (Z * fsrpcMount) :=
  nextHandleID_loop (S (size (handles m))) (nextFH m) (set_nextFH (bump_fh (nextFH m)) m).

(** [getHandle]: [now] is its reading of the clock, taken only for a handle
    that exists. *)
Definition touch (fh now : Z) (m : fsrpcMount) : fsrpcMount :=
  match handles m !! fh with
  | None => m
  | Some h =>
      set_handles (<[fh := {| h_file := h_file h; h_append := h_append h; h_ino := h_ino h;
                              h_lastUsed := now |}]> (handles m)) m
  end.

(** ** Iteration orders of the runtime *)
Class GoRuntime := {
  range_handles : gmap Z fsrpcHandle → list (Z * fsrpcHandle);
  range_paths : gmap string Z → list (string * Z);
  (** [sort.Slice(candidates, lastUsed.Before)] *)
  sort_lastUsed : list (Z * fsrpcHandle) → list (Z * fsrpcHandle)
}.

Definition used_le (a b : Z * fsrpcHandle) : Prop := h_lastUsed a.2 ≤ h_lastUsed b.2.

Class GoRuntimeLaws `{RT : GoRuntime} := {
  range_handles_perm h : range_handles h ≡ₚ map_to_list h;
  range_paths_perm p : range_paths p ≡ₚ map_to_list p;
  sort_lastUsed_perm l : sort_lastUsed l ≡ₚ l;
  sort_lastUsed_sorted l : StronglySorted used_le (sort_lastUsed l)
}.

Section code.
Context `{RT : GoRuntime} (cfg : fsrpcConfig).

(** *** [gcHandlesLocked] *)
Definition handle_stale (now : Z) (h : fsrpcHandle) : bool :=
  (0 <? fsrpcHandleIdleTTL cfg) && negb (h_lastUsed h =? 0)
  && (h_lastUsed h <? now - fsrpcHandleIdleTTL cfg).

Definition gc_stale_step (now : Z) (acc : gmap Z fsrpcHandle * list fsrpcHandle)
    (e : Z * fsrpcHandle) : gmap Z fsrpcHandle * list fsrpcHandle :=
  let '(hs, toClose) := acc in
  let '(fh, h) := e in
  match h_file h with
  | None => (delete fh hs, toClose)
  | Some _ =>
      if handle_stale now h then (delete fh hs, toClose ++ [h]) else (hs, toClose)
  end.

(** The eviction loop: candidate [i] while [i < extra]. *)
Fixpoint gc_evict (extra : nat) (cands : list (Z * fsrpcHandle))
    (acc : gmap Z fsrpcHandle * list fsrpcHandle) : gmap Z fsrpcHandle * list fsrpcHandle :=
  match extra, cands with
  | S n, (fh, h) :: cands' =>
      let '(hs, toClose) := acc in
      gc_evict n cands'
        (match hs !! fh with
         | None => (hs, toClose)
         | Some _ => (delete fh hs, toClose ++ [h])
         end)
  | _, _ => acc
  end.

(** The candidates; entries without a file are deleted on the way. *)
Definition gc_candidate_step (acc : gmap Z fsrpcHandle * list (Z * fsrpcHandle))
    (e : Z * fsrpcHandle) : gmap Z fsrpcHandle * list (Z * fsrpcHandle) :=
  let '(hs, cands) := acc in
  match h_file e.2 with
  | None => (delete e.1 hs, cands)
  | Some _ => (hs, cands ++ [e])
  end.

Definition gcHandlesLocked (now : Z) (m : fsrpcMount) : list fsrpcHandle * fsrpcMount :=
  if bool_decide (size (handles m) = 0%nat) then ([], m)
  else
    let '(hs, toClose) :=
      foldl (gc_stale_step now) (handles m, []) (range_handles (handles m)) in
    let '(hs, toClose) :=
      if (0 <? fsrpcMaxHandleEntries cfg)
         && (fsrpcMaxHandleEntries cfg <? Z.of_nat (size hs)) then
        let '(hs, cands) := foldl gc_candidate_step (hs, []) (range_handles hs) in
        let cands := sort_lastUsed cands in
        let extra := Z.to_nat (Z.of_nat (size hs) - fsrpcMaxHandleEntries cfg) in
        gc_evict extra cands (hs, toClose)
      else (hs, toClose) in
    (toClose, set_handles hs m).

(** *** [gcInodesLocked] *)
Definition pinned (m : fsrpcMount) : gset Z :=
  {[ 1 ]} ∪ list_to_set
    (omap (λ e : Z * fsrpcHandle, if h_ino e.2 =? 0 then None else Some (h_ino e.2))
          (range_handles (handles m))).

Fixpoint gc_inodes_loop (pins : gset Z) (order : list (string * Z)) : M fsrpcMount () :=
  match order with
  | [] => mret ()
  | (path, ino) :: order' =>
      m ← get;
      if Z.of_nat (size (pathToIno m)) <=? fsrpcMaxInodeEntries cfg then mret ()
      else if bool_decide (ino ∈ pins) then gc_inodes_loop pins order'
      else if negb (isWithinRoot (root m) path) then
        _ ← modify (removePathMappingLocked path); gc_inodes_loop pins order'
      else
        r ← oscall_ (Lstat path);
        _ ← match r with
            | Bad e => if IsNotExist e then modify (removePathMappingLocked path) else mret ()
            | Good _ => mret ()
            end;
        gc_inodes_loop pins order'
  end.

Definition gcInodesLocked : M fsrpcMount () :=
  m ← get;
  if (fsrpcMaxInodeEntries cfg <=? 0)
     || (Z.of_nat (size (pathToIno m)) <=? fsrpcMaxInodeEntries cfg) then mret ()
  else gc_inodes_loop (pinned m) (range_paths (pathToIno m)).

(** *** [maybeGC] and the closing of collected handles *)
Fixpoint close_all (toClose : list fsrpcHandle) : M fsrpcMount () :=
  match toClose with
  | [] => mret ()
  | h :: hs =>
      _ ← match h_file h with Some f => oscall_ (CloseFile f) | None => mret () end;
      close_all hs
  end.

Definition maybeGC (now : Z) : M fsrpcMount () :=
  m ← get;
  if (0 <? fsrpcGCInterval cfg) && (now - lastGC m <? fsrpcGCInterval cfg) then mret ()
  else
    _ ← modify (set_lastGC now);
    m ← get;
    let '(toClose, m') := gcHandlesLocked now m in
    _ ← put m';
    _ ← gcInodesLocked;
    close_all toClose.

(** *** [fsrpcMount.close] *)
Definition mount_close : M fsrpcMount () :=
  m ← get;
  let hs := (range_handles (handles m)).*2 in
  _ ← modify (set_handles ∅);
  close_all hs.

(** *** [getHandle] and [closeHandle] *)
Definition getHandle (fh : Z) : M fsrpcMount (option fsrpcHandle) :=
  m ← get;
  match handles m !! fh with
  | None => mret None
  | Some h =>
      now ← oscall_ Now;
      _ ← modify (touch fh now);
      mret (Some h)
  end.

Definition closeHandle (fh : Z) : M fsrpcMount (option fsrpcHandle) :=
  m ← get;
  match handles m !! fh with
  | None => mret None
  | Some h =>
      _ ← modify (set_handles (delete fh (handles m)));
      _ ← match h_file h with Some f => oscall_ (CloseFile f) | None => mret () end;
      mret (Some h)
  end.

(** *** [remapPath] *)
Definition under (oldPath path : string) : bool :=
  bool_decide (path = oldPath) || HasPrefix path (oldPath +:+ Separator).

(** The destination of a path at or under [oldPath]. *)
Definition remap_target (oldPath newPath path : string) : option string :=
  if bool_decide (path = oldPath) then Some newPath
  else if HasPrefix path (oldPath +:+ Separator)
  then Some (newPath +:+ TrimPrefix path oldPath)
  else None.

Definition remap_updates (oldPath newPath : string) (order : list (string * Z))
    : list (string * Z) :=
  omap (λ e : string * Z, q ← remap_target oldPath newPath e.1; Some (q, e.2)) order.

Definition remapPath (oldPath newPath : string) (m : fsrpcMount) : fsrpcMount :=
  let oldPath := Clean oldPath in
  let newPath := Clean newPath in
  let updates := remap_updates oldPath newPath (range_paths (pathToIno m)) in
  let m := foldl (λ m path, removePathMappingLocked path m) m updates.*1 in
  let m := foldl (λ m path,
             if under oldPath path then removePathMappingLocked path m else m)
             m (range_paths (pathToIno m)).*1 in
  foldl (λ (m : fsrpcMount) (e : string * Z),
           set_inodes (<[e.1 := e.2]> (pathToIno m)) (<[e.2 := e.1]> (inoToPath m)) m)
        m updates.
End code.
