(* ===== verification/FsrpcOps.v ===== *)
(** * The FS-RPC operations ([daemon/fsrpc_server.go])

    Every handler of a mount and the dispatcher [handle].  A handler answers a
    [reply]: the result map (or nil), the Linux error number and the message.
    It is a program of the monad [M] over the mount: its host calls are those
    the Go code makes, in the same order, and [make] with a negative capacity
    panics. *)
From Stdlib Require Import Ascii.
From S2P Require Export FsrpcMount.

Definition reply : Type := option obj * Z * string.

Definition fail (errCode : Z) (message : string) : M fsrpcMount reply :=
  mret (None, errCode, message).
Definition answer (res : obj) : M fsrpcMount reply := mret (Some res, 0, "").

(** ** Modes, flags and errors *)
Definition fuseModeFromFileMode (mode : Z) : Z :=
  let perm := mode_Perm mode in
  if mode_IsDir mode then Z.lor 16384 perm
  else if mode_IsSymlink mode then Z.lor 40960 perm
  else Z.lor 32768 perm.

Definition linuxDTUnknown : Z := 0.
Definition linuxDTDir : Z := 4.
Definition linuxDTReg : Z := 8.
Definition linuxDTLnk : Z := 10.

Definition dtypeFromFileMode (mode : Z) : Z :=
  if mode_IsDir mode then linuxDTDir
  else if mode_IsSymlink mode then linuxDTLnk
  else if mode_IsRegular mode || (mode =? 0) then linuxDTReg
  else linuxDTUnknown.

Definition flag_set (flags bit : Z) : bool := negb (Z.land flags bit =? 0).

Definition hasWriteIntent (flags : Z) : bool :=
  if flag_set flags linuxOAccMode then true
  else if flag_set flags linuxOCreat then true
  else if flag_set flags linuxOTrunc then true
  else if flag_set flags linuxOAppend then true
  else false.

Definition osOpenFlagsFromLinux (flags : Z) : open_flags :=
  {| of_access := if Z.land flags linuxOAccMode =? linuxOWrOnly then O_WRONLY
                  else if Z.land flags linuxOAccMode =? linuxORDWR then O_RDWR
                  else O_RDONLY;
     of_create := flag_set flags linuxOCreat;
     of_excl := flag_set flags linuxOExcl;
     of_trunc := flag_set flags linuxOTrunc;
     of_append := flag_set flags linuxOAppend |}.

(** [flags | os.O_CREATE] *)
Definition or_O_CREATE (fl : open_flags) : open_flags :=
  {| of_access := of_access fl; of_create := true; of_excl := of_excl fl;
     of_trunc := of_trunc fl; of_append := of_append fl |}.

(** The switch on [syscall.Errno], by Linux numbers. *)
Definition errno_case (errno : Z) : Z :=
  if errno =? 2 then linuxErrNoent                          (* ENOENT *)
  else if (errno =? 13) || (errno =? 1) then linuxErrAcces  (* EACCES, EPERM *)
  else if errno =? 17 then linuxErrExist                    (* EEXIST *)
  else if errno =? 20 then linuxErrNotDir                   (* ENOTDIR *)
  else if errno =? 21 then linuxErrIsDir                    (* EISDIR *)
  else if errno =? 22 then linuxErrInval                    (* EINVAL *)
  else if errno =? 30 then linuxErrROFS                     (* EROFS *)
  else if errno =? 40 then linuxErrLoop                     (* ELOOP *)
  else if errno =? 9 then linuxErrBadf                      (* EBADF *)
  else linuxErrIO.

Definition mapOSError (e : option goerr) : Z :=
  match e with
  | None => 0
  | Some err =>
      if IsNotExist err then linuxErrNoent
      else if IsPermission err then linuxErrAcces
      else if IsExist err then linuxErrExist
      else if is_closed_err err then linuxErrBadf
      else
        let err := match as_path_inner err with Some i => i | None => err end in
        let err := match as_link_inner err with Some i => i | None => err end in
        match as_errno err with
        | Some errno => errno_case errno
        | None => linuxErrIO
        end
  end.

Definition fail_os (e : goerr) : M fsrpcMount reply :=
  fail (mapOSError (Some e)) (err_string e).

(** ** Attributes *)
Definition buildAttr (ino : Z) (info : file_info) : value :=
  let mod_ := if fi_mtime_ms info <? 0 then 0 else fi_mtime_ms info in
  let mode := fuseModeFromFileMode (fi_mode info) in
  let size := if fi_size info <? 0 then 0 else fi_size info in
  let blocks := uint64_of (Z.quot (int64_of (size + 511)) 512) in
  let nlink := if fi_IsDir info then 2 else 1 in
  VObj [("ino", VU64 ino); ("size", VU64 (uint64_of size)); ("blocks", VU64 blocks);
        ("atime_ms", VU64 (uint64_of mod_)); ("mtime_ms", VU64 (uint64_of mod_));
        ("ctime_ms", VU64 (uint64_of mod_)); ("mode", VU64 mode); ("nlink", VU64 nlink);
        ("uid", VU64 0); ("gid", VU64 0); ("rdev", VU64 0); ("blksize", VU64 4096)].

Definition entry_obj (ino : Z) (info : file_info) : value :=
  VObj [("ino", VU64 ino); ("attr", buildAttr ino info);
        ("attr_ttl_ms", VU64 1000); ("entry_ttl_ms", VU64 1000)].

(** State operations of the inode table as programs. *)
Definition m_pathForInode (ino : Z) : M fsrpcMount (option string) :=
  m ← get; mret (pathForInode m ino).
Definition m_ensureInode (path : string) : M fsrpcMount Z :=
  m ← get; let '(ino, m') := ensureInode path m in _ ← put m'; mret ino.
Definition m_resolveChildPath (parentPath name : string) : M fsrpcMount (string * Z * string) :=
  m ← get; mret (resolveChildPath m parentPath name).

Section code.
Context `{RT : GoRuntime} (cfg : fsrpcConfig).

Definition handleLookup (req : obj) : M fsrpcMount reply :=
  let? parentIno := getReqUint req "parent_ino"
    or fail linuxErrInval "parent_ino required" in
  let? name := getReqString req "name" or fail linuxErrInval "name required" in
  pp ← m_pathForInode parentIno;
  let? parentPath := pp or fail linuxErrNotDir "parent inode not found" in
  '(targetPath, errCode, errMsg) ← m_resolveChildPath parentPath name;
  if negb (errCode =? 0) then fail errCode errMsg else
  r ← oscall_ (Lstat targetPath);
  try info := r catch e => fail_os e in
  if fi_IsSymlink info then fail linuxErrLoop "symlink traversal is not allowed" else
  ino ← m_ensureInode targetPath;
  answer [("entry", entry_obj ino info)].

Definition handleGetattr (req : obj) : M fsrpcMount reply :=
  let? ino := getReqUint req "ino" or fail linuxErrInval "ino required" in
  p ← m_pathForInode ino;
  let? path := p or fail linuxErrInval "inode not found" in
  r ← oscall_ (Lstat path);
  try info := r catch e => fail_os e in
  if fi_IsSymlink info then fail linuxErrLoop "symlink traversal is not allowed" else
  answer [("attr", buildAttr ino info); ("attr_ttl_ms", VU64 1000)].

(** The loop of [handleReaddir] over the directory's entries. *)
Fixpoint readdir_entries (dirPath : string) (es : list dir_entry) : M fsrpcMount (list obj) :=
  match es with
  | [] => mret []
  | e :: es' =>
      targetIno ← m_ensureInode (PathJoin [dirPath; de_name e]);
      rest ← readdir_entries dirPath es';
      mret ([("ino", VU64 targetIno); ("name", VText (de_name e));
             ("type", VU32 (dtypeFromFileMode (de_type e)))] :: rest)
  end.

(** [for idx := start; idx < end; idx++]: item [idx] with its offset. *)
Fixpoint readdir_page (idx : Z) (items : list obj) : list value :=
  match items with
  | [] => []
  | item :: items' =>
      VObj (item ++ [("offset", VU64 (uint64_of (idx + 1)))]) :: readdir_page (idx + 1) items'
  end.

(** The entries from [offset] on, at most [maxEntries]; [None] is the panic of
    [make] for a negative capacity. *)
Definition readdir_slice (entries : list obj) (offset maxEntries : Z) : option (list value) :=
  let len := Z.of_nat (length entries) in
  let start := if int64_of offset <? 0 then 0 else int64_of offset in
  if len <=? start then Some []
  else
    let end_ := int64_of (start + int64_of maxEntries) in
    let end_ := if len <? end_ then len else end_ in
    if int64_of (end_ - start) <? 0 then None
    else Some (readdir_page start
                 (take (Z.to_nat (end_ - start)) (drop (Z.to_nat start) entries))).

Definition handleReaddir (req : obj) : M fsrpcMount reply :=
  let? ino := getReqUint req "ino" or fail linuxErrInval "ino required" in
  let offset := default 0 (getReqUint req "offset") in
  let maxEntries := match getReqUint req "max_entries" with
                    | None => 128
                    | Some n => if n =? 0 then 128 else n
                    end in
  p ← m_pathForInode ino;
  let? dirPath := p or fail linuxErrInval "inode not found" in
  r ← oscall_ (Lstat dirPath);
  try info := r catch e => fail_os e in
  if negb (fi_IsDir info) then fail linuxErrNotDir "not a directory" else
  r ← oscall_ (ReadDir dirPath);
  try dirEntries := r catch e => fail_os e in
  m ← get;
  parentIno ← (if bool_decide (dirPath = root m) then mret ino
               else m_ensureInode (Dir dirPath));
  rest ← readdir_entries dirPath dirEntries;
  let entries :=
    [("ino", VU64 ino); ("name", VText "."); ("type", VU32 linuxDTDir)] ::
    [("ino", VU64 parentIno); ("name", VText ".."); ("type", VU32 linuxDTDir)] :: rest in
  match readdir_slice entries offset maxEntries with
  | None => panic "makeslice: cap out of range"
  | Some result => answer [("entries", VArr result)]
  end.

(** The registration of an opened file, under the lock. *)
Definition register_handle (f : file) (flags ino now : Z) : M fsrpcMount Z :=
  m ← get;
  match nextHandleIDLocked m with
  | None => panic "nextHandleIDLocked: out of fuel"
  | Some (fh, m') =>
      _ ← put (set_handles
                 (<[fh := {| h_file := Some f; h_append := flag_set flags linuxOAppend;
                             h_ino := ino; h_lastUsed := now |}]> (handles m')) m');
      mret fh
  end.

Definition handleOpen (req : obj) : M fsrpcMount reply :=
  let? ino := getReqUint req "ino" or fail linuxErrInval "ino required" in
  let flags := default 0 (getReqUint req "flags") in
  m ← get;
  if readOnly m && hasWriteIntent flags then fail linuxErrROFS "read-only mount" else
  p ← m_pathForInode ino;
  let? path := p or fail linuxErrInval "inode not found" in
  r ← oscall_ (Lstat path);
  try info := r catch e => fail_os e in
  if fi_IsDir info then fail linuxErrIsDir "is a directory" else
  if fi_IsSymlink info then fail linuxErrLoop "symlink traversal is not allowed" else
  r ← oscall_ (OpenFile path (osOpenFlagsFromLinux flags) 0);
  try f := r catch e => fail_os e in
  now ← oscall_ Now;
  fh ← register_handle f flags ino now;
  answer [("fh", VU64 fh); ("open_flags", VU64 0)].

Definition handleRead (req : obj) : M fsrpcMount reply :=
  let? fh := getReqUint req "fh" or fail linuxErrInval "fh required" in
  let offset := default 0 (getReqUint req "offset") in
  let? size := getReqUint req "size" or fail linuxErrInval "size required" in
  let size := if maxFSRPCReadSize <? size then maxFSRPCReadSize else size in
  h ← getHandle fh;
  let? f := (h ≫= h_file) or fail linuxErrBadf "invalid file handle" in
  '(data, err) ← oscall_ (ReadAt f size (int64_of offset));
  match err with
  | Some EEOF | None => answer [("data", VBytes data)]
  | Some e => fail_os e
  end.

Definition handleRelease (req : obj) : M fsrpcMount reply :=
  let? fh := getReqUint req "fh" or fail linuxErrInval "fh required" in
  h ← closeHandle fh;
  let? _ := (h ≫= h_file) or fail linuxErrBadf "invalid file handle" in
  answer [].

Definition handleWrite (req : obj) : M fsrpcMount reply :=
  let? fh := getReqUint req "fh" or fail linuxErrInval "fh required" in
  let? offset := getReqUint req "offset" or fail linuxErrInval "offset required" in
  let? data := getReqBytes req "data" or fail linuxErrInval "data required" in
  h ← getHandle fh;
  let? hd := h or fail linuxErrBadf "invalid file handle" in
  let? f := h_file hd or fail linuxErrBadf "invalid file handle" in
  r ← (if h_append hd then oscall_ (Write f data)
       else oscall_ (WriteAt f data (int64_of offset)));
  try written := r catch e => fail_os e in
  answer [("size", VU64 (uint64_of written))].

Definition handleCreate (req : obj) : M fsrpcMount reply :=
  let? parentIno := getReqUint req "parent_ino"
    or fail linuxErrInval "parent_ino required" in
  let? name := getReqString req "name" or fail linuxErrInval "name required" in
  let mode := default 0 (getReqUint req "mode") in
  let flags := default 0 (getReqUint req "flags") in
  pp ← m_pathForInode parentIno;
  let? parentPath := pp or fail linuxErrNotDir "parent inode not found" in
  r ← oscall_ (Lstat parentPath);
  try parentInfo := r catch e => fail_os e in
  if negb (fi_IsDir parentInfo) then fail linuxErrNotDir "parent is not a directory" else
  if fi_IsSymlink parentInfo then fail linuxErrLoop "symlink traversal is not allowed" else
  '(targetPath, errCode, errMsg) ← m_resolveChildPath parentPath name;
  if negb (errCode =? 0) then fail errCode errMsg else
  st ← oscall_ (Lstat targetPath);
  let bad := match st with
             | Good info =>
                 if fi_IsSymlink info
                 then Some (fail linuxErrLoop "symlink traversal is not allowed")
                 else if fi_IsDir info then Some (fail linuxErrIsDir "is a directory")
                 else None
             | Bad e => if negb (IsNotExist e) then Some (fail_os e) else None
             end in
  match bad with Some stop => stop | None =>
  r ← oscall_ (OpenFile targetPath (or_O_CREATE (osOpenFlagsFromLinux flags))
                        (Z.land mode 511));
  try f := r catch e => fail_os e in
  r ← oscall_ (FileStat f);
  match r with
  | Bad e => _ ← oscall_ (CloseFile f); fail_os e
  | Good info =>
      ino ← m_ensureInode targetPath;
      now ← oscall_ Now;
      fh ← register_handle f flags ino now;
      answer [("entry", entry_obj ino info); ("fh", VU64 fh); ("open_flags", VU64 0)]
  end
  end.

Definition handleMkdir (req : obj) : M fsrpcMount reply :=
  let? parentIno := getReqUint req "parent_ino"
    or fail linuxErrInval "parent_ino required" in
  let? name := getReqString req "name" or fail linuxErrInval "name required" in
  let mode := default 0 (getReqUint req "mode") in
  pp ← m_pathForInode parentIno;
  let? parentPath := pp or fail linuxErrNotDir "parent inode not found" in
  r ← oscall_ (Lstat parentPath);
  try parentInfo := r catch e => fail_os e in
  if negb (fi_IsDir parentInfo) then fail linuxErrNotDir "parent is not a directory" else
  if fi_IsSymlink parentInfo then fail linuxErrLoop "symlink traversal is not allowed" else
  '(targetPath, errCode, errMsg) ← m_resolveChildPath parentPath name;
  if negb (errCode =? 0) then fail errCode errMsg else
  r ← oscall_ (Mkdir targetPath (Z.land mode 511));
  try _ := r catch e => fail_os e in
  r ← oscall_ (Lstat targetPath);
  try info := r catch e => fail_os e in
  ino ← m_ensureInode targetPath;
  answer [("entry", entry_obj ino info)].

Definition handleUnlink (req : obj) : M fsrpcMount reply :=
  let? parentIno := getReqUint req "parent_ino"
    or fail linuxErrInval "parent_ino required" in
  let? name := getReqString req "name" or fail linuxErrInval "name required" in
  pp ← m_pathForInode parentIno;
  let? parentPath := pp or fail linuxErrNotDir "parent inode not found" in
  r ← oscall_ (Lstat parentPath);
  try parentInfo := r catch e => fail_os e in
  if negb (fi_IsDir parentInfo) then fail linuxErrNotDir "parent is not a directory" else
  if fi_IsSymlink parentInfo then fail linuxErrLoop "symlink traversal is not allowed" else
  '(targetPath, errCode, errMsg) ← m_resolveChildPath parentPath name;
  if negb (errCode =? 0) then fail errCode errMsg else
  r ← oscall_ (Lstat targetPath);
  try info := r catch e => fail_os e in
  if fi_IsDir info then fail linuxErrIsDir "is a directory" else
  if fi_IsSymlink info then fail linuxErrLoop "symlink traversal is not allowed" else
  r ← oscall_ (Remove targetPath);
  try _ := r catch e => fail_os e in
  _ ← modify (removePathMapping targetPath);
  answer [].

Definition handleRename (req : obj) : M fsrpcMount reply :=
  let? oldParentIno := getReqUint req "old_parent_ino"
    or fail linuxErrInval "old_parent_ino required" in
  let? oldName := getReqString req "old_name" or fail linuxErrInval "old_name required" in
  let? newParentIno := getReqUint req "new_parent_ino"
    or fail linuxErrInval "new_parent_ino required" in
  let? newName := getReqString req "new_name" or fail linuxErrInval "new_name required" in
  op ← m_pathForInode oldParentIno;
  let? oldParentPath := op or fail linuxErrNotDir "old parent inode not found" in
  np ← m_pathForInode newParentIno;
  let? newParentPath := np or fail linuxErrNotDir "new parent inode not found" in
  r ← oscall_ (Lstat oldParentPath);
  try oldParentInfo := r catch e => fail_os e in
  if negb (fi_IsDir oldParentInfo)
  then fail linuxErrNotDir "old parent is not a directory" else
  if fi_IsSymlink oldParentInfo
  then fail linuxErrLoop "symlink traversal is not allowed" else
  r ← oscall_ (Lstat newParentPath);
  try newParentInfo := r catch e => fail_os e in
  if negb (fi_IsDir newParentInfo)
  then fail linuxErrNotDir "new parent is not a directory" else
  if fi_IsSymlink newParentInfo
  then fail linuxErrLoop "symlink traversal is not allowed" else
  '(oldPath, errCode, errMsg) ← m_resolveChildPath oldParentPath oldName;
  if negb (errCode =? 0) then fail errCode errMsg else
  '(newPath, errCode, errMsg) ← m_resolveChildPath newParentPath newName;
  if negb (errCode =? 0) then fail errCode errMsg else
  r ← oscall_ (Lstat oldPath);
  try oldInfo := r catch e => fail_os e in
  if fi_IsSymlink oldInfo then fail linuxErrLoop "symlink traversal is not allowed" else
  r ← oscall_ (Rename oldPath newPath);
  try _ := r catch e => fail_os e in
  _ ← modify (remapPath oldPath newPath);
  answer [].

Definition handleTruncate (req : obj) : M fsrpcMount reply :=
  let? ino := getReqUint req "ino" or fail linuxErrInval "ino required" in
  let? size := getReqUint req "size" or fail linuxErrInval "size required" in
  p ← m_pathForInode ino;
  let? path := p or fail linuxErrInval "inode not found" in
  r ← oscall_ (Lstat path);
  try info := r catch e => fail_os e in
  if fi_IsDir info then fail linuxErrIsDir "is a directory" else
  if fi_IsSymlink info then fail linuxErrLoop "symlink traversal is not allowed" else
  r ← oscall_ (Truncate path (int64_of size));
  try _ := r catch e => fail_os e in
  answer [].

(** [mount.handle]: garbage collection, then the operation. *)
Definition handle (op : string) (req : obj) : M fsrpcMount reply :=
  now ← oscall_ Now;
  _ ← maybeGC cfg now;
  m ← get;
  let mutating (k : obj → M fsrpcMount reply) :=
    if readOnly m then fail linuxErrROFS "read-only mount" else k req in
  if bool_decide (op = "lookup") then handleLookup req
  else if bool_decide (op = "getattr") then handleGetattr req
  else if bool_decide (op = "readdir") then handleReaddir req
  else if bool_decide (op = "open") then handleOpen req
  else if bool_decide (op = "read") then handleRead req
  else if bool_decide (op = "release") then handleRelease req
  else if bool_decide (op = "ping") then
    answer [("ok", VBool true); ("mode", VText (modeLabel m))]
  else if bool_decide (op = "write") then mutating handleWrite
  else if bool_decide (op = "create") then mutating handleCreate
  else if bool_decide (op = "mkdir") then mutating handleMkdir
  else if bool_decide (op = "unlink") then mutating handleUnlink
  else if bool_decide (op = "rename") then mutating handleRename
  else if bool_decide (op = "truncate") then mutating handleTruncate
  else fail linuxErrNOSYS "unsupported op".
End code.
