(* ===== verification/FsrpcInodes.v ===== *)
(** * The inode table of an FS-RPC mount: containment and consistency

    [within rcs p]: [p] is the clean absolute path of something at or below the
    mount's root, whose components are [rcs].  [inodes_ok]: the two maps of the
    table are inverse to each other, every path is within the root, and every
    inode number was handed out.  Each operation of the table keeps it. *)
From Stdlib Require Import Ascii.
From S2P Require Export FsrpcMount.

(** ** Splitting at a directory boundary *)
Lemma Split_Join_app ys r :
  ys ≠ [] → Forall (λ c, has_char slash c = false) ys →
  Split (Join ys Separator +:+ String slash r) slash = ys ++ Split r slash.
Proof.
  induction ys as [|y ys IH]; [done|]. intros _ H. inversion H; subst.
  destruct ys as [|y' ys]; [by apply Split_app_sep|].
  rewrite Join_cons by done. rewrite <-sapp_assoc.
  change ((Separator +:+ Join (y' :: ys) Separator) +:+ String slash r)
    with (String slash (Join (y' :: ys) Separator +:+ String slash r)).
  rewrite Split_app_sep by done. by rewrite IH.
Qed.

Lemma abs_path_under xs ys :
  Forall good xs → Forall good ys → ys ≠ [] →
  HasPrefix (abs_path xs) (abs_path ys +:+ Separator) = true →
  ∃ zs, zs ≠ [] ∧ xs = ys ++ zs ∧ TrimPrefix (abs_path xs) (abs_path ys) = abs_path zs.
Proof.
  intros Hx Hy Hne. rewrite HasPrefix_true. intros [r Hr].
  assert (E : abs_path xs = abs_path ys +:+ String slash r)
    by (rewrite Hr; by rewrite <-sapp_assoc).
  exists (Split r slash). split; [apply Split_not_nil|]. split.
  - assert (S : Split (abs_path xs) slash = Split (abs_path ys +:+ String slash r) slash)
      by (by rewrite E).
    rewrite Split_abs_path in S by done. unfold abs_path in S. rewrite <-sapp_assoc in S.
    change (Separator +:+ Join ys Separator +:+ String slash r)
      with ("" +:+ String slash (Join ys Separator +:+ String slash r)) in S.
    rewrite Split_app_sep in S by done.
    rewrite Split_Join_app in S by (done || by apply good_no_sep).
    destruct xs as [|x xs]; [|by simplify_eq].
    destruct ys as [|y ys]; [done|]. inversion Hy as [|?? [Hc _]]; subst.
    rewrite <-app_comm_cons in S. by injection S.
  - rewrite E, TrimPrefix_app. unfold abs_path. by rewrite Join_Split.
Qed.

(** The test [isWithinRoot] makes of the result of [Rel]. *)
Lemma rel_test_escapes rel :
  rel_escapes rel = true →
  (if bool_decide (rel = ".") then true
   else negb (HasPrefix rel (".." +:+ Separator)) && negb (bool_decide (rel = ".."))) = false.
Proof.
  unfold rel_escapes. intros H. destruct (bool_decide (rel = ".")) eqn:Hd.
  { apply bool_decide_eq_true in Hd. subst. by vm_compute in H. }
  apply orb_true_iff in H as [->| ->]; [done|]. by rewrite andb_false_r.
Qed.

(** ** [isWithinRoot] decides the prefix order on components *)
Lemma isWithinRoot_spec rcs cs :
  Forall good rcs → Forall good cs →
  isWithinRoot (abs_path rcs) (abs_path cs) = true ↔ rcs `prefix_of` cs.
Proof.
  intros Hr Hc. unfold isWithinRoot, Rel. rewrite !Clean_abs_path by done.
  case_bool_decide as E.
  { apply abs_path_inj in E as ->; [|done..]. by split. }
  rewrite (bool_decide_eq_false_2 (abs_path rcs = ".")) by done.
  rewrite !IsAbs_abs_path, bool_decide_eq_false_2 by naive_solver.
  rewrite !words_abs_path by done.
  destruct (strip_common_spec rcs cs) as (cm & H1 & H2 & _).
  pose proof (strip_common_nil rcs cs) as Hn.
  destruct (strip_common rcs cs) as [bs ts]; simpl in *.
  assert (Hts : Forall good ts) by (subst; by apply Forall_app in Hc as [_ ?]).
  destruct bs as [|b bs].
  - rewrite <-Hn. split; [done|]. intros _. case_bool_decide; [done|].
    pose proof (good_not_escapes ts Hts) as Hg. unfold rel_escapes in Hg.
    apply orb_false_iff in Hg as [-> ->]. done.
  - rewrite <-Hn. split; [|done]. intros HW. exfalso.
    assert (Hb : b ≠ "..").
    { subst. apply Forall_app in Hr as [_ Hr]. by inversion Hr as [|?? (_ & _ & ? & _)]. }
    rewrite (bool_decide_eq_false_2 (b = "..")) in HW by done.
    pose proof (up_escapes (length bs) ts) as Hu. pose proof (up_escapes (length bs) []) as Hu0.
    rewrite app_nil_r in Hu0. simpl length in HW.
    destruct ts as [|t ts]; rewrite rel_test_escapes in HW; done.
Qed.

Section root.
Context (rcs : list string).

Definition within (p : string) : Prop :=
  ∃ cs, p = abs_path (rcs ++ cs) ∧ Forall good cs.

Context (Hrcs : Forall good rcs) (Hne : rcs ≠ []).

Lemma within_root : within (abs_path rcs).
Proof. exists []. by rewrite app_nil_r. Qed.

Lemma within_Clean p : within p → Clean p = p.
Proof. intros (cs & -> & H). apply Clean_abs_path. by apply Forall_app. Qed.

(** What [resolveChildPath] answers for a parent of the table: the error for a
    bad name, else a path within the root with code 0. *)
Definition child_comps (cs : list string) (name : string) : list string :=
  if bool_decide (name = ".") then cs
  else if bool_decide (name = "..") then reverse (tail (reverse cs))
  else cs ++ [name].

Lemma child_comps_good cs name :
  Forall good cs → name ≠ "" → has_char slash name = false → Forall good (child_comps cs name).
Proof.
  intros H H1 H2. unfold child_comps. case_bool_decide; [done|]. case_bool_decide.
  - apply Forall_reverse. apply Forall_reverse in H. destruct H; simpl; auto.
  - apply Forall_app. split; [done|]. by repeat constructor.
Qed.

Lemma Dir_within cs :
  Forall good cs → cs ≠ [] →
  Dir (abs_path (rcs ++ cs)) = abs_path (rcs ++ reverse (tail (reverse cs))).
Proof.
  intros Hc Hn. destruct cs as [|c cs _] using rev_ind; [done|].
  rewrite reverse_snoc. simpl. rewrite reverse_involutive, app_assoc.
  apply Forall_app in Hc as [H1 H2]. inversion H2; subst.
  apply Dir_snoc; [by apply Forall_app|done].
Qed.

Lemma resolveChildPath_within m cs name :
  root m = abs_path rcs → Forall good cs →
  resolveChildPath m (abs_path (rcs ++ cs)) name =
    if bool_decide (name = "") then ("", linuxErrInval, "empty name")
    else if has_char slash name then
      ("", linuxErrInval, "path separators are not allowed")
    else (abs_path (rcs ++ child_comps cs name), 0, "").
Proof.
  intros Hroot Hc. unfold resolveChildPath. case_bool_decide as Hn; [done|].
  replace (Contains name Separator) with (has_char slash name)
    by (symmetry; apply Contains_char).
  destruct (has_char slash name) eqn:Hs; [done|].
  assert (Hcs : Forall good (rcs ++ cs)) by (by apply Forall_app).
  assert (Hch : Forall good (rcs ++ child_comps cs name)).
  { apply Forall_app. split; [done|]. by apply child_comps_good. }
  match goal with |- context [Clean ?t] => assert (t = abs_path (rcs ++ child_comps cs name)) as -> end.
  { unfold child_comps in *. case_bool_decide as Hd; [done|].
    case_bool_decide as Hdd; [case_bool_decide as Hp|].
    - rewrite Hroot in *. apply abs_path_inj in Hp; [|done..].
      assert (cs = []) as -> by (apply (app_inv_head rcs); by rewrite app_nil_r).
      by rewrite app_nil_r.
    - apply Dir_within; [done|]. intros ->. by rewrite app_nil_r, Hroot in Hp.
    - rewrite PathJoin_good; [by rewrite app_assoc|done|done]. }
  rewrite Clean_abs_path by done. rewrite Hroot.
  rewrite (proj2 (isWithinRoot_spec _ _ Hrcs Hch)) by (by eexists). done.
Qed.

(** ** The invariant *)
Record inodes_ok (m : fsrpcMount) : Prop := {
  io_root : root m = abs_path rcs;
  io_inverse p i : pathToIno m !! p = Some i ↔ inoToPath m !! i = Some p;
  io_within p i : pathToIno m !! p = Some i → within p;
  io_range p i : pathToIno m !! p = Some i → 1 ≤ i < nextIno m;
  io_next : 1 ≤ nextIno m
}.

Lemma io_path_within m i p : inodes_ok m → inoToPath m !! i = Some p → within p.
Proof. intros H Hi. apply (io_inverse _ H) in Hi. by eapply io_within. Qed.

(** The table is unchanged by updates of the other fields. *)
Lemma inodes_ok_ext m m' :
  root m' = root m → pathToIno m' = pathToIno m → inoToPath m' = inoToPath m →
  nextIno m' = nextIno m → inodes_ok m → inodes_ok m'.
Proof. intros H1 H2 H3 H4 []. constructor; rewrite ?H1, ?H2, ?H3, ?H4; auto. Qed.

(** The fields the table's operations leave alone. *)
Definition same_rest (m m' : fsrpcMount) : Prop :=
  root m' = root m ∧ mount_mode m' = mount_mode m ∧ handles m' = handles m
  ∧ nextFH m' = nextFH m ∧ lastGC m' = lastGC m.

Lemma same_rest_refl m : same_rest m m.
Proof. by repeat split. Qed.

Lemma same_rest_trans m1 m2 m3 : same_rest m1 m2 → same_rest m2 m3 → same_rest m1 m3.
Proof. unfold same_rest. intuition congruence. Qed.

Lemma ensureInode_ok path m i m' :
  inodes_ok m → within path → nextIno m + 1 < two64 → ensureInode path m = (i, m') →
  inodes_ok m' ∧ same_rest m m' ∧ nextIno m ≤ nextIno m' ≤ nextIno m + 1
  ∧ inoToPath m' !! i = Some path.
Proof.
  intros Hok Hw Hb. unfold ensureInode. rewrite (within_Clean _ Hw).
  destruct (pathToIno m !! path) as [j|] eqn:E; intros; simplify_eq.
  { split; [done|]. split; [apply same_rest_refl|]. split; [lia|].
    by apply (io_inverse _ Hok). }
  pose proof (io_next _ Hok) as Hn.
  assert (Hfresh : inoToPath m !! nextIno m = None).
  { destruct (inoToPath m !! nextIno m) as [q|] eqn:Q; [|done].
    apply (io_inverse _ Hok) in Q. pose proof (io_range _ Hok _ _ Q). lia. }
  assert (Hw1 : uint64_of (nextIno m + 1) = nextIno m + 1)
    by (apply uint64_of_small; unfold u64_range; lia).
  split; [|split; [by repeat split|split; [simpl; lia|by simpl; rewrite lookup_insert_eq]]].
  constructor; simpl; rewrite ?Hw1; try lia.
  - apply (io_root _ Hok).
  - intros p j. rewrite !lookup_insert.
    case_decide as D1; case_decide as D2; subst.
    + split; congruence.
    + rewrite <-(io_inverse _ Hok). split; congruence.
    + rewrite (io_inverse _ Hok). split; congruence.
    + apply (io_inverse _ Hok).
  - intros p j. rewrite lookup_insert. case_decide; [congruence|]. apply (io_within _ Hok).
  - intros p j. rewrite lookup_insert. case_decide; [intros ?; simplify_eq; lia|].
    intros Hp. pose proof (io_range _ Hok _ _ Hp). lia.
Qed.

(** Numbers already given stay as they are. *)
Lemma ensureInode_keeps path m i m' j p :
  inodes_ok m → ensureInode path m = (i, m') →
  inoToPath m !! j = Some p → inoToPath m' !! j = Some p.
Proof.
  intros Hok. unfold ensureInode. destruct (pathToIno m !! Clean path); intros; simplify_eq; [done|].
  simpl. rewrite lookup_insert_ne; [done|]. intros <-.
  assert (Hp : pathToIno m !! p = Some (nextIno m)) by (by apply (io_inverse _ Hok)).
  pose proof (io_range _ Hok _ _ Hp). lia.
Qed.

Lemma removePathMappingLocked_ok q m :
  inodes_ok m →
  inodes_ok (removePathMappingLocked q m) ∧ same_rest m (removePathMappingLocked q m)
  ∧ nextIno (removePathMappingLocked q m) = nextIno m
  ∧ pathToIno (removePathMappingLocked q m) = delete q (pathToIno m).
Proof.
  intros Hok. unfold removePathMappingLocked.
  destruct (pathToIno m !! q) as [i|] eqn:E.
  2: { split; [done|]. split; [apply same_rest_refl|]. by rewrite delete_id. }
  pose proof (proj1 (io_inverse _ Hok _ _) E) as Hi. rewrite Hi.
  rewrite bool_decide_eq_true_2 by done.
  split; [|by repeat split]. constructor; simpl.
  - apply (io_root _ Hok).
  - intros p j. rewrite !lookup_delete.
    case_decide as D1; case_decide as D2; subst.
    + split; congruence.
    + rewrite <-(io_inverse _ Hok). split; congruence.
    + rewrite (io_inverse _ Hok). split; congruence.
    + apply (io_inverse _ Hok).
  - intros p j. rewrite lookup_delete. case_decide; [done|]. apply (io_within _ Hok).
  - intros p j. rewrite lookup_delete. case_decide; [done|]. apply (io_range _ Hok).
  - apply (io_next _ Hok).
Qed.

(** Removing a whole list of paths. *)
Lemma remove_list_ok qs m :
  inodes_ok m →
  let m' := foldl (λ m path, removePathMappingLocked path m) m qs in
  inodes_ok m' ∧ same_rest m m' ∧ nextIno m' = nextIno m
  ∧ (∀ p, pathToIno m' !! p = if bool_decide (p ∈ qs) then None else pathToIno m !! p).
Proof.
  revert m. induction qs as [|q qs IH]; intros m Hok; simpl.
  { split; [done|]. split; [apply same_rest_refl|]. split; [done|]. done. }
  destruct (removePathMappingLocked_ok q m Hok) as (H1 & H2 & H3 & H4).
  destruct (IH _ H1) as (I1 & I2 & I3 & I4). simpl in *.
  split; [done|]. split; [by eapply same_rest_trans|]. split; [congruence|].
  intros p. rewrite I4, H4, lookup_delete. case_bool_decide as D1.
  - by rewrite bool_decide_true by (by right).
  - case_decide as D2; [by rewrite bool_decide_true by (subst; by left)|].
    rewrite bool_decide_false; [done|]. intros [?|?]%elem_of_cons; congruence.
Qed.

(** The second loop of [remapPath] removes what lies at or under [oldPath]. *)
Lemma remove_under_ok old qs m :
  inodes_ok m → (∀ p i, pathToIno m !! p = Some i → p ∈ qs) →
  let m' := foldl (λ m path, if under old path then removePathMappingLocked path m else m) m qs in
  inodes_ok m' ∧ same_rest m m' ∧ nextIno m' = nextIno m
  ∧ (∀ p, pathToIno m' !! p = if under old p then None else pathToIno m !! p).
Proof.
  intros Hok Hall m'.
  assert (m' = foldl (λ m path, removePathMappingLocked path m) m
                 (filter (λ p, under old p = true) qs)) as Hm'.
  { unfold m'. clear. revert m. induction qs as [|q qs IH]; intros m; [done|].
    rewrite filter_cons. simpl. destruct (under old q); [by rewrite decide_True|].
    by rewrite decide_False. }
  destruct (remove_list_ok (filter (λ p, under old p = true) qs) m Hok) as (H1 & H2 & H3 & H4).
  rewrite <-Hm' in *. do 3 (split; [done|]). intros p. rewrite H4.
  case_bool_decide as D.
  - apply list_elem_of_filter in D as [-> _]. done.
  - destruct (under old p) eqn:U; [|done]. destruct (pathToIno m !! p) as [i|] eqn:E; [|done].
    exfalso. apply D, list_elem_of_filter. split; [done|]. by eapply Hall.
Qed.

(** The third loop binds fresh paths to fresh inode numbers. *)
Lemma insert_list_ok ups m :
  inodes_ok m →
  NoDup ups.*1 → NoDup ups.*2 →
  Forall (λ e, within e.1 ∧ 1 ≤ e.2 < nextIno m
               ∧ pathToIno m !! e.1 = None ∧ inoToPath m !! e.2 = None) ups →
  let m' := foldl (λ (m : fsrpcMount) (e : string * Z),
              set_inodes (<[e.1 := e.2]> (pathToIno m)) (<[e.2 := e.1]> (inoToPath m)) m) m ups in
  inodes_ok m' ∧ same_rest m m' ∧ nextIno m' = nextIno m
  ∧ (∀ p i, (p, i) ∈ ups → pathToIno m' !! p = Some i)
  ∧ (∀ p, p ∉ ups.*1 → pathToIno m' !! p = pathToIno m !! p).
Proof.
  revert m. induction ups as [|[p i] ups IH]; intros m Hok Hd1 Hd2 HF; simpl.
  { split; [done|]. split; [apply same_rest_refl|]. split; [done|]. split; [|done].
    by intros ?? ?%not_elem_of_nil. }
  apply NoDup_cons in Hd1 as [Hp Hd1]. apply NoDup_cons in Hd2 as [Hi Hd2].
  inversion HF as [|?? (Hw & Hr & Hn1 & Hn2) HF']; subst. simpl in *.
  set (m1 := set_inodes (<[p := i]> (pathToIno m)) (<[i := p]> (inoToPath m)) m).
  assert (Hok1 : inodes_ok m1).
  { constructor; simpl.
    - apply (io_root _ Hok).
    - intros q j. rewrite !lookup_insert.
      case_decide as D1; case_decide as D2; subst.
      + split; congruence.
      + rewrite <-(io_inverse _ Hok). split; congruence.
      + rewrite (io_inverse _ Hok). split; congruence.
      + apply (io_inverse _ Hok).
    - intros q j. rewrite lookup_insert. case_decide; [congruence|]. apply (io_within _ Hok).
    - intros q j. rewrite lookup_insert. case_decide; [congruence|]. apply (io_range _ Hok).
    - apply (io_next _ Hok). }
  destruct (IH m1 Hok1 Hd1 Hd2) as (J1 & J2 & J3 & J4 & J5).
  { rewrite Forall_forall in *. intros [q j] Hq. destruct (HF' _ Hq) as (K1 & K2 & K3 & K4).
    simpl in *. split; [done|]. split; [done|].
    rewrite !lookup_insert_ne; [done| |].
    - intros ->. apply Hi. apply list_elem_of_fmap. by exists (q, j).
    - intros ->. apply Hp. apply list_elem_of_fmap. by exists (q, j). }
  split; [done|]. split; [eapply same_rest_trans; [|done]; by repeat split|].
  split; [done|]. split.
  - intros q j [?|?]%elem_of_cons; [simplify_eq|by apply J4].
    rewrite J5 by done. simpl. by rewrite lookup_insert_eq.
  - intros q [? ?]%not_elem_of_cons. rewrite J5 by done. simpl. by rewrite lookup_insert_ne.
Qed.

(** *** The destinations of a rename *)
Lemma remap_target_shape old new p r :
  remap_target old new p = Some r → ∃ t, p = old +:+ t ∧ r = new +:+ t.
Proof.
  unfold remap_target. case_bool_decide.
  - intros; simplify_eq. exists "". by rewrite !sapp_nil_r.
  - destruct (HasPrefix p (old +:+ Separator)) eqn:Hp; [|done]. intros; simplify_eq.
    apply HasPrefix_true in Hp as [t ->]. rewrite <-sapp_assoc, TrimPrefix_app. by eexists.
Qed.

Lemma remap_target_inj old new p q r :
  remap_target old new p = Some r → remap_target old new q = Some r → p = q.
Proof.
  intros (t & -> & ->)%remap_target_shape (u & -> & E)%remap_target_shape.
  by apply sapp_inj_l in E as ->.
Qed.

Lemma remap_target_under old new p r : remap_target old new p = Some r → under old p = true.
Proof.
  unfold remap_target, under. case_bool_decide; [done|]. simpl. by case_match.
Qed.

Lemma remap_target_within old new p r :
  within old → within new → within p → remap_target old new p = Some r → within r.
Proof.
  intros (os & -> & Ho) (ns & -> & Hn) (cs & -> & Hc). unfold remap_target.
  case_bool_decide as E; [intros; simplify_eq; by exists ns|].
  destruct (HasPrefix _ _) eqn:Hp; [|done]. intros; simplify_eq.
  destruct (abs_path_under (rcs ++ cs) (rcs ++ os)) as (zs & Hz & Happ & ->);
    [by apply Forall_app|by apply Forall_app| |done|].
  { by destruct rcs. }
  exists (ns ++ zs). rewrite <-app_assoc in Happ. apply app_inv_head in Happ. subst.
  apply Forall_app in Hc as [_ Hz'].
  split; [|by apply Forall_app]. rewrite app_assoc, (abs_path_app (rcs ++ ns)).
  - by destruct zs.
  - by destruct rcs.
Qed.

Lemma remap_updates_elem old new order q i :
  (q, i) ∈ remap_updates old new order ↔
  ∃ p, (p, i) ∈ order ∧ remap_target old new p = Some q.
Proof.
  unfold remap_updates. rewrite list_elem_of_omap. split.
  - intros ([p j] & He & Hq). simpl in Hq. destruct (remap_target old new p) eqn:E; simplify_eq/=.
    by exists p.
  - intros (p & He & Hq). exists (p, i). split; [done|]. simpl. by rewrite Hq.
Qed.

Lemma remap_updates_NoDup1 old new order :
  NoDup order.*1 → NoDup (remap_updates old new order).*1.
Proof.
  induction order as [|[p i] order IH]; simpl; [constructor|].
  intros [Hp Hd]%NoDup_cons. unfold remap_updates. simpl.
  destruct (remap_target old new p) as [q|] eqn:E; simpl; [|by apply IH].
  apply NoDup_cons. split; [|by apply IH].
  intros ([q' j] & Heq & Hj)%list_elem_of_fmap. simpl in Heq. subst q'.
  apply remap_updates_elem in Hj as (p' & Hp' & Ht).
  rewrite (remap_target_inj _ _ _ _ _ E Ht) in Hp. apply Hp.
  apply list_elem_of_fmap. by exists (p', j).
Qed.

Lemma remap_updates_NoDup2 old new order :
  NoDup order.*2 → NoDup (remap_updates old new order).*2.
Proof.
  induction order as [|[p i] order IH]; simpl; [constructor|].
  intros [Hp Hd]%NoDup_cons. unfold remap_updates. simpl.
  destruct (remap_target old new p) as [q|] eqn:E; simpl; [|by apply IH].
  apply NoDup_cons. split; [|by apply IH].
  intros ([q' j] & Heq & Hj)%list_elem_of_fmap. simpl in Heq. subst j.
  apply remap_updates_elem in Hj as (p' & Hp' & Ht). apply Hp.
  apply list_elem_of_fmap. by exists (p', i).
Qed.

(** ** [remapPath] keeps the table consistent and inside the root *)
Section remap.
Context `{RTL : GoRuntimeLaws}.

Lemma range_paths_elem t p i : (p, i) ∈ range_paths t ↔ t !! p = Some i.
Proof. by rewrite range_paths_perm, elem_of_map_to_list. Qed.

Lemma range_paths_NoDup1 t : NoDup (range_paths t).*1.
Proof. rewrite range_paths_perm. apply NoDup_fst_map_to_list. Qed.

(** In a consistent table no inode number occurs twice. *)
Lemma range_paths_NoDup2 m : inodes_ok m → NoDup (range_paths (pathToIno m)).*2.
Proof.
  intros Hok. apply NoDup_fmap_2_strong.
  - intros [p i] [q j] H1%range_paths_elem H2%range_paths_elem. simpl. intros ->.
    apply (io_inverse _ Hok) in H1, H2. congruence.
  - eapply NoDup_fmap_1, range_paths_NoDup1.
Qed.

Lemma remapPath_ok old new m :
  inodes_ok m → within old → within new →
  inodes_ok (remapPath old new m) ∧ same_rest m (remapPath old new m)
  ∧ nextIno (remapPath old new m) = nextIno m
  ∧ (∀ p i q, pathToIno m !! p = Some i → remap_target old new p = Some q →
      pathToIno (remapPath old new m) !! q = Some i)
  ∧ (∀ q, (∀ p i, pathToIno m !! p = Some i → remap_target old new p ≠ Some q) →
      pathToIno (remapPath old new m) !! q = if under old q then None else pathToIno m !! q).
Proof.
  intros Hok Ho Hn. unfold remapPath. rewrite (within_Clean _ Ho), (within_Clean _ Hn).
  set (ups := remap_updates old new (range_paths (pathToIno m))).
  assert (Hups : ∀ q i, (q, i) ∈ ups ↔
            ∃ p, pathToIno m !! p = Some i ∧ remap_target old new p = Some q).
  { intros q i. unfold ups. rewrite remap_updates_elem.
    by setoid_rewrite range_paths_elem. }
  destruct (remove_list_ok ups.*1 m Hok) as (A1 & A2 & A3 & A4). simpl in A1, A2, A3, A4.
  set (m1 := foldl (λ m path, removePathMappingLocked path m) m ups.*1) in *.
  destruct (remove_under_ok old (range_paths (pathToIno m1)).*1 m1 A1) as (B1 & B2 & B3 & B4).
  { intros p i Hp. apply list_elem_of_fmap. exists (p, i).
    split; [done|]. by apply range_paths_elem. }
  simpl in B1, B2, B3, B4.
  set (m2 := foldl _ m1 _) in *.
  destruct (insert_list_ok ups m2 B1) as (C1 & C2 & C3 & C4 & C5).
  - apply remap_updates_NoDup1, range_paths_NoDup1.
  - by apply remap_updates_NoDup2, range_paths_NoDup2.
  - apply Forall_forall. intros [q i] Hq. simpl.
    pose proof Hq as (p & Hp & Ht)%Hups.
    split; [|split; [|split]].
    + eapply remap_target_within; [exact Ho|exact Hn| |exact Ht]. by apply (io_within _ Hok p i).
    + rewrite B3, A3. by apply (io_range _ Hok p i).
    + rewrite B4, A4. rewrite bool_decide_true; [by case_match|].
      apply list_elem_of_fmap. by exists (q, i).
    + destruct (inoToPath m2 !! i) as [r|] eqn:E; [|done]. exfalso.
      apply (io_inverse _ B1) in E. rewrite B4 in E. destruct (under old r) eqn:Hund; [done|].
      rewrite A4 in E. case_bool_decide; [done|].
      apply (io_inverse _ Hok) in Hp, E. assert (r = p) as -> by congruence.
      by rewrite (remap_target_under _ _ _ _ Ht) in Hund.
  - split; [done|]. split; [|split; [simpl in C3; congruence|split]].
    + eapply same_rest_trans; [exact A2|]. by eapply same_rest_trans.
    + intros p i q Hp Hq. apply C4, Hups. by exists p.
    + intros q Hq. simpl in C5. rewrite C5, B4, A4.
      2: { intros ([q' i] & -> & (p & Hp & Ht)%Hups)%list_elem_of_fmap. by apply (Hq p i). }
      destruct (under old q); [done|]. rewrite bool_decide_false; [done|].
      intros ([q' i] & -> & (p & Hp & Ht)%Hups)%list_elem_of_fmap. by apply (Hq p i).
Qed.
End remap.
End root.

#[export] Hint Resolve same_rest_refl within_root : klitka.
