(* ===== verification/FsrpcHandles.v ===== *)
(** * The handle table of an FS-RPC mount: file ownership

    [owns hs tc g]: the open host files [g] are exactly the files of the
    handles in the table [hs] and of the handles [tc] about to be closed, each
    owned once.  Opening, releasing and garbage collection keep it, so no
    handle is closed twice, used after its close, or leaked. *)
From Stdlib Require Import Sorting.Sorted.
From S2P Require Export FsrpcMount.

Definition files_of (tc : list fsrpcHandle) : list file := omap h_file tc.

Record owns (hs : gmap Z fsrpcHandle) (tc : list fsrpcHandle) (g : gset file) : Prop := {
  ow_file fh h : hs !! fh = Some h → ∃ f, h_file h = Some f ∧ f ∈ g ∧ f ∉ files_of tc;
  ow_inj fh1 fh2 h1 h2 f :
    hs !! fh1 = Some h1 → hs !! fh2 = Some h2 →
    h_file h1 = Some f → h_file h2 = Some f → fh1 = fh2;
  ow_pending f : f ∈ files_of tc → f ∈ g;
  ow_nodup : NoDup (files_of tc);
  ow_all f : f ∈ g → f ∈ files_of tc ∨ ∃ fh h, hs !! fh = Some h ∧ h_file h = Some f
}.

Lemma owns_empty : owns ∅ [] ∅.
Proof. constructor; try set_solver. constructor. Qed.

(** Moving a handle from the table to the handles to be closed. *)
Lemma owns_move hs tc g fh h :
  owns hs tc g → hs !! fh = Some h → owns (delete fh hs) (tc ++ [h]) g.
Proof.
  intros Ho Hh. destruct (ow_file _ _ _ Ho fh h Hh) as (f & Hf & Hg & Hn).
  assert (Hfiles : files_of (tc ++ [h]) = files_of tc ++ [f]).
  { unfold files_of. rewrite omap_app. simpl. by rewrite Hf. }
  constructor; rewrite ?Hfiles.
  - intros fh' h' [Hne H']%lookup_delete_Some.
    destruct (ow_file _ _ _ Ho fh' h' H') as (f' & Hf' & Hg' & Hn').
    exists f'. split; [done|]. split; [done|].
    rewrite not_elem_of_app, list_elem_of_singleton. split; [done|]. intros ->.
    apply Hne. by apply (ow_inj _ _ _ Ho fh fh' h h' f).
  - intros fh1 fh2 h1 h2 f' [_ H1]%lookup_delete_Some [_ H2]%lookup_delete_Some.
    by apply (ow_inj _ _ _ Ho).
  - intros f' [H'|H'%list_elem_of_singleton]%elem_of_app; [|by subst].
    by apply (ow_pending _ _ _ Ho).
  - apply NoDup_app. split; [apply (ow_nodup _ _ _ Ho)|].
    split; [set_solver|apply NoDup_singleton].
  - intros f' Hf'. destruct (ow_all _ _ _ Ho f' Hf') as [?|(fh' & h' & H1 & H2)]; [set_solver|].
    destruct (decide (fh' = fh)) as [->|Hne].
    + left. assert (h' = h) as -> by congruence. assert (f' = f) as -> by congruence. set_solver.
    + right. exists fh', h'. by rewrite lookup_delete_ne.
Qed.

(** Closing the first of them. *)
Lemma owns_close hs h tc g f :
  owns hs (h :: tc) g → h_file h = Some f → f ∈ g ∧ owns hs tc (g ∖ {[f]}).
Proof.
  intros Ho Hf.
  assert (Hfiles : files_of (h :: tc) = f :: files_of tc).
  { unfold files_of. simpl. by rewrite Hf. }
  pose proof (ow_nodup _ _ _ Ho) as Hnd. rewrite Hfiles in Hnd.
  apply NoDup_cons in Hnd as [Hn Hnd].
  split; [apply (ow_pending _ _ _ Ho); rewrite Hfiles; set_solver|].
  constructor; [| | |done|].
  - intros fh h' H'. destruct (ow_file _ _ _ Ho fh h' H') as (f' & ? & ? & Hnot).
    rewrite Hfiles in Hnot. exists f'. set_solver.
  - apply (ow_inj _ _ _ Ho).
  - intros f' H'. pose proof (ow_pending _ _ _ Ho f') as Hp. rewrite Hfiles in Hp. set_solver.
  - intros f' [Hg Hne]%elem_of_difference.
    destruct (ow_all _ _ _ Ho f' Hg) as [H'|?]; [|by right].
    rewrite Hfiles in H'. left. set_solver.
Qed.

Lemma owns_close_none hs h tc g : owns hs (h :: tc) g → h_file h = None → owns hs tc g.
Proof.
  intros Ho Hf.
  assert (Hfiles : files_of (h :: tc) = files_of tc).
  { unfold files_of. simpl. by rewrite Hf. }
  destruct Ho. constructor; rewrite ?Hfiles in *; auto.
Qed.

(** A new file enters the table under a free identifier. *)
Lemma owns_insert hs g fh h f :
  owns hs [] g → f ∉ g → hs !! fh = None → h_file h = Some f →
  owns (<[fh := h]> hs) [] ({[f]} ∪ g).
Proof.
  intros Ho Hg Hh Hf. constructor; try set_solver.
  - intros fh' h'. rewrite lookup_insert. case_decide; intros; simplify_eq.
    + exists f. set_solver.
    + destruct (ow_file _ _ _ Ho fh' h') as (f' & ? & ? & ?); [done|]. exists f'. set_solver.
  - intros fh1 fh2 h1 h2 f'. rewrite !lookup_insert.
    repeat case_decide; intros; simplify_eq; try done.
    + destruct (ow_file _ _ _ Ho fh2 h2) as (f'' & ? & ? & ?); [done|]. congruence.
    + destruct (ow_file _ _ _ Ho fh1 h1) as (f'' & ? & ? & ?); [done|]. congruence.
    + by apply (ow_inj _ _ _ Ho fh1 fh2 h1 h2 f').
  - constructor.
  - intros f' [H'%elem_of_singleton|H']%elem_of_union.
    + subst. right. exists fh, h. by rewrite lookup_insert_eq.
    + destruct (ow_all _ _ _ Ho f' H') as [?|(fh' & h' & H1 & H2)]; [by left|].
      right. exists fh', h'. rewrite lookup_insert_ne; [done|]. congruence.
Qed.

(** Refreshing [lastUsed] (any change that keeps the file). *)
Lemma owns_update hs tc g fh h h' :
  owns hs tc g → hs !! fh = Some h → h_file h' = h_file h → owns (<[fh := h']> hs) tc g.
Proof.
  intros Ho Hh Hf. constructor.
  - intros fh' h''. rewrite lookup_insert. case_decide; intros; simplify_eq.
    + rewrite Hf. by apply (ow_file _ _ _ Ho fh').
    + by apply (ow_file _ _ _ Ho fh').
  - intros fh1 fh2 h1 h2 f. rewrite !lookup_insert.
    repeat case_decide; intros; simplify_eq; try done.
    + rewrite Hf in *. by apply (ow_inj _ _ _ Ho fh1 fh2 h h2 f).
    + rewrite Hf in *. by apply (ow_inj _ _ _ Ho fh1 fh2 h1 h f).
    + by apply (ow_inj _ _ _ Ho fh1 fh2 h1 h2 f).
  - apply (ow_pending _ _ _ Ho).
  - apply (ow_nodup _ _ _ Ho).
  - intros f Hg. destruct (ow_all _ _ _ Ho f Hg) as [?|(fh' & h'' & H1 & H2)]; [by left|].
    right. destruct (decide (fh' = fh)) as [->|].
    + exists fh, h'. rewrite lookup_insert_eq. split; [done|]. congruence.
    + exists fh', h''. by rewrite lookup_insert_ne.
Qed.

(** The table has no more handles than the process has files. *)
Lemma owns_size hs g : owns hs [] g → (size hs ≤ size g)%nat.
Proof.
  intros Ho. set (l := omap (λ e : Z * fsrpcHandle, h_file e.2) (map_to_list hs)).
  assert (Hin : ∀ e, e ∈ map_to_list hs → hs !! e.1 = Some e.2).
  { intros [fh h]. apply elem_of_map_to_list. }
  assert (NoDup l ∧ length l = size hs ∧ ∀ f, f ∈ l → f ∈ g) as (H1 & <- & H3).
  { rewrite <-length_map_to_list. pose proof (NoDup_fst_map_to_list hs) as Hnd. unfold l. clear l.
    induction (map_to_list hs) as [|[fh h] es IH]; simpl; [split; [constructor|set_solver]|].
    apply NoDup_cons in Hnd as [Hn Hnd].
    destruct IH as (I1 & I2 & I3); [set_solver|done|].
    destruct (ow_file _ _ _ Ho fh h) as (f & Hf & Hg & _); [apply (Hin (fh, h)); set_solver|].
    rewrite Hf. simpl. split; [|split; [by rewrite <-I2|set_solver]].
    apply NoDup_cons. split; [|done].
    intros ([fh' h'] & Hin' & Hf')%list_elem_of_omap. simpl in Hf'. apply Hn.
    assert (fh = fh') as ->.
    { apply (ow_inj _ _ _ Ho fh fh' h h' f);
        [apply (Hin (fh, h)); set_solver|apply (Hin (fh', h')); set_solver|done|done]. }
    apply list_elem_of_fmap. by exists (fh', h'). }
  rewrite <-(size_list_to_set (C:=gset file)) by done.
  apply subseteq_size. intros f. rewrite elem_of_list_to_set. apply H3.
Qed.

(** ** Garbage collection of handles *)

(** An iteration order of (part of) the table. *)
Definition order_of (hs : gmap Z fsrpcHandle) (order : list (Z * fsrpcHandle)) : Prop :=
  NoDup order.*1 ∧ ∀ fh h, (fh, h) ∈ order → hs !! fh = Some h.

Lemma order_of_cons hs fh h order :
  order_of hs ((fh, h) :: order) →
  hs !! fh = Some h ∧ fh ∉ order.*1 ∧ order_of hs order ∧ order_of (delete fh hs) order.
Proof.
  intros [Hnd Hin]. simpl in Hnd. apply NoDup_cons in Hnd as [Hn Hnd].
  split; [apply Hin; set_solver|]. split; [done|].
  split; (split; [done|]); intros fh' h' H'.
  - apply Hin. set_solver.
  - rewrite lookup_delete_ne; [apply Hin; set_solver|]. intros ->. apply Hn.
    apply list_elem_of_fmap. by exists (fh', h').
Qed.

Lemma order_of_perm hs l1 l2 : l1 ≡ₚ l2 → order_of hs l2 → order_of hs l1.
Proof.
  intros Hp [H1 H2]. split; [by rewrite Hp|]. intros fh h. rewrite Hp. apply H2.
Qed.

Section gc.
Context `{RTL : GoRuntimeLaws} (cfg : fsrpcConfig).

Lemma range_handles_order hs : order_of hs (range_handles hs).
Proof.
  split.
  - rewrite range_handles_perm. apply NoDup_fst_map_to_list.
  - intros fh h. rewrite range_handles_perm. apply elem_of_map_to_list.
Qed.

Lemma range_handles_elem hs fh h : (fh, h) ∈ range_handles hs ↔ hs !! fh = Some h.
Proof. by rewrite range_handles_perm, elem_of_map_to_list. Qed.

Definition has_file (h : fsrpcHandle) : Prop := is_Some (h_file h).

(** All handles of the table leave it, in any order. *)
Lemma owns_move_all hs tc g order :
  owns hs tc g → order_of hs order → (∀ fh h, hs !! fh = Some h → (fh, h) ∈ order) →
  owns ∅ (tc ++ order.*2) g.
Proof.
  revert hs tc. induction order as [|[fh h] order IH]; intros hs tc Ho Hord Hall.
  - simpl. rewrite app_nil_r. replace ∅ with hs; [done|].
    apply map_eq. intros fh. rewrite lookup_empty.
    destruct (hs !! fh) as [h|] eqn:E; [|done]. apply Hall in E. by apply not_elem_of_nil in E.
  - destruct (order_of_cons _ _ _ _ Hord) as (Hh & Hn & _ & Hord').
    replace (tc ++ ((fh, h) :: order).*2) with ((tc ++ [h]) ++ order.*2)
      by (simpl; by rewrite <-app_assoc).
    apply (IH (delete fh hs)); [by apply owns_move|done|].
    intros fh' h' [Hne H]%lookup_delete_Some. apply Hall in H.
    apply list_elem_of_In in H as [H|H]; [congruence|by apply list_elem_of_In].
Qed.

Lemma owns_all_pending hs g : owns hs [] g → owns ∅ (range_handles hs).*2 g.
Proof.
  intros Ho. apply (owns_move_all hs []); [done|apply range_handles_order|].
  intros. by apply range_handles_elem.
Qed.

Lemma owns_empty_inv g : owns ∅ [] g → g = ∅.
Proof.
  intros Ho. apply leibniz_equiv, elem_of_equiv_empty. intros f Hf.
  by destruct (ow_all _ _ _ Ho f Hf) as [?%not_elem_of_nil|(? & ? & ? & _)].
Qed.

(** The first loop: stale handles leave the table for the closing list. *)
Lemma gc_stale_spec now order hs tc :
  order_of hs order → (∀ fh h, ((fh, h) ∈ order) → has_file h) →
  let r := foldl (gc_stale_step cfg now) (hs, tc) order in
  (∀ fh h, r.1 !! fh = Some h → hs !! fh = Some h
           ∧ ((fh, h) ∈ order → handle_stale cfg now h = false))
  ∧ (∀ fh h, hs !! fh = Some h → handle_stale cfg now h = false → r.1 !! fh = Some h)
  ∧ (∀ g, owns hs tc g → owns r.1 r.2 g).
Proof.
  revert hs tc. induction order as [|[fh h] order IH]; intros hs tc Ho Hf; simpl.
  { split; [set_solver|]. by split. }
  apply order_of_cons in Ho as (Hh & Hn & Ho1 & Ho2).
  destruct (Hf fh h ltac:(set_solver)) as [f Hff]. rewrite Hff.
  assert (Hf' : ∀ fh' h', (fh', h') ∈ order → has_file h') by set_solver.
  destruct (handle_stale cfg now h) eqn:Hst.
  - destruct (IH (delete fh hs) (tc ++ [h]) Ho2 Hf') as (I1 & I2 & I3). split; [|split].
    + intros fh' h' H'. apply I1 in H' as [H' Hs']. apply lookup_delete_Some in H' as [Hne H'].
      split; [done|]. intros [?|?]%elem_of_cons; [congruence|auto].
    + intros fh' h' H' Hs'. apply I2; [|done]. rewrite lookup_delete_ne; congruence.
    + intros g Hg. apply I3. by apply owns_move.
  - destruct (IH hs tc Ho1 Hf') as (I1 & I2 & I3). split; [|by split].
    intros fh' h' H'. apply I1 in H' as [H' Hs']. split; [done|].
    intros [?|?]%elem_of_cons; [congruence|auto].
Qed.

(** Collecting the candidates leaves a table of handles with files alone. *)
Lemma gc_candidates_spec order hs cands :
  (∀ fh h, (fh, h) ∈ order → has_file h) →
  foldl gc_candidate_step (hs, cands) order = (hs, cands ++ order).
Proof.
  revert cands. induction order as [|[fh h] order IH]; intros cands Hf; simpl.
  { by rewrite app_nil_r. }
  destruct (Hf fh h ltac:(set_solver)) as [f ->]. rewrite IH by set_solver.
  by rewrite <-app_assoc.
Qed.

(** The eviction loop removes the first [n] candidates. *)
Lemma gc_evict_spec n cands hs tc :
  order_of hs cands → (n ≤ length cands)%nat →
  let r := gc_evict n cands (hs, tc) in
  (∀ fh h, r.1 !! fh = Some h ↔ hs !! fh = Some h ∧ fh ∉ (take n cands).*1)
  ∧ (size r.1 + n = size hs)%nat
  ∧ (∀ g, owns hs tc g → owns r.1 r.2 g).
Proof.
  revert cands hs tc. induction n as [|n IH]; intros cands hs tc Ho Hlen.
  { assert (gc_evict 0 cands (hs, tc) = (hs, tc)) as -> by (by destruct cands).
    simpl. split; [|by split]. set_solver. }
  destruct cands as [|[fh h] cands]; [simpl in Hlen; lia|].
  apply order_of_cons in Ho as (Hh & Hn & _ & Ho). simpl. rewrite Hh.
  destruct (IH cands (delete fh hs) (tc ++ [h]) Ho) as (I1 & I2 & I3); [simpl in Hlen; lia|].
  split; [|split].
  - intros fh' h'. rewrite I1, lookup_delete_Some, not_elem_of_cons. naive_solver.
  - rewrite map_size_delete_Some in I2 by eauto.
    assert (size hs ≠ 0%nat) by (intros E; apply map_size_empty_inv in E; by subst).
    lia.
  - intros g Hg. apply I3. by apply owns_move.
Qed.

(** *** The whole collection *)
Lemma sorted_take_drop {A} (R : A → A → Prop) n (l : list A) x y :
  StronglySorted R l → x ∈ take n l → y ∈ drop n l → R x y.
Proof.
  revert n. induction l as [|a l IH]; intros [|n] Hs; simpl; try set_solver.
  inversion Hs as [|?? Hs' Hall]; subst. intros [->|Hx]%elem_of_cons Hy.
  - rewrite Forall_forall in Hall. apply Hall. rewrite <-(take_drop n l). set_solver.
  - by apply (IH n).
Qed.

(** What one collection does, for every iteration order and every sort. *)
Record gc_result (now : Z) (m : fsrpcMount) (tc : list fsrpcHandle) (m' : fsrpcMount)
    (g : gset file) : Prop := {
  gr_rest : m' = set_handles (handles m') m;
  gr_sub : handles m' ⊆ handles m;
  gr_owns : owns (handles m') tc g;
  gr_fresh fh h : handles m' !! fh = Some h → handle_stale cfg now h = false;
  gr_cap : 0 < fsrpcMaxHandleEntries cfg →
           Z.of_nat (size (handles m')) ≤ fsrpcMaxHandleEntries cfg;
  gr_lru fh h : handles m !! fh = Some h → handle_stale cfg now h = false →
           handles m' !! fh = None →
           Z.of_nat (size (handles m')) = fsrpcMaxHandleEntries cfg
           ∧ ∀ fh' h', handles m' !! fh' = Some h' → h_lastUsed h ≤ h_lastUsed h'
}.

Lemma gcHandlesLocked_result now m g tc m' :
  owns (handles m) [] g → gcHandlesLocked cfg now m = (tc, m') → gc_result now m tc m' g.
Proof.
  intros Ho. unfold gcHandlesLocked.
  assert (Hfile : ∀ fh h, handles m !! fh = Some h → has_file h).
  { intros fh h H. destruct (ow_file _ _ _ Ho fh h H) as (f & ? & _). by exists f. }
  case_bool_decide as Hsz.
  { intros; simplify_eq. apply map_size_empty_inv in Hsz. constructor; rewrite ?Hsz.
    - destruct m'; simpl in *; by subst.
    - done.
    - by rewrite Hsz in Ho.
    - intros fh h H. by rewrite lookup_empty in H.
    - rewrite map_size_empty. lia.
    - intros fh h H. by rewrite lookup_empty in H. }
  destruct (gc_stale_spec now (range_handles (handles m)) (handles m) [])
    as (S1 & S2 & S3); [apply range_handles_order| |].
  { intros fh h H%range_handles_elem. by eapply Hfile. }
  destruct (foldl _ (handles m, []) _) as [hs tc1]. simpl in *.
  assert (Hsub : hs ⊆ handles m) by (apply map_subseteq_spec; intros fh h H; by apply S1).
  assert (Hfr : ∀ fh h, hs !! fh = Some h → handle_stale cfg now h = false).
  { intros fh h H. pose proof (S1 _ _ H) as [Hm Hst]. apply Hst. by apply range_handles_elem. }
  destruct (_ && _) eqn:Hcap.
  2: { intros; simplify_eq/=. constructor; simpl; try done.
       - by apply S3.
       - intros Hpos. apply andb_false_iff in Hcap as [H|H]; apply Z.ltb_ge in H; lia.
       - intros fh h H1 H2 H3. pose proof (S2 _ _ H1 H2). congruence. }
  apply andb_true_iff in Hcap as [Hpos Hcap]. apply Z.ltb_lt in Hpos, Hcap.
  rewrite gc_candidates_spec.
  2: { intros fh h H%range_handles_elem. eapply Hfile. by apply S1. }
  simpl. set (cands := sort_lastUsed (range_handles hs)).
  set (n := Z.to_nat (Z.of_nat (size hs) - fsrpcMaxHandleEntries cfg)).
  assert (Hperm : cands ≡ₚ range_handles hs) by apply sort_lastUsed_perm.
  assert (Hlen : length cands = size hs).
  { rewrite Hperm, range_handles_perm. apply length_map_to_list. }
  destruct (gc_evict_spec n cands hs tc1) as (E1 & E2 & E3);
    [apply (order_of_perm _ _ _ Hperm), range_handles_order|lia|].
  destruct (gc_evict n cands (hs, tc1)) as [hs' tc2]. simpl in *. intros; simplify_eq/=.
  assert (Hsz' : Z.of_nat (size hs') = fsrpcMaxHandleEntries cfg) by lia.
  constructor; simpl; try done.
  - apply map_subseteq_spec. intros fh h H. apply E1 in H as [H _]. by apply S1.
  - by apply E3, S3.
  - intros fh h H. apply E1 in H as [H _]. by eapply Hfr.
  - lia.
  - intros fh h H1 H2 H3. split; [done|]. intros fh' h' H'.
    apply E1 in H' as [H' Hn'].
    assert (Hin : ∀ fh h, hs !! fh = Some h → (fh, h) ∈ cands)
      by (intros; by rewrite Hperm, range_handles_elem).
    assert (Hx : (fh, h) ∈ take n cands).
    { assert (Hh : hs !! fh = Some h) by (by apply S2).
      destruct (decide (fh ∈ (take n cands).*1)) as [Hk|Hk].
      - apply list_elem_of_fmap in Hk as ([k h2] & -> & Hk). simpl in *.
        assert ((k, h2) ∈ cands) as Hc by (rewrite <-(take_drop n cands); set_solver).
        rewrite Hperm, range_handles_elem in Hc. congruence.
      - exfalso. assert (hs' !! fh = Some h) by (by apply E1). congruence. }
    assert (Hy : (fh', h') ∈ drop n cands).
    { pose proof (Hin _ _ H') as Hc. rewrite <-(take_drop n cands) in Hc.
      apply elem_of_app in Hc as [Hc|Hc]; [|done]. exfalso. apply Hn'.
      apply list_elem_of_fmap. by exists (fh', h'). }
    apply (sorted_take_drop used_le n cands (fh, h) (fh', h')); [|done..].
    apply sort_lastUsed_sorted.
Qed.
End gc.

(** ** Handle identifiers *)

(** The [k]-th identifier tried from [x]. *)
Definition fh_at (x : Z) (k : nat) : Z := 1 + (x - 1 + Z.of_nat k) mod (two64 - 1).

Lemma bump_fh_at x k : 1 ≤ x < two64 → bump_fh (fh_at x k) = fh_at x (S k).
Proof.
  unfold bump_fh, fh_at, uint64_of, two64. intros Hx.
  pose proof (Z.mod_pos_bound (x - 1 + Z.of_nat k) (18446744073709551616 - 1) ltac:(lia)).
  rewrite Nat2Z.inj_succ. replace (x - 1 + Z.succ (Z.of_nat k)) with (x - 1 + Z.of_nat k + 1) by lia.
  set (r := (x - 1 + Z.of_nat k) mod (18446744073709551616 - 1)) in *.
  rewrite (Z.add_mod (x - 1 + Z.of_nat k) 1) by lia. fold r.
  rewrite (Z.mod_small 1 (18446744073709551616 - 1)) by lia.
  destruct (decide (r = 18446744073709551616 - 2)) as [->|].
  - by vm_compute.
  - rewrite (Z.mod_small (1 + r + 1)) by lia. rewrite (Z.mod_small (r + 1)) by lia.
    destruct (1 + r + 1 =? 0) eqn:E; lia.
Qed.

Lemma fh_at_range x k : 1 ≤ fh_at x k < two64.
Proof.
  unfold fh_at, two64.
  pose proof (Z.mod_pos_bound (x - 1 + Z.of_nat k) (18446744073709551616 - 1) ltac:(lia)). lia.
Qed.

Lemma fh_at_0 x : 1 ≤ x < two64 → fh_at x 0 = x.
Proof. unfold fh_at, two64. intros. rewrite Z.mod_small; lia. Qed.

Lemma fh_at_inj x j k :
  Z.of_nat j < two64 - 1 → Z.of_nat k < two64 - 1 → fh_at x j = fh_at x k → j = k.
Proof.
  unfold fh_at, two64. intros Hj Hk E.
  assert (E' : (x - 1 + Z.of_nat j) mod (18446744073709551616 - 1)
               = (x - 1 + Z.of_nat k) mod (18446744073709551616 - 1)) by lia.
  clear E. pose proof (Z.div_mod (x - 1 + Z.of_nat j) (18446744073709551616 - 1) ltac:(lia)).
  pose proof (Z.div_mod (x - 1 + Z.of_nat k) (18446744073709551616 - 1) ltac:(lia)). nia.
Qed.

(** The loop stops at the first free identifier it tries; while it does not,
    all those tried are taken. *)
Lemma nextHandleID_loop_spec x fuel k m :
  1 ≤ x < two64 → nextFH m = fh_at x (S k) →
  match nextHandleID_loop fuel (fh_at x k) m with
  | Some (fh, m') =>
      handles m !! fh = None ∧ 1 ≤ fh < two64 ∧ ∃ n, m' = set_nextFH n m ∧ 1 ≤ n < two64
  | None => ∀ j, (k ≤ j < k + fuel)%nat → is_Some (handles m !! fh_at x j)
  end.
Proof.
  intros Hx. revert k m. induction fuel as [|fuel IH]; intros k m Hnx; simpl; [lia|].
  destruct (handles m !! fh_at x k) as [h|] eqn:E.
  - specialize (IH (S k) (set_nextFH (bump_fh (nextFH m)) m)).
    rewrite Hnx. simpl in IH. rewrite Hnx in IH.
    specialize (IH (bump_fh_at x (S k) Hx)).
    destruct (nextHandleID_loop fuel (fh_at x (S k)) _) as [[fh m']|].
    + destruct IH as (H1 & H2 & n & -> & H3). split; [done|]. split; [done|]. by exists n.
    + intros j Hj. destruct (decide (j = k)) as [->|]; [by eexists|]. apply IH. lia.
  - split; [done|]. split; [apply fh_at_range|]. exists (nextFH m).
    split; [by destruct m|]. rewrite Hnx. apply fh_at_range.
Qed.

(** [nextHandleIDLocked] returns a free, non-zero identifier whenever fewer
    than [2^64 - 1] handles are open: its loop terminates. *)
Lemma nextHandleIDLocked_free m :
  1 ≤ nextFH m < two64 → Z.of_nat (size (handles m)) < two64 - 1 →
  ∃ fh n, nextHandleIDLocked m = Some (fh, set_nextFH n m)
    ∧ handles m !! fh = None ∧ 1 ≤ fh < two64 ∧ 1 ≤ n < two64.
Proof.
  intros Hx Hsz. unfold nextHandleIDLocked.
  pose proof (nextHandleID_loop_spec (nextFH m) (S (size (handles m))) 0
                (set_nextFH (bump_fh (nextFH m)) m) Hx) as Hl.
  rewrite fh_at_0 in Hl by done. simpl nextFH in Hl.
  specialize (Hl ltac:(rewrite <-(fh_at_0 (nextFH m)) at 1 by done; by apply bump_fh_at)).
  destruct (nextHandleID_loop _ _ _) as [[fh m']|] eqn:E.
  - destruct Hl as (H1 & H2 & n & -> & H3). exists fh, n. by split.
  - exfalso. simpl handles in Hl.
    assert (Hsub : list_to_set (fh_at (nextFH m) <$> seq 0 (S (size (handles m))))
              ⊆ dom (handles m)).
    { intros y. rewrite elem_of_list_to_set. intros (j & -> & Hj)%list_elem_of_fmap.
      apply elem_of_seq in Hj. apply elem_of_dom, Hl. lia. }
    apply subseteq_size in Hsub. rewrite size_list_to_set in Hsub.
    + rewrite length_fmap, length_seq, size_dom in Hsub. lia.
    + apply NoDup_fmap_2_strong; [|apply NoDup_seq].
      intros j k Hj%elem_of_seq Hk%elem_of_seq. apply fh_at_inj; lia.
Qed.
