(* ===== verification/FsrpcSafe.v ===== *)
(** * Every FS-RPC operation keeps the mount safe

    The contract of the calls ([fs_call_ok]): they name only paths within the
    mount's root, on a read-only mount none changes the host's files, and they
    use only files the mount has open.  [ok n m g]: the state of a mount whose
    open files are [g] and whose next inode number is at most [n].  One lemma
    per handler, in the weakest-precondition calculus of [HostOS], shows that
    it makes only such calls and ends in such a state, whatever the host
    answers; [handle_safe] puts them together. *)
From Stdlib Require Import Ascii.
From S2P Require Export FsrpcOps FsrpcInodes FsrpcHandles.

(** A mount mode other than [RO] and [UNSPECIFIED] is writable. *)
Definition mode_ro (md : Z) : bool :=
  (if md =? MountMode.UNSPECIFIED then MountMode.RO else md) =? MountMode.RO.

Lemma readOnly_mode m : readOnly m = mode_ro (mount_mode m).
Proof. done. Qed.

Lemma no_intent_read_only flags :
  hasWriteIntent flags = false → flags_read_only (osOpenFlagsFromLinux flags) = true.
Proof.
  unfold hasWriteIntent, flags_read_only, osOpenFlagsFromLinux, flag_set. simpl.
  destruct (Z.land flags linuxOAccMode =? 0) eqn:E1; [|done]. simpl.
  destruct (Z.land flags linuxOCreat =? 0) eqn:E2; [|done].
  destruct (Z.land flags linuxOTrunc =? 0) eqn:E3; [|done].
  destruct (Z.land flags linuxOAppend =? 0) eqn:E4; [|done]. intros _.
  apply Z.eqb_eq in E1. by rewrite E1.
Qed.

(** The most inode numbers one request can take. *)
Definition ino_step : Z := two32 + 1.

Section safe.
Context (rcs : list string) (Hrcs : Forall good rcs) (Hne : rcs ≠ []).
Context (md : Z) (Pn : Prop).

Definition fs_call_ok (ro : bool) (B : Type) (g : gset file) (c : oscall B) : Prop :=
  Forall (within rcs) (call_paths c)
  ∧ (ro = true → call_mutates c = false)
  ∧ (∀ f, call_file c = Some f → f ∈ g).

Lemma fs_call_ok_Now ro g : fs_call_ok ro Z g Now.
Proof. split; [constructor|]. by split. Qed.

Record ok (n : Z) (m : fsrpcMount) (g : gset file) : Prop := {
  ok_inodes : inodes_ok rcs m;
  ok_owns : owns (handles m) [] g;
  ok_fh : 1 ≤ nextFH m < two64;
  ok_mode : mount_mode m = md;
  ok_budget : nextIno m ≤ n
}.

Abbreviation WP := (wpm (fs_call_ok (mode_ro md)) Pn).

Lemma ok_mono n n' m g : ok n m g → n ≤ n' → ok n' m g.
Proof. intros []. constructor; auto. lia. Qed.

(** An update of the inode table alone. *)
Lemma ok_inodes_update n n' m m' g :
  ok n m g → inodes_ok rcs m' → same_rest m m' → nextIno m' ≤ n' → ok n' m' g.
Proof.
  intros [] Hi (H1 & H2 & H3 & H4 & H5) Hn. constructor; rewrite ?H2, ?H3, ?H4; auto.
Qed.

Lemma ok_ro n m g : ok n m g → readOnly m = mode_ro md.
Proof. intros Ho. by rewrite readOnly_mode, (ok_mode _ _ _ Ho). Qed.

(** *** Rules for the building blocks *)
Lemma WP_path_call {B} (c : oscall B) m g (Q : B → fsrpcMount → gset file → Prop) :
  Forall (within rcs) (call_paths c) → (mode_ro md = true → call_mutates c = false) →
  call_file c = None →
  (∀ b, call_answer_ok c g b → Q b m (call_opens c b g)) →
  WP (oscall_ c) m g Q.
Proof.
  intros H1 H2 H3 HQ. apply wpm_call; [|done]. split; [done|]. split; [done|].
  by rewrite H3.
Qed.

Lemma WP_pathForInode n i m g (Q : option string → fsrpcMount → gset file → Prop) :
  ok n m g → (∀ p, (∀ q, p = Some q → within rcs q) → Q p m g) →
  WP (m_pathForInode i) m g Q.
Proof.
  intros Ho HQ. apply wpm_bind, wpm_get, wpm_ret. apply HQ.
  intros q Hq. by apply (io_path_within rcs m i q (ok_inodes _ _ _ Ho)).
Qed.

(** [g'] is what the program has open; the handles own [g] of it. *)
Lemma WP_ensureInode n path m g g' (Q : Z → fsrpcMount → gset file → Prop) :
  ok n m g → within rcs path → n + 1 < two64 →
  (∀ i m', ok (n + 1) m' g → Q i m' g') →
  WP (m_ensureInode path) m g' Q.
Proof.
  intros Ho Hw Hb HQ. apply wpm_bind, wpm_get. destruct (ensureInode path m) as [i m'] eqn:E.
  apply wpm_bind. unfold put, wpm at 1. simpl. apply HQ.
  pose proof (ok_budget _ _ _ Ho).
  destruct (ensureInode_ok rcs Hrcs path m i m' (ok_inodes _ _ _ Ho) Hw ltac:(lia) E)
    as (H1 & H2 & H3 & _).
  eapply ok_inodes_update; [done..|lia].
Qed.

Lemma WP_resolve n parent name m g (Q : string * Z * string → fsrpcMount → gset file → Prop) :
  ok n m g → within rcs parent →
  (∀ t e msg, (e = 0 → within rcs t) → Q (t, e, msg) m g) →
  WP (m_resolveChildPath parent name) m g Q.
Proof.
  intros Ho (cs & -> & Hc) HQ. apply wpm_bind, wpm_get, wpm_ret.
  rewrite (resolveChildPath_within rcs Hrcs) by (done || apply (ok_inodes _ _ _ Ho)).
  case_bool_decide; [by apply HQ|]. destruct (has_char slash name) eqn:E; [by apply HQ|].
  apply HQ. intros _. eexists. split; [done|]. by apply child_comps_good.
Qed.

Lemma WP_register n f flags ino now m g (Q : Z → fsrpcMount → gset file → Prop) :
  ok n m g → f ∉ g → Z.of_nat (size g) < two32 →
  (∀ fh m', ok n m' ({[f]} ∪ g) → Q fh m' ({[f]} ∪ g)) →
  WP (register_handle f flags ino now) m ({[f]} ∪ g) Q.
Proof.
  intros Ho Hf Hsz HQ. apply wpm_bind, wpm_get.
  pose proof (owns_size _ _ (ok_owns _ _ _ Ho)) as Hs.
  destruct (nextHandleIDLocked_free m (ok_fh _ _ _ Ho)) as (fh & k & -> & Hfree & Hr & Hk);
    [unfold two32, two64 in *; lia|].
  apply wpm_bind. unfold put, wpm at 1. simpl. apply HQ.
  destruct Ho as [Hi Hw _ Hm Hb]. constructor; simpl; auto.
  - by eapply inodes_ok_ext; [..|exact Hi].
  - by apply owns_insert.
Qed.

Lemma WP_getHandle n fh m g (Q : option fsrpcHandle → fsrpcMount → gset file → Prop) :
  ok n m g →
  (∀ h m', ok n m' g → (∀ h' f, h = Some h' → h_file h' = Some f → f ∈ g) → Q h m' g) →
  WP (getHandle fh) m g Q.
Proof.
  intros Ho HQ. apply wpm_bind, wpm_get. destruct (handles m !! fh) as [h|] eqn:E.
  2: { apply wpm_ret. by apply HQ. }
  apply wpm_bind, WP_path_call; [by constructor|done..|]. intros now _.
  apply wpm_bind, wpm_modify, wpm_ret. apply HQ.
  - unfold touch. rewrite E. destruct Ho as [Hi Hw Hf Hm Hb]. constructor; simpl; auto.
    + by eapply inodes_ok_ext; [..|exact Hi].
    + by eapply owns_update.
  - intros h' f ? Hf; simplify_eq.
    destruct (ow_file _ _ _ (ok_owns _ _ _ Ho) fh h' E) as (f' & ? & ? & _). congruence.
Qed.

(** Closing a handle that left the table. *)
Lemma WP_one_close h tc m g hs (Q : () → fsrpcMount → gset file → Prop) :
  owns hs (h :: tc) g → (∀ g', owns hs tc g' → Q () m g') →
  WP (match h_file h with Some f => oscall_ (CloseFile f) | None => mret () end) m g Q.
Proof.
  intros Hw HQ. destruct (h_file h) as [f|] eqn:E.
  - destruct (owns_close _ _ _ _ _ Hw E) as [Hg Hw'].
    apply wpm_call; [|intros [] _; by apply HQ].
    split; [by constructor|]. split; [done|]. intros f' Hf. simpl in Hf. by simplify_eq.
  - apply wpm_ret, HQ. by eapply owns_close_none.
Qed.

Lemma WP_close_all tc m g hs (Q : () → fsrpcMount → gset file → Prop) :
  owns hs tc g → (∀ g', owns hs [] g' → Q () m g') →
  WP (close_all tc) m g Q.
Proof.
  revert g. induction tc as [|h tc IH]; intros g Hw HQ.
  { apply wpm_ret. by apply HQ. }
  apply wpm_bind. eapply WP_one_close; [exact Hw|]. intros g' Hg'. by apply IH.
Qed.

Lemma WP_closeHandle n fh m g (Q : option fsrpcHandle → fsrpcMount → gset file → Prop) :
  ok n m g → (∀ h m' g', ok n m' g' → Q h m' g') → WP (closeHandle fh) m g Q.
Proof.
  intros Ho HQ. apply wpm_bind, wpm_get. destruct (handles m !! fh) as [h|] eqn:E.
  2: { apply wpm_ret. by apply HQ. }
  apply wpm_bind, wpm_modify, wpm_bind.
  assert (Hin : inodes_ok rcs (set_handles (delete fh (handles m)) m))
    by (eapply inodes_ok_ext; [..|apply (ok_inodes _ _ _ Ho)]; done).
  pose proof (owns_move _ _ _ _ _ (ok_owns _ _ _ Ho) E) as Hmv. simpl in Hmv.
  apply (WP_one_close h [] _ _ _ _ Hmv). intros g' Hg'. apply wpm_ret, HQ.
  destruct Ho. by constructor.
Qed.

(** *** Garbage collection *)
Section gc.
Context `{RTL : GoRuntimeLaws} (cfg : fsrpcConfig).

(** [ok] with handles waiting to be closed. *)
Definition okp (n : Z) (tc : list fsrpcHandle) (m : fsrpcMount) (g : gset file) : Prop :=
  inodes_ok rcs m ∧ owns (handles m) tc g ∧ 1 ≤ nextFH m < two64 ∧ mount_mode m = md
  ∧ nextIno m ≤ n.

Lemma okp_remove n tc q m g : okp n tc m g → okp n tc (removePathMappingLocked q m) g.
Proof.
  intros (Hi & Hw & Hf & Hm & Hb).
  destruct (removePathMappingLocked_ok rcs q m Hi) as (H1 & (E1 & E2 & E3 & E4 & _) & H3 & _).
  unfold okp. by rewrite E2, E3, E4, H3.
Qed.

Lemma ok_remove n q m g : ok n m g → ok n (removePathMappingLocked q m) g.
Proof.
  intros []. destruct (okp_remove n [] q m g) as (? & ? & ? & ? & ?); [by split_and!; auto; lia|].
  by constructor.
Qed.

Lemma ok_remap n old new m g :
  ok n m g → within rcs old → within rcs new → ok n (remapPath old new m) g.
Proof.
  intros Ho H1 H2. destruct (remapPath_ok rcs Hrcs Hne old new m (ok_inodes _ _ _ Ho) H1 H2)
    as (A1 & A2 & A3 & _).
  eapply ok_inodes_update; [done..|]. rewrite A3. apply (ok_budget _ _ _ Ho).
Qed.

Lemma WP_gc_inodes_loop n tc pins order m g (Q : () → fsrpcMount → gset file → Prop) :
  okp n tc m g → (∀ m', okp n tc m' g → Q () m' g) →
  (∀ p i, (p, i) ∈ order → within rcs p) →
  WP (gc_inodes_loop cfg pins order) m g Q.
Proof.
  revert m. induction order as [|[p i] order IH]; intros m Hm HQ Hord.
  { by apply wpm_ret, HQ. }
  apply wpm_bind, wpm_get.
  assert (IH' : ∀ m, okp n tc m g → WP (gc_inodes_loop cfg pins order) m g Q).
  { intros m' Hm'. apply IH; [done..|]. intros. eapply Hord. by right. }
  case_match; [by apply wpm_ret, HQ|]. case_bool_decide; [by apply IH'|].
  case_match; [apply wpm_bind, wpm_modify, IH'; by apply okp_remove|].
  apply wpm_bind, WP_path_call; simpl; [|done..|].
  { constructor; [|constructor]. apply (Hord p i). by left. }
  intros r _. apply wpm_bind. destruct r as [|e]; [by apply wpm_ret, IH'|].
  destruct (IsNotExist e); [apply wpm_modify, IH'; by apply okp_remove|by apply wpm_ret, IH'].
Qed.

Lemma WP_maybeGC n now m g (Q : () → fsrpcMount → gset file → Prop) :
  ok n m g → (∀ m' g', ok n m' g' → Q () m' g') → WP (maybeGC cfg now) m g Q.
Proof.
  intros Ho HQ. apply wpm_bind, wpm_get. case_match; [by apply wpm_ret, HQ|].
  apply wpm_bind, wpm_modify, wpm_bind, wpm_get.
  destruct (gcHandlesLocked cfg now (set_lastGC now m)) as [tc m'] eqn:E.
  destruct (gcHandlesLocked_result cfg now (set_lastGC now m) g tc m' (ok_owns _ _ _ Ho) E)
    as [Hrest Hsub Hown _ _ _].
  apply wpm_bind. unfold put, wpm at 1. simpl.
  assert (Hp : okp n tc m' g).
  { destruct Ho as [Hi _ Hf Hm Hb]. rewrite Hrest. split_and!; simpl; auto; try lia.
    by eapply inodes_ok_ext; [..|exact Hi]. }
  apply wpm_bind.
  assert (Hclose : ∀ m1, okp n tc m1 g → WP (close_all tc) m1 g Q).
  { intros m1 (Hi & Hw & Hf & Hm & Hb). eapply WP_close_all; [exact Hw|].
    intros g' Hg'. apply HQ. by constructor. }
  apply wpm_bind, wpm_get. case_match; [by apply wpm_ret, Hclose|].
  eapply WP_gc_inodes_loop; [exact Hp|exact Hclose|].
  intros p i Hpi%range_paths_elem. by apply (io_within _ _ (proj1 Hp) p i).
Qed.

(** [fsrpcMount.close] closes everything the mount has open. *)
Lemma WP_mount_close n m g :
  ok n m g → WP mount_close m g (λ _ m' g', handles m' = ∅ ∧ g' = ∅).
Proof.
  intros Ho. apply wpm_bind, wpm_get, wpm_bind, wpm_modify.
  eapply WP_close_all; [by apply (owns_all_pending _ _ (ok_owns _ _ _ Ho))|].
  intros g' Hg'. split; [done|]. by apply owns_empty_inv.
Qed.
End gc.
End safe.
