(* ===== verification/FsrpcHandlers.v ===== *)
(** * Every FS-RPC operation keeps the mount safe: the handlers

    One lemma per handler, in the calculus of [FsrpcSafe]: whatever the guest
    asks and the host answers, the handler's host calls satisfy [fs_call_ok]
    and it ends in an [ok] state.  [handle_safe] puts them together for the
    dispatcher, with the garbage collection every request starts with. *)
From Stdlib Require Import Ascii.
From S2P Require Export FsrpcSafe.

(** One step of symbolic execution of a handler. *)
Ltac wp_within :=
  repeat match goal with
         | H : ∀ q, Some ?p = Some q → within _ q |- _ => specialize (H p eq_refl)
         end;
  repeat (apply List.Forall_cons; [solve [eauto]|]); try apply List.Forall_nil.

Ltac wp_done :=
  solve [apply wpm_ret; first [eassumption | eapply ok_mono; [eassumption|unfold ino_step, two32; lia]]].

Ltac wp_step :=
  cbv zeta;
  match goal with
  | |- wpm _ _ (fail _ _) _ _ _ => wp_done
  | |- wpm _ _ (answer _) _ _ _ => wp_done
  | |- wpm _ _ (fail_os _) _ _ _ => wp_done
  | |- wpm _ _ (m_pathForInode _ ≫= _) _ _ _ =>
      apply wpm_bind; eapply WP_pathForInode; [eassumption|];
      let p := fresh "p" in let Hp := fresh "Hp" in intros [p|] Hp
  | |- wpm _ _ (oscall_ _ ≫= _) _ _ _ =>
      apply wpm_bind; apply WP_path_call; [cbn [call_paths]; wp_within
        |first [done | congruence | (intros; simpl; congruence)] |done|];
      let b := fresh "b" in let Hb := fresh "Hb" in intros b Hb;
      cbn [call_answer_ok call_opens] in Hb |- *
  | |- wpm _ _ (m_resolveChildPath _ _ ≫= _) _ _ _ =>
      apply wpm_bind; eapply WP_resolve; [done|eassumption|wp_within; eassumption|];
      let t := fresh "t" in let e := fresh "e" in let msg := fresh "msg" in
      let Ht := fresh "Ht" in intros t e msg Ht
  | |- wpm _ _ (if negb (?e =? 0) then _ else _) _ _ _ =>
      let E := fresh "E" in destruct (e =? 0) eqn:E; [apply Z.eqb_eq in E|]; simpl negb; cbv iota
  | |- wpm _ _ (get ≫= _) _ _ _ => apply wpm_bind, wpm_get
  | |- wpm _ _ (match ?x with _ => _ end) _ _ _ => let E := fresh "E" in destruct x eqn:E
  end.

Section handlers.
Context (rcs : list string) (Hrcs : Forall good rcs) (Hne : rcs ≠ []).
Context (md : Z) (Pn : Prop).

#[local] Abbreviation OK := (ok rcs md).
#[local] Abbreviation WP := (wpm (fs_call_ok rcs (mode_ro md)) Pn).

(** A request keeps the mount safe. *)
Definition req_safe (k : M fsrpcMount reply) : Prop :=
  ∀ n m g, OK n m g → n + ino_step < two64 →
  WP k m g (λ _ m' g', OK (n + ino_step) m' g').

Lemma handleLookup_safe req : req_safe (handleLookup req).
Proof.
  intros n m g Ho Hb. unfold handleLookup. unfold ino_step, two32 in Hb.
  repeat wp_step. apply wpm_bind. eapply WP_ensureInode; [done|eassumption|auto|lia|].
  intros. wp_step.
Qed.

Lemma handleGetattr_safe req : req_safe (handleGetattr req).
Proof. intros n m g Ho Hb. unfold handleGetattr. by repeat wp_step. Qed.
(** *** [handleReaddir] *)
Lemma within_child dir name : within rcs dir → good name → within rcs (PathJoin [dir; name]).
Proof.
  intros (cs & -> & Hc) Hn. exists (cs ++ [name]). split.
  - rewrite PathJoin_good; [by rewrite app_assoc|by apply Forall_app|done].
  - apply Forall_app. split; [done|]. by constructor.
Qed.

Lemma within_Dir dir : within rcs dir → dir ≠ abs_path rcs → within rcs (Dir dir).
Proof.
  intros (cs & -> & Hc) Hn. exists (reverse (tail (reverse cs))). split.
  - apply Dir_within; [done..|]. intros ->. by rewrite app_nil_r in Hn.
  - apply Forall_reverse. apply Forall_reverse in Hc. destruct Hc; simpl; auto.
Qed.

Lemma WP_readdir_entries dir es : ∀ n m g (Q : list obj → fsrpcMount → gset file → Prop),
  OK n m g → within rcs dir → Forall (λ e, entry_name_ok (de_name e)) es →
  n + Z.of_nat (length es) < two64 →
  (∀ items m', length items = length es → OK (n + Z.of_nat (length es)) m' g → Q items m' g) →
  WP (readdir_entries dir es) m g Q.
Proof.
  induction es as [|e es IH]; intros n m g Q Ho Hw Hes Hb HQ.
  { apply wpm_ret, HQ; [done|]. by rewrite Z.add_0_r. }
  inversion Hes; subst. simpl length in *. apply wpm_bind.
  eapply WP_ensureInode; [done|exact Ho|by apply within_child|lia|]. intros i m' Ho'.
  apply wpm_bind. eapply IH; [exact Ho'|done..|lia|]. intros items m'' Hl Ho''.
  apply wpm_ret, HQ; [by simpl; rewrite Hl|]. eapply ok_mono; [exact Ho''|lia].
Qed.

(** The page of entries requested: [end] does not wrap around. *)
Definition sane_max_entries (req : obj) : Prop :=
  ∀ z, getReqUint req "max_entries" = Some z → z < 4611686018427387904.

Lemma sane_max req : obj_ok req → sane_max_entries req →
  0 ≤ match getReqUint req "max_entries" with
      | None => 128 | Some n => if n =? 0 then 128 else n
      end < 4611686018427387904.
Proof.
  intros Ho Hs. destruct (getReqUint req "max_entries") as [z|] eqn:E; [|lia].
  pose proof (getReqUint_range _ _ _ Ho E) as [? _]. specialize (Hs z E).
  case_match; lia.
Qed.

Lemma readdir_slice_Some entries offset max :
  0 ≤ max < 4611686018427387904 → Z.of_nat (length entries) < 4611686018427387904 →
  is_Some (readdir_slice entries offset max).
Proof.
  intros Hm Hl. unfold readdir_slice.
  set (start := if int64_of offset <? 0 then 0 else int64_of offset).
  assert (Hstart : 0 ≤ start) by (unfold start; case_match; lia). clearbody start.
  destruct (Z.of_nat (length entries) <=? start) eqn:Hs; [by eexists|]. apply Z.leb_gt in Hs.
  rewrite (int64_of_small max) by (unfold i64_range, two63; lia).
  rewrite (int64_of_small (start + max)) by (unfold i64_range, two63; lia).
  assert (∀ e, start ≤ e < two63 → (int64_of (e - start) <? 0) = false) as Hcap.
  { unfold two63. intros e He. rewrite int64_of_small by (unfold i64_range, two63; lia).
    apply Z.ltb_ge. lia. }
  rewrite Hcap; [by eexists|]. unfold two63.
  case_match eqn:E; rewrite ?Z.ltb_lt, ?Z.ltb_ge in E; lia.
Qed.

Lemma handleReaddir_safe req :
  obj_ok req → Pn ∨ sane_max_entries req → req_safe (handleReaddir req).
Proof.
  intros Hreq Hsane n m g Ho Hb. unfold handleReaddir. unfold ino_step, two32 in Hb.
  destruct (getReqUint req "ino") as [ino|]; [|wp_step].
  pose proof (sane_max req Hreq) as Hmax.
  set (max := match getReqUint req "max_entries" with None => _ | Some _ => _ end) in *.
  generalize (default 0 (getReqUint req "offset")). intros offset. cbv zeta.
  wp_step; [|wp_step]. wp_step. wp_step; [|wp_step]. wp_step; [wp_step|].
  wp_step. wp_step; [|wp_step]. destruct Hb1 as [Hnames Hlen].
  wp_step. clearbody max.
  apply wpm_bind, (wpm_mono _ _ _ _ _ (λ _ m' g', OK (n + 1) m' g' ∧ g' = g)).
  2: { case_bool_decide as Hr; [apply wpm_ret; split; [|done]; eapply ok_mono; [done|lia]|].
       eapply WP_ensureInode; [done|exact Ho| |lia|by intros].
       apply within_Dir; [by apply Hp|]. by rewrite <-(io_root _ _ (ok_inodes _ _ _ _ _ Ho)). }
  intros pino m' g' [Ho' ->]. apply wpm_bind.
  eapply WP_readdir_entries; [exact Ho'|by apply Hp|exact Hnames|unfold two32 in *; lia|].
  intros items m'' Hitems Ho''.
  match goal with |- context [readdir_slice ?e ?o ?mx] =>
    pose proof (λ Hm, readdir_slice_Some e o mx Hm) as Hslice; destruct (readdir_slice e o mx)
  end.
  { apply wpm_ret. eapply ok_mono; [exact Ho''|unfold ino_step, two32 in *; lia]. }
  apply wpm_panic. destruct Hsane as [|Hsane]; [done|]. exfalso.
  destruct (Hslice (Hmax Hsane)) as [? ?]; [|done].
  simpl length. unfold two32 in *. lia.
Qed.

(** *** Handles *)
Lemma handleOpen_safe req : req_safe (handleOpen req).
Proof.
  intros n m g Ho Hb. unfold handleOpen.
  destruct (getReqUint req "ino") as [ino|]; [|wp_step]. wp_step.
  rewrite (ok_ro _ _ _ _ _ Ho).
  destruct (mode_ro md && hasWriteIntent _) eqn:Hro; [wp_step|].
  repeat wp_step. apply wpm_bind, WP_path_call; [cbn; wp_within| |done|].
  { intros Hr. rewrite Hr in Hro. simpl in Hro |- *. by rewrite no_intent_read_only. }
  intros [f|] Hf; [|wp_step]. destruct Hf as [Hf Hsz]. cbn [call_opens].
  wp_step. apply wpm_bind. eapply WP_register; [exact Ho|done|done|].
  intros. wp_step.
Qed.

Lemma handleRead_safe req : req_safe (handleRead req).
Proof.
  intros n m g Ho Hb. unfold handleRead. do 2 (wp_step; [|wp_step]).
  cbv zeta. apply wpm_bind. eapply WP_getHandle; [exact Ho|].
  intros h m' Ho' Hf. destruct (h ≫= h_file) as [f|] eqn:Ef; [|wp_step].
  apply wpm_bind, wpm_call.
  { apply bind_Some in Ef as (h' & -> & Ef). split; [constructor|]. split; [done|].
    intros f' ?. simplify_eq/=. by apply (Hf h'). }
  intros [data err] _. repeat wp_step.
Qed.

Lemma handleRelease_safe req : req_safe (handleRelease req).
Proof.
  intros n m g Ho Hb. unfold handleRelease. wp_step; [|wp_step].
  apply wpm_bind. eapply WP_closeHandle; [exact Ho|]. intros h m' g' Ho'. repeat wp_step.
Qed.

Lemma handleWrite_safe req : mode_ro md = false → req_safe (handleWrite req).
Proof.
  intros Hro n m g Ho Hb. unfold handleWrite. do 3 (wp_step; [|wp_step]).
  apply wpm_bind. eapply WP_getHandle; [exact Ho|].
  intros h m' Ho' Hf. destruct h as [h|]; [|wp_step]. destruct (h_file h) as [f|] eqn:Ef; [|wp_step].
  apply wpm_bind.
  assert (Hin : f ∈ g) by (by apply (Hf h)).
  assert (Hr : ∀ r : osres goerr Z, WP (try written := r catch e => fail_os e in
            answer [("size", VU64 (uint64_of written))]) m' g (λ _ m' g', OK (n + ino_step) m' g'))
    by (intros [?|?]; wp_step).
  case_match; apply wpm_call; try (intros; apply Hr);
    (split; [constructor|split; [congruence|]]; intros f' ?; by simplify_eq/=).
Qed.

(** *** Operations on names *)
Lemma handleCreate_safe req : mode_ro md = false → req_safe (handleCreate req).
Proof.
  intros Hro n m g Ho Hb. unfold handleCreate. unfold ino_step, two32 in Hb.
  repeat wp_step.
  { repeat case_match; simplify_eq; wp_step. }
  destruct Hb2 as [Hf Hsz].
  match goal with |- context [FileStat ?x] => rename x into f end.
  apply wpm_bind, wpm_call.
  { split; [constructor|]. split; [done|]. intros f' ?. simplify_eq/=. set_solver. }
  intros [info|e'] _; cbn [call_opens].
  - apply wpm_bind. eapply WP_ensureInode; [done|exact Ho|auto|lia|]. intros i m' Ho'.
    wp_step. apply wpm_bind. eapply WP_register; [exact Ho'|done|done|]. intros. wp_step.
  - apply wpm_bind, wpm_call.
    { split; [constructor|]. split; [done|]. intros f' ?. simplify_eq/=. set_solver. }
    intros b2 _. cbn [call_opens].
    replace (({[f]} ∪ g) ∖ {[f]}) with g by (apply leibniz_equiv; set_solver). wp_step.
Qed.

Lemma handleMkdir_safe req : mode_ro md = false → req_safe (handleMkdir req).
Proof.
  intros Hro n m g Ho Hb. unfold handleMkdir. unfold ino_step, two32 in Hb.
  repeat wp_step. apply wpm_bind. eapply WP_ensureInode; [done|eassumption|auto|lia|].
  intros. wp_step.
Qed.

Lemma handleUnlink_safe req : mode_ro md = false → req_safe (handleUnlink req).
Proof.
  intros Hro n m g Ho Hb. unfold handleUnlink.
  repeat wp_step. apply wpm_bind, wpm_modify. 
  apply wpm_ret. eapply ok_mono; [by apply ok_remove|unfold ino_step, two32; lia].
Qed.

Lemma handleTruncate_safe req : mode_ro md = false → req_safe (handleTruncate req).
Proof. intros Hro n m g Ho Hb. unfold handleTruncate. by repeat wp_step. Qed.

Section runtime.
Context `{RTL : GoRuntimeLaws} (cfg : fsrpcConfig).

Lemma handleRename_safe req : mode_ro md = false → req_safe (handleRename req).
Proof.
  intros Hro n m g Ho Hb. unfold handleRename. repeat wp_step.
  apply wpm_bind, wpm_modify, wpm_ret.
  eapply ok_mono; [by apply ok_remap; auto|unfold ino_step, two32; lia].
Qed.

(** Of any operation, whatever the request holds; the panic is excluded only
    for a [readdir] whose page size is sane. *)
Theorem handle_safe op req :
  obj_ok req → Pn ∨ sane_max_entries req → req_safe (handle cfg op req).
Proof.
  intros Hreq Hsane n m g Ho Hb. apply wpm_bind, WP_path_call; [constructor|done..|].
  intros now _. apply wpm_bind. eapply WP_maybeGC; [done|exact Ho|].
  intros m' g' Ho'. apply wpm_bind, wpm_get. cbv zeta.
  assert (Hmut : ∀ k, (mode_ro md = false → req_safe (k req)) →
    WP (if readOnly m' then fail linuxErrROFS "read-only mount" else k req) m' g'
       (λ _ m' g', OK (n + ino_step) m' g')).
  { intros k Hk. pose proof (ok_ro _ _ _ _ _ Ho') as Hr. revert Hr.
    destruct (readOnly m'); intros Hr; [wp_step|by apply Hk]. }
  repeat (case_bool_decide; [first
    [ by eapply handleLookup_safe | by eapply handleGetattr_safe
    | by eapply handleReaddir_safe | by eapply handleOpen_safe | by eapply handleRead_safe
    | by eapply handleRelease_safe | wp_done
    | apply Hmut; intros; first
      [ by apply handleWrite_safe | by apply handleCreate_safe | by apply handleMkdir_safe
      | by apply handleUnlink_safe | by apply handleRename_safe
      | by apply handleTruncate_safe ] ] |]).
  wp_step.
Qed.
End runtime.
End handlers.
