(* ===== verification/FsrpcServer.v ===== *)
(** * The FS-RPC server ([daemon/fsrpc_server.go])

    The loop of [fsrpcServer.serve]: read a frame, decode the request, let the
    mount handle it, write the response, count it; and what happens when the
    connection ends, while no other goroutine closes the server.  The connection's input is the list of bytes the guest
    has sent, its output goes through a parameter ([Conn]); the codec is the
    parameter [Codec] of [Wire]. *)
From Stdlib Require Import Ascii.
From stdpp Require Export sorting.
From S2P Require Export FsrpcHandlers.

(** ** Metrics *)
Record fsrpcOpMetrics := {
  om_count : Z;
  om_errors : Z;
  om_reqBytes : Z;
  om_resBytes : Z;
  om_latencyTotal : Z;
  om_latencyMax : Z
}.

Record fsrpcServerMetrics := {
  started : Z;
  totalRequests : Z;
  totalErrors : Z;
  totalReqBytes : Z;
  totalResBytes : Z;
  ops : gmap string fsrpcOpMetrics
}.

Definition zero_op_metrics : fsrpcOpMetrics :=
  {| om_count := 0; om_errors := 0; om_reqBytes := 0; om_resBytes := 0;
     om_latencyTotal := 0; om_latencyMax := 0 |}.

Definition newFSRPCServerMetrics (now : Z) : fsrpcServerMetrics :=
  {| started := now; totalRequests := 0; totalErrors := 0; totalReqBytes := 0;
     totalResBytes := 0; ops := ∅ |}.

(** [x++] and [x += n] on a [uint64]. *)
Definition incr (x : Z) : Z := uint64_of (x + 1).
Definition add_pos (x n : Z) : Z := if 0 <? n then uint64_of (x + n) else x.

Definition observe (op : string) (reqBytes resBytes errCode latency : Z)
    (ms : fsrpcServerMetrics) : fsrpcServerMetrics :=
  let failed := negb (errCode =? 0) in
  let o := default zero_op_metrics (ops ms !! op) in
  let o := {|
    om_count := incr (om_count o);
    om_errors := if failed then incr (om_errors o) else om_errors o;
    om_reqBytes := add_pos (om_reqBytes o) reqBytes;
    om_resBytes := add_pos (om_resBytes o) resBytes;
    om_latencyTotal := int64_of (om_latencyTotal o + latency);
    om_latencyMax := if om_latencyMax o <? latency then latency else om_latencyMax o |} in
  {| started := started ms;
     totalRequests := incr (totalRequests ms);
     totalErrors := if failed then incr (totalErrors ms) else totalErrors ms;
     totalReqBytes := add_pos (totalReqBytes ms) reqBytes;
     totalResBytes := add_pos (totalResBytes ms) resBytes;
     ops := <[op := o]> (ops ms) |}.

(** [sort.Strings]: byte order. *)
Definition str_le (a b : string) : Prop := String.leb a b = true.
#[global] Instance str_le_dec a b : Decision (str_le a b).
Proof. unfold str_le. apply _. Defined.
Definition sort_Strings (l : list string) : list string := merge_sort str_le l.

Definition milliseconds (d : Z) : Z := Z.quot d 1000000.

Definition format_op (name : string) (stat : fsrpcOpMetrics) : string :=
  let avg := if 0 <? om_count stat
             then Z.quot (milliseconds (om_latencyTotal stat)) (int64_of (om_count stat))
             else 0 in
  name +:+ "[count=" +:+ Itoa (om_count stat) +:+ " errors=" +:+ Itoa (om_errors stat)
  +:+ " avg_ms=" +:+ Itoa avg +:+ " max_ms=" +:+ Itoa (milliseconds (om_latencyMax stat))
  +:+ " req_bytes=" +:+ Itoa (om_reqBytes stat)
  +:+ " res_bytes=" +:+ Itoa (om_resBytes stat) +:+ "]".

Definition formatFSRPCOpMetrics (metrics : gmap string fsrpcOpMetrics) : string :=
  if bool_decide (size metrics = 0%nat) then "-"
  else
    let names := sort_Strings (map_to_list metrics).*1 in
    Join (map (λ name, format_op name (default zero_op_metrics (metrics !! name))) names) ",".

(** ** Requests *)
Record fsrpcRequest := { req_id : Z; req_op : string; req_args : obj }.

Section code.
Context `{Codec}.

Definition request_of (raw : obj) : osres decode_error fsrpcRequest :=
  let typ := default "" (as_text (assoc "t" raw)) in
  if negb (bool_decide (typ = "fs_request")) then Bad (UnexpectedType typ) else
  try id := readUint32 (assoc "id" raw) catch e => Bad e in
  let? payload := as_obj (assoc "p" raw) or Bad MissingPayload in
  let op := default "" (as_text (assoc "op" payload)) in
  if bool_decide (TrimSpace op = "") then Bad MissingOp else
  let args := default [] (as_obj (assoc "req" payload)) in
  Good {| req_id := id; req_op := op; req_args := args |}.

Definition decodeFSRPCRequest (frame : list byte) : osres decode_error fsrpcRequest :=
  try raw := Unmarshal frame catch e => Bad (CborError e) in request_of raw.

Definition shouldLogFSRPCOpError (op : string) (errCode : Z) : bool :=
  if (errCode =? linuxErrNoent)
     && bool_decide (op ∈ ["lookup"; "open"; "getattr"; "unlink"; "rename"; "read";
                           "truncate"; "release"]) then false
  else if (errCode =? linuxErrExist) && bool_decide (op ∈ ["create"; "mkdir"]) then false
  else true.

(** The message [sendResponse] marshals. *)
Definition response_msg (id : Z) (op : string) (errCode : Z) (res : option obj)
    (message : string) : obj :=
  [("v", VU64 1); ("t", VText "fs_response"); ("id", VU32 id);
   ("p", VObj [("op", VText op); ("err", VI32 errCode);
               ("res", match res with Some r => VObj r | None => VNil end);
               ("message", if bool_decide (message = "") then VNil else VText message)])].
End code.

(** ** The connection *)
Class ConnOS (CS : Type) := {
  (** [conn.Write(data)]: the number of bytes taken and the error *)
  conn_write : list byte → CS → (Z * option string) * CS;
  (** [conn.Close()] *)
  conn_close : CS → CS
}.

(** What the server logs. *)
Inductive log_line :=
| LogSummary (mount : string) (requests errors req_bytes res_bytes uptime_ms : Z)
    (ops : string)
| LogDecodeError (mount : string) (err : decode_error) (frame_bytes : Z)
| LogOpError (mount op : string) (req_id errno : Z) (message : string)
| LogSendError (mount op : string) (req_id : Z) (err : string).

Record fsrpcServer (CS : Type) := {
  sv_input : list byte;         (* what the guest sent and is not read yet *)
  sv_conn : CS;
  sv_mount : fsrpcMount;
  sv_metrics : fsrpcServerMetrics;
  sv_closed : bool;             (* closeOnce *)
  sv_log : list log_line
}.
Arguments sv_input {CS}. Arguments sv_conn {CS}. Arguments sv_mount {CS}.
Arguments sv_metrics {CS}. Arguments sv_closed {CS}. Arguments sv_log {CS}.

(** What ends [serve] with a non-nil error. *)
Inductive serve_error :=
| SRead (e : read_error)
| SDecode (e : decode_error)
| SSend (e : string).

Section server.
Context `{RT : GoRuntime} `{C : Codec} `{OS : ConnOS CS} (cfg : fsrpcConfig).

Definition newFSRPCServer (conn : CS) (input : list byte) (mount : fsrpcMount) (now : Z)
    : fsrpcServer CS :=
  {| sv_input := input; sv_conn := conn; sv_mount := mount;
     sv_metrics := newFSRPCServerMetrics now; sv_closed := false; sv_log := [] |}.

Definition set_input (i : list byte) (s : fsrpcServer CS) : fsrpcServer CS :=
  {| sv_input := i; sv_conn := sv_conn s; sv_mount := sv_mount s;
     sv_metrics := sv_metrics s; sv_closed := sv_closed s; sv_log := sv_log s |}.
Definition set_conn (c : CS) (s : fsrpcServer CS) : fsrpcServer CS :=
  {| sv_input := sv_input s; sv_conn := c; sv_mount := sv_mount s;
     sv_metrics := sv_metrics s; sv_closed := sv_closed s; sv_log := sv_log s |}.
Definition set_mount (m : fsrpcMount) (s : fsrpcServer CS) : fsrpcServer CS :=
  {| sv_input := sv_input s; sv_conn := sv_conn s; sv_mount := m;
     sv_metrics := sv_metrics s; sv_closed := sv_closed s; sv_log := sv_log s |}.
Definition set_metrics (ms : fsrpcServerMetrics) (s : fsrpcServer CS) : fsrpcServer CS :=
  {| sv_input := sv_input s; sv_conn := sv_conn s; sv_mount := sv_mount s;
     sv_metrics := ms; sv_closed := sv_closed s; sv_log := sv_log s |}.
Definition set_closed (s : fsrpcServer CS) : fsrpcServer CS :=
  {| sv_input := sv_input s; sv_conn := sv_conn s; sv_mount := sv_mount s;
     sv_metrics := sv_metrics s; sv_closed := true; sv_log := sv_log s |}.
Definition add_log (l : log_line) (s : fsrpcServer CS) : fsrpcServer CS :=
  {| sv_input := sv_input s; sv_conn := sv_conn s; sv_mount := sv_mount s;
     sv_metrics := sv_metrics s; sv_closed := sv_closed s; sv_log := sv_log s ++ [l] |}.

(** Code of the mount, run by the server. *)
Definition on_mount {A} : M fsrpcMount A → M (fsrpcServer CS) A := zoom sv_mount set_mount.

(** *** Sending *)
Definition conn_write_ (data : list byte) : M (fsrpcServer CS) (Z * option string) :=
  s ← get;
  let '(r, c) := conn_write data (sv_conn s) in
  _ ← put (set_conn c s);
  mret r.

(** Each turn of the loop takes at least one byte of [data], so its length is
    fuel enough ([writeAllConn_total]). *)
Fixpoint writeAllConn (fuel : nat) (data : list byte) : M (fsrpcServer CS) (option string) :=
  match data with
  | [] => mret None
  | _ =>
      match fuel with
      | O => panic "writeAllConn: out of fuel"
      | S k =>
          '(n, err) ← conn_write_ data;
          match err with
          | Some e => mret (Some e)
          | None =>
              if n <=? 0 then mret (Some "short write")
              else if Z.of_nat (length data) <? n then panic "slice bounds out of range"
              else writeAllConn k (drop (Z.to_nat n) data)
          end
      end
  end.

(** The error, or the length of the frame sent. *)
Definition sendResponse (id : Z) (op : string) (errCode : Z) (res : option obj)
    (message : string) : M (fsrpcServer CS) (osres string Z) :=
  try encoded := Marshal (response_msg id op errCode res message)
    catch e => mret (Bad e) in
  let frame := encode_frame encoded in
  err ← writeAllConn (length frame) frame;
  match err with
  | Some e => mret (Bad e)
  | None => mret (Good (Z.of_nat (length frame)))
  end.

(** *** The loop

    [None]: out of fuel; [Some None]: the connection ended; [Some (Some e)]:
    an error.  Each turn reads at least four bytes ([serve_total]). *)
Fixpoint serve_loop (fuel : nat) : M (fsrpcServer CS) (option (option serve_error)) :=
  match fuel with
  | O => mret None
  | S k =>
      s ← get;
      match readFrame (sv_input s) with
      | Bad ReadEOF | Bad ReadClosed => mret (Some None)
      | Bad e => mret (Some (Some (SRead e)))
      | Good (frame, rest) =>
          _ ← modify (set_input rest);
          let frame_len := Z.of_nat (length frame) in
          match decodeFSRPCRequest frame with
          | Bad e =>
              _ ← modify (add_log (LogDecodeError (root (sv_mount s)) e frame_len));
              mret (Some (Some (SDecode e)))
          | Good req =>
              start ← oscall_ Now;
              '(res, errCode, message) ← on_mount (handle cfg (req_op req) (req_args req));
              _ ← (if negb (errCode =? 0) && shouldLogFSRPCOpError (req_op req) errCode
                   then modify (add_log (LogOpError (root (sv_mount s)) (req_op req)
                                           (req_id req) errCode message))
                   else mret ());
              sent ← sendResponse (req_id req) (req_op req) errCode res message;
              now ← oscall_ Now;
              match sent with
              | Bad e =>
                  _ ← modify (λ s, set_metrics (observe (req_op req) frame_len 0 linuxErrIO
                                      (now - start) (sv_metrics s)) s);
                  _ ← modify (add_log (LogSendError (root (sv_mount s)) (req_op req)
                                         (req_id req) e));
                  mret (Some (Some (SSend e)))
              | Good responseBytes =>
                  _ ← modify (λ s, set_metrics (observe (req_op req) frame_len responseBytes
                                      errCode (now - start) (sv_metrics s)) s);
                  serve_loop k
              end
          end
      end
  end.

(** [Close], once. *)
Definition server_Close : M (fsrpcServer CS) () :=
  s ← get;
  if sv_closed s then mret ()
  else
    _ ← modify set_closed;
    _ ← on_mount mount_close;
    modify (λ s, set_conn (conn_close (sv_conn s)) s).

(** [serve] with its deferred calls, the last deferred first. *)
Definition serve : M (fsrpcServer CS) (option (option serve_error)) :=
  s ← get;
  r ← serve_loop (S (length (sv_input s)));
  now ← oscall_ Now;
  _ ← modify (λ s,
        let ms := sv_metrics s in
        add_log (LogSummary (root (sv_mount s)) (totalRequests ms) (totalErrors ms)
                   (totalReqBytes ms) (totalResBytes ms) (milliseconds (now - started ms))
                   (formatFSRPCOpMetrics (ops ms))) s);
  _ ← server_Close;
  mret r.
End server.
