(* ===== verification/FsrpcSession.v ===== *)
(** * A whole FS-RPC session

    What [serve] does over the life of a connection, for every byte stream a
    guest sends: its host calls stay within the mount's root, a read-only
    mount's files do not change, every file it opens it closes, and it ends. *)
From Stdlib Require Import Ascii.
From S2P Require Export FsrpcServer.

(** The connection never claims to have taken more bytes than it was given. *)
Class ConnLaws {CS} (OS : ConnOS CS) := conn_write_le data c :
  (conn_write data c).1.1 ≤ Z.of_nat (length data).

Section session.
Context `{RTL : GoRuntimeLaws} `{CL : CodecLaws} `{OS : ConnOS CS} (cfg : fsrpcConfig).
Context (rcs : list string) (Hrcs : Forall good rcs) (Hne : rcs ≠ []) (md : Z) (Pn : Prop).

#[local] Abbreviation WP := (wpm (fs_call_ok rcs (mode_ro md)) Pn).
Implicit Types s : fsrpcServer CS.

Lemma decodeFSRPCRequest_ok frame req :
  decodeFSRPCRequest frame = Good req → obj_ok (req_args req).
Proof.
  unfold decodeFSRPCRequest. destruct (Unmarshal frame) as [raw|] eqn:E; [|done].
  apply Unmarshal_ok in E. unfold request_of. case_match; [done|]. case_match; [|done].
  destruct (as_obj (assoc "p" raw)) as [payload|] eqn:Ep; [|done].
  assert (as_obj_ok : ∀ o k o', obj_ok o → as_obj (assoc k o) = Some o' → obj_ok o').
  { intros o k o' Ho. destruct (assoc k o) as [v|] eqn:Ev; [|done].
    destruct v; try done. intros [= ->]. apply value_ok_obj. by eapply assoc_ok. }
  case_match; [done|]. intros; simplify_eq/=.
  destruct (as_obj (assoc "req" payload)) as [args|] eqn:Ea; simpl; [|constructor].
  eapply as_obj_ok; [|exact Ea]. by eapply as_obj_ok.
Qed.

(** *** Sending *)
Lemma WP_writeAllConn fuel data s g (Q : option string → fsrpcServer CS → gset file → Prop) :
  Pn ∨ ConnLaws OS → (length data ≤ fuel)%nat →
  (∀ r c, Q r (set_conn c s) g) → WP (writeAllConn fuel data) s g Q.
Proof.
  intros Hpn. revert data s Q. induction fuel as [|k IH]; intros data s Q Hlen HQ.
  { destruct data; [|simpl in Hlen; lia]. apply wpm_ret.
    replace s with (set_conn (sv_conn s) s) by (by destruct s). apply HQ. }
  destruct data as [|b data'] eqn:Hd.
  { apply wpm_ret. replace s with (set_conn (sv_conn s) s) by (by destruct s). apply HQ. }
  rewrite <-Hd in *. assert (Hpos : (0 < length data)%nat) by (subst; simpl; lia).
  replace (writeAllConn (S k) data) with
    (conn_write_ data ≫= λ '(n, err), match err with
       | Some e => mret (Some e)
       | None => if n <=? 0 then mret (Some "short write")
                 else if Z.of_nat (length data) <? n then panic "slice bounds out of range"
                 else writeAllConn k (drop (Z.to_nat n) data)
       end : M (fsrpcServer CS) (option string)) by (by subst).
  clear b data' Hd. apply wpm_bind, wpm_bind, wpm_get.
  destruct (conn_write data (sv_conn s)) as [[n err] c] eqn:Ew.
  apply wpm_bind. unfold put, wpm at 1. simpl. apply wpm_ret.
  destruct err; [by apply wpm_ret|].
  destruct (n <=? 0) eqn:Hn; [by apply wpm_ret|]. apply Z.leb_gt in Hn.
  destruct (Z.of_nat (length data) <? n) eqn:Hm.
  - apply wpm_panic. destruct Hpn as [|Hle]; [done|]. exfalso.
    pose proof (Hle data (sv_conn s)) as Hle'. rewrite Ew in Hle'. simpl in Hle'.
    apply Z.ltb_lt in Hm. lia.
  - apply IH; [rewrite length_drop; lia|]. intros r c'. apply (HQ r c').
Qed.

Lemma WP_sendResponse id op e res msg s g
    (Q : osres string Z → fsrpcServer CS → gset file → Prop) :
  Pn ∨ ConnLaws OS → (∀ r c, Q r (set_conn c s) g) → WP (sendResponse id op e res msg) s g Q.
Proof.
  intros Hpn HQ. unfold sendResponse. destruct (Marshal _) as [enc|err].
  2: { apply wpm_ret. replace s with (set_conn (sv_conn s) s) by (by destruct s). apply HQ. }
  apply wpm_bind, WP_writeAllConn; [done..|]. intros [err|] c; apply wpm_ret, HQ.
Qed.

(** *** The loop *)

(** The requests the server can come to read from a stream are sane. *)
Definition next_stream (i r : list byte) : Prop := ∃ frame, readFrame i = Good (frame, r).
Definition sane_stream (i : list byte) : Prop :=
  ∀ i' frame r req, star next_stream i i' → readFrame i' = Good (frame, r) →
  decodeFSRPCRequest frame = Good req → sane_max_entries (req_args req).

Lemma sane_stream_next i frame r :
  readFrame i = Good (frame, r) → sane_stream i → sane_stream r.
Proof.
  intros Hr Hs i' frame' r' req Hst. apply (Hs i'). eapply star_step; [|exact Hst].
  by exists frame.
Qed.

Definition session_ok n s g : Prop := ok rcs md n (sv_mount s) g.

Lemma WP_serve_loop fuel : ∀ n s g,
  session_ok n s g → Pn ∨ (ConnLaws OS ∧ sane_stream (sv_input s)) →
  n + Z.of_nat (length (sv_input s)) * ino_step < two64 → (length (sv_input s) < fuel)%nat →
  WP (serve_loop cfg fuel) s g (λ r s' g',
    r ≠ None ∧ ∃ n', session_ok n' s' g' ∧ sv_closed s' = sv_closed s).
Proof.
  induction fuel as [|k IH]; intros n s g Ho Hpn Hb Hf; [lia|].
  apply wpm_bind, wpm_get. destruct (readFrame (sv_input s)) as [[frame rest]|e] eqn:Er.
  2: { destruct e; apply wpm_ret; eauto. }
  pose proof (readFrame_shorter _ _ _ Er) as Hshort.
  apply wpm_bind, wpm_modify. cbv zeta.
  destruct (decodeFSRPCRequest frame) as [req|e] eqn:Ed.
  2: { apply wpm_bind, wpm_modify, wpm_ret. eauto. }
  apply wpm_bind, wpm_call; [apply fs_call_ok_Now|]. intros start _.
  assert (Hargs := decodeFSRPCRequest_ok _ _ Ed).
  assert (Hstep : n + ino_step < two64) by (unfold ino_step, two32, two64 in *; nia).
  assert (Hsane : Pn ∨ sane_max_entries (req_args req)).
  { destruct Hpn as [|[_ Hs]]; [by left|right]. eapply Hs; [apply star_refl|done..]. }
  apply wpm_bind, wpm_zoom.
  eapply wpm_mono;
    [|exact (handle_safe rcs Hrcs Hne md Pn cfg (req_op req) (req_args req) Hargs Hsane
               n _ g Ho Hstep)].
  intros [[res errCode] message] m' g' Ho'. apply wpm_bind.
  assert (Hrest : ∀ s1, sv_mount s1 = m' → sv_input s1 = rest → sv_closed s1 = sv_closed s →
    WP (sent ← sendResponse (req_id req) (req_op req) errCode res message;
        now ← oscall_ Now;
        match sent with
        | Bad e =>
            _ ← modify (λ s, set_metrics (observe (req_op req) (Z.of_nat (length frame)) 0
                                linuxErrIO (now - start) (sv_metrics s)) s);
            _ ← modify (add_log (LogSendError (root (sv_mount s)) (req_op req) (req_id req) e));
            mret (Some (Some (SSend e)))
        | Good responseBytes =>
            _ ← modify (λ s, set_metrics (observe (req_op req) (Z.of_nat (length frame))
                                responseBytes errCode (now - start) (sv_metrics s)) s);
            serve_loop cfg k
        end) s1 g' (λ r s' g'', r ≠ None
          ∧ ∃ n', session_ok n' s' g'' ∧ sv_closed s' = sv_closed s)).
  { intros s1 Hm Hi Hc. apply wpm_bind, WP_sendResponse; [tauto|]. intros sent c.
    apply wpm_bind, wpm_call; [apply fs_call_ok_Now|]. intros now _.
    destruct sent as [rb|e].
    - apply wpm_bind, wpm_modify. eapply wpm_mono; [|eapply (IH (n + ino_step))].
      + simpl. intros r s' g'' [? (n' & ? & ->)]. eauto.
      + unfold session_ok. simpl. by rewrite Hm.
      + simpl. rewrite Hi. destruct Hpn as [|[? Hs]]; [by left|right]. split; [done|].
        by eapply sane_stream_next.
      + simpl. rewrite Hi. unfold ino_step, two32, two64 in *. nia.
      + simpl. rewrite Hi. lia.
    - apply wpm_bind, wpm_modify, wpm_bind, wpm_modify, wpm_ret. split; [done|].
      exists (n + ino_step). split; [|done]. unfold session_ok. simpl. by rewrite Hm. }
  case_match; [apply wpm_modify|apply wpm_ret]; by apply Hrest.
Qed.

(** [Close], and [serve] with its deferred calls. *)
Lemma WP_server_Close n s g :
  session_ok n s g → sv_closed s = false →
  WP server_Close s g (λ _ s' g', handles (sv_mount s') = ∅ ∧ g' = ∅ ∧ sv_closed s' = true).
Proof.
  intros Ho Hc. apply wpm_bind, wpm_get. rewrite Hc.
  apply wpm_bind, wpm_modify, wpm_bind, wpm_zoom.
  eapply wpm_mono; [|by eapply WP_mount_close]. intros _ m' g' [Hh Hg].
  by apply wpm_modify.
Qed.

Lemma WP_serve n s g :
  session_ok n s g → sv_closed s = false → Pn ∨ (ConnLaws OS ∧ sane_stream (sv_input s)) →
  n + Z.of_nat (length (sv_input s)) * ino_step < two64 →
  WP (serve cfg) s g (λ r s' g', r ≠ None ∧ handles (sv_mount s') = ∅ ∧ g' = ∅
                                 ∧ sv_closed s' = true).
Proof.
  intros Ho Hc Hpn Hb. apply wpm_bind, wpm_get, wpm_bind.
  eapply wpm_mono; [|eapply WP_serve_loop; [exact Ho|done|done|lia]].
  intros r s' g' (Hr & n' & Ho' & Hc'). cbv beta.
  apply wpm_bind, wpm_call; [apply fs_call_ok_Now|]. intros now _.
  apply wpm_bind, wpm_modify, wpm_bind.
  eapply wpm_mono; [|eapply (WP_server_Close n'); [exact Ho'|by simpl; rewrite Hc']].
  intros [] s'' g'' (? & ? & ?). by apply wpm_ret.
Qed.
End session.

(** ** The initial state *)
Section init.
Context (rcs : list string) (Hrcs : Forall good rcs).

Lemma newFSRPCMount_root getwd now rt md :
  IsAbs rt = true → Clean rt = abs_path rcs → root (newFSRPCMount getwd now rt md) = abs_path rcs.
Proof.
  intros Ha Hr. unfold newFSRPCMount, Abs. rewrite Ha. simpl. rewrite Hr.
  by apply Clean_abs_path.
Qed.

Lemma newFSRPCMount_ok getwd now rt md :
  IsAbs rt = true → Clean rt = abs_path rcs → ok rcs md 2 (newFSRPCMount getwd now rt md) ∅.
Proof.
  intros Ha Hr. pose proof (newFSRPCMount_root getwd now rt md Ha Hr) as Hroot. simpl in Hroot.
  constructor; simpl; [|apply owns_empty|unfold two64; lia|done|lia].
  constructor; simpl; rewrite ?Hroot; [done| | | |lia].
  - intros p i. rewrite !lookup_singleton_Some. naive_solver.
  - intros p i [<- <-]%lookup_singleton_Some. apply within_root.
  - intros p i [<- <-]%lookup_singleton_Some. lia.
Qed.
End init.
