(* ===== verification/MemHost.v ===== *)
(** * A concrete host

    Instances of the parameters of the development: an in-memory file system
    with directories, files and symbolic links, an iteration order and a sort,
    a codec that decodes from a table, a connection that takes every byte.
    They are not models of code of the repository: theorems stated for every
    host, runtime and codec are evaluated on them. *)
From Stdlib Require Import Ascii.
From stdpp Require Import sorting.
From S2P Require Export FsrpcSession.

(** ** The file system *)
Inductive node :=
| NDir
| NFile (content : list byte)
| NLink (target : string).

Record memfs := {
  nodes : gmap string node;    (* by canonical path; "/" is a directory *)
  fds : gmap nat string;
  nextfd : nat;
  clock : Z
}.

Definition set_nodes (n : gmap string node) (s : memfs) : memfs :=
  {| nodes := n; fds := fds s; nextfd := nextfd s; clock := clock s |}.

Definition ENOENT (op path : string) : goerr :=
  EPath op path (EErrno 2 "no such file or directory").
Definition ENOTDIR (op path : string) : goerr := EPath op path (EErrno 20 "not a directory").
Definition EEXIST (op path : string) : goerr := EPath op path (EErrno 17 "file exists").
(** The canonical path of a path: symbolic links on the way are followed, the
    last element's only if [follow]. *)
Fixpoint resolve (fuel : nat) (ns : gmap string node) (follow : bool) (done todo : list string)
    : osres Z (list string) :=
  match fuel with
  | O => Bad 40
  | S k =>
      match todo with
      | [] => Good done
      | c :: cs =>
          if bool_decide (c = "" ∨ c = ".") then resolve k ns follow done cs
          else if bool_decide (c = "..")
          then resolve k ns follow (reverse (tail (reverse done))) cs
          else
            let next := done ++ [c] in
            match ns !! abs_path next with
            | None => match cs with [] => Good next | _ => Bad 2 end
            | Some NDir => resolve k ns follow next cs
            | Some (NFile _) => match cs with [] => Good next | _ => Bad 20 end
            | Some (NLink t) =>
                match cs, follow with
                | [], false => Good next
                | _, _ => resolve k ns follow (if IsAbs t then [] else done)
                            (Split t slash ++ cs)
                end
            end
      end
  end.

Definition canonical (ns : gmap string node) (follow : bool) (op path : string)
    : osres goerr string :=
  match resolve 100 ns follow [] (Split path slash) with
  | Good cs => Good (abs_path cs)
  | Bad n => Bad (EPath op path (EErrno n "path resolution failed"))
  end.

Definition node_at (ns : gmap string node) (p : string) : option node :=
  if bool_decide (p = "/") then Some NDir else ns !! p.

Definition info_of (n : node) : file_info :=
  match n with
  | NDir => FileInfo (ModeDir + 493) 0 0
  | NFile c => FileInfo 420 (Z.of_nat (length c)) 0
  | NLink _ => FileInfo (ModeSymlink + 511) 0 0
  end.

Definition mem_Lstat (op : string) (follow : bool) (path : string) (s : memfs)
    : osres goerr file_info :=
  try p := canonical (nodes s) follow op path catch e => Bad e in
  match node_at (nodes s) p with
  | None => Bad (ENOENT op path)
  | Some n => Good (info_of n)
  end.

Definition children (ns : gmap string node) (p : string) : list dir_entry :=
  omap (λ kv : string * node,
          if bool_decide (Dir kv.1 = p)
          then Some (DirEntry (default "" (snd <$> cut_last slash kv.1))
                              (Z.land (fi_mode (info_of kv.2)) ModeType))
          else None) (map_to_list ns).

Definition mem_ReadDir (path : string) (s : memfs) : osres goerr (list dir_entry) :=
  try p := canonical (nodes s) true "open" path catch e => Bad e in
  match node_at (nodes s) p with
  | Some NDir => Good (children (nodes s) p)
  | Some _ => Bad (ENOTDIR "readdirent" path)
  | None => Bad (ENOENT "open" path)
  end.

Definition mem_Open (path : string) (fl : open_flags) (s : memfs) : osres goerr file * memfs :=
  match canonical (nodes s) true "open" path with
  | Bad e => (Bad e, s)
  | Good p =>
      let opened ns := (Good (nextfd s),
        {| nodes := ns; fds := <[nextfd s := p]> (fds s); nextfd := S (nextfd s);
           clock := clock s |}) in
      match node_at (nodes s) p with
      | Some (NFile c) => opened (if of_trunc fl then <[p := NFile []]> (nodes s) else nodes s)
      | Some _ => opened (nodes s)
      | None => if of_create fl then opened (<[p := NFile []]> (nodes s))
                else (Bad (ENOENT "open" path), s)
      end
  end.

Definition fd_content (s : memfs) (f : file) : option (string * list byte) :=
  p ← fds s !! f;
  match nodes s !! p with Some (NFile c) => Some (p, c) | _ => None end.

Definition mem_WriteAt (f : file) (data : list byte) (off : nat) (s : memfs)
    : osres goerr Z * memfs :=
  match fd_content s f with
  | None => (Bad EClosed, s)
  | Some (p, c) =>
      let c' := take off (c ++ replicate (off - length c) Byte.x00) ++ data
                ++ drop (off + length data) c in
      (Good (Z.of_nat (length data)), set_nodes (<[p := NFile c']> (nodes s)) s)
  end.

(** Operations on names, for the paths of the examples: [at] is the canonical
    path, the last element not followed. *)
Definition mem_name_op (op path : string) (s : memfs)
    (k : string → osres goerr () * memfs) : osres goerr () * memfs :=
  match canonical (nodes s) false op path with
  | Bad e => (Bad e, s)
  | Good p => k p
  end.

Definition rename_node (old new : string) (ns : gmap string node) : gmap string node :=
  list_to_map (omap (λ kv : string * node,
    match remap_target old new kv.1 with
    | Some q => Some (q, kv.2)
    | None => if under new kv.1 then None else Some kv
    end) (map_to_list ns)).

#[global] Instance mem_host : HostOS memfs := λ B c,
  match c in oscall B return memfs → B * memfs with
  | Now => λ s, (clock s, {| nodes := nodes s; fds := fds s; nextfd := nextfd s;
                             clock := clock s + 1000 |})
  | Lstat p => λ s, (mem_Lstat "lstat" false p s, s)
  | ReadDir p => λ s, (mem_ReadDir p s, s)
  | OpenFile p fl _ => mem_Open p fl
  | FileStat f => λ s, (match fd_content s f with
                        | Some (_, c) => Good (info_of (NFile c))
                        | None => Bad EClosed
                        end, s)
  | ReadAt f n off => λ s,
      (match fd_content s f with
       | None => ([], Some EClosed)
       | Some (_, c) =>
           let data := take (Z.to_nat n) (drop (Z.to_nat off) c) in
           (data, if Z.of_nat (length data) <? n then Some EEOF else None)
       end, s)
  | Write f data => λ s,
      mem_WriteAt f data (match fd_content s f with Some (_, c) => length c | None => 0 end) s
  | WriteAt f data off => mem_WriteAt f data (Z.to_nat off)
  | CloseFile f => λ s, ((), {| nodes := nodes s; fds := delete f (fds s); nextfd := nextfd s;
                                clock := clock s |})
  | Mkdir p _ => λ s, mem_name_op "mkdir" p s (λ q,
      match node_at (nodes s) q with
      | Some _ => (Bad (EEXIST "mkdir" p), s)
      | None => (Good (), set_nodes (<[q := NDir]> (nodes s)) s)
      end)
  | Remove p => λ s, mem_name_op "remove" p s (λ q,
      match node_at (nodes s) q with
      | Some _ => (Good (), set_nodes (delete q (nodes s)) s)
      | None => (Bad (ENOENT "remove" p), s)
      end)
  | Rename p q => λ s, mem_name_op "rename" p s (λ p', mem_name_op "rename" q s (λ q',
      match node_at (nodes s) p' with
      | Some _ => (Good (), set_nodes (rename_node p' q' (nodes s)) s)
      | None => (Bad (ENOENT "rename" p), s)
      end))
  | Truncate p n => λ s, mem_name_op "truncate" p s (λ q,
      match node_at (nodes s) q with
      | Some (NFile c) =>
          (Good (), set_nodes (<[q := NFile (take (Z.to_nat n) c)]> (nodes s)) s)
      | _ => (Bad (ENOENT "truncate" p), s)
      end)
  end.

(** ** The runtime, the codec, the connection *)
#[global] Instance used_le_dec a b : Decision (used_le a b).
Proof. unfold used_le. apply _. Defined.

#[global] Instance mem_runtime : GoRuntime := {|
  range_handles := map_to_list;
  range_paths := map_to_list;
  sort_lastUsed := merge_sort used_le
|}.

#[global] Instance mem_runtime_laws : GoRuntimeLaws.
Proof.
  split; simpl; [done..|intros; apply merge_sort_Permutation|].
  intros l. apply StronglySorted_merge_sort.
  - intros x y z. unfold used_le. lia.
  - intros x y. unfold used_le. lia.
Qed.

(** A codec that knows the messages of a table: the one-byte frame [b] decodes
    to message number [b]. *)
Definition table_codec (table : list obj) : Codec := {|
  Unmarshal := λ frame,
    match frame with
    | [b] => match table !! Z.to_nat (Z_of_byte b) with
             | Some raw => Good raw
             | None => Bad "unknown"
             end
    | _ => Bad "malformed"
    end;
  Marshal := λ _, Good [Byte.x00]
|}.

Lemma table_codec_laws table : Forall obj_ok table → @CodecLaws (table_codec table).
Proof.
  intros Ht. split. intros frame raw. simpl. destruct frame as [|b [|]]; [done| |done].
  destruct (table !! _) as [raw'|] eqn:E; [|done]. intros [= ->].
  by apply (Forall_lookup_1 _ _ _ _ Ht E).
Qed.

#[global] Instance mem_conn : ConnOS (list byte) := {|
  conn_write := λ data c, ((Z.of_nat (length data), None), c ++ data);
  conn_close := λ c, c
|}.

#[global] Instance mem_conn_laws : ConnLaws mem_conn.
Proof. intros data c. simpl. lia. Qed.

(** ** A host with a shared directory, and its mount *)
Definition demo_fs : memfs := {|
  nodes := list_to_map
    [("/srv", NDir); ("/srv/share", NDir); ("/srv/share/a.txt", NFile (text_bytes "hello"));
     ("/srv/share/sub", NDir); ("/srv/share/link", NLink "/etc");
     ("/etc", NDir); ("/etc/secret", NFile (text_bytes "key"))];
  fds := ∅; nextfd := 3; clock := 5000 |}.

Definition demo_mount (md : Z) : fsrpcMount := newFSRPCMount None 1000 "/srv/share" md.

Lemma demo_good : Forall good ["srv"; "share"].
Proof. repeat constructor; by compute. Qed.

Lemma demo_mount_ok md : inodes_ok ["srv"; "share"] (demo_mount md).
Proof.
  apply (ok_inodes _ md 2 _ ∅), newFSRPCMount_ok; [exact demo_good|done|by vm_compute].
Qed.
