(* ===== verification/FsrpcTheorems.v ===== *)
(** * What an FS-RPC session guarantees

    The theorems about a whole connection: for every byte stream a guest
    sends, on every host that keeps the contract of [HostOS], with every
    codec, connection and iteration order.  Each theorem is evaluated on the
    concrete host of [MemHost]. *)
From Stdlib Require Import Ascii.
From S2P Require Export MemHost.

(** The directory [rt] a mount is made of, an absolute path other than [/]:
    [rcs] is its list of elements. *)
Record mount_dir (rt : string) (rcs : list string) : Prop := {
  md_abs : IsAbs rt = true;
  md_good : Forall good rcs;
  md_ne : rcs ≠ [];
  md_clean : Clean rt = abs_path rcs
}.

(** A session: directory [rt], mounted in mode [md], serves [input] on [s]. *)
Definition session `{GoRuntime} `{Codec} `{ConnOS CS} `{HostOS HS} (cfg : fsrpcConfig)
    (t0 : Z) (rt : string) (md : Z) (conn : CS) (input : list byte) (s : HS)
    : outcome (fsrpcServer CS) (option (option serve_error)) * HS * list event :=
  run (serve cfg (newFSRPCServer conn input (newFSRPCMount None t0 rt md) t0)) s.

(** The input of a session is shorter than [2^31] bytes: inode numbers, of
    which a request takes at most [2^32 + 1], do not wrap around. *)
Lemma session_budget (input : list byte) :
  Z.of_nat (length input) < two31 → 2 + Z.of_nat (length input) * ino_step < two64.
Proof. unfold two31, two64, ino_step, two32. lia. Qed.

Section session.
Context `{RTL : GoRuntimeLaws} `{CL : CodecLaws} `{OS : ConnOS CS} `{HO : HostOS HS}.
Context (cfg : fsrpcConfig) (wd : option string) (t0 t1 : Z) (rt : string) (rcs : list string) (md : Z).
Context (conn : CS) (input : list byte) (s s' : HS) (tr : list event).
Context (o : outcome (fsrpcServer CS) (option (option serve_error))).
Context (Hdir : mount_dir rt rcs) (Hlen : Z.of_nat (length input) < two31).
Context (Hrun : run (serve cfg (newFSRPCServer conn input (newFSRPCMount wd t0 rt md) t1)) s = (o, s', tr)).
Context (Hhonest : trace_honest tr ∅).

Lemma serve_adequate Pn :
  Pn ∨ (ConnLaws OS ∧ sane_stream input) →
  match o with
  | Done r sv => r ≠ None ∧ handles (sv_mount sv) = ∅ ∧ trace_opens tr ∅ = ∅
                 ∧ sv_closed sv = true
  | Panicked _ => Pn
  end ∧ trace_pre (fs_call_ok rcs (mode_ro md)) tr ∅.
Proof.
  intros Hpn. destruct Hdir as [Ha Hg Hne Hc].
  pose proof (WP_serve cfg rcs Hg Hne md Pn 2
    (newFSRPCServer conn input (newFSRPCMount wd t0 rt md) t1) ∅
    (newFSRPCMount_ok rcs Hg wd t0 rt md Ha Hc) eq_refl Hpn (session_budget input Hlen)) as Hwp.
  destruct (wp_adequate _ _ _ _ _ _ _ _ Hwp Hrun Hhonest) as [Hpost Htr].
  split; [|done]. by destruct o.
Qed.

(** What a session may do to the host: name paths of the mount, change nothing
    if the mount is read-only. *)
Lemma serve_confined :
  Forall (λ e, Forall (within rcs) (event_paths e)) tr
  ∧ (mode_ro md = true → Forall (λ e, event_mutates e = false) tr).
Proof.
  destruct (serve_adequate True) as [_ Htr]; [by left|].
  split; [|intros Hro]; (eapply trace_pre_Forall; [|exact Htr]).
  - by intros B g c b (Hp & _).
  - intros B g c b (_ & Hm & _). by apply Hm.
Qed.
End session.

Section theorems.
Context `{RTL : GoRuntimeLaws} `{CL : CodecLaws} `{OS : ConnOS CS} `{HO : HostOS HS}.

(** C1: whatever bytes a guest sends, fewer than 2^31 of them, on a mount of an
    absolute directory other than [/], every host path a session names in a
    call to the operating system is the mounted directory or lies below it:
    its elements are those of the directory followed by proper names. *)
Theorem session_contained cfg t0 rt rcs md (conn : CS) input (s s' : HS) tr o :
  mount_dir rt rcs → Z.of_nat (length input) < two31 →
  session cfg t0 rt md conn input s = (o, s', tr) → trace_honest tr ∅ →
  Forall (λ e, Forall (within rcs) (event_paths e)) tr.
Proof.
  intros Hd Hl Hr Hh. exact (proj1 (serve_confined cfg None t0 t0 rt rcs md conn input s s' tr o Hd Hl Hr Hh)).
Qed.

(** C2: a session of a read-only mount (of an absolute directory other than [/])
    makes no call that can change the host's files, whatever the guest asks in fewer
    than 2^31 bytes. *)
Theorem session_read_only cfg t0 rt rcs md (conn : CS) input (s s' : HS) tr o :
  mount_dir rt rcs → Z.of_nat (length input) < two31 → mode_ro md = true →
  session cfg t0 rt md conn input s = (o, s', tr) → trace_honest tr ∅ →
  Forall (λ e, event_mutates e = false) tr.
Proof.
  intros Hd Hl Hro Hr Hh.
  exact (proj2 (serve_confined cfg None t0 t0 rt rcs md conn input s s' tr o Hd Hl Hr Hh) Hro).
Qed.

(** C14: the files of a session that no other goroutine closes: whatever fewer than
    2^31 bytes the guest sends and whatever honest answers the host gives, on a mount
    of an absolute directory other than [/], the session uses a file only while it has
    it open (no use after close, no double close), and when it returns every file it
    opened is closed. The hypothesis is the session's run by itself: a Close from
    vmBackend.Close while a handler is opening a file leaks that file
    (finding close_during_open_leaks). *)
Theorem session_files cfg t0 rt rcs md (conn : CS) input (s s' : HS) tr o :
  mount_dir rt rcs → Z.of_nat (length input) < two31 →
  session cfg t0 rt md conn input s = (o, s', tr) → trace_honest tr ∅ →
  trace_files_ok tr ∅ ∧ (∀ r sv, o = Done r sv → trace_opens tr ∅ = ∅).
Proof.
  intros Hd Hl Hr Hh.
  destruct (serve_adequate cfg None t0 t0 rt rcs md conn input s s' tr o Hd Hl Hr Hh True) as [Ho Htr];
    [by left|].
  split; [|intros r sv ->; apply Ho].
  eapply trace_pre_mono; [|exact Htr]. intros B g c (_ & _ & Hf). exact Hf.
Qed.

(** C23: a session ends: on a connection that never claims to take more than
    it is given, and for a guest that asks for directory pages of fewer than
    [2^62] entries, [serve] returns (it neither panics nor loops), closed. *)
Theorem session_returns cfg t0 rt rcs md (conn : CS) input (s s' : HS) tr o :
  mount_dir rt rcs → Z.of_nat (length input) < two31 →
  ConnLaws OS → sane_stream input →
  session cfg t0 rt md conn input s = (o, s', tr) → trace_honest tr ∅ →
  ∃ r sv, o = Done (Some r) sv ∧ sv_closed sv = true ∧ handles (sv_mount sv) = ∅.
Proof.
  intros Hd Hl Hcl Hs Hr Hh.
  destruct (serve_adequate cfg None t0 t0 rt rcs md conn input s s' tr o Hd Hl Hr Hh False) as [Ho _];
    [by right|].
  destruct o as [[r|] sv|]; naive_solver.
Qed.
End theorems.

(** ** A session on the concrete host *)
Definition fs_request (id : Z) (op : string) (args : obj) : obj :=
  [("v", VU64 1); ("t", VText "fs_request"); ("id", VU64 id);
   ("p", VObj [("op", VText op); ("req", VObj args)])].

Definition demo_table : list obj := [
  fs_request 0 "lookup" [("parent_ino", VU64 1); ("name", VText "a.txt")];
  fs_request 1 "open" [("ino", VU64 2); ("flags", VU64 2)];
  fs_request 2 "write" [("fh", VU64 1); ("offset", VU64 0); ("data", VBytes (text_bytes "J"))];
  fs_request 3 "read" [("fh", VU64 1); ("offset", VU64 0); ("size", VU64 100)];
  fs_request 4 "create" [("parent_ino", VU64 1); ("name", VText "b.txt"); ("mode", VU64 420)];
  fs_request 5 "mkdir" [("parent_ino", VU64 1); ("name", VText "d"); ("mode", VU64 493)];
  fs_request 6 "rename" [("old_parent_ino", VU64 1); ("old_name", VText "a.txt");
                         ("new_parent_ino", VU64 4); ("new_name", VText "c.txt")];
  fs_request 7 "getattr" [("ino", VU64 2)];
  fs_request 8 "readdir" [("ino", VU64 1); ("offset", VU64 1); ("max_entries", VU64 4)];
  fs_request 9 "lookup" [("parent_ino", VU64 1); ("name", VText "..")];
  fs_request 10 "unlink" [("parent_ino", VU64 1); ("name", VText "b.txt")];
  fs_request 11 "truncate" [("ino", VU64 2); ("size", VU64 0)];
  fs_request 12 "release" [("fh", VU64 1)]].

Definition demo_frame (n : nat) : list byte := encode_frame [byte_of_Z (Z.of_nat n)].
Definition demo_input : list byte := mjoin (map demo_frame (seq 0 (length demo_table))).

Definition demo_codec : Codec := table_codec demo_table.
Definition demo_codec_laws : @CodecLaws demo_codec.
Proof.
  apply table_codec_laws. repeat constructor; simpl; unfold u64_range, two64; lia.
Qed.

Definition demo (md : Z) :=
  @session mem_runtime demo_codec _ mem_conn _ mem_host default_config 1000 "/srv/./share/" md
    [] demo_input demo_fs.

Lemma demo_dir : mount_dir "/srv/./share/" ["srv"; "share"].
Proof. split; [done|exact demo_good|done|by vm_compute]. Qed.

Lemma demo_run md : demo md = ((demo md).1.1, (demo md).1.2, (demo md).2).
Proof. by destruct (demo md) as [[? ?] ?]. Qed.

Lemma demo_honest_rw : trace_honest (demo MountMode.RW).2 ∅.
Proof. apply trace_honestb_true. by vm_compute. Qed.
Lemma demo_honest_ro : trace_honest (demo MountMode.RO).2 ∅.
Proof. apply trace_honestb_true. by vm_compute. Qed.

(** Every request of a table is sane, so every stream of its messages is. *)
Definition sane_request (raw : obj) : bool :=
  match request_of raw with
  | Good req => match getReqUint (req_args req) "max_entries" with
                | Some z => z <? 4611686018427387904
                | None => true
                end
  | Bad _ => true
  end.

Lemma sane_table table input :
  forallb sane_request table = true → @sane_stream (table_codec table) input.
Proof.
  intros Ht i' frame r req _ _. unfold decodeFSRPCRequest. simpl.
  destruct frame as [|b [|]]; [done| |done].
  destruct (table !! _) as [raw|] eqn:E; [|done]. intros Hreq z Hz.
  rewrite forallb_forall in Ht. specialize (Ht raw). unfold sane_request in Ht.
  rewrite Hreq, Hz in Ht. apply Z.ltb_lt, Ht.
  apply list_elem_of_In. by eapply list_elem_of_lookup_2.
Qed.

Lemma session_contained_witness :
  trace_honest (demo MountMode.RW).2 ∅ ∧ length (demo MountMode.RW).2 = 71%nat
  ∧ Forall (λ e, Forall (within ["srv"; "share"]) (event_paths e)) (demo MountMode.RW).2.
Proof.
  split; [exact demo_honest_rw|]. split; [by vm_compute|].
  apply (@session_contained mem_runtime mem_runtime_laws demo_codec demo_codec_laws
    _ mem_conn _ mem_host default_config 1000 "/srv/./share/" ["srv"; "share"] MountMode.RW []
    demo_input demo_fs (demo MountMode.RW).1.2 (demo MountMode.RW).2 (demo MountMode.RW).1.1
    demo_dir ltac:(by vm_compute) (demo_run MountMode.RW) demo_honest_rw).
Defined.

Lemma session_read_only_witness :
  trace_honest (demo MountMode.RO).2 ∅ ∧ length (demo MountMode.RO).2 = 45%nat
  ∧ Forall (λ e, event_mutates e = false) (demo MountMode.RO).2.
Proof.
  split; [exact demo_honest_ro|]. split; [by vm_compute|].
  apply (@session_read_only mem_runtime mem_runtime_laws demo_codec demo_codec_laws
    _ mem_conn _ mem_host default_config 1000 "/srv/./share/" ["srv"; "share"] MountMode.RO []
    demo_input demo_fs (demo MountMode.RO).1.2 (demo MountMode.RO).2 (demo MountMode.RO).1.1
    demo_dir ltac:(by vm_compute) eq_refl (demo_run MountMode.RO) demo_honest_ro).
Defined.

Lemma session_files_witness :
  trace_honest (demo MountMode.RW).2 ∅
  ∧ trace_files_ok (demo MountMode.RW).2 ∅
  ∧ (∀ r sv, (demo MountMode.RW).1.1 = Done r sv → trace_opens (demo MountMode.RW).2 ∅ = ∅).
Proof.
  split; [exact demo_honest_rw|].
  apply (@session_files mem_runtime mem_runtime_laws demo_codec demo_codec_laws
    _ mem_conn _ mem_host default_config 1000 "/srv/./share/" ["srv"; "share"] MountMode.RW []
    demo_input demo_fs (demo MountMode.RW).1.2 (demo MountMode.RW).2 (demo MountMode.RW).1.1
    demo_dir ltac:(by vm_compute) (demo_run MountMode.RW) demo_honest_rw).
Defined.

Lemma session_returns_witness :
  trace_honest (demo MountMode.RW).2 ∅ ∧ @sane_stream demo_codec demo_input
  ∧ ∃ r sv, (demo MountMode.RW).1.1 = Done (Some r) sv ∧ sv_closed sv = true
            ∧ handles (sv_mount sv) = ∅.
Proof.
  split; [exact demo_honest_rw|]. split; [by apply sane_table|].
  apply (@session_returns mem_runtime mem_runtime_laws demo_codec demo_codec_laws
    _ mem_conn _ mem_host default_config 1000 "/srv/./share/" ["srv"; "share"] MountMode.RW []
    demo_input demo_fs (demo MountMode.RW).1.2 (demo MountMode.RW).2 (demo MountMode.RW).1.1
    demo_dir ltac:(by vm_compute) mem_conn_laws (sane_table demo_table demo_input eq_refl)
    (demo_run MountMode.RW) demo_honest_rw).
Defined.
