(* ===== verification/FsrpcFunctional.v ===== *)
(** * What each FS-RPC operation answers

    Functional theorems about single operations, on every host: what the
    answer is, on every branch, and how the mount changes. *)
From Stdlib Require Import Ascii.
From S2P Require Export MemHost.

(** ** Running code of the monad *)
Section run.
Context `{HO : HostOS HS} {St : Type}.

Lemma run_bind {A B} (f : A → prog B) (p : prog A) (s : HS) :
  run (prog_bind f p) s =
  let '(a, s1, tr1) := run p s in
  let '(b, s2, tr2) := run (f a) s1 in (b, s2, tr1 ++ tr2).
Proof.
  revert s. induction p as [a|C c k IH]; intros s; simpl.
  - by destruct (run (f a) s) as [[? ?] ?].
  - destruct (os_step C c s) as [b s1]. rewrite IH.
    destruct (run (k b) s1) as [[a s2] tr1]. by destruct (run (f a) s2) as [[? ?] ?].
Qed.

Lemma run_call {A B} (c : oscall B) (f : B → M St A) (st : St) (s : HS) :
  run ((oscall_ c ≫= f) st) s =
  let '(b, s1) := os_step B c s in
  let '(o, s2, tr) := run (f b st) s1 in (o, s2, (existT B (c, b)) :: tr).
Proof. done. Qed.

(** A step that makes no call. *)
Lemma pure_bind {A B} (m : M St A) (f : A → M St B) (st st' : St) a :
  m st = Ret (Done a st') → (m ≫= f) st = f a st'.
Proof. intros H. unfold mbind, M_mbind, M_bind. by rewrite H. Qed.

Lemma run_mbind {A B} (m : M St A) (f : A → M St B) (st : St) (s : HS) :
  run ((m ≫= f) st) s =
  let '(o, s1, tr1) := run (m st) s in
  match o with
  | Done a st' => let '(r, s2, tr2) := run (f a st') s1 in (r, s2, tr1 ++ tr2)
  | Panicked e => (Panicked e, s1, tr1)
  end.
Proof.
  unfold mbind, M_mbind, M_bind. rewrite run_bind.
  destruct (run (m st) s) as [[[a st'|e] s1] tr1]; [done|]. simpl. by rewrite app_nil_r.
Qed.

Lemma run_call_Done {A B} (c : oscall B) (f : B → M St A) st st' (s s' : HS) r tr :
  run ((oscall_ c ≫= f) st) s = (Done r st', s', tr) →
  ∃ b s1 tr1, os_step B c s = (b, s1) ∧ run (f b st) s1 = (Done r st', s', tr1)
              ∧ tr = Event c b :: tr1.
Proof.
  rewrite run_call. destruct (os_step B c s) as [b s1].
  destruct (run (f b st) s1) as [[o s2] tr1] eqn:E. intros; simplify_eq. by exists b, s1, tr1.
Qed.

Lemma run_mbind_Done {A B} (m : M St A) (f : A → M St B) st st' (s s' : HS) r tr :
  run ((m ≫= f) st) s = (Done r st', s', tr) →
  ∃ a st1 s1 tr1 tr2, run (m st) s = (Done a st1, s1, tr1)
    ∧ run (f a st1) s1 = (Done r st', s', tr2) ∧ tr = tr1 ++ tr2.
Proof.
  rewrite run_mbind. destruct (run (m st) s) as [[[a st1|e] s1] tr1]; [|done].
  destruct (run (f a st1) s1) as [[o s2] tr2] eqn:E. intros; simplify_eq.
  by exists a, st1, s1, tr1, tr2.
Qed.
End run.

Lemma m_ensureInode_eq path m :
  m_ensureInode path m = Ret (Done (ensureInode path m).1 (ensureInode path m).2).
Proof.
  unfold m_ensureInode, mbind, M_mbind, M_bind. simpl. by destruct (ensureInode path m).
Qed.

Section functional.
Context (rcs : list string) (Hrcs : Forall good rcs) (Hne : rcs ≠ []).
Context `{HO : HostOS HS}.

(** a lookup of a proper name in a known directory makes one call, Lstat of
    the directory's path extended by that name (. and .. never leave the
    root); its answer is the error's number and text, ELOOP for a symbolic
    link, else the entry under an inode number that now stands for that path
    while every number given before keeps its path. *)
Theorem handleLookup_result m parentIno cs name req (s : HS) :
  inodes_ok rcs m → nextIno m + 1 < two64 →
  getReqUint req "parent_ino" = Some parentIno → getReqString req "name" = Some name →
  pathForInode m parentIno = Some (abs_path (rcs ++ cs)) → Forall good cs →
  name ≠ "" → has_char slash name = false →
  let target := abs_path (rcs ++ child_comps cs name) in
  let '(r, s1) := os_step _ (Lstat target) s in
  ∃ rep m', run (handleLookup req m) s
            = (Done rep m', s1, [existT _ (Lstat target, r)])
  ∧ match r with
    | Bad e => m' = m ∧ rep = (None, mapOSError (Some e), err_string e)
    | Good info =>
        if fi_IsSymlink info
        then m' = m ∧ rep = (None, linuxErrLoop, "symlink traversal is not allowed")
        else ∃ ino, rep = (Some [("entry", entry_obj ino info)], 0, "")
             ∧ pathForInode m' ino = Some target
             ∧ (∀ i p, pathForInode m i = Some p → pathForInode m' i = Some p)
    end.
Proof.
  intros Hi Hb Hp Hn Hpath Hcs Hname Hslash. cbv zeta.
  destruct (os_step _ (Lstat _) s) as [r s1] eqn:E.
  unfold handleLookup. rewrite Hp, Hn.
  rewrite (pure_bind _ _ _ m (pathForInode m parentIno)) by done. rewrite Hpath.
  erewrite (pure_bind _ _ _ m) by done.
  rewrite (resolveChildPath_within rcs Hrcs m cs name) by (done || apply (io_root _ _ Hi)).
  rewrite bool_decide_false, Hslash by done. cbn [negb Z.eqb].
  rewrite run_call, E. destruct r as [info|e]; [|by eexists _, _].
  destruct (fi_IsSymlink info); [by eexists _, _|].
  destruct (ensureInode (abs_path (rcs ++ child_comps cs name)) m) as [ino m'] eqn:Ei.
  rewrite (pure_bind _ _ _ m' ino) by (by rewrite m_ensureInode_eq, Ei).
  assert (Hw : within rcs (abs_path (rcs ++ child_comps cs name))).
  { eexists. split; [done|]. by apply child_comps_good. }
  destruct (ensureInode_ok rcs Hrcs _ m ino m' Hi Hw Hb Ei) as (Hi' & _ & _ & Hino).
  eexists _, m'. split; [done|]. exists ino. split; [done|]. split; [done|].
  intros i p. by eapply ensureInode_keeps.
Qed.
End functional.

(** ** Handles *)
Section handles.
Context `{HO : HostOS HS}.

(** opening a regular file on a writable mount registers one new handle, with
    an identifier that was free and not zero, for the file the host opened with
    the translated flags; no other handle and no inode changes. *)
Theorem handleOpen_result m g ino flags req path info f now (s s1 s2 s3 : HS) :
  owns (handles m) [] g → 1 ≤ nextFH m < two64 → Z.of_nat (size g) < two32 → f ∉ g →
  getReqUint req "ino" = Some ino → default 0 (getReqUint req "flags") = flags →
  readOnly m = false → pathForInode m ino = Some path →
  os_step _ (Lstat path) s = (Good info, s1) →
  fi_IsDir info = false → fi_IsSymlink info = false →
  os_step _ (OpenFile path (osOpenFlagsFromLinux flags) 0) s1 = (Good f, s2) →
  os_step _ Now s2 = (now, s3) →
  ∃ fh m' tr,
    run (handleOpen req m) s
    = (Done (Some [("fh", VU64 fh); ("open_flags", VU64 0)], 0, "") m', s3, tr)
  ∧ handles m !! fh = None ∧ 1 ≤ fh < two64
  ∧ handles m' = <[fh := {| h_file := Some f; h_append := flag_set flags linuxOAppend;
                           h_ino := ino; h_lastUsed := now |}]> (handles m)
  ∧ pathToIno m' = pathToIno m ∧ inoToPath m' = inoToPath m.
Proof.
  intros Ho Hfh Hsz Hf Hino Hfl Hro Hpath E1 Hd Hl E2 E3.
  pose proof (owns_size _ _ Ho) as Hs.
  destruct (nextHandleIDLocked_free m Hfh) as (fh & k & Hnext & Hfree & Hr & Hk);
    [unfold two32, two64 in *; lia|].
  unfold handleOpen. rewrite Hino, Hfl. cbv zeta.
  rewrite (pure_bind _ _ _ m m) by done. rewrite Hro. cbn [andb].
  rewrite (pure_bind _ _ _ m (Some path)) by (by rewrite <-Hpath).
  rewrite run_call, E1, Hd, Hl, run_call, E2, run_call, E3.
  erewrite (pure_bind (register_handle _ _ _ _)).
  2: { unfold register_handle. rewrite (pure_bind _ _ _ m m) by done. rewrite Hnext. done. }
  by eexists fh, _, _.
Qed.

(** A handle that is not in the table is dead: operations on it fail with
    EBADF, without a host call. *)
Lemma dead_handle m fh req :
  handles m !! fh = None → getReqUint req "fh" = Some fh →
  handleRelease req m = Ret (Done (None, linuxErrBadf, "invalid file handle") m)
  ∧ (is_Some (getReqUint req "size") →
     handleRead req m = Ret (Done (None, linuxErrBadf, "invalid file handle") m))
  ∧ (is_Some (getReqUint req "offset") → is_Some (getReqBytes req "data") →
     handleWrite req m = Ret (Done (None, linuxErrBadf, "invalid file handle") m)).
Proof.
  intros Hn Hfh.
  assert (Hget : getHandle fh m = Ret (Done None m)).
  { unfold getHandle. rewrite (pure_bind _ _ _ m m) by done. by rewrite Hn. }
  assert (Hclose : closeHandle fh m = Ret (Done None m)).
  { unfold closeHandle. rewrite (pure_bind _ _ _ m m) by done. by rewrite Hn. }
  split; [|split].
  - unfold handleRelease. rewrite Hfh. by rewrite (pure_bind _ _ _ m None).
  - intros [sz Hsz]. unfold handleRead. rewrite Hfh, Hsz. cbv zeta.
    by rewrite (pure_bind _ _ _ m None).
  - intros [off Hoff] [d Hd]. unfold handleWrite. rewrite Hfh, Hoff, Hd.
    by rewrite (pure_bind _ _ _ m None).
Qed.

(** releasing a handle closes its file and drops it from the table, and a
    second release answers EBADF without a host call. *)
Theorem handleRelease_result m fh h f req (s s1 : HS) :
  getReqUint req "fh" = Some fh → handles m !! fh = Some h → h_file h = Some f →
  os_step _ (CloseFile f) s = ((), s1) →
  ∃ m', run (handleRelease req m) s
        = (Done (Some [], 0, "") m', s1, [existT _ (CloseFile f, ())])
  ∧ handles m' = delete fh (handles m)
  ∧ handleRelease req m' = Ret (Done (None, linuxErrBadf, "invalid file handle") m').
Proof.
  intros Hfh Hh Hf E. exists (set_handles (delete fh (handles m)) m).
  split; [|split; [done|apply (dead_handle _ fh); [by simpl; rewrite lookup_delete_eq|done]]].
  unfold handleRelease. rewrite Hfh, run_mbind. unfold closeHandle.
  rewrite (pure_bind _ _ _ m m) by done. rewrite Hh.
  rewrite (pure_bind _ _ _ (set_handles (delete fh (handles m)) m) ()) by done.
  rewrite Hf, run_call, E. simpl. by rewrite Hf.
Qed.

(** a read asks the host for at most 256 KiB at the given offset of the
    handle's file and answers exactly the bytes it got; end of file is no
    error, and the handle counts as used. *)
Theorem handleRead_result m fh h f off sz req now data err (s s1 s2 : HS) :
  getReqUint req "fh" = Some fh → default 0 (getReqUint req "offset") = off →
  getReqUint req "size" = Some sz →
  handles m !! fh = Some h → h_file h = Some f →
  os_step _ Now s = (now, s1) →
  os_step _ (ReadAt f (Z.min sz maxFSRPCReadSize) (int64_of off)) s1 = ((data, err), s2) →
  ∃ tr, run (handleRead req m) s =
    (Done (match err with
           | None | Some EEOF => (Some [("data", VBytes data)], 0, "")
           | Some e => (None, mapOSError (Some e), err_string e)
           end) (touch fh now m), s2, tr)
  ∧ length tr = 2%nat.
Proof.
  intros Hfh Hoff Hsz Hh Hf E1 E2. unfold handleRead. rewrite Hfh, Hoff, Hsz. cbv zeta.
  rewrite run_mbind. unfold getHandle. rewrite (pure_bind _ _ _ m m) by done. rewrite Hh.
  rewrite run_call, E1. rewrite (pure_bind _ _ _ (touch fh now m) ()) by done.
  change (run ((mret (Some h) : M fsrpcMount _) (touch fh now m)) s1)
    with (@Done fsrpcMount _ (Some h) (touch fh now m), s1, @nil event).
  cbv beta iota. change (Some h ≫= h_file) with (h_file h). rewrite Hf.
  replace (if maxFSRPCReadSize <? sz then maxFSRPCReadSize else sz)
    with (Z.min sz maxFSRPCReadSize).
  2: { destruct (maxFSRPCReadSize <? sz) eqn:E; [apply Z.ltb_lt in E|apply Z.ltb_ge in E]; lia. }
  rewrite run_call, E2. destruct err as [[]|]; by eexists.
Qed.
End handles.

(** ** On the concrete host *)
Definition lookup_req : obj := [("parent_ino", VU64 1); ("name", VText "a.txt")].

Lemma handleLookup_result_witness :
  inodes_ok ["srv"; "share"] (demo_mount MountMode.RW)
  ∧ ∃ rep m', run (handleLookup lookup_req (demo_mount MountMode.RW)) demo_fs
      = (Done rep m', demo_fs, [existT _ (Lstat "/srv/share/a.txt", Good (FileInfo 420 5 0))])
  ∧ ∃ ino, rep = (Some [("entry", entry_obj ino (FileInfo 420 5 0))], 0, "")
      ∧ pathForInode m' ino = Some "/srv/share/a.txt"
      ∧ (∀ i p, pathForInode (demo_mount MountMode.RW) i = Some p → pathForInode m' i = Some p).
Proof.
  split; [apply demo_mount_ok|].
  exact (handleLookup_result ["srv"; "share"] demo_good (demo_mount MountMode.RW) 1 [] "a.txt"
    lookup_req demo_fs (demo_mount_ok _) ltac:(by vm_compute) eq_refl eq_refl eq_refl
    ltac:(constructor) ltac:(done) eq_refl).
Defined.

(** The mount after the lookup, and after opening the file. *)
Definition demo_looked : fsrpcMount :=
  (ensureInode "/srv/share/a.txt" (demo_mount MountMode.RW)).2.
Definition open_req : obj := [("ino", VU64 2); ("flags", VU64 2)].
Definition demo_opened_fs : memfs := (os_step _ (OpenFile "/srv/share/a.txt"
  (osOpenFlagsFromLinux 2) 0) demo_fs).2.

Lemma handleOpen_result_witness :
  owns (handles demo_looked) [] ∅
  ∧ ∃ fh m' tr,
    run (handleOpen open_req demo_looked) demo_fs
    = (Done (Some [("fh", VU64 fh); ("open_flags", VU64 0)], 0, "") m',
       (os_step _ Now demo_opened_fs).2, tr)
  ∧ handles demo_looked !! fh = None ∧ 1 ≤ fh < two64
  ∧ handles m' = <[fh := {| h_file := Some 3%nat; h_append := flag_set 2 linuxOAppend;
                           h_ino := 2; h_lastUsed := 5000 |}]> (handles demo_looked)
  ∧ pathToIno m' = pathToIno demo_looked ∧ inoToPath m' = inoToPath demo_looked.
Proof.
  split; [exact owns_empty|].
  apply (handleOpen_result demo_looked ∅ 2 2 open_req "/srv/share/a.txt" (FileInfo 420 5 0) 3%nat
    5000 demo_fs demo_fs demo_opened_fs); try by vm_compute. exact owns_empty.
Defined.

Definition demo_handle : fsrpcHandle :=
  {| h_file := Some 3%nat; h_append := false; h_ino := 2; h_lastUsed := 5000 |}.
Definition demo_opened : fsrpcMount := set_handles {[ 1 := demo_handle ]} demo_looked.
Definition read_req : obj := [("fh", VU64 1); ("offset", VU64 1); ("size", VU64 3)].

Lemma handleRead_result_witness :
  handles demo_opened !! 1 = Some demo_handle
  ∧ ∃ tr, run (handleRead read_req demo_opened) demo_opened_fs =
    (Done (Some [("data", VBytes (text_bytes "ell"))], 0, "") (touch 1 5000 demo_opened),
     (os_step _ Now demo_opened_fs).2, tr)
  ∧ length tr = 2%nat.
Proof.
  split; [by vm_compute|].
  apply (handleRead_result demo_opened 1 demo_handle 3%nat 1 3 read_req 5000 (text_bytes "ell") None
    demo_opened_fs (os_step _ Now demo_opened_fs).2); by vm_compute.
Defined.

Lemma handleRelease_result_witness :
  handles demo_opened !! 1 = Some demo_handle
  ∧ ∃ m', run (handleRelease [("fh", VU64 1)] demo_opened) demo_opened_fs
        = (Done (Some [], 0, "") m', (os_step _ (CloseFile 3) demo_opened_fs).2,
           [existT _ (CloseFile 3, ())])
  ∧ handles m' = delete 1 (handles demo_opened)
  ∧ handleRelease [("fh", VU64 1)] m'
    = Ret (Done (None, linuxErrBadf, "invalid file handle") m').
Proof.
  split; [by vm_compute|].
  apply (handleRelease_result demo_opened 1 demo_handle 3%nat); by vm_compute.
Defined.
