(* ===== verification/FsrpcTable.v ===== *)
(** * The inode table and its garbage collection

    What [ensureInode], [remapPath] (after a rename) and [maybeGC] do to the
    numbers the guest knows, and the pages of [readdir]. *)
From Stdlib Require Import Ascii.
From S2P Require Export FsrpcFunctional.

(** ** Inode numbers *)
Section table.
Context (rcs : list string) (Hrcs : Forall good rcs) (Hne : rcs ≠ []).

(** inode numbers are stable and faithful: two paths get the same
    number exactly when they are equal, each number stands for its path, and
    every number given before keeps its path. *)
Theorem ensureInode_numbers m p q i j m1 m2 :
  inodes_ok rcs m → within rcs p → within rcs q → nextIno m + 2 < two64 →
  ensureInode p m = (i, m1) → ensureInode q m1 = (j, m2) →
  (i = j ↔ p = q) ∧ pathForInode m2 i = Some p ∧ pathForInode m2 j = Some q
  ∧ (∀ k r, pathForInode m k = Some r → pathForInode m2 k = Some r).
Proof.
  intros Hi Hp Hq Hb E1 E2.
  pose proof (ensureInode_ok rcs Hrcs p m i m1 Hi Hp ltac:(lia) E1) as (H1 & _ & Hn & Hip).
  pose proof (ensureInode_ok rcs Hrcs q m1 j m2 H1 Hq ltac:(lia) E2) as (H2 & _ & _ & Hjq).
  assert (Hip2 : inoToPath m2 !! i = Some p) by (eapply ensureInode_keeps; [exact H1|exact E2|exact Hip]).
  split; [|split; [done|split; [done|]]].
  - split; [intros ->; congruence|intros ->].
    apply (io_inverse _ _ H2) in Hip2, Hjq. congruence.
  - intros k r Hk. eapply ensureInode_keeps; [exact H1|exact E2|].
    eapply ensureInode_keeps; [exact Hi|exact E1|exact Hk].
Qed.

(** after a rename the table follows the files: the inode of a path at
    or under the old name stands for the corresponding path under the new
    name, any other inode keeps its path unless the rename put another file
    there, and the table stays consistent and inside the root. *)
Theorem remapPath_follows `{RTL : GoRuntimeLaws} old new m i p :
  inodes_ok rcs m → within rcs old → within rcs new → pathForInode m i = Some p →
  inodes_ok rcs (remapPath old new m)
  ∧ match remap_target old new p with
    | Some q => pathForInode (remapPath old new m) i = Some q
    | None =>
        (∀ p' i', pathForInode m i' = Some p' → remap_target old new p' ≠ Some p) →
        pathForInode (remapPath old new m) i = Some p
    end.
Proof.
  intros Hi Ho Hn Hp.
  destruct (remapPath_ok rcs Hrcs Hne old new m Hi Ho Hn) as (H1 & _ & _ & Hmove & Hstay).
  split; [done|]. apply (io_inverse _ _ Hi) in Hp. unfold pathForInode.
  destruct (remap_target old new p) as [q|] eqn:Ht.
  - apply (io_inverse _ _ H1). by eapply Hmove.
  - intros Hnot. apply (io_inverse _ _ H1). rewrite Hstay.
    + replace (under old p) with false; [done|]. unfold remap_target, under in *.
      destruct (bool_decide (p = old)); [done|]. by destruct (HasPrefix p _).
    + intros p' i' Hp'%(io_inverse _ _ Hi). by eapply Hnot.
Qed.
End table.

(** ** Garbage collection *)
Section gc.
Context `{RTL : GoRuntimeLaws} `{HO : HostOS HS} (cfg : fsrpcConfig).
Context (rcs : list string) (Hrcs : Forall good rcs).

Lemma run_close_all tc m (s : HS) :
  ∃ s1 tr, run (close_all tc m) s = (Done () m, s1, tr)
  ∧ ∀ f, f ∈ files_of tc → Event (CloseFile f) (()) ∈ tr.
Proof.
  revert s. induction tc as [|h tc IH]; intros s.
  { eexists _, _. split; [done|]. intros f Hf. by apply not_elem_of_nil in Hf. }
  simpl close_all. destruct (h_file h) as [f|] eqn:Ef.
  - destruct (os_step _ (CloseFile f) s) as [[] s1] eqn:E.
    destruct (IH s1) as (s2 & tr & Hrun & Hall).
    exists s2, (Event (CloseFile f) (()) :: tr). rewrite run_call, E, Hrun.
    split; [done|]. intros f' Hf'. unfold files_of in Hf'. simpl in Hf'. rewrite Ef in Hf'.
    apply elem_of_cons in Hf' as [->|Hf']; [by left|right; by apply Hall].
  - destruct (IH s) as (s2 & tr & Hrun & Hall). exists s2, tr.
    rewrite (pure_bind _ _ _ m ()) by done. split; [done|].
    intros f' Hf'. unfold files_of in Hf'. simpl in Hf'. rewrite Ef in Hf'. by apply Hall.
Qed.

(** One pass over the inode table: what it removes the host said is gone. *)
Definition gc_keeps (pins : gset Z) (m m' : fsrpcMount) (tr : list event) : Prop :=
  ∀ p i, pathToIno m !! p = Some i →
    pathToIno m' !! p = Some i
    ∨ (pathToIno m' !! p = None ∧ i ∉ pins
       ∧ ∃ e, IsNotExist e = true ∧ Event (Lstat p) (Bad e) ∈ tr).

Lemma gc_keeps_refl pins m tr : gc_keeps pins m m tr.
Proof. intros p i H. by left. Qed.

Lemma gc_keeps_cons pins m m' ev tr : gc_keeps pins m m' tr → gc_keeps pins m m' (ev :: tr).
Proof.
  intros H p i Hp. destruct (H p i Hp) as [?|(? & ? & e & ? & ?)]; [by left|right].
  split; [done|]. split; [done|]. exists e. split; [done|by right].
Qed.

Lemma gc_keeps_remove pins m m' q j e tr :
  pathToIno m !! q = Some j → j ∉ pins → IsNotExist e = true → inodes_ok rcs m →
  gc_keeps pins (removePathMappingLocked q m) m' tr →
  (∀ p i, pathToIno m' !! p = Some i → pathToIno (removePathMappingLocked q m) !! p = Some i) →
  gc_keeps pins m m' (Event (Lstat q) (Bad e) :: tr).
Proof.
  intros Hq Hj He Hok Hk Hsub p i Hp.
  destruct (removePathMappingLocked_ok rcs q m Hok) as (_ & _ & _ & Hd).
  destruct (decide (p = q)) as [->|Hpq].
  - right. assert (i = j) as -> by congruence. split; [|split; [done|]].
    + destruct (pathToIno m' !! q) as [k|] eqn:E; [|done]. apply Hsub in E.
      by rewrite Hd, lookup_delete_eq in E.
    + exists e. split; [done|by left].
  - eapply gc_keeps_cons; [exact Hk|]. by rewrite Hd, lookup_delete_ne.
Qed.

Lemma run_gc_inodes_loop pins order : ∀ m (s : HS),
  inodes_ok rcs m → NoDup order.*1 → (∀ p i, (p, i) ∈ order → pathToIno m !! p = Some i) →
  ∃ m' s' tr, run (gc_inodes_loop cfg pins order m) s = (Done () m', s', tr)
  ∧ inodes_ok rcs m' ∧ same_rest m m' ∧ gc_keeps pins m m' tr
  ∧ (∀ p i, pathToIno m' !! p = Some i → pathToIno m !! p = Some i).
Proof.
  induction order as [|[q j] order IH]; intros m s Hok Hnd Hord.
  { eexists m, s, []. split; [done|]. eauto using gc_keeps_refl, same_rest_refl. }
  simpl in Hnd. apply NoDup_cons in Hnd as [Hq Hnd].
  assert (Hqj : pathToIno m !! q = Some j) by (apply Hord; by left).
  assert (Hord' : ∀ p i, (p, i) ∈ order → pathToIno m !! p = Some i)
    by (intros p i H; apply Hord; by right).
  simpl gc_inodes_loop. rewrite (pure_bind _ _ _ m m) by done.
  case_match.
  { eexists m, s, []. split; [done|]. eauto using gc_keeps_refl, same_rest_refl. }
  case_bool_decide as Hpin; [by apply IH|].
  replace (isWithinRoot (root m) q) with true.
  2: { destruct (io_within _ _ Hok q j Hqj) as (cs & -> & Hcs). rewrite (io_root _ _ Hok).
       symmetry. apply isWithinRoot_spec; [done|by apply Forall_app|by eexists]. }
  cbn [negb]. rewrite run_call. destruct (os_step _ (Lstat q) s) as [r s1] eqn:E.
  assert (Hsame : ∃ m' s' tr, run (gc_inodes_loop cfg pins order m) s1 = (Done () m', s', tr)
    ∧ inodes_ok rcs m' ∧ same_rest m m' ∧ gc_keeps pins m m' (Event (Lstat q) (r) :: tr)
    ∧ (∀ p i, pathToIno m' !! p = Some i → pathToIno m !! p = Some i)).
  { destruct (IH m s1 Hok Hnd Hord') as (m' & s' & tr & Hr & H1 & H2 & H3 & H4).
    exists m', s', tr. split_and!; auto using gc_keeps_cons. }
  destruct r as [info|e]; [|destruct (IsNotExist e) eqn:He].
  1, 3: rewrite (pure_bind _ _ _ m ()) by done;
        destruct Hsame as (m' & s' & tr & -> & ?); by eexists m', s', _.
  rewrite (pure_bind _ _ _ (removePathMappingLocked q m) ()) by done.
  destruct (removePathMappingLocked_ok rcs q m Hok) as (Hok1 & Hrest & _ & Hd).
  destruct (IH (removePathMappingLocked q m) s1 Hok1 Hnd) as (m' & s' & tr & -> & H1 & H2 & H3 & H4).
  { intros p i Hp. rewrite Hd, lookup_delete_ne; [by apply Hord'|]. intros ->. apply Hq.
    apply list_elem_of_fmap. by exists (p, i). }
  eexists m', s', _. split; [done|]. split; [done|]. split; [by eapply same_rest_trans|].
  split; [by eapply gc_keeps_remove|].
  intros p i Hp%H4. rewrite Hd in Hp. by apply lookup_delete_Some in Hp as [_ ?].
Qed.

(** what a collection does when one is due: handles idle for longer
    than the limit are gone, at most the maximum remain, those evicted for
    space were used no later than those kept, the file of every handle that
    left is closed; a path is forgotten only if the host said it does not
    exist, and never that of the root or of an open handle. *)
Theorem maybeGC_collects now m g (s : HS) :
  inodes_ok rcs m → owns (handles m) [] g →
  (0 <? fsrpcGCInterval cfg) && (now - lastGC m <? fsrpcGCInterval cfg) = false →
  ∃ m' s' tr, run (maybeGC cfg now m) s = (Done () m', s', tr)
  ∧ lastGC m' = now
  ∧ (∀ fh h, handles m' !! fh = Some h → handles m !! fh = Some h
                                        ∧ handle_stale cfg now h = false)
  ∧ (0 < fsrpcMaxHandleEntries cfg →
     Z.of_nat (size (handles m')) ≤ fsrpcMaxHandleEntries cfg)
  ∧ (∀ fh h f, handles m !! fh = Some h → handles m' !! fh = None → h_file h = Some f →
       Event (CloseFile f) () ∈ tr
       ∧ (handle_stale cfg now h = false →
          ∀ fh' h', handles m' !! fh' = Some h' → h_lastUsed h ≤ h_lastUsed h'))
  ∧ (∀ p i, pathToIno m !! p = Some i →
       pathToIno m' !! p = Some i
       ∨ (i ≠ 1 ∧ (∀ fh h, handles m' !! fh = Some h → h_ino h ≠ i)
          ∧ ∃ e, IsNotExist e = true ∧ Event (Lstat p) (Bad e) ∈ tr)).
Proof.
  intros Hok Hown Hdue. unfold maybeGC. rewrite (pure_bind _ _ _ m m) by done. rewrite Hdue.
  rewrite (pure_bind _ _ _ (set_lastGC now m) ()) by done.
  rewrite (pure_bind _ _ _ (set_lastGC now m) (set_lastGC now m)) by done.
  destruct (gcHandlesLocked cfg now (set_lastGC now m)) as [tc m1] eqn:Eg.
  destruct (gcHandlesLocked_result cfg now (set_lastGC now m) g tc m1 Hown Eg)
    as [Hrest Hsub Hown1 Hfresh Hcap Hlru]. simpl in Hsub, Hlru, Hrest.
  rewrite (pure_bind _ _ _ m1 ()) by done.
  assert (Hok1 : inodes_ok rcs m1) by (rewrite Hrest; by eapply inodes_ok_ext; [..|exact Hok]).
  assert (Hgi : ∃ m2 s2 tr2, run (gcInodesLocked cfg m1) s = (Done () m2, s2, tr2)
    ∧ same_rest m1 m2 ∧ gc_keeps (pinned m1) m1 m2 tr2).
  { unfold gcInodesLocked. rewrite (pure_bind _ _ _ m1 m1) by done. case_match.
    { eexists _, _, _. split; [done|]. eauto using gc_keeps_refl, same_rest_refl. }
    destruct (run_gc_inodes_loop (pinned m1) (range_paths (pathToIno m1)) m1 s Hok1)
      as (m2 & s2 & tr2 & Hr & _ & H2 & H3 & _).
    - apply range_paths_NoDup1.
    - intros p i. by rewrite range_paths_elem.
    - by exists m2, s2, tr2. }
  destruct Hgi as (m2 & s2 & tr2 & Hgi & (R1 & R2 & R3 & R4 & R5) & Hkeeps).
  rewrite run_mbind, Hgi. destruct (run_close_all tc m2 s2) as (s3 & tr3 & Hcl & Hclosed).
  rewrite Hcl. exists m2, s3, (tr2 ++ tr3). split; [done|].
  split; [rewrite R5, Hrest; done|]. rewrite R3.
  split; [|split; [done|split]].
  - intros fh h Hh. split; [by eapply lookup_weaken|by eapply Hfresh].
  - intros fh h f Hh Hgone Hf. split; [|intros Hs; by eapply Hlru].
    apply elem_of_app. right. apply Hclosed.
    assert (Hfg : f ∈ g).
    { destruct (ow_file _ _ _ Hown fh h Hh) as (f' & ? & ? & _). congruence. }
    destruct (ow_all _ _ _ Hown1 f Hfg) as [|(fh' & h' & Hh' & Hf')]; [done|]. exfalso.
    assert (fh' = fh) as -> by
      (eapply (ow_inj _ _ _ Hown); [by eapply lookup_weaken|exact Hh|exact Hf'|exact Hf]).
    congruence.
  - intros p i Hp. assert (Hp1 : pathToIno m1 !! p = Some i) by (by rewrite Hrest).
    destruct (Hkeeps p i Hp1) as [?|(_ & Hpin & e & He & Hev)]; [by left|right].
    unfold pinned in Hpin. apply not_elem_of_union in Hpin as [H1 H2].
    split; [set_solver|]. split.
    + intros fh h Hh <-. apply H2.
      apply elem_of_list_to_set, list_elem_of_omap. exists (fh, h). simpl.
      rewrite range_handles_elem. split; [done|].
      pose proof (io_range _ _ Hok _ _ Hp). by destruct (Z.eqb_spec (h_ino h) 0); [lia|].
    + exists e. split; [done|]. apply elem_of_app. by left.
Qed.
End gc.

(** ** The pages of [readdir]

    A guest lists a directory by asking for pages, each from the offset the
    last entry of the previous one carried. *)
Fixpoint read_pages (fuel : nat) (entries : list obj) (offset maxEntries : Z) : list value :=
  match fuel with
  | O => []
  | S k =>
      match readdir_slice entries offset maxEntries with
      | None | Some [] => []
      | Some page => page ++ read_pages k entries (offset + Z.of_nat (length page)) maxEntries
      end
  end.

Lemma readdir_page_app i xs ys :
  readdir_page i (xs ++ ys) = readdir_page i xs ++ readdir_page (i + Z.of_nat (length xs)) ys.
Proof.
  revert i. induction xs as [|x xs IH]; intros i; simpl; [by rewrite Z.add_0_r|].
  rewrite IH. by replace (i + 1 + Z.of_nat (length xs)) with (i + Z.of_nat (S (length xs))) by lia.
Qed.

Lemma length_readdir_page i xs : length (readdir_page i xs) = length xs.
Proof. revert i. induction xs; intros; simpl; auto. Qed.

(** The page at [k], for sane sizes. *)
Lemma readdir_slice_at entries (k : nat) max :
  Z.of_nat (length entries) < two31 → 0 < max < two31 → (k ≤ length entries)%nat →
  readdir_slice entries (Z.of_nat k) max
  = Some (readdir_page (Z.of_nat k) (take (Z.to_nat max) (drop k entries))).
Proof.
  unfold two31. intros Hl Hm Hk. unfold readdir_slice.
  rewrite (int64_of_small (Z.of_nat k)) by (unfold i64_range, two63; lia).
  rewrite (int64_of_small max) by (unfold i64_range, two63; lia).
  replace (Z.of_nat k <? 0) with false by (symmetry; apply Z.ltb_ge; lia).
  destruct (Z.of_nat (length entries) <=? Z.of_nat k) eqn:E.
  { apply Z.leb_le in E. by rewrite drop_ge, take_nil by lia. }
  apply Z.leb_gt in E.
  rewrite (int64_of_small (Z.of_nat k + max)) by (unfold i64_range, two63; lia).
  destruct (Z.of_nat (length entries) <? Z.of_nat k + max) eqn:E2.
  - apply Z.ltb_lt in E2. rewrite int64_of_small by (unfold i64_range, two63; lia).
    replace (_ <? 0) with false by (symmetry; apply Z.ltb_ge; lia).
    rewrite Nat2Z.id. do 2 f_equal. rewrite !take_ge; [done|rewrite length_drop; lia..].
  - apply Z.ltb_ge in E2. replace (Z.of_nat k + max - Z.of_nat k) with max by lia.
    rewrite int64_of_small by (unfold i64_range, two63; lia).
    replace (max <? 0) with false by (symmetry; apply Z.ltb_ge; lia). by rewrite Nat2Z.id.
Qed.

Lemma read_pages_from fuel entries (k : nat) max :
  Z.of_nat (length entries) < two31 → 0 < max < two31 → (k ≤ length entries)%nat →
  (length entries - k < fuel)%nat →
  read_pages fuel entries (Z.of_nat k) max = readdir_page (Z.of_nat k) (drop k entries).
Proof.
  intros Hl Hm. revert k. induction fuel as [|fuel IH]; intros k Hk Hf; [lia|].
  simpl. rewrite readdir_slice_at by done.
  destruct (drop k entries) as [|x xs] eqn:Ed; [by rewrite take_nil|].
  assert (Hlen : length (drop k entries) = S (length xs)) by (by rewrite Ed).
  rewrite length_drop in Hlen.
  set (page := take (Z.to_nat max) (x :: xs)).
  assert (Hp : (0 < length page)%nat) by (unfold page; rewrite length_take; simpl; lia).
  destruct (readdir_page (Z.of_nat k) page) as [|v vs] eqn:Ep.
  { apply (f_equal length) in Ep. rewrite length_readdir_page in Ep. simpl in Ep. lia. }
  rewrite <-Ep, length_readdir_page.
  assert (Hpl : (length page ≤ S (length xs))%nat) by (unfold page; rewrite length_take; simpl; lia).
  replace (Z.of_nat k + Z.of_nat (length page)) with (Z.of_nat (k + length page)) by lia.
  rewrite IH by lia.
  replace (Z.of_nat (k + length page)) with (Z.of_nat k + Z.of_nat (length page)) by lia.
  rewrite <-readdir_page_app. f_equal. rewrite <-drop_drop, Ed.
  unfold page. rewrite length_take.
  destruct (decide (Z.to_nat max ≤ length (x :: xs))%nat).
  - rewrite Nat.min_l by done. apply take_drop.
  - rewrite Nat.min_r by lia. rewrite take_ge, drop_ge by lia. by rewrite app_nil_r.
Qed.

(** whatever the page size, the pages a guest reads, each from the
    offset of the previous page's last entry, are together the whole directory:
    each entry once, in order, with offsets 1, 2, 3, ... *)
Theorem readdir_pages_complete entries max :
  Z.of_nat (length entries) < two31 → 0 < max < two31 →
  read_pages (S (length entries)) entries 0 max = readdir_page 0 entries.
Proof.
  intros Hl Hm. change 0 with (Z.of_nat 0). rewrite read_pages_from by (done || lia). done.
Qed.

(** ** On the concrete host *)
Lemma demo_within cs : Forall good cs → within ["srv"; "share"] (abs_path (["srv"; "share"] ++ cs)).
Proof. intros H. by exists cs. Qed.

Lemma ensureInode_numbers_witness :
  let m := demo_mount MountMode.RW in
  let r1 := ensureInode "/srv/share/a.txt" m in
  let r2 := ensureInode "/srv/share/sub" r1.2 in
  within ["srv"; "share"] "/srv/share/sub"
  ∧ (r1.1 = r2.1 ↔ "/srv/share/a.txt" = "/srv/share/sub")
  ∧ pathForInode r2.2 r1.1 = Some "/srv/share/a.txt"
  ∧ pathForInode r2.2 r2.1 = Some "/srv/share/sub"
  ∧ (∀ k r, pathForInode m k = Some r → pathForInode r2.2 k = Some r).
Proof.
  intros m r1 r2.
  assert (H1 : within ["srv"; "share"] "/srv/share/a.txt")
    by (apply (demo_within ["a.txt"]); repeat constructor; by compute).
  assert (H2 : within ["srv"; "share"] "/srv/share/sub")
    by (apply (demo_within ["sub"]); repeat constructor; by compute).
  split; [exact H2|].
  exact (ensureInode_numbers ["srv"; "share"] demo_good m "/srv/share/a.txt" "/srv/share/sub"
    r1.1 r2.1 r1.2 r2.2 (demo_mount_ok _) H1 H2 ltac:(by vm_compute) eq_refl eq_refl).
Defined.

Lemma remapPath_follows_witness :
  let m := (ensureInode "/srv/share/sub/x" (demo_mount MountMode.RW)).2 in
  pathForInode m 2 = Some "/srv/share/sub/x"
  ∧ inodes_ok ["srv"; "share"] (remapPath "/srv/share/sub" "/srv/share/d" m)
  ∧ pathForInode (remapPath "/srv/share/sub" "/srv/share/d" m) 2 = Some "/srv/share/d/x".
Proof.
  intros m.
  assert (Hm : inodes_ok ["srv"; "share"] m).
  { eapply (ensureInode_ok ["srv"; "share"] demo_good "/srv/share/sub/x"
      (demo_mount MountMode.RW)); [apply demo_mount_ok| |by vm_compute|reflexivity].
    apply (demo_within ["sub"; "x"]). repeat constructor; by compute. }
  split; [by vm_compute|].
  apply (remapPath_follows ["srv"; "share"] demo_good ltac:(done) "/srv/share/sub" "/srv/share/d"
    m 2 "/srv/share/sub/x" Hm); [| |by vm_compute].
  - apply (demo_within ["sub"]). repeat constructor; by compute.
  - apply (demo_within ["d"]). repeat constructor; by compute.
Defined.

(** One idle handle, two in use, room for one. *)
Definition gc_cfg : fsrpcConfig := {|
  fsrpcMaxHandleEntries := 1; fsrpcHandleIdleTTL := 100; fsrpcMaxInodeEntries := 1;
  fsrpcGCInterval := 10 |}.
Definition gc_mount : fsrpcMount :=
  set_handles
    {[ 1 := {| h_file := Some 3%nat; h_append := false; h_ino := 2; h_lastUsed := 1700 |};
       2 := {| h_file := Some 4%nat; h_append := false; h_ino := 2; h_lastUsed := 1950 |};
       3 := {| h_file := Some 5%nat; h_append := false; h_ino := 2; h_lastUsed := 1960 |} ]}
    (ensureInode "/srv/share/gone" (demo_looked)).2.

Lemma gc_mount_inodes : inodes_ok ["srv"; "share"] gc_mount.
Proof.
  assert (H1 : inodes_ok ["srv"; "share"] demo_looked).
  { eapply (ensureInode_ok ["srv"; "share"] demo_good "/srv/share/a.txt"
      (demo_mount MountMode.RW)); [apply demo_mount_ok| |by vm_compute|reflexivity].
    apply (demo_within ["a.txt"]). repeat constructor; by compute. }
  apply (inodes_ok_ext _ (ensureInode "/srv/share/gone" demo_looked).2); [done..|].
  eapply (ensureInode_ok ["srv"; "share"] demo_good "/srv/share/gone" demo_looked);
    [exact H1| |by vm_compute|reflexivity].
  apply (demo_within ["gone"]). repeat constructor; by compute.
Qed.

Lemma gc_mount_owns : owns (handles gc_mount) [] ({[5; 4; 3]}%nat : gset file).
Proof.
  pose proof (owns_insert ∅ ∅ 3 {| h_file := Some 5%nat; h_append := false; h_ino := 2;
    h_lastUsed := 1960 |} 5%nat owns_empty ltac:(set_solver) eq_refl eq_refl) as H1.
  pose proof (owns_insert _ _ 2 {| h_file := Some 4%nat; h_append := false; h_ino := 2;
    h_lastUsed := 1950 |} 4%nat H1 ltac:(set_solver) eq_refl eq_refl) as H2.
  pose proof (owns_insert _ _ 1 {| h_file := Some 3%nat; h_append := false; h_ino := 2;
    h_lastUsed := 1700 |} 3%nat H2 ltac:(set_solver) eq_refl eq_refl) as H3.
  replace ({[5; 4; 3]}%nat : gset file) with ({[3%nat]} ∪ ({[4%nat]} ∪ ({[5%nat]} ∪ ∅)) : gset file)
    by (apply leibniz_equiv; set_solver).
  exact H3.
Qed.

Lemma maybeGC_collects_witness :
  ∃ m' s' tr, run (maybeGC gc_cfg 2000 gc_mount) demo_fs = (Done () m', s', tr)
  ∧ (∀ fh h, handles m' !! fh = Some h → handle_stale gc_cfg 2000 h = false)
  ∧ Z.of_nat (size (handles m')) ≤ 1.
Proof.
  destruct (maybeGC_collects gc_cfg ["srv"; "share"] demo_good 2000 gc_mount {[5; 4; 3]}%nat demo_fs
    gc_mount_inodes gc_mount_owns ltac:(by vm_compute))
    as (m' & s' & tr & Hr & _ & Hfresh & Hcap & _).
  exists m', s', tr. split; [exact Hr|]. split; [intros fh h Hh; by apply (Hfresh fh)|].
  by apply Hcap.
Defined.

Lemma readdir_pages_complete_witness :
  let es := map (λ n, [("name", VText n)]) [".";  ".."; "a"; "b"; "c"] in
  length (read_pages 6 es 0 2) = 5%nat ∧ read_pages (S (length es)) es 0 2 = readdir_page 0 es.
Proof.
  split; [by vm_compute|].
  exact (readdir_pages_complete (map (λ n, [("name", VText n)]) [".";  ".."; "a"; "b"; "c"]) 2
    ltac:(by vm_compute) ltac:(by vm_compute)).
Defined.
