(* ===== verification/FsrpcOutput.v ===== *)
(** * What an FS-RPC session writes, counts and reports

    Error numbers, the bytes and the order of the answers ([serve_answers]), and
    the metrics of [daemon/fsrpc_server.go]. *)
From Stdlib Require Import Ascii.
From S2P Require Export FsrpcTable.

(** ** Error numbers *)

(** a failed host call is never reported as a success: the error number
    of every Go error is one of ten positive numbers the guest knows. *)
Theorem mapOSError_known e :
  mapOSError (Some e) ∈ [linuxErrNoent; linuxErrAcces; linuxErrExist; linuxErrNotDir;
    linuxErrIsDir; linuxErrInval; linuxErrROFS; linuxErrLoop; linuxErrBadf; linuxErrIO].
Proof.
  unfold mapOSError, errno_case. repeat case_match;
    repeat first [by left | right].
Qed.

(** for the error a call of package os returns, the guest gets the errno
    inside it; EPERM is reported as EACCES, ENOTEMPTY as EEXIST, and an errno
    without a case as EIO. *)
Theorem mapOSError_errno op path n text :
  mapOSError (Some (EPath op path (EErrno n text))) =
    if bool_decide (n ∈ [2; 13; 17; 20; 21; 22; 30; 40; 9]) then n
    else if n =? 1 then linuxErrAcces
    else if n =? 39 then linuxErrExist
    else linuxErrIO.
Proof.
  unfold mapOSError, IsNotExist, IsPermission, IsExist, errno_case. simpl.
  repeat match goal with
         | |- context [n =? ?k] => destruct (Z.eqb_spec n k) as [->|]; [by vm_compute|]
         end.
  rewrite bool_decide_false; [done|]. intros Hin.
  repeat (apply elem_of_cons in Hin as [Hin|Hin]; [done|]). by apply not_elem_of_nil in Hin.
Qed.

(** ** Writing to the connection *)

(** What a connection took from [data], for one that keeps the contract of
    [io.Writer]: a prefix, all of it unless it reports an error. *)
Class ConnTakes {CS} (OS : ConnOS CS) (taken : CS → list byte) := conn_takes data c :
  let '((n, _), c') := conn_write data c in
  0 ≤ n ≤ Z.of_nat (length data) ∧ taken c' = taken c ++ take (Z.to_nat n) data.

Section writing.
Context `{OS : ConnOS CS} `{HO : HostOS HS} (taken : CS → list byte) `{!ConnTakes OS taken}.
Implicit Types s : fsrpcServer CS.

Lemma run_writeAllConn fuel data s (h : HS) :
  (length data ≤ fuel)%nat →
  ∃ r c, run (writeAllConn fuel data s) h = (Done r (set_conn c s), h, [])
  ∧ ∃ k, taken c = taken (sv_conn s) ++ take k data ∧ (r = None → (length data ≤ k)%nat).
Proof.
  revert data s. induction fuel as [|fuel IH]; intros data s Hlen.
  { destruct data; [|simpl in Hlen; lia]. exists None, (sv_conn s). split; [by destruct s|].
    exists 0%nat. by rewrite app_nil_r. }
  destruct data as [|b data'] eqn:Hd.
  { exists None, (sv_conn s). split; [by destruct s|]. exists 0%nat. by rewrite app_nil_r. }
  rewrite <-Hd in *. assert (Hpos : (0 < length data)%nat) by (subst; simpl; lia).
  assert (Hstep : writeAllConn (S fuel) data s =
    let '((n, err), c) := conn_write data (sv_conn s) in
    match err with
    | Some e => Ret (Done (Some e) (set_conn c s))
    | None => if n <=? 0 then Ret (Done (Some "short write") (set_conn c s))
              else if Z.of_nat (length data) <? n then Ret (Panicked "slice bounds out of range")
              else writeAllConn fuel (drop (Z.to_nat n) data) (set_conn c s)
    end).
  { rewrite Hd. simpl writeAllConn. unfold conn_write_, mbind, M_mbind, M_bind. simpl.
    destruct (conn_write _ _) as [[n err] c]. simpl. destruct err; [done|].
    destruct (n <=? 0); [done|]. by destruct (_ <? n). }
  clear b data' Hd. rewrite Hstep. pose proof (conn_takes data (sv_conn s)) as Ht.
  destruct (conn_write data (sv_conn s)) as [[n err] c]. destruct Ht as [Hn Ht].
  destruct err as [e|].
  { eexists (Some e), c. split; [done|]. by exists (Z.to_nat n). }
  destruct (n <=? 0) eqn:En.
  { eexists (Some "short write"), c. split; [done|]. by exists (Z.to_nat n). }
  apply Z.leb_gt in En. replace (Z.of_nat (length data) <? n) with false
    by (symmetry; apply Z.ltb_ge; lia).
  destruct (IH (drop (Z.to_nat n) data) (set_conn c s)) as (r & c' & Hr & k & Hk & Hk').
  { rewrite length_drop. lia. }
  exists r, c'. split; [exact Hr|]. exists (Z.to_nat n + k)%nat. split.
  - simpl in Hk. by rewrite Hk, Ht, <-(app_assoc (taken (sv_conn s))), take_take_drop.
  - intros ->. specialize (Hk' eq_refl). rewrite length_drop in Hk'. lia.
Qed.

(** writeAllConn ends without panic on every connection that keeps the
    contract of io.Writer, however small the pieces it takes: it has written a
    prefix of the data, and all of it when it reports no error. *)
Theorem writeAllConn_total data s (h : HS) :
  ∃ r c, run (writeAllConn (length data) data s) h = (Done r (set_conn c s), h, [])
  ∧ match r with
    | None => taken c = taken (sv_conn s) ++ data
    | Some _ => ∃ k, taken c = taken (sv_conn s) ++ take k data
    end.
Proof.
  destruct (run_writeAllConn (length data) data s h) as (r & c & Hr & k & Hk & Hall); [lia|].
  exists r, c. split; [exact Hr|]. destruct r; [by exists k|].
  by rewrite Hk, take_ge by auto.
Qed.

(** A connection that takes something of every write and reports no error. *)
Class ConnReliable {CS'} (OS' : ConnOS CS') := conn_reliable data c : data ≠ [] →
  (conn_write data c).1.2 = None ∧ 0 < (conn_write data c).1.1.

Lemma run_writeAllConn_reliable `{!ConnReliable OS} fuel data s (h : HS) r c :
  run (writeAllConn fuel data s) h = (Done r (set_conn c s), h, []) → r = None.
Proof.
  revert data s. induction fuel as [|fuel IH]; intros data s; destruct data as [|b data'];
    simpl; [congruence..| |].
  - congruence.
  - unfold conn_write_, mbind, M_mbind, M_bind. simpl.
    pose proof (conn_reliable (b :: data') (sv_conn s)) as [He Hn]; [done|].
    destruct (conn_write _ _) as [[n err] c1]. simpl in *. subst err.
    destruct (n <=? 0) eqn:E; [apply Z.leb_le in E; lia|].
    destruct (_ <? n); simpl; [congruence|]. apply (IH _ (set_conn c1 s)).
Qed.
End writing.

(** ** One answer per request *)
Section answers.
Context `{RT : GoRuntime} `{C : Codec} `{OS : ConnOS CS} `{HO : HostOS HS}.
Context (cfg : fsrpcConfig) (taken : CS → list byte) `{!ConnTakes OS taken} `{!ConnReliable OS}.
Context (Hmarshal : ∀ m, ∃ e, Marshal m = Good e).
Implicit Types s : fsrpcServer CS.

(** The requests of a stream, up to its end or the first frame that is none. *)
Fixpoint decoded (fuel : nat) (input : list byte) : list fsrpcRequest :=
  match fuel with
  | O => []
  | S k =>
      match readFrame input with
      | Good (frame, rest) =>
          match decodeFSRPCRequest frame with
          | Good req => req :: decoded k rest
          | Bad _ => []
          end
      | Bad _ => []
      end
  end.

(** The frame that answers a request. *)
Definition answer_frame (req : fsrpcRequest) (a : reply) : list byte :=
  match Marshal (response_msg (req_id req) (req_op req) a.1.2 a.1.1 a.2) with
  | Good e => encode_frame e
  | Bad _ => []
  end.

Lemma run_sendResponse req (a : reply) s (h : HS) :
  ∃ n c, run (sendResponse (req_id req) (req_op req) a.1.2 a.1.1 a.2 s) h
         = (Done (Good n) (set_conn c s), h, [])
  ∧ taken c = taken (sv_conn s) ++ answer_frame req a.
Proof.
  unfold sendResponse, answer_frame. destruct (Hmarshal
    (response_msg (req_id req) (req_op req) a.1.2 a.1.1 a.2)) as [e ->].
  set (data := encode_frame e).
  destruct (run_writeAllConn taken (length data) data s h) as (r & c & Hr & k & Hk & Hall); [lia|].
  pose proof (run_writeAllConn_reliable _ _ _ _ _ _ Hr) as ->.
  exists (Z.of_nat (length data)), c. rewrite run_mbind, Hr. split; [done|].
  by rewrite Hk, take_ge by auto.
Qed.

Lemma run_on_mount {A} (m : M fsrpcMount A) s (h : HS) :
  run (on_mount m s) h =
  let '(o, h1, tr) := run (m (sv_mount s)) h in
  match o with
  | Done a m' => (Done a (set_mount m' s), h1, tr)
  | Panicked e => (Panicked e, h1, tr)
  end.
Proof.
  unfold on_mount, zoom. rewrite run_bind.
  destruct (run (m (sv_mount s)) h) as [[[a m'|e] h1] tr]; simpl; by rewrite app_nil_r.
Qed.

Definition answered s s' (reqs : list fsrpcRequest) (answers : list reply) : Prop :=
  length answers = length reqs
  ∧ taken (sv_conn s') = taken (sv_conn s) ++ mjoin (zip_with answer_frame reqs answers)
  ∧ totalRequests (sv_metrics s')
    = uint64_of (totalRequests (sv_metrics s) + Z.of_nat (length reqs)).

Lemma answered_none s s' :
  u64_range (totalRequests (sv_metrics s)) → sv_conn s' = sv_conn s →
  sv_metrics s' = sv_metrics s → answered s s' [] [].
Proof.
  intros Hr Hc Hm. unfold answered. rewrite Hc, Hm, app_nil_r, Z.add_0_r.
  by rewrite uint64_of_small.
Qed.

(** One answered request, then the rest. *)
Lemma answered_cons s s1 s' req a reqs answers :
  taken (sv_conn s1) = taken (sv_conn s) ++ answer_frame req a →
  totalRequests (sv_metrics s1) = incr (totalRequests (sv_metrics s)) →
  answered s1 s' reqs answers → answered s s' (req :: reqs) (a :: answers).
Proof.
  intros Hc Hm (H1 & H2 & H3). split; [simpl; by rewrite H1|]. split.
  - rewrite H2, Hc. simpl. by rewrite <-app_assoc.
  - rewrite H3, Hm. unfold incr, uint64_of. simpl length.
    rewrite Zplus_mod_idemp_l. f_equal. lia.
Qed.

(** C39: on a reliable connection a session that does not panic answers every
    request it reads exactly once, in the order of the requests, each answer
    carrying its request's id and operation, and counts each once. *)
Theorem serve_answers fuel s (h h' : HS) r s' tr :
  u64_range (totalRequests (sv_metrics s)) →
  run (serve_loop cfg fuel s) h = (Done r s', h', tr) →
  ∃ answers, answered s s' (decoded fuel (sv_input s)) answers.
Proof.
  revert s h tr. induction fuel as [|fuel IH]; intros s h tr Hr; simpl.
  { intros; simplify_eq. exists []. by apply answered_none. }
  rewrite (pure_bind _ _ _ s s) by done.
  destruct (readFrame (sv_input s)) as [[frame rest]|e].
  2: { destruct e; simpl; intros; simplify_eq; exists []; by apply answered_none. }
  rewrite (pure_bind _ _ _ (set_input rest s) ()) by done. cbv zeta.
  destruct (decodeFSRPCRequest frame) as [req|e].
  2: { rewrite (pure_bind _ _ _ _ ()) by done. simpl. intros; simplify_eq.
       exists []. by apply answered_none. }
  intros (start & h1 & tr1 & _ & Hrun & _)%run_call_Done.
  apply run_mbind_Done in Hrun as (a & s1 & h2 & tr2 & tr3 & Hh & Hrun & _).
  destruct a as [[res errCode] message].
  rewrite run_on_mount in Hh.
  match type of Hh with
  | match ?x with _ => _ end = _ => destruct x as [[[x' m'|] h2'] tr2']
  end; [|congruence]. simplify_eq.
  apply run_mbind_Done in Hrun as ([] & s2 & h3 & tr4 & tr5 & Hlog & Hrun & _).
  assert (Hs2 : sv_conn s2 = sv_conn s ∧ sv_metrics s2 = sv_metrics s ∧ sv_input s2 = rest).
  { destruct (_ && _); simpl in Hlog; by simplify_eq. }
  destruct Hs2 as (Hc2 & Hm2 & Hi2).
  apply run_mbind_Done in Hrun as (sent & s3 & h4 & tr6 & tr7 & Hsend & Hrun & _).
  destruct (run_sendResponse req (res, errCode, message) s2 h3) as (n & c & Hsend' & Htk).
  simpl in Hsend'. rewrite Hsend' in Hsend. simplify_eq.
  apply run_call_Done in Hrun as (now & h5 & tr8 & _ & Hrun & _).
  rewrite (pure_bind _ _ _ _ ()) in Hrun by done.
  apply IH in Hrun as [answers Hans]; [|simpl; apply uint64_of_range].
  simpl in Hans. exists ((res, errCode, message) :: answers).
  eapply answered_cons; [..|exact Hans].
  - simpl. by rewrite Htk, Hc2.
  - simpl. by rewrite Hm2.
Qed.
End answers.

(** ** On the concrete host *)
#[global] Instance mem_conn_takes : ConnTakes mem_conn id.
Proof. intros data c. simpl. split; [lia|]. by rewrite Nat2Z.id, take_ge. Qed.
#[global] Instance mem_conn_reliable : ConnReliable mem_conn.
Proof. intros data c H. simpl. split; [done|]. destruct data; [done|simpl; lia]. Qed.

Definition demo_server (input : list byte) : fsrpcServer (list byte) :=
  newFSRPCServer [] input (demo_mount MountMode.RW) 1000.

Lemma writeAllConn_total_witness :
  ConnTakes mem_conn id
  ∧ ∃ r c, run (writeAllConn 3 (text_bytes "abc") (demo_server [])) demo_fs
           = (Done r (set_conn c (demo_server [])), demo_fs, [])
  ∧ match r with
    | None => id c = id (sv_conn (demo_server [])) ++ text_bytes "abc"
    | Some _ => ∃ k, id c = id (sv_conn (demo_server [])) ++ take k (text_bytes "abc")
    end.
Proof.
  split; [exact mem_conn_takes|].
  exact (writeAllConn_total id (text_bytes "abc") (demo_server []) demo_fs).
Defined.

(** Two requests: a ping and a lookup. *)
Definition answers_table : list obj :=
  [ [("t", VText "fs_request"); ("id", VU64 7); ("p", VObj [("op", VText "ping")])];
    [("t", VText "fs_request"); ("id", VU64 8);
     ("p", VObj [("op", VText "lookup"); ("req", VObj lookup_req)])] ].
Definition answers_input : list byte :=
  encode_frame [byte_of_Z 0] ++ encode_frame [byte_of_Z 1].
Definition answers_run :=
  run (@serve_loop mem_runtime (table_codec answers_table) _ mem_conn default_config 20
         (demo_server answers_input)) demo_fs.

Lemma serve_answers_witness :
  match answers_run with
  | (Done r s', h', tr) =>
      length (@decoded (table_codec answers_table) 20 answers_input) = 2%nat
      ∧ ∃ answers, @answered (table_codec answers_table) _ id (demo_server answers_input) s'
                     (@decoded (table_codec answers_table) 20 answers_input) answers
  | _ => False
  end.
Proof.
  assert (Hdone : match answers_run.1.1 with Done _ _ => true | _ => false end = true)
    by (by vm_compute).
  destruct answers_run as [[[r s'|] h'] tr] eqn:E; [|done].
  split; [by vm_compute|].
  eapply (@serve_answers mem_runtime (table_codec answers_table) _ mem_conn _ mem_host
    default_config id _ _ ltac:(intros m; by eexists) 20 (demo_server answers_input) demo_fs);
    [by vm_compute|exact E].
Defined.
