(* ===== verification/FsrpcFindings.v ===== *)
(** * Behaviours of the FS-RPC server its documentation does not promise

    Theorems about the code as it is: where it leaves what [docs/fs-rpc.md]
    and the comments say, and what a Close from another goroutine does to a file that
    is being opened. *)
From Stdlib Require Import Ascii.
From S2P Require Export FsrpcOutput FsrpcTheorems.

Section findings.
Context `{HO : HostOS HS}.

(** a readdir of a directory with a page size of [2^63] or more panics
    (which ends the daemon): converted to a signed integer the size is
    negative, and so is the capacity given to make. *)
Theorem readdir_huge_page_panics rcs m ino path req z info es (s s1 s2 : HS) :
  Forall good rcs → inodes_ok rcs m →
  getReqUint req "ino" = Some ino → getReqUint req "offset" = None →
  getReqUint req "max_entries" = Some z → two63 ≤ z < two64 →
  pathForInode m ino = Some path →
  os_step _ (Lstat path) s = (Good info, s1) → fi_IsDir info = true →
  os_step _ (ReadDir path) s1 = (Good es, s2) → Z.of_nat (length es) < two32 →
  ∃ tr, run (handleReaddir req m) s = (Panicked "makeslice: cap out of range", s2, tr).
Proof.
  intros Hrcs Hi Hino Hoff Hmax Hz Hpath E1 Hd E2 Hes. unfold handleReaddir.
  rewrite Hino, Hoff, Hmax. cbv zeta. cbn [default].
  rewrite (pure_bind _ _ _ m (Some path)) by (by rewrite <-Hpath).
  rewrite run_call, E1, Hd. cbn [negb]. rewrite run_call, E2.
  rewrite (pure_bind _ _ _ m m) by done.
  assert (Hp : ∃ pino m1, (if bool_decide (path = root m) then mret ino
            else m_ensureInode (Dir path) : M fsrpcMount Z) m = Ret (Done pino m1)).
  { case_bool_decide; [by eexists _, _|]. rewrite m_ensureInode_eq. by eexists _, _. }
  destruct Hp as (pino & m1 & Hp). rewrite (pure_bind _ _ _ _ _ Hp).
  assert (He : ∀ es m, ∃ items m2, readdir_entries path es m = Ret (Done items m2)
                                   ∧ length items = length es).
  { clear. induction es as [|e es IH]; intros m; [by eexists _, _|].
    cbn [readdir_entries]. rewrite (pure_bind _ _ _ _ _ (m_ensureInode_eq _ _)).
    destruct (IH (ensureInode (PathJoin [path; de_name e]) m).2) as (items & m2 & Hr & Hl).
    rewrite (pure_bind _ _ _ _ _ Hr). eexists _, _. split; [done|]. simpl. by rewrite Hl. }
  destruct (He es m1) as (items & m2 & Hr & Hl). rewrite (pure_bind _ _ _ _ _ Hr).
  replace (readdir_slice _ 0 _) with (@None (list value)); [by eexists|]. symmetry.
  replace (if z =? 0 then 128 else z) with z
    by (destruct (Z.eqb_spec z 0); [unfold two63 in *; lia|done]).
  unfold readdir_slice. change (int64_of 0) with 0. cbn [Z.ltb Z.compare].
  simpl length. destruct (Z.of_nat _ <=? 0) eqn:E; [apply Z.leb_le in E; lia|].
  rewrite (int64_of_high z) by done. unfold two63, two64, two32 in *.
  rewrite (int64_of_small (0 + _)) by (unfold i64_range, two63; lia).
  replace (_ <? 0 + (z - 18446744073709551616)) with false by (symmetry; apply Z.ltb_ge; lia).
  rewrite int64_of_small by (unfold i64_range, two63; lia).
  by replace (0 + (z - 18446744073709551616) - 0 <? 0) with true
    by (symmetry; apply Z.ltb_lt; lia).
Qed.

(** the message that answers a failed lookup is the host's error text
    and contains the absolute host path, although the guest is not to see it. *)
Theorem lookup_error_names_host_path rcs m parentIno cs name req inner (s s1 : HS) :
  Forall good rcs → inodes_ok rcs m →
  getReqUint req "parent_ino" = Some parentIno → getReqString req "name" = Some name →
  pathForInode m parentIno = Some (abs_path (rcs ++ cs)) → Forall good cs →
  name ≠ "" → has_char slash name = false →
  let target := abs_path (rcs ++ child_comps cs name) in
  os_step _ (Lstat target) s = (Bad (EPath "lstat" target inner), s1) →
  ∃ errCode message tr,
    run (handleLookup req m) s = (Done (None, errCode, message) m, s1, tr)
    ∧ Contains message target = true.
Proof.
  intros Hrcs Hi Hp Hn Hpath Hcs Hname Hslash target E. unfold handleLookup. rewrite Hp, Hn.
  rewrite (pure_bind _ _ _ m (Some (abs_path (rcs ++ cs)))) by (by rewrite <-Hpath).
  erewrite (pure_bind _ _ _ m) by done.
  rewrite (resolveChildPath_within rcs Hrcs m cs name) by (done || apply (io_root _ _ Hi)).
  rewrite bool_decide_false, Hslash by done. cbn [negb Z.eqb].
  rewrite run_call. fold target. rewrite E. eexists _, _, _. split; [done|].
  apply Contains_true. exists "lstat ". eexists. simpl err_string. by rewrite !sapp_cons.
Qed.
End findings.

(** Requests in a row, with their replies. *)
Fixpoint script `{GoRuntime} (cfg : fsrpcConfig) (reqs : list (string * obj))
    : M fsrpcMount (list reply) :=
  match reqs with
  | [] => mret []
  | (op, req) :: reqs' =>
      r ← handle cfg op req;
      rs ← script cfg reqs';
      mret (r :: rs)
  end.

Definition escape_script : list (string * obj) := [
  ("readdir", [("ino", VU64 1)]);
  ("lookup", [("parent_ino", VU64 4); ("name", VText "secret")]);
  ("open", [("ino", VU64 5)]);
  ("read", [("fh", VU64 1); ("size", VU64 64)])].

Definition escape_run :=
  run (script default_config escape_script (newFSRPCMount None 0 "/srv/share" MountMode.RO))
      demo_fs.

(** a symbolic link inside a share lets the guest read outside it: readdir
    gives the link an inode number, lookup accepts it as a parent, and the
    host follows the link when the child is opened; here a read-only mount of
    /srv/share answers with the content of /etc/secret. *)
Theorem symlink_escape :
  canonical (nodes demo_fs) true "open" "/srv/share/link/secret" = Good "/etc/secret"
  ∧ isWithinRoot "/srv/share" "/etc/secret" = false
  ∧ match escape_run.1.1 with
    | Done replies _ => last replies = Some (Some [("data", VBytes (text_bytes "key"))], 0, "")
    | Panicked _ => False
    end.
Proof. split; [by vm_compute|]. split; by vm_compute. Qed.

Definition huge_req : obj := [("ino", VU64 1); ("max_entries", VU64 two63)].
Lemma readdir_huge_page_panics_witness :
  inodes_ok ["srv"; "share"] (demo_mount MountMode.RO)
  ∧ ∃ tr, run (handleReaddir huge_req (demo_mount MountMode.RO)) demo_fs
    = (Panicked "makeslice: cap out of range", demo_fs, tr).
Proof.
  split; [apply demo_mount_ok|].
  apply (readdir_huge_page_panics ["srv"; "share"] (demo_mount MountMode.RO) 1 "/srv/share"
    huge_req two63 (FileInfo (ModeDir + 493) 0 0) (children (nodes demo_fs) "/srv/share")
    demo_fs demo_fs demo_fs demo_good (demo_mount_ok _)); by vm_compute.
Defined.

Definition missing_req : obj := [("parent_ino", VU64 1); ("name", VText "nope")].
Lemma lookup_error_names_host_path_witness :
  inodes_ok ["srv"; "share"] (demo_mount MountMode.RO)
  ∧ ∃ errCode message tr,
    run (handleLookup missing_req (demo_mount MountMode.RO)) demo_fs
    = (Done (None, errCode, message) (demo_mount MountMode.RO), demo_fs, tr)
    ∧ Contains message "/srv/share/nope" = true.
Proof.
  split; [apply demo_mount_ok|].
  apply (lookup_error_names_host_path ["srv"; "share"] (demo_mount MountMode.RO) 1 [] "nope"
    missing_req (EErrno 2 "no such file or directory") demo_fs demo_fs demo_good
    (demo_mount_ok _)); by vm_compute.
Defined.

(** ** A Close from another goroutine

    [vmBackend.Close] closes each server while [serve] may be inside a handler.  A
    file that [handleOpen] has opened and not yet registered is not among the
    handles that the close sweeps. *)

(** The end of [handleOpen], once the file is open. *)
Definition handleOpen_end (f : file) (flags ino : Z) : M fsrpcMount reply :=
  now ← oscall_ Now;
  fh ← register_handle f flags ino now;
  answer [("fh", VU64 fh); ("open_flags", VU64 0)].

(** Where [handleOpen] stands when [os.OpenFile] answers: it has not changed the mount
    and goes on with its end. *)
Lemma handleOpen_opens req m ino path info f :
  let flags := default 0 (getReqUint req "flags") in
  getReqUint req "ino" = Some ino → readOnly m && hasWriteIntent flags = false →
  pathForInode m ino = Some path → fi_IsDir info = false → fi_IsSymlink info = false →
  ∃ looked opened,
    handleOpen req m = Call (Lstat path) looked
    ∧ looked (Good info) = Call (OpenFile path (osOpenFlagsFromLinux flags) 0) opened
    ∧ opened (Good f) = handleOpen_end f flags ino m.
Proof.
  intros flags Hi Hw Hp Hd Hl. unfold handleOpen. rewrite Hi. cbv zeta. fold flags.
  rewrite (pure_bind _ _ m m m) by done. rewrite Hw.
  rewrite (pure_bind _ _ m m (Some path)) by (by rewrite <-Hp).
  eexists _, _. split; [done|]. cbn. rewrite Hd, Hl. by split.
Qed.

Lemma trace_opens_app tr1 tr2 g : trace_opens (tr1 ++ tr2) g = trace_opens tr2 (trace_opens tr1 g).
Proof. revert g. induction tr1 as [|[B [c b]] tr1 IH]; intros g; [done|]. apply IH. Qed.

Section close.
Context `{RTL : GoRuntimeLaws} `{OS : ConnOS CS} `{HO : HostOS HS}.
Implicit Types (sv : fsrpcServer CS) (s : HS).

Lemma close_all_keeps tc m s o s1 tr f g :
  run (close_all tc m) s = (o, s1, tr) → (∀ h, h ∈ tc → h_file h ≠ Some f) → f ∈ g → f ∈ trace_opens tr g.
Proof.
  revert s tr g. induction tc as [|h tc IH]; intros s tr g Hr Hf Hg; [by injection Hr as <- <- <-|].
  assert (Hh : h_file h ≠ Some f) by (apply Hf; by left).
  assert (Htc : ∀ h', h' ∈ tc → h_file h' ≠ Some f) by (intros h' ?; apply Hf; by right).
  cbn [close_all] in Hr. destruct (h_file h) as [f'|]; [|by apply (IH s tr g)].
  rewrite run_call in Hr. destruct (os_step _ (CloseFile f') s) as [[] s'].
  destruct (run (close_all tc m) s') as [[o' s2] tr'] eqn:E. injection Hr as <- <- <-.
  apply (IH s' tr' (g ∖ {[f']}) E Htc). set_solver.
Qed.

(** What the other goroutine's Close does: it sweeps the table. *)
Lemma server_Close_sweeps sv sv1 s s1 tr f g :
  sv_closed sv = false → run (server_Close sv) s = (Done () sv1, s1, tr) →
  (∀ fh h, handles (sv_mount sv) !! fh = Some h → h_file h ≠ Some f) → f ∈ g →
  sv_closed sv1 = true ∧ handles (sv_mount sv1) = ∅ ∧ f ∈ trace_opens tr g.
Proof.
  intros Hc Hr Hf Hg. unfold server_Close in Hr.
  rewrite (pure_bind _ _ sv sv sv) in Hr by done. rewrite Hc in Hr.
  rewrite (pure_bind _ _ sv (set_closed sv) ()) in Hr by done.
  apply run_mbind_Done in Hr as ([] & sv' & s' & tr1 & tr2 & Hm & Hr & ->). injection Hr as <- <- <-.
  rewrite app_nil_r. rewrite run_on_mount in Hm. unfold mount_close in Hm.
  rewrite (pure_bind _ _ _ (sv_mount sv) (sv_mount sv)) in Hm by done. cbv zeta in Hm.
  rewrite (pure_bind _ _ _ (set_handles ∅ (sv_mount sv)) ()) in Hm by done.
  set (tc := (range_handles _).*2) in Hm. set (m := set_handles ∅ (sv_mount sv)) in Hm.
  destruct (run_close_all tc m s) as (s2 & tr & He & _). pose proof He as Hk. rewrite He in Hm.
  injection Hm as <- <- <-. split_and!; [done|done|].
  eapply close_all_keeps; [exact Hk| |done]. intros h (p & -> & Hp)%list_elem_of_fmap.
  subst tc. rewrite range_handles_perm in Hp. destruct p as [fh h]. apply elem_of_map_to_list in Hp.
  by apply (Hf fh).
Qed.

Lemma handleOpen_end_registers f flags ino r m m' s s' tr :
  run (handleOpen_end f flags ino m) s = (Done r m', s', tr) →
  (∃ fh h, handles m' !! fh = Some h ∧ h_file h = Some f) ∧ ∀ g, trace_opens tr g = g.
Proof.
  intros (now & s1 & tr1 & _ & Hr & ->)%run_call_Done.
  apply run_mbind_Done in Hr as (fh & m1 & s2 & tr2 & tr3 & Hm & Hr & ->). injection Hr as <- <- <- <-.
  unfold register_handle in Hm. rewrite (pure_bind _ _ m m m) in Hm by done.
  destruct (nextHandleIDLocked m) as [[fh' m'']|]; [|done]. injection Hm as <- <- <- <-.
  split; [|done]. eexists fh', _. split; [apply lookup_insert_eq|done].
Qed.

(** a file is left open when its server is closed while it is being opened: take a
    server that nobody closed, a file [f] that a handler has opened and not yet
    registered, a Close by another goroutine at this point, and then the rest of the
    handler. The file is registered in the table that was swept, the Close that
    [serve] defers does nothing, since [closeOnce] was used, and [f] stays open. *)
Theorem close_during_open_leaks sv sv1 sv2 f flags ino r s s1 s2 tr1 tr2 g :
  sv_closed sv = false → f ∈ g →
  (∀ fh h, handles (sv_mount sv) !! fh = Some h → h_file h ≠ Some f) →
  run (server_Close sv) s = (Done () sv1, s1, tr1) →
  run (on_mount (handleOpen_end f flags ino) sv1) s1 = (Done r sv2, s2, tr2) →
  (∃ fh h, handles (sv_mount sv2) !! fh = Some h ∧ h_file h = Some f)
  ∧ run (server_Close sv2) s2 = (Done () sv2, s2, [])
  ∧ f ∈ trace_opens (tr1 ++ tr2) g.
Proof.
  intros Hc Hg Hf Hcl Hr. destruct (server_Close_sweeps _ _ _ _ _ _ _ Hc Hcl Hf Hg) as (H1 & _ & H3).
  rewrite run_on_mount in Hr. destruct (run (handleOpen_end f flags ino (sv_mount sv1)) s1) as [[o h1] tr] eqn:E.
  destruct o as [a m'|]; [|done]. injection Hr as <- <- <- <-.
  apply handleOpen_end_registers in E as [Hreg Ho]. split_and!; [done| |].
  - unfold server_Close. rewrite (pure_bind _ _ _ (set_mount m' sv1) (set_mount m' sv1)) by done.
    cbn [set_mount sv_closed]. by rewrite H1.
  - rewrite trace_opens_app, Ho. exact H3.
Qed.
End close.

(** The file [a.txt] being opened as the VM is stopped. *)
Definition opening : fsrpcServer (list byte) := newFSRPCServer [] [] (demo_mount MountMode.RO) 0.
Definition opening_fs : memfs * nat :=
  match os_step _ (OpenFile "/srv/share/a.txt" (osOpenFlagsFromLinux 0) 0) demo_fs with
  | (Good f, s) => (s, f)
  | (Bad _, s) => (s, 0%nat)
  end.
Definition closed_meanwhile := run (server_Close opening) opening_fs.1.
Definition after_close : fsrpcServer (list byte) :=
  match closed_meanwhile.1.1 with Done _ sv => sv | Panicked _ => opening end.
Definition went_on := run (on_mount (handleOpen_end opening_fs.2 0 3) after_close) closed_meanwhile.1.2.
Definition after_open : fsrpcServer (list byte) :=
  match went_on.1.1 with Done _ sv => sv | Panicked _ => opening end.

Lemma close_during_open_leaks_witness :
  (∃ fh h, handles (sv_mount after_open) !! fh = Some h ∧ h_file h = Some opening_fs.2)
  ∧ run (server_Close after_open) went_on.1.2 = (Done () after_open, went_on.1.2, [])
  ∧ opening_fs.2 ∈ trace_opens (closed_meanwhile.2 ++ went_on.2) {[opening_fs.2]}.
Proof.
  refine (close_during_open_leaks opening after_close after_open opening_fs.2 0 3
            (Some [("fh", VU64 1); ("open_flags", VU64 0)], 0, "") opening_fs.1 closed_meanwhile.1.2
            went_on.1.2 closed_meanwhile.2 went_on.2 {[opening_fs.2]} eq_refl _ _ _ _).
  - by apply elem_of_singleton.
  - by intros fh h.
  - by vm_compute.
  - by vm_compute.
Defined.
