(* ===== verification/GoNet.v ===== *)
(** * Package [net]: addresses and host:port pairs

    The functions on IP addresses and addresses with ports klitka calls:
    [ParseIP], [IP.To4], [IP.String], the address classes, [SplitHostPort] and
    [JoinHostPort], and [URL.Hostname]'s splitting. *)
From Stdlib Require Import Ascii.
From S2P Require Export GoStrings.

(** ** IP addresses

    [net.IP] is a byte slice: 4 or 16 bytes (an IPv4 address has both forms);
    nil is [None] where the code tests for it. *)
Definition IP : Type := list Z.

Definition IPv4 (a b c d : Z) : IP :=
  [0; 0; 0; 0; 0; 0; 0; 0; 0; 0; 255; 255; a; b; c; d].

Definition To4 (ip : IP) : option (list Z) :=
  if (length ip =? 4)%nat then Some ip
  else if (length ip =? 16)%nat
          && bool_decide (take 12 ip = [0; 0; 0; 0; 0; 0; 0; 0; 0; 0; 255; 255])
  then Some (drop 12 ip)
  else None.

Definition byte_at (ip : IP) (i : nat) : Z := default 0 (ip !! i).

Definition IPv6loopback : IP := replicate 15 0 ++ [1].

Definition IsLoopback (ip : IP) : bool :=
  match To4 ip with
  | Some ip4 => byte_at ip4 0 =? 127
  | None => bool_decide (ip = IPv6loopback)
  end.

Definition IsUnspecified (ip : IP) : bool :=
  match To4 ip with
  | Some ip4 => bool_decide (ip4 = [0; 0; 0; 0])
  | None => bool_decide (ip = replicate 16 0)
  end.

Definition IsLinkLocalUnicast (ip : IP) : bool :=
  match To4 ip with
  | Some ip4 => (byte_at ip4 0 =? 169) && (byte_at ip4 1 =? 254)
  | None => (length ip =? 16)%nat && (byte_at ip 0 =? 254)
            && (Z.land (byte_at ip 1) 192 =? 128)
  end.

Definition IsLinkLocalMulticast (ip : IP) : bool :=
  match To4 ip with
  | Some ip4 => (byte_at ip4 0 =? 224) && (byte_at ip4 1 =? 0) && (byte_at ip4 2 =? 0)
  | None => (length ip =? 16)%nat && (byte_at ip 0 =? 255)
            && (Z.land (byte_at ip 1) 15 =? 2)
  end.

Definition IsPrivate (ip : IP) : bool :=
  match To4 ip with
  | Some ip4 =>
      (byte_at ip4 0 =? 10)
      || ((byte_at ip4 0 =? 172) && (Z.land (byte_at ip4 1) 240 =? 16))
      || ((byte_at ip4 0 =? 192) && (byte_at ip4 1 =? 168))
  | None => (length ip =? 16)%nat && (Z.land (byte_at ip 0) 254 =? 252)
  end.

(** *** [ParseIP] *)

(** A decimal field: one to three digits, no leading zero, at most 255. *)
Definition parse_octet (s : string) : option Z :=
  match s with
  | "" => None
  | String "0"%char "" => Some 0
  | String "0"%char _ => None
  | _ => v ← digits_val s 0; if v <=? 255 then Some v else None
  end.

Definition parse_ipv4 (s : string) : option (list Z) :=
  match Split s "."%char with
  | [a; b; c; d] =>
      a ← parse_octet a; b ← parse_octet b; c ← parse_octet c; d ← parse_octet d;
      Some [a; b; c; d]
  | _ => None
  end.

Definition hex_digit (c : ascii) : option Z :=
  let n := Z.of_nat (nat_of_ascii c) in
  if (48 <=? n) && (n <=? 57) then Some (n - 48)
  else if (97 <=? n) && (n <=? 102) then Some (n - 87)
  else if (65 <=? n) && (n <=? 70) then Some (n - 55)
  else None.

(** The leading hexadecimal digits: their number, value and what follows. *)
Fixpoint take_hex (s : string) (acc : Z) : nat * Z * string :=
  match s with
  | "" => (0%nat, acc, "")
  | String c s' =>
      match hex_digit c with
      | None => (0%nat, acc, s)
      | Some d => let '(n, v, rest) := take_hex s' (16 * acc + d) in (S n, v, rest)
      end
  end.

(** The loop of [parseIPv6]: [bytes] is what is filled, [ellipsis] where [::]
    stood; the result is the bytes and the position of [::]. *)
Fixpoint ipv6_loop (fuel : nat) (s : string) (bytes : list Z) (ellipsis : option nat)
    : option (list Z * option nat) :=
  match fuel with
  | O => None
  | S k =>
      if (16 <=? length bytes)%nat then if bool_decide (s = "") then Some (bytes, ellipsis) else None
      else
        let '(n, v, rest) := take_hex s 0 in
        if (n =? 0)%nat || (4 <? n)%nat then None
        else
          match rest with
          | String "."%char _ =>
              if (bool_decide (ellipsis = None) && negb (length bytes =? 12)%nat)
                 || (16 <? length bytes + 4)%nat then None
              else v4 ← parse_ipv4 s; Some (bytes ++ v4, ellipsis)
          | "" => Some (bytes ++ [Z.shiftr v 8; Z.land v 255], ellipsis)
          | String ":"%char "" => None
          | String ":"%char (String ":"%char rest') =>
              let bytes := bytes ++ [Z.shiftr v 8; Z.land v 255] in
              if bool_decide (ellipsis = None) then
                if bool_decide (rest' = "") then Some (bytes, Some (length bytes))
                else ipv6_loop k rest' bytes (Some (length bytes))
              else None
          | String ":"%char rest' =>
              ipv6_loop k rest' (bytes ++ [Z.shiftr v 8; Z.land v 255]) ellipsis
          | _ => None
          end
  end.

(** A leading [::]. *)
Definition leading_ellipsis (s : string) : string * option nat :=
  match s with
  | String ":"%char (String ":"%char s') => (s', Some 0%nat)
  | _ => (s, None)
  end.

Definition parse_ipv6 (s : string) : option IP :=
  let '(s, ellipsis) := leading_ellipsis s in
  if bool_decide (s = "" ∧ ellipsis = Some 0%nat) then Some (replicate 16 0)
  else
    '(bytes, ellipsis) ← ipv6_loop 9 s [] ellipsis;
    if (length bytes <? 16)%nat then
      match ellipsis with
      | None => None
      | Some e => Some (take e bytes ++ replicate (16 - length bytes) 0 ++ drop e bytes)
      end
    else match ellipsis with None => Some bytes | Some _ => None end.

(** The first of [.], [:] and [%] decides; addresses with a zone are refused. *)
Fixpoint ip_kind (s : string) : option ascii :=
  match s with
  | "" => None
  | String c s' =>
      if Ascii.eqb c "."%char || Ascii.eqb c ":"%char || Ascii.eqb c "%"%char then Some c
      else ip_kind s'
  end.

Definition ParseIP (s : string) : option IP :=
  match ip_kind s with
  | Some "."%char => match parse_ipv4 s with
                     | Some [a; b; c; d] => Some (IPv4 a b c d)
                     | _ => None
                     end
  | Some ":"%char => if has_char "%"%char s then None else parse_ipv6 s
  | _ => None
  end.

Example ParseIP_values :
  ParseIP "10.0.0.1" = Some (IPv4 10 0 0 1)
  ∧ ParseIP "::ffff:10.0.0.1" = Some (IPv4 10 0 0 1)
  ∧ ParseIP "::ffff:a00:1" = Some (IPv4 10 0 0 1)
  ∧ ParseIP "::1" = Some IPv6loopback ∧ ParseIP "::" = Some (replicate 16 0)
  ∧ ParseIP "fe80::1%eth0" = None ∧ ParseIP "010.0.0.1" = None ∧ ParseIP "1.2.3" = None
  ∧ ParseIP "1.2.3.256" = None ∧ ParseIP "1:2:3:4:5:6:7:8" = Some [0;1;0;2;0;3;0;4;0;5;0;6;0;7;0;8]
  ∧ ParseIP "1:2:3:4:5:6:7:8::" = None ∧ ParseIP "12345::" = None ∧ ParseIP "1::2::3" = None
  ∧ ParseIP "fd00::5" = Some ([253; 0] ++ replicate 13 0 ++ [5]) ∧ ParseIP "" = None
  ∧ ParseIP "example.com" = None ∧ ParseIP "1:2:3:4:5:6:1.2.3.4" ≠ None.
Proof. by vm_compute. Qed.

(** *** [IP.String] *)
Definition hex_char (d : Z) : ascii :=
  ascii_of_nat (Z.to_nat (if d <? 10 then 48 + d else 87 + d)).

(** Hexadecimal without leading zeros, of a 16-bit group. *)
Definition hex16 (v : Z) : string :=
  let digit k := String (hex_char (Z.land (Z.shiftr v (4 * k)) 15)) "" in
  if v <? 16 then digit 0
  else if v <? 256 then digit 1 +:+ digit 0
  else if v <? 4096 then digit 2 +:+ digit 1 +:+ digit 0
  else digit 3 +:+ digit 2 +:+ digit 1 +:+ digit 0.

Fixpoint groups (bs : list Z) : list Z :=
  match bs with
  | a :: b :: bs' => (Z.shiftl a 8 + b) :: groups bs'
  | _ => []
  end.

Fixpoint zero_run (gs : list Z) : nat :=
  match gs with
  | 0 :: gs' => S (zero_run gs')
  | _ => O
  end.

(** The first longest run of at least two zero groups: position and length. *)
Fixpoint best_run (i : nat) (gs : list Z) (best : nat * nat) : nat * nat :=
  match gs with
  | [] => best
  | _ :: gs' =>
      let l := zero_run gs in
      best_run (S i) gs' (if (2 <=? l)%nat && (snd best <? l)%nat then (i, l) else best)
  end.

Definition ipv6_string (bs : IP) : string :=
  let gs := groups bs in
  match best_run 0 gs (0%nat, 0%nat) with
  | (_, O) => Join (map hex16 gs) ":"
  | (i, l) => Join (map hex16 (take i gs)) ":" +:+ "::" +:+ Join (map hex16 (drop (i + l) gs)) ":"
  end.

Definition ipv4_string (bs : list Z) : string := Join (map Itoa bs) ".".

Definition hex2 (b : Z) : string :=
  String (hex_char (Z.shiftr b 4)) (String (hex_char (Z.land b 15)) "").
Definition hex_bytes (bs : list Z) : string := foldr (λ b s, hex2 b +:+ s) "" bs.

Definition IP_String (ip : IP) : string :=
  match ip with
  | [] => "<nil>"
  | _ =>
      match To4 ip with
      | Some ip4 => ipv4_string ip4
      | None => if (length ip =? 16)%nat then ipv6_string ip else "?" +:+ hex_bytes ip
      end
  end.

Example IP_String_values :
  IP_String (IPv4 192 168 0 1) = "192.168.0.1" ∧ IP_String IPv6loopback = "::1"
  ∧ IP_String (replicate 16 0) = "::" ∧ IP_String ([253; 0] ++ replicate 13 0 ++ [5]) = "fd00::5"
  ∧ IP_String [32;1;13;184;0;0;0;0;0;1;0;0;0;0;0;1] = "2001:db8::1:0:0:1"
  ∧ IP_String [0;1;0;0;0;3;0;0;0;5;0;6;0;7;0;8] = "1:0:3:0:5:6:7:8".
Proof. by vm_compute. Qed.

(** ** host:port *)
Definition JoinHostPort (host port : string) : string :=
  if has_char ":"%char host || has_char "%"%char host
  then "[" +:+ host +:+ "]:" +:+ port
  else host +:+ ":" +:+ port.

(** [net.SplitHostPort]; [None] is the error. *)
Definition SplitHostPort (hostport : string) : option (string * string) :=
  match cut_last ":"%char hostport with
  | None => None
  | Some (before, port) =>
      match hostport with
      | String "["%char inner =>
          match cut_first "]"%char inner with
          | None => None
          | Some (host, after) =>
              match after with
              | String ":"%char port' =>
                  if has_char ":"%char port' then None
                  else if has_char "["%char (host +:+ "]" +:+ after) then None
                  else if has_char "]"%char after then None
                  else Some (host, port')
              | _ => None
              end
          end
      | _ =>
          if has_char ":"%char before then None
          else if has_char "["%char hostport || has_char "]"%char hostport then None
          else Some (before, port)
      end
  end.

Example SplitHostPort_values :
  SplitHostPort "a.b:80" = Some ("a.b", "80") ∧ SplitHostPort "[::1]:53" = Some ("::1", "53")
  ∧ SplitHostPort "::1" = None ∧ SplitHostPort "a" = None ∧ SplitHostPort "a:" = Some ("a", "")
  ∧ SplitHostPort "[::1]" = None ∧ SplitHostPort ":80" = Some ("", "80")
  ∧ SplitHostPort "[a]b:80" = None ∧ SplitHostPort "a]:80" = None.
Proof. by vm_compute. Qed.

(** [url.URL.Hostname]: the host without a valid port and without brackets. *)
Fixpoint all_digits (s : string) : bool :=
  match s with "" => true | String c s' => bool_decide (is_Some (digit_of c)) && all_digits s' end.

Definition url_Hostname (host : string) : string :=
  let host := match cut_last ":"%char host with
              | Some (h, p) => if all_digits p then h else host
              | None => host
              end in
  if HasPrefix host "[" && HasSuffix host "]"
  then TrimSuffix (TrimPrefix host "[") "]"
  else host.

Example url_Hostname_values :
  url_Hostname "a.b:80" = "a.b" ∧ url_Hostname "[::1]:80" = "::1" ∧ url_Hostname "[::1]" = "::1"
  ∧ url_Hostname "a.b" = "a.b" ∧ url_Hostname "a:b" = "a:b".
Proof. by vm_compute. Qed.

(** ** Facts *)
Lemma SplitHostPort_Join h p :
  has_char "["%char h = false → has_char "]"%char h = false →
  has_char ":"%char p = false → has_char "["%char p = false → has_char "]"%char p = false →
  SplitHostPort (JoinHostPort h p) = Some (h, p).
Proof.
  intros Ho Hc Hp1 Hp2 Hp3. unfold JoinHostPort.
  destruct (has_char ":" h || has_char "%" h) eqn:E.
  - unfold SplitHostPort.
    rewrite (proj2 (cut_last_Some ":" ("[" +:+ h +:+ "]:" +:+ p) ("[" +:+ h +:+ "]") p)).
    2: { split; [|done]. rewrite <-!sapp_assoc. done. }
    rewrite sapp_cons, sapp_nil_l.
    rewrite (proj2 (cut_first_Some "]" (h +:+ "]:" +:+ p) h (":" +:+ p))) by (split; [done|done]).
    rewrite sapp_cons, sapp_nil_l, Hp1. rewrite !has_char_app. simpl. by rewrite Ho, Hp2, Hp3.
  - apply orb_false_iff in E as [Hh _]. unfold SplitHostPort.
    rewrite (proj2 (cut_last_Some ":" (h +:+ ":" +:+ p) h p)) by (split; [done|done]).
    assert (Hno : has_char "[" (h +:+ ":" +:+ p) = false ∧ has_char "]" (h +:+ ":" +:+ p) = false).
    { rewrite !has_char_app. simpl. by rewrite Ho, Hc, Hp2, Hp3. }
    destruct Hno as [H1 H2].
    destruct h as [|c h'].
    + rewrite sapp_nil_l, sapp_cons in *. simpl in H1, H2. simpl. by rewrite H1, H2.
    + rewrite sapp_cons in *. simpl in Ho.
      case_bool_decide as Hne; [done|].
      rewrite H1, H2, Hh. cbv iota.
      destruct c as [[] [] [] [] [] [] [] []]; try done; by destruct Hne.
Qed.
