(* ===== verification/NetworkPolicy.v ===== *)
(** * The network policy of a VM ([daemon/network.go])

    From the policy of a [StartVM] request to the normalised policy, its
    validation, and the decision on a host name. *)
From Stdlib Require Import Ascii.
From S2P Require Export GoNet Proto.

Record networkPolicy := {
  allowHosts : list string;
  denyHosts : list string;
  blockPrivateRange : bool;
  egressMode : Z;
  dnsMode : Z;
  trustedDNSServers : list string
}.

Inductive policy_error :=
| InvalidDNSServer (value : string)
| InvalidDNSServerPort (value : string)
| UnsupportedEgressMode (mode : Z)
| UnsupportedDNSMode (mode : Z)
| TrustedNeedsServer
| ServersNeedTrusted.

(** Keeping the first of equal elements: the [seen] maps of the code. *)
Fixpoint dedup_seen (seen : list string) (l : list string) : list string :=
  match l with
  | [] => []
  | x :: l' =>
      if bool_decide (x ∈ seen) then dedup_seen seen l' else x :: dedup_seen (x :: seen) l'
  end.

Section code.
Context `{UT : UnicodeTables}.

Definition normal_host (host : string) : string :=
  TrimSuffix (TrimSpace (ToLower host)) ".".

(** [for _, host := range hosts]: empty ones are skipped, then repeated ones. *)
Definition normalizeHosts (hosts : list string) : list string :=
  dedup_seen [] (filter (λ h, h ≠ "") (map normal_host hosts)).

Definition normalizeDNSServer (value : string) : osres policy_error string :=
  let '(host, port) := default (value, "53") (SplitHostPort value) in
  match ParseIP (TrimSpace host) with
  | None => Bad (InvalidDNSServer value)
  | Some ip =>
      match Atoi (TrimSpace port) with
      | Some portNum =>
          if (portNum <=? 0) || (65535 <? portNum) then Bad (InvalidDNSServerPort value)
          else Good (JoinHostPort (IP_String ip) (Itoa portNum))
      | None => Bad (InvalidDNSServerPort value)
      end
  end.

Fixpoint normalizeDNSServers_loop (seen : list string) (values : list string)
    : osres policy_error (list string) :=
  match values with
  | [] => Good []
  | value :: values' =>
      let value := TrimSpace value in
      if bool_decide (value = "") then normalizeDNSServers_loop seen values'
      else
        try normalized := normalizeDNSServer value catch e => Bad e in
        if bool_decide (normalized ∈ seen) then normalizeDNSServers_loop seen values'
        else
          osres_map (cons normalized) (normalizeDNSServers_loop (normalized :: seen) values')
  end.

Definition normalizeDNSServers (values : list string) : osres policy_error (list string) :=
  normalizeDNSServers_loop [] values.

Definition buildNetworkPolicy (cfg : option NetworkPolicy) : osres policy_error networkPolicy :=
  match cfg with
  | None => Good {| allowHosts := []; denyHosts := []; blockPrivateRange := false;
                    egressMode := EgressMode.COMPAT; dnsMode := DNSMode.OPEN;
                    trustedDNSServers := [] |}
  | Some cfg =>
      try servers := normalizeDNSServers (TrustedDnsServers cfg) catch e => Bad e in
      Good {| allowHosts := normalizeHosts (AllowHosts cfg);
              denyHosts := normalizeHosts (DenyHosts cfg);
              blockPrivateRange := BlockPrivateRanges cfg;
              egressMode := if np_EgressMode cfg =? EgressMode.UNSPECIFIED
                            then EgressMode.COMPAT else np_EgressMode cfg;
              dnsMode := if np_DnsMode cfg =? DNSMode.UNSPECIFIED
                         then DNSMode.OPEN else np_DnsMode cfg;
              trustedDNSServers := servers |}
  end.

(** [None] is the nil error. *)
Definition validateNetworkPolicy (policy : networkPolicy) : option policy_error :=
  if negb ((egressMode policy =? EgressMode.COMPAT) || (egressMode policy =? EgressMode.STRICT))
  then Some (UnsupportedEgressMode (egressMode policy))
  else if negb ((dnsMode policy =? DNSMode.OPEN) || (dnsMode policy =? DNSMode.TRUSTED)
                || (dnsMode policy =? DNSMode.SYNTHETIC))
  then Some (UnsupportedDNSMode (dnsMode policy))
  else if (dnsMode policy =? DNSMode.TRUSTED) && (length (trustedDNSServers policy) =? 0)%nat
  then Some TrustedNeedsServer
  else if negb (dnsMode policy =? DNSMode.TRUSTED)
          && (0 <? length (trustedDNSServers policy))%nat
  then Some ServersNeedTrusted
  else None.

Definition requiresProxy (policy : networkPolicy) : bool :=
  (0 <? length (allowHosts policy))%nat || (0 <? length (denyHosts policy))%nat
  || blockPrivateRange policy || (egressMode policy =? EgressMode.STRICT)
  || negb (dnsMode policy =? DNSMode.OPEN) || (0 <? length (trustedDNSServers policy))%nat.

Definition egressModeName (policy : networkPolicy) : string :=
  if egressMode policy =? EgressMode.STRICT then "strict" else "compat".

Definition dnsModeName (policy : networkPolicy) : string :=
  if dnsMode policy =? DNSMode.TRUSTED then "trusted"
  else if dnsMode policy =? DNSMode.SYNTHETIC then "synthetic"
  else "open".

(** ** The decision on a host *)
Definition matchHost (pattern host : string) : bool :=
  if bool_decide (pattern = host) then true
  else if HasPrefix pattern "*." then
    let suffix := TrimPrefix pattern "*" in
    HasSuffix host suffix && negb (bool_decide (host = TrimPrefix suffix "."))
  else false.

Definition matchesAny (patterns : list string) (host : string) : bool :=
  existsb (λ pattern, matchHost pattern host) patterns.

Inductive host_error :=
| EmptyHost
| BlockedHost (host : string)
| BlockedHostIPv6 (host : string)
| BlockedDNS (host : string)
| NoIP (host : string)
| UnsupportedDNS (mode : Z)
| LookupFailed (text : string)
| DialFailed (text : string).

Definition checkHost (policy : networkPolicy) (host : string) : option host_error :=
  let host := TrimSuffix (TrimSpace (ToLower host)) "." in
  if bool_decide (host = "") then Some EmptyHost
  else if matchesAny (denyHosts policy) host then Some (BlockedHost host)
  else if (0 <? length (allowHosts policy))%nat && negb (matchesAny (allowHosts policy) host)
  then Some (BlockedHost host)
  else None.
End code.
