(* ===== verification/NetPolicyProps.v ===== *)
(** * What the network policy guarantees

    A policy that is built and validated is well formed
    ([buildNetworkPolicy_wf]); which hosts a policy lets through ([checkHost_spec])
    and what a pattern matches ([matchHost_spec]). *)
From Stdlib Require Import Ascii.
From S2P Require Export NetworkPolicy.

(** ** Host patterns *)
Lemma matchHost_wildcard d h :
  matchHost ("*." +:+ d) h = true ↔ "*." +:+ d = h ∨ ∃ l, h = l +:+ "." +:+ d.
Proof.
  unfold matchHost. case_bool_decide as E; [by split; auto|].
  replace (HasPrefix ("*." +:+ d) "*.") with true
    by (symmetry; apply HasPrefix_true; by eexists).
  change ("*." +:+ d) with ("*" +:+ ("." +:+ d)). rewrite TrimPrefix_app, TrimPrefix_app.
  rewrite andb_true_iff, HasSuffix_true. split.
  - intros [[l Hl] _]. right. by exists l.
  - intros [?|[l Hl]]; [done|]. split; [by exists l|].
    apply negb_true_iff, bool_decide_eq_false. intros ->.
    apply (f_equal slen) in Hl. rewrite !slen_app in Hl. simpl in Hl. lia.
Qed.

(** a pattern matches itself; "*.d" moreover matches exactly the names that
    end in ".d", so never d itself nor a name that merely ends in the letters
    of d; nothing else matches. *)
Theorem matchHost_spec pattern host :
  matchHost pattern host = true ↔
  pattern = host ∨ ∃ d l, pattern = "*." +:+ d ∧ host = l +:+ "." +:+ d.
Proof.
  destruct (HasPrefix pattern "*.") eqn:E.
  - apply HasPrefix_true in E as [d ->]. rewrite matchHost_wildcard. split.
    + intros [?|[l ?]]; [by left|right; by exists d, l].
    + intros [?|(d' & l & Hd & ->)]; [by left|right].
      apply sapp_inj_l in Hd as ->. by exists l.
  - unfold matchHost. rewrite E. case_bool_decide as D; [by split; auto|].
    split; [done|]. intros [?|(d & l & -> & _)]; [done|]. exfalso.
    assert (HasPrefix ("*." +:+ d) "*." = true) by (apply HasPrefix_true; by eexists). congruence.
Qed.

Example matchHost_values :
  matchHost "*.example.com" "api.example.com" = true
  ∧ matchHost "*.example.com" "example.com" = false
  ∧ matchHost "*.example.com" "badexample.com" = false
  ∧ matchHost "example.com" "example.com" = true.
Proof. by vm_compute. Qed.

Lemma matchesAny_true patterns host :
  matchesAny patterns host = true ↔ ∃ p, p ∈ patterns ∧ matchHost p host = true.
Proof.
  unfold matchesAny. rewrite existsb_exists.
  split; intros (p & Hp & Hm); exists p; by rewrite ?list_elem_of_In in *.
Qed.

(** ** Lists without repetition *)
Lemma dedup_seen_spec l : ∀ seen,
  NoDup (dedup_seen seen l) ∧ ∀ x, x ∈ dedup_seen seen l ↔ x ∈ l ∧ x ∉ seen.
Proof.
  induction l as [|y l IH]; intros seen; simpl; [split; [constructor|set_solver]|].
  case_bool_decide as Hy.
  - destruct (IH seen) as [H1 H2]. split; [done|]. intros x. rewrite H2, elem_of_cons.
    split; [tauto|]. intros [[->|?] ?]; tauto.
  - destruct (IH (y :: seen)) as [H1 H2]. split.
    + apply NoDup_cons. split; [|done]. rewrite H2. set_solver.
    + intros x. rewrite !elem_of_cons, H2, elem_of_cons. destruct (decide (x = y)); [subst|]; tauto.
Qed.

Section props.
Context `{UT : UnicodeTables}.

(** normalising a host list keeps each normalised, non-empty name exactly
    once and invents none. *)
Theorem normalizeHosts_spec hosts :
  NoDup (normalizeHosts hosts)
  ∧ ∀ h, h ∈ normalizeHosts hosts ↔ h ≠ "" ∧ ∃ host, host ∈ hosts ∧ normal_host host = h.
Proof.
  destruct (dedup_seen_spec (filter (λ h, h ≠ "") (map normal_host hosts)) []) as [H1 H2].
  split; [exact H1|]. intros h. unfold normalizeHosts. rewrite H2, list_elem_of_filter.
  change (map normal_host hosts) with (normal_host <$> hosts). rewrite list_elem_of_fmap.
  split.
  - intros [[Hh (host & -> & Hin)] _]. split; [done|]. by exists host.
  - intros [Hh (host & Hin & <-)]. split; [|apply not_elem_of_nil]. split; [done|].
    by exists host.
Qed.

(** the decision on a host: it is let through exactly when, lowered and
    without surrounding space and a trailing dot, it is not empty, no deny
    pattern matches it, and the allow list is empty or has a pattern that
    matches it. Deny wins over allow. *)
Theorem checkHost_spec policy host :
  let h := TrimSuffix (TrimSpace (ToLower host)) "." in
  checkHost policy host = None ↔
  h ≠ "" ∧ (∀ p, p ∈ denyHosts policy → matchHost p h = false)
  ∧ (allowHosts policy = [] ∨ ∃ p, p ∈ allowHosts policy ∧ matchHost p h = true).
Proof.
  intros h. unfold checkHost. fold h. case_bool_decide as Hh; [by split; [|intros [? _]]|].
  destruct (matchesAny (denyHosts policy) h) eqn:Hd.
  { apply matchesAny_true in Hd as (p & Hp & Hm). split; [done|].
    intros (_ & Hdeny & _). specialize (Hdeny p Hp). congruence. }
  assert (Hdeny : ∀ p, p ∈ denyHosts policy → matchHost p h = false).
  { intros p Hp. destruct (matchHost p h) eqn:E; [|done].
    assert (matchesAny (denyHosts policy) h = true) by (apply matchesAny_true; eauto). congruence. }
  destruct (allowHosts policy) as [|a al] eqn:Ha.
  { split; [|done]. intros _. split; [done|]. split; [done|]. by left. }
  rewrite <-Ha. replace ((0 <? length (allowHosts policy))%nat) with true by (by rewrite Ha).
  destruct (matchesAny (allowHosts policy) h) eqn:Hm; simpl.
  - split; [|done]. intros _. split; [done|]. split; [done|]. right. by apply matchesAny_true.
  - split; [done|]. intros (_ & _ & [Hn|Hm']); [congruence|].
    apply matchesAny_true in Hm'. congruence.
Qed.

(** when the proxy is not needed there is nothing it would have enforced:
    every non-empty host would be let through, addresses are unrestricted and
    names are resolved as usual. *)
Theorem no_proxy_nothing_enforced policy :
  validateNetworkPolicy policy = None → requiresProxy policy = false →
  (∀ host, checkHost policy host = None ∨ checkHost policy host = Some EmptyHost)
  ∧ blockPrivateRange policy = false ∧ egressMode policy = EgressMode.COMPAT
  ∧ dnsMode policy = DNSMode.OPEN ∧ trustedDNSServers policy = [].
Proof.
  unfold requiresProxy. intros Hv Hr. rewrite !orb_false_iff in Hr.
  destruct Hr as [[[[[Ha Hd] Hp] He] Hm] Hs].
  destruct (allowHosts policy) eqn:Ea; [|done]. destruct (denyHosts policy) eqn:Ed; [|done].
  destruct (trustedDNSServers policy) eqn:Et; [|done]. apply negb_false_iff, Z.eqb_eq in Hm.
  split; [|split; [done|split; [|done]]].
  - intros host. unfold checkHost. rewrite Ea, Ed. simpl. case_bool_decide; auto.
  - unfold validateNetworkPolicy in Hv. rewrite He in Hv.
    destruct (egressMode policy =? EgressMode.COMPAT) eqn:E; [by apply Z.eqb_eq|done].
Qed.

End props.

Lemma no_proxy_nothing_enforced_witness :
  let p := {| allowHosts := []; denyHosts := []; blockPrivateRange := false;
              egressMode := EgressMode.COMPAT; dnsMode := DNSMode.OPEN;
              trustedDNSServers := [] |} in
  validateNetworkPolicy p = None ∧ egressMode p = EgressMode.COMPAT.
Proof.
  intros p. split; [done|].
  exact (proj1 (proj2 (proj2 (@no_proxy_nothing_enforced ascii_tables p eq_refl eq_refl)))).
Defined.

(** ** Trusted DNS servers *)

(** Neither brackets nor anything else that would confuse [host:port]. *)
Definition no_brackets (s : string) : Prop :=
  has_char "["%char s = false ∧ has_char "]"%char s = false.

Lemma no_brackets_app s t : no_brackets s → no_brackets t → no_brackets (s +:+ t).
Proof. intros [H1 H2] [H3 H4]. split; rewrite has_char_app; by rewrite ?H1, ?H2. Qed.

Lemma no_brackets_Join l sep :
  no_brackets sep → Forall no_brackets l → no_brackets (Join l sep).
Proof.
  intros [H1 H2] H. split; (apply has_char_Join; [done|]); eapply Forall_impl; try exact H; by intros x [].
Qed.

Lemma no_brackets_hex d : 0 ≤ d < 16 → no_brackets (String (hex_char d) "").
Proof.
  intros H.
  assert (Hall : Forall (λ d, no_brackets (String (hex_char d) "")) (seqZ 0 16))
    by (repeat constructor).
  rewrite Forall_forall in Hall. apply Hall, elem_of_seqZ. lia.
Qed.

Lemma no_brackets_hex16 v : 0 ≤ v → no_brackets (hex16 v).
Proof.
  intros Hv. unfold hex16.
  assert (Hd : ∀ k, 0 ≤ k → no_brackets (String (hex_char (Z.land (Z.shiftr v (4 * k)) 15)) "")).
  { intros k Hk. apply no_brackets_hex. change 15 with (Z.ones 4).
    rewrite Z.land_ones by lia. apply Z.mod_pos_bound. lia. }
  repeat case_match; repeat apply no_brackets_app; apply Hd; lia.
Qed.

Lemma no_brackets_Itoa z : 0 ≤ z → no_brackets (Itoa z).
Proof. intros H. split; by apply has_char_Itoa. Qed.

Definition bytes_ok (ip : IP) : Prop := Forall (λ b, 0 ≤ b) ip.

Lemma groups_nonneg bs : bytes_ok bs → Forall (λ g, 0 ≤ g) (groups bs).
Proof.
  revert bs. fix IH 1. intros [|a [|b bs]] H; simpl; [constructor..|].
  inversion H as [|? ? Ha H']; subst. inversion H' as [|? ? Hb H'']; subst.
  constructor; [|by apply IH]. pose proof (Z.shiftl_nonneg a 8). lia.
Qed.

Lemma IP_String_no_brackets ip :
  bytes_ok ip → (length ip = 4 ∨ length ip = 16)%nat → no_brackets (IP_String ip).
Proof.
  intros Hb Hl. unfold IP_String. destruct ip as [|b ip']; [simpl in Hl; lia|].
  set (ip := b :: ip') in *. destruct (To4 ip) as [ip4|] eqn:E.
  - assert (Hb4 : bytes_ok ip4).
    { unfold To4 in E. repeat case_match; simplify_eq; [done|by apply Forall_drop]. }
    unfold ipv4_string. apply no_brackets_Join; [done|].
    apply Forall_map. eapply Forall_impl; [exact Hb4|]. intros. by apply no_brackets_Itoa.
  - destruct Hl as [Hl|Hl].
    { unfold To4 in E. by rewrite Hl in E. }
    rewrite Hl. simpl. unfold ipv6_string.
    assert (Hg : ∀ gs, Forall (λ g, 0 ≤ g) gs → no_brackets (Join (map hex16 gs) ":")).
    { intros gs Hgs. apply no_brackets_Join; [done|]. apply Forall_map.
      eapply Forall_impl; [exact Hgs|]. intros. by apply no_brackets_hex16. }
    pose proof (groups_nonneg ip Hb) as Hgs.
    destruct (best_run 0 (groups ip) (0%nat, 0%nat)) as [i [|l]]; [by apply Hg|].
    repeat apply no_brackets_app; try done; apply Hg; [by apply Forall_take|by apply Forall_drop].
Qed.

Lemma digits_val_nonneg s acc v : 0 ≤ acc → digits_val s acc = Some v → 0 ≤ v.
Proof.
  revert acc. induction s as [|c s IH]; simpl; intros acc Ha; [intros; by simplify_eq|].
  unfold digit_of. case_match eqn:E; [|done]. simpl. apply IH.
  apply andb_true_iff in E as [E _]. apply Nat.leb_le in E. lia.
Qed.

Lemma parse_octet_nonneg s v : parse_octet s = Some v → 0 ≤ v.
Proof.
  unfold parse_octet. intros H.
  assert (Hd : ∀ s v, (v ← digits_val s 0; if v <=? 255 then Some v else None) = Some v → 0 ≤ v).
  { intros s' v' (w & Hw & H')%bind_Some. case_match; simplify_eq.
    by eapply (digits_val_nonneg s' 0). }
  destruct s as [|c s]; [done|]. revert H.
  repeat case_match; try (intros; by simplify_eq); intros; by eapply Hd.
Qed.

Lemma parse_ipv4_ok s bs : parse_ipv4 s = Some bs → length bs = 4%nat ∧ bytes_ok bs.
Proof.
  unfold parse_ipv4. repeat case_match; try done.
  intros (a & Ha & (b & Hb & (c & Hc & (d & Hd & Hres)%bind_Some)%bind_Some)%bind_Some)%bind_Some.
  simplify_eq. split; [done|]. repeat constructor; by eapply parse_octet_nonneg.
Qed.

Lemma take_hex_nonneg s acc n v rest : 0 ≤ acc → take_hex s acc = (n, v, rest) → 0 ≤ v.
Proof.
  revert acc n. induction s as [|c s IH]; simpl; intros acc n Ha; [intros; by simplify_eq|].
  destruct (hex_digit c) as [d|] eqn:E; [|intros; by simplify_eq].
  destruct (take_hex s (16 * acc + d)) as [[n' v'] r'] eqn:E'. intros; simplify_eq.
  eapply IH; [|exact E']. revert E. unfold hex_digit.
  repeat case_match; intros; simplify_eq; lia.
Qed.

(** What the loop has filled: whole groups, at most sixteen bytes. *)
Definition groups_ok (bs : list Z) : Prop :=
  bytes_ok bs ∧ Nat.even (length bs) = true ∧ (length bs ≤ 16)%nat.

Lemma groups_ok_app bs cs :
  groups_ok bs → bytes_ok cs → Nat.even (length cs) = true →
  (length bs + length cs ≤ 16)%nat → groups_ok (bs ++ cs).
Proof.
  intros (H1 & H2 & H3) Hc He Hl. split; [by apply Forall_app|]. rewrite length_app.
  split; [by rewrite Nat.even_add, H2, He|lia].
Qed.

Lemma ipv6_loop_ok fuel : ∀ s bs e bs' e',
  groups_ok bs → ipv6_loop fuel s bs e = Some (bs', e') → groups_ok bs'.
Proof.
  induction fuel as [|k IH]; intros s bs e bs' e' Hbs; [done|]. cbn [ipv6_loop].
  destruct (16 <=? length bs)%nat eqn:Hl; [case_bool_decide; intros; by simplify_eq|].
  apply Nat.leb_gt in Hl.
  destruct (take_hex s 0) as [[n v] rest] eqn:Et. apply take_hex_nonneg in Et; [|done].
  case_match; [done|].
  assert (Hb2 : bytes_ok [Z.shiftr v 8; Z.land v 255]).
  { repeat constructor; [by apply Z.shiftr_nonneg|]. apply Z.land_nonneg. by left. }
  assert (Hnext : groups_ok (bs ++ [Z.shiftr v 8; Z.land v 255])).
  { apply groups_ok_app; [done..|]. simpl. destruct Hbs as (_ & Hev & _).
    destruct (decide (length bs = 15%nat)) as [E|]; [by rewrite E in Hev|lia]. }
  assert (Hv4 : ∀ (e0 : option nat) (r : list Z * option nat), (v4 ← parse_ipv4 s; Some (bs ++ v4, e0)) = Some r →
                (16 <? length bs + 4)%nat = false → groups_ok r.1).
  { intros e0 r (v4 & Hv4 & Hr)%bind_Some H16%Nat.ltb_ge. injection Hr as <-. simpl.
    apply parse_ipv4_ok in Hv4 as [H4 Hb]. apply groups_ok_app; [done..| |]; by rewrite H4. }
  intros Hres. repeat case_match; simplify_eq; try done; try (by eapply IH).
  match goal with E : _ || _ = false |- _ => apply orb_false_iff in E as [_ E] end.
  by apply (Hv4 _ _ Hres).
Qed.

Lemma ParseIP_ok s ip : ParseIP s = Some ip → length ip = 16%nat ∧ bytes_ok ip.
Proof.
  unfold ParseIP. destruct (ip_kind s) as [c|]; [|done].
  assert (H4 : match parse_ipv4 s with Some [a; b; c; d] => Some (IPv4 a b c d) | _ => None end
               = Some ip → length ip = 16%nat ∧ bytes_ok ip).
  { destruct (parse_ipv4 s) as [bs|] eqn:E; [|done]. apply parse_ipv4_ok in E as [_ Hb].
    repeat case_match; try done. intros; simplify_eq. split; [done|].
    unfold IPv4. by repeat (constructor; [done|]). }
  assert (H6 : parse_ipv6 s = Some ip → length ip = 16%nat ∧ bytes_ok ip).
  { unfold parse_ipv6. destruct (leading_ellipsis s) as [s' e].
    case_bool_decide.
    - intros; simplify_eq. split; [done|]. by repeat (constructor; [done|]).
    - intros ([bs e'] & Hloop & H')%bind_Some.
      apply ipv6_loop_ok in Hloop as (Hb & _ & Hl); [|split; [by constructor|split; [done|simpl; lia]]].
      destruct (length bs <? 16)%nat eqn:E.
      + destruct e' as [k|]; [|done]. apply Nat.ltb_lt in E. simplify_eq. split.
        * rewrite !length_app, length_take, length_drop, length_replicate. lia.
        * apply Forall_app. split; [by apply Forall_take|].
          apply Forall_app. split; [by apply Forall_replicate|by apply Forall_drop].
      + apply Nat.ltb_ge in E. destruct e'; [done|]. simplify_eq. split; [lia|done]. }
  repeat case_match; try done; auto.
Qed.

Lemma normalizeDNSServer_split value s :
  normalizeDNSServer value = Good s →
  ∃ ip n, length ip = 16%nat ∧ 1 ≤ n ≤ 65535
          ∧ s = JoinHostPort (IP_String ip) (Itoa n)
          ∧ SplitHostPort s = Some (IP_String ip, Itoa n).
Proof.
  unfold normalizeDNSServer. destruct (default _ (SplitHostPort value)) as [host port].
  destruct (ParseIP (TrimSpace host)) as [ip|] eqn:Ei; [|done].
  destruct (Atoi (TrimSpace port)) as [n|]; [|done].
  destruct (n <=? 0) eqn:E1; [done|]. destruct (65535 <? n) eqn:E2; [done|]. simpl.
  apply Z.leb_gt in E1. apply Z.ltb_ge in E2. intros [= <-].
  apply ParseIP_ok in Ei as [Hl Hb]. exists ip, n. split; [done|]. split; [lia|]. split; [done|].
  destruct (IP_String_no_brackets ip Hb) as [H1 H2]; [by right|].
  destruct (no_brackets_Itoa n) as [H3 H4]; [lia|].
  apply SplitHostPort_Join; try done. apply has_char_Itoa; [lia|done].
Qed.

Lemma normalizeDNSServers_loop_spec values : ∀ seen out,
  normalizeDNSServers_loop seen values = Good out →
  NoDup out ∧ (∀ s, s ∈ out → s ∉ seen)
  ∧ (∀ s, s ∈ out → ∃ v, v ∈ values ∧ normalizeDNSServer (TrimSpace v) = Good s)
  ∧ (∀ v, v ∈ values → TrimSpace v ≠ "" → ∃ s, normalizeDNSServer (TrimSpace v) = Good s
                                              ∧ (s ∈ out ∨ s ∈ seen)).
Proof.
  induction values as [|v values IH]; intros seen out; simpl.
  { intros [= <-]. split; [constructor|]. set_solver. }
  case_bool_decide as Hv.
  { intros (H1 & H2 & H3 & H4)%IH. split; [done|]. split; [done|]. split.
    - intros s (v' & Hv' & ?)%H3. exists v'. split; [by right|done].
    - intros v' [->|Hv']%elem_of_cons ?; [done|by apply H4]. }
  destruct (normalizeDNSServer (TrimSpace v)) as [s|] eqn:Es; [|done].
  case_bool_decide as Hseen.
  { intros (H1 & H2 & H3 & H4)%IH. split; [done|]. split; [done|]. split.
    - intros s' (v' & Hv' & ?)%H3. exists v'. split; [by right|done].
    - intros v' [->|Hv']%elem_of_cons ?; [exists s; auto|by apply H4]. }
  destruct (normalizeDNSServers_loop (s :: seen) values) as [out'|] eqn:El; [|done].
  intros [= <-]. apply IH in El as (H1 & H2 & H3 & H4). split; [|split; [|split]].
  - apply NoDup_cons. split; [|done]. intros Hin%H2. apply Hin. by left.
  - intros s' [->|Hs]%elem_of_cons; [done|]. intros Hin. apply (H2 _ Hs). by right.
  - intros s' [->|Hs]%elem_of_cons; [exists v; by split; [left|]|].
    destruct (H3 _ Hs) as (v' & Hv' & ?). exists v'. split; [by right|done].
  - intros v' [->|Hv']%elem_of_cons Hne; [exists s; split; [done|left; by left]|].
    destruct (H4 v' Hv' Hne) as (s' & Hs' & Hor). exists s'. split; [done|].
    rewrite elem_of_cons in *. tauto.
Qed.

(** The policies [validateNetworkPolicy] lets pass. *)
Definition policy_ok (p : networkPolicy) : Prop :=
  (egressMode p = EgressMode.COMPAT ∨ egressMode p = EgressMode.STRICT)
  ∧ (dnsMode p = DNSMode.OPEN ∨ dnsMode p = DNSMode.TRUSTED ∨ dnsMode p = DNSMode.SYNTHETIC)
  ∧ (dnsMode p = DNSMode.TRUSTED ↔ trustedDNSServers p ≠ []).

(** C40: a policy that is built and passes validation has a known egress mode
    and DNS mode, and trusted servers exactly in trusted mode; its host lists
    hold no empty and no repeated name; each server is, once, the canonical
    text of an IP address with a port from 1 to 65535 (it splits back into
    the two). *)
Theorem buildNetworkPolicy_wf `{UT : UnicodeTables} cfg p :
  buildNetworkPolicy (Some cfg) = Good p → validateNetworkPolicy p = None →
  policy_ok p ∧ NoDup (allowHosts p) ∧ NoDup (denyHosts p)
  ∧ "" ∉ allowHosts p ∧ "" ∉ denyHosts p ∧ NoDup (trustedDNSServers p)
  ∧ ∀ s, s ∈ trustedDNSServers p → ∃ ip n, length ip = 16%nat ∧ 1 ≤ n ≤ 65535
      ∧ SplitHostPort s = Some (IP_String ip, Itoa n).
Proof.
  intros Hb Hv. unfold buildNetworkPolicy in Hb.
  destruct (normalizeDNSServers (TrustedDnsServers cfg)) as [servers|] eqn:Es; [|done].
  apply normalizeDNSServers_loop_spec in Es as (Hnd & _ & Hform & _).
  assert (Hhosts : ∀ hs, NoDup (normalizeHosts hs) ∧ "" ∉ normalizeHosts hs).
  { intros hs. destruct (dedup_seen_spec (filter (λ h, h ≠ "") (map normal_host hs)) [])
      as [H1 H2]. split; [exact H1|]. unfold normalizeHosts. rewrite H2, list_elem_of_filter.
    tauto. }
  injection Hb as <-. simpl. split; [|split; [|split; [|split; [|split; [|split]]]]];
    try apply Hhosts; [|done|].
  - clear Hform Hnd Hhosts. unfold validateNetworkPolicy in Hv. unfold policy_ok. simpl in *.
    set (em := if _ =? EgressMode.UNSPECIFIED then _ else _) in *.
    set (dm := if _ =? DNSMode.UNSPECIFIED then _ else _) in *. clearbody em dm.
    destruct (em =? EgressMode.COMPAT) eqn:E1; [apply Z.eqb_eq in E1|];
      (destruct (em =? EgressMode.STRICT) eqn:E2; [apply Z.eqb_eq in E2|]); try done; simpl in Hv;
      (destruct (dm =? DNSMode.OPEN) eqn:D1; [apply Z.eqb_eq in D1|]);
      (destruct (dm =? DNSMode.TRUSTED) eqn:D2; [apply Z.eqb_eq in D2|]);
      (destruct (dm =? DNSMode.SYNTHETIC) eqn:D3; [apply Z.eqb_eq in D3|]); try done; simpl in Hv;
      (split; [tauto|]; split; [tauto|]);
      destruct servers; simpl in Hv; try done; try (by split; congruence);
      apply Z.eqb_neq in D2; split; congruence.
  - intros s Hs. destruct (Hform s Hs) as (v & _ & Hn).
    destruct (normalizeDNSServer_split _ _ Hn) as (ip & n & H1 & H2 & _ & H3). by exists ip, n.
Qed.

Definition demo_policy : NetworkPolicy := {|
  AllowHosts := ["*.Example.com."; " api.test "; "API.test"]; DenyHosts := ["secret.example.com"];
  BlockPrivateRanges := true; np_EgressMode := EgressMode.STRICT; np_DnsMode := DNSMode.TRUSTED;
  TrustedDnsServers := ["1.1.1.1"; "[2606:4700::1111]:853"; " 1.1.1.1:53 "] |}.

Definition demo_built : networkPolicy := {|
  allowHosts := ["*.example.com"; "api.test"]; denyHosts := ["secret.example.com"];
  blockPrivateRange := true; egressMode := EgressMode.STRICT; dnsMode := DNSMode.TRUSTED;
  trustedDNSServers := ["1.1.1.1:53"; "[2606:4700::1111]:853"] |}.

Example demo_build : @buildNetworkPolicy ascii_tables (Some demo_policy) = Good demo_built.
Proof. by vm_compute. Qed.

Lemma buildNetworkPolicy_wf_witness :
  @buildNetworkPolicy ascii_tables (Some demo_policy) = Good demo_built
  ∧ policy_ok demo_built
  ∧ ∀ s, s ∈ trustedDNSServers demo_built → ∃ ip n, length ip = 16%nat ∧ 1 ≤ n ≤ 65535
      ∧ SplitHostPort s = Some (IP_String ip, Itoa n).
Proof.
  split; [exact demo_build|].
  destruct (@buildNetworkPolicy_wf ascii_tables demo_policy demo_built demo_build
    ltac:(by vm_compute)) as (H & _ & _ & _ & _ & _ & Hs).
  by split.
Defined.
