(* ===== verification/Secrets.v ===== *)
(** * Secrets ([daemon/secrets.go]) and HTTP headers

    A secret's value never enters the guest: the guest gets a placeholder in
    its environment, and the proxy puts the value in place of the placeholder
    in the requests to the secret's hosts. *)
From Stdlib Require Import Ascii.
From S2P Require Export NetworkPolicy.

(** ** [http.Header] *)
Abbreviation Header := (gmap string (list string)).

Definition upper_byte (c : ascii) : ascii :=
  let n := nat_of_ascii c in
  if ((97 <=? n) && (n <=? 122))%nat then ascii_of_nat (n - 32) else c.

(** The bytes of a header field name (RFC 7230 tokens). *)
Definition token_byte (c : ascii) : bool :=
  let n := nat_of_ascii c in
  ((48 <=? n) && (n <=? 57))%nat || ((65 <=? n) && (n <=? 90))%nat
  || ((97 <=? n) && (n <=? 122))%nat || has_char c "!#$%&'*+-.^_`|~".

Fixpoint all_token (s : string) : bool :=
  match s with "" => true | String c s' => token_byte c && all_token s' end.

Fixpoint canon_go (up : bool) (s : string) : string :=
  match s with
  | "" => ""
  | String c s' =>
      String (if up then upper_byte c else lower_byte c)
             (canon_go (bool_decide (c = "-"%char)) s')
  end.

(** [http.CanonicalHeaderKey] *)
Definition CanonicalHeaderKey (s : string) : string :=
  if all_token s then canon_go true s else s.

Example CanonicalHeaderKey_values :
  CanonicalHeaderKey "x-api-KEY" = "X-Api-Key" ∧ CanonicalHeaderKey "authorization" = "Authorization"
  ∧ CanonicalHeaderKey "bad key" = "bad key" ∧ CanonicalHeaderKey "" = "".
Proof. by vm_compute. Qed.

Definition header_Add (k v : string) (h : Header) : Header :=
  let k := CanonicalHeaderKey k in <[k := default [] (h !! k) ++ [v]]> h.
Definition header_Del (k : string) (h : Header) : Header := delete (CanonicalHeaderKey k) h.

(** ** Secrets *)
Record secretSpec := {
  s_name : string;
  s_hosts : list string;
  s_value : string;
  s_header : string;
  s_format : Z;
  s_placeholder : string
}.

Inductive secret_error :=
| SecretNameRequired
| DuplicateSecretName (name : string)
| SecretValueRequired (name : string)
| SecretNeedsHost (name : string)
| RandomFailed.

Section code.
Context `{UT : UnicodeTables}.

(** [rand.Read] of eight bytes is the argument; it can fail. *)
Definition generatePlaceholder (name : string) (random : option (list Z)) : option string :=
  buf ← random; Some ("klitka:" +:+ ToLower name +:+ ":" +:+ hex_bytes buf).

(** The loop of [buildSecrets]; [rands] are the successive random reads. *)
Fixpoint buildSecrets_loop (secrets : list Secret) (seen : list string)
    (rands : list (option (list Z))) : osres secret_error (list secretSpec * list string) :=
  match secrets with
  | [] => Good ([], [])
  | secret :: secrets' =>
      let name := TrimSpace (Secret_Name secret) in
      if bool_decide (name = "") then Bad SecretNameRequired
      else if bool_decide (name ∈ seen) then Bad (DuplicateSecretName name)
      else
        let value := Secret_Value secret in
        if bool_decide (value = "") then Bad (SecretValueRequired name)
        else
          let hosts := normalizeHosts (Secret_Hosts secret) in
          if bool_decide (hosts = []) then Bad (SecretNeedsHost name)
          else
            let header := TrimSpace (Secret_Header secret) in
            let header := if bool_decide (header = "") then "Authorization" else header in
            let header := CanonicalHeaderKey header in
            let format := Secret_Format secret in
            let format := if format =? SecretFormat.UNSPECIFIED then SecretFormat.BEARER
                          else format in
            match generatePlaceholder name (mjoin (head rands)) with
            | None => Bad RandomFailed
            | Some placeholder =>
                try rest := buildSecrets_loop secrets' (name :: seen) (tail rands)
                  catch e => Bad e in
                Good ({| s_name := name; s_hosts := hosts; s_value := value; s_header := header;
                         s_format := format; s_placeholder := placeholder |} :: rest.1,
                      (name +:+ "=" +:+ placeholder) :: rest.2)
            end
  end.

Definition buildSecrets (secrets : list Secret) (rands : list (option (list Z)))
    : osres secret_error (list secretSpec * list string) :=
  buildSecrets_loop secrets [] rands.

Definition matchesHost (spec : secretSpec) (host : string) : bool :=
  existsb (λ pattern, matchHost pattern host) (s_hosts spec).

(** One value of the secret's header. *)
Definition apply_value (spec : secretSpec) (value : string) : string :=
  if Contains value (s_placeholder spec) then
    if (s_format spec =? SecretFormat.BEARER) && bool_decide (value = s_placeholder spec)
    then "Bearer " +:+ s_value spec
    else ReplaceAll value (s_placeholder spec) (s_value spec)
  else value.

Definition spec_apply (spec : secretSpec) (headers : Header) : Header :=
  match headers !! s_header spec with
  | None => headers
  | Some values =>
      let updated := map (apply_value spec) values in
      let replaced := existsb (λ value, Contains value (s_placeholder spec)) values in
      if negb replaced then headers
      else
        foldl (λ h value, header_Add (s_header spec) value h)
              (header_Del (s_header spec) headers) updated
  end.

Definition cleanHost (host : string) : string := TrimSuffix (ToLower (TrimSpace host)) ".".

Definition applySecrets (host : string) (headers : Header) (secrets : list secretSpec) : Header :=
  if bool_decide (secrets = []) then headers
  else
    foldl (λ h spec, if matchesHost spec (cleanHost host) then spec_apply spec h else h)
          headers secrets.

Definition shouldMitmHost (host : string) (secrets : list secretSpec) : bool :=
  existsb (λ spec, matchesHost spec (cleanHost host)) secrets.
End code.
