(* ===== verification/SecretsProps.v ===== *)
(** * What the handling of secrets guarantees

    Values stay out of the guest ([guest_env_hides_values]) and out of requests
    to other hosts ([secrets_for_other_hosts]), in the model of
    [daemon/secrets.go]. *)
From Stdlib Require Import Ascii.
From S2P Require Export NetPolicyProps Secrets.

(** ** Header names *)
Lemma token_upper c : token_byte (upper_byte c) = token_byte c.
Proof. by destruct c as [[] [] [] [] [] [] [] []]. Qed.
Lemma token_lower c : token_byte (lower_byte c) = token_byte c.
Proof. by destruct c as [[] [] [] [] [] [] [] []]. Qed.
Lemma upper_upper c : upper_byte (upper_byte c) = upper_byte c.
Proof. by destruct c as [[] [] [] [] [] [] [] []]. Qed.
Lemma upper_dash c : bool_decide (upper_byte c = "-"%char) = bool_decide (c = "-"%char).
Proof. by destruct c as [[] [] [] [] [] [] [] []]. Qed.
Lemma lower_dash c : bool_decide (lower_byte c = "-"%char) = bool_decide (c = "-"%char).
Proof. by destruct c as [[] [] [] [] [] [] [] []]. Qed.

Lemma all_token_canon s : ∀ up, all_token (canon_go up s) = all_token s.
Proof.
  induction s as [|c s IH]; intros up; [done|]. simpl. rewrite IH.
  destruct up; [by rewrite token_upper|by rewrite token_lower].
Qed.

Lemma canon_go_idemp s : ∀ up, canon_go up (canon_go up s) = canon_go up s.
Proof.
  induction s as [|c s IH]; intros up; [done|]. simpl.
  destruct up; [rewrite upper_upper, upper_dash|rewrite lower_byte_idemp, lower_dash]; by rewrite IH.
Qed.

Lemma CanonicalHeaderKey_idemp s :
  CanonicalHeaderKey (CanonicalHeaderKey s) = CanonicalHeaderKey s.
Proof.
  unfold CanonicalHeaderKey. destruct (all_token s) eqn:E; [|by rewrite E].
  by rewrite all_token_canon, E, canon_go_idemp.
Qed.

(** Adding a list of values to a header. *)
Lemma header_adds_lookup k vs : ∀ h k',
  CanonicalHeaderKey k = k →
  foldl (λ h v, header_Add k v h) h vs !! k'
  = if decide (k' = k) then (if decide (vs = []) then h !! k else Some (default [] (h !! k) ++ vs))
    else h !! k'.
Proof.
  induction vs as [|v vs IH]; intros h k' Hk; simpl; [by case_decide; subst|].
  rewrite IH by done. unfold header_Add. cbv zeta. rewrite Hk.
  destruct (decide (k' = k)) as [->|]; [|by rewrite lookup_insert_ne].
  rewrite lookup_insert_eq. destruct (decide (vs = [])) as [->|]; [done|].
  simpl. by rewrite <-app_assoc.
Qed.

Section props.
Context `{UT : UnicodeTables}.

Lemma apply_value_absent spec v : Contains v (s_placeholder spec) = false → apply_value spec v = v.
Proof. unfold apply_value. by intros ->. Qed.

Lemma apply_lookup spec h k :
  CanonicalHeaderKey (s_header spec) = s_header spec →
  spec_apply spec h !! k
  = if decide (k = s_header spec) then map (apply_value spec) <$> h !! k else h !! k.
Proof.
  intros Hc. unfold spec_apply. destruct (h !! s_header spec) as [vs|] eqn:E.
  2: { case_decide; subst; [by rewrite E|done]. }
  destruct (existsb _ vs) eqn:Ex; simpl.
  - rewrite header_adds_lookup by done. unfold header_Del. rewrite Hc.
    case_decide; subst; [|by rewrite lookup_delete_ne].
    rewrite lookup_delete_eq, E. simpl.
    assert (vs ≠ []) by (by intros ->).
    rewrite decide_False; [done|]. by destruct vs.
  - case_decide; subst; [|done]. rewrite E. simpl. f_equal. clear E.
    induction vs as [|v vs IH]; [done|]. simpl in *. apply orb_false_iff in Ex as [E1 E2].
    by rewrite apply_value_absent, <-IH by done.
Qed.

(** what applying a secret does to a request's headers: in the secret's
    own header every value that holds the placeholder gets the secret's value
    in its place (a value that is just the placeholder of a bearer secret
    becomes "Bearer" and the value), the other values and all other headers
    are as they were. *)
Theorem apply_spec spec h k :
  CanonicalHeaderKey (s_header spec) = s_header spec →
  spec_apply spec h !! k =
    if decide (k = s_header spec) then
      map (λ v, if negb (Contains v (s_placeholder spec)) then v
                else if (s_format spec =? SecretFormat.BEARER)
                        && bool_decide (v = s_placeholder spec)
                then "Bearer " +:+ s_value spec
                else ReplaceAll v (s_placeholder spec) (s_value spec)) <$> h !! k
    else h !! k.
Proof.
  intros Hc. rewrite apply_lookup by done. case_decide; [|done].
  destruct (h !! k) as [vs|]; [|done]. simpl. f_equal. apply map_ext. intros v.
  unfold apply_value. by destruct (Contains v _).
Qed.

Lemma applySecrets_fold host h secrets :
  applySecrets host h secrets
  = foldl (λ h spec, if matchesHost spec (cleanHost host) then spec_apply spec h else h) h secrets.
Proof. unfold applySecrets. case_bool_decide; by subst. Qed.

(** a request to a host no secret is for is sent as it is; and those are
    exactly the hosts whose connections are not intercepted. *)
Theorem foreign_host_untouched host secrets :
  shouldMitmHost host secrets = false ↔
  (∀ spec, spec ∈ secrets → matchesHost spec (cleanHost host) = false)
  ∧ ∀ h, applySecrets host h secrets = h.
Proof.
  unfold shouldMitmHost. split.
  - intros H. assert (Hall : ∀ spec, spec ∈ secrets → matchesHost spec (cleanHost host) = false).
    { intros spec Hs. destruct (matchesHost spec _) eqn:E; [|done].
      rewrite <-H. symmetry. apply existsb_exists. exists spec. by rewrite <-list_elem_of_In. }
    split; [done|]. intros h. rewrite applySecrets_fold. clear H. revert h.
    induction secrets as [|spec secrets IH]; intros h; [done|]. simpl.
    rewrite Hall by (by left). apply IH. intros s Hs. apply Hall. by right.
  - intros [Hall _]. apply not_true_iff_false. rewrite existsb_exists.
    intros (spec & Hin & Hm). rewrite Hall in Hm; [done|by apply list_elem_of_In].
Qed.

(** The same secret, perhaps with another value. *)
Definition same_but_value (a b : secretSpec) : Prop :=
  s_name a = s_name b ∧ s_hosts a = s_hosts b ∧ s_header a = s_header b
  ∧ s_format a = s_format b ∧ s_placeholder a = s_placeholder b.

(** C32: a request to a host depends on no value of a secret that is not for
    that host: changing those values does not change what is sent. *)
Theorem secrets_for_other_hosts host h secrets secrets' :
  Forall2 (λ a b, same_but_value a b
                  ∧ (matchesHost a (cleanHost host) = true → s_value a = s_value b))
          secrets secrets' →
  applySecrets host h secrets = applySecrets host h secrets'.
Proof.
  rewrite !applySecrets_fold. intros H. revert h.
  induction H as [|a b sa sb [(H1 & H2 & H3 & H4 & H5) Hv] _ IH]; intros h; [done|]. simpl.
  assert (Hm : matchesHost a (cleanHost host) = matchesHost b (cleanHost host))
    by (unfold matchesHost; by rewrite H2).
  rewrite <-Hm. destruct (matchesHost a (cleanHost host)); [|by apply IH].
  assert (a = b) as -> by (destruct a, b; simpl in *; f_equal; auto). by apply IH.
Qed.

(** A request whose headers hold no placeholder gets no secret. *)
Lemma no_placeholder_no_secret host h secrets :
  (∀ k vs v spec, h !! k = Some vs → v ∈ vs → spec ∈ secrets →
     Contains v (s_placeholder spec) = false) →
  applySecrets host h secrets = h.
Proof.
  rewrite applySecrets_fold. induction secrets as [|spec secrets IH]; intros Hno; [done|]. simpl.
  assert (Hap : spec_apply spec h = h).
  { unfold spec_apply. destruct (h !! s_header spec) as [vs|] eqn:E; [|done].
    replace (existsb _ vs) with false; [done|]. symmetry. apply not_true_iff_false.
    rewrite existsb_exists. intros (v & Hv & Hc).
    rewrite (Hno _ _ v spec E) in Hc; [done|by apply list_elem_of_In|by left]. }
  rewrite Hap. destruct (matchesHost _ _); apply IH; intros; eapply Hno; eauto; by right.
Qed.

(** ** [buildSecrets] *)
Lemma buildSecrets_loop_spec secrets : ∀ seen rands specs env,
  buildSecrets_loop secrets seen rands = Good (specs, env) →
  length specs = length secrets
  ∧ env = map (λ s, s_name s +:+ "=" +:+ s_placeholder s) specs
  ∧ NoDup (map s_name specs) ∧ (∀ s, s ∈ specs → s_name s ∉ seen)
  ∧ Forall (λ s, s_name s ≠ "" ∧ s_value s ≠ "" ∧ s_hosts s ≠ []
                 ∧ CanonicalHeaderKey (s_header s) = s_header s
                 ∧ s_format s ≠ SecretFormat.UNSPECIFIED
                 ∧ ∃ buf, s_placeholder s
                     = "klitka:" +:+ ToLower (s_name s) +:+ ":" +:+ hex_bytes buf) specs.
Proof.
  induction secrets as [|secret secrets IH]; intros seen rands specs env; simpl.
  { intros; simplify_eq. split; [done|]. split; [done|]. split; [constructor|].
    split; [set_solver|constructor]. }
  case_bool_decide as Hn; [done|]. case_bool_decide as Hs; [done|].
  case_bool_decide as Hv; [done|]. case_bool_decide as Hh; [done|].
  unfold generatePlaceholder. destruct (mjoin (head rands)) as [buf|] eqn:Er; [|done]. simpl.
  destruct (buildSecrets_loop secrets _ _) as [[specs' env']|] eqn:E; [|done].
  intros; simplify_eq. apply IH in E as (H1 & -> & H3 & H4 & H5). simpl.
  split; [by rewrite H1|]. split; [done|]. split; [|split].
  - apply NoDup_cons. split; [|done]. intros (s & Hname & Hin)%list_elem_of_fmap.
    apply (H4 s Hin). simpl in Hname. rewrite <-Hname. by left.
  - intros s [->|Hin]%elem_of_cons; [done|]. intros Hseen. apply (H4 s Hin). by right.
  - constructor; [|done]. simpl. split; [done|]. split; [done|]. split; [done|].
    split; [apply CanonicalHeaderKey_idemp|]. split; [|by eexists].
    case_match eqn:Ef; [done|]. by apply Z.eqb_neq in Ef.
Qed.

(** the secrets that are built have distinct non-empty names, a value, at
    least one host, a canonical header name and a definite format; the guest
    environment is exactly one assignment per secret, of its placeholder. *)
Theorem buildSecrets_wf secrets rands specs env :
  buildSecrets secrets rands = Good (specs, env) →
  length specs = length secrets
  ∧ env = map (λ s, s_name s +:+ "=" +:+ s_placeholder s) specs
  ∧ NoDup (map s_name specs)
  ∧ Forall (λ s, s_name s ≠ "" ∧ s_value s ≠ "" ∧ s_hosts s ≠ []
                 ∧ CanonicalHeaderKey (s_header s) = s_header s
                 ∧ s_format s ≠ SecretFormat.UNSPECIFIED
                 ∧ ∃ buf, s_placeholder s
                     = "klitka:" +:+ ToLower (s_name s) +:+ ":" +:+ hex_bytes buf) specs.
Proof.
  intros H. apply buildSecrets_loop_spec in H as (H1 & H2 & H3 & _ & H5). tauto.
Qed.

Definition with_value (v : string) (s : Secret) : Secret :=
  {| Secret_Name := Secret_Name s; Secret_Hosts := Secret_Hosts s; Secret_Value := v;
     Secret_Header := Secret_Header s; Secret_Format := Secret_Format s |}.

(** C33: the guest learns nothing of a secret's value: with any other values
    (not empty ones) the guest environment is the same. *)
Theorem guest_env_hides_values secrets values rands specs env :
  buildSecrets secrets rands = Good (specs, env) →
  length values = length secrets → Forall (λ v, v ≠ "") values →
  ∃ specs', buildSecrets (zip_with with_value values secrets) rands = Good (specs', env).
Proof.
  unfold buildSecrets. generalize (@nil string) as seen. intros seen H Hl Hne.
  revert values seen rands specs env H Hl Hne.
  induction secrets as [|secret secrets IH]; intros values seen rands specs env; simpl.
  { destruct values; [|done]. intros; simplify_eq. by eexists. }
  destruct values as [|v values]; [done|]. simpl.
  case_bool_decide; [done|]. case_bool_decide; [done|]. case_bool_decide; [done|].
  case_bool_decide; [done|]. destruct (generatePlaceholder _ _) as [ph|]; [|done].
  destruct (buildSecrets_loop secrets _ _) as [[specs' env']|] eqn:E; [|done].
  intros Hg Hl Hne. inversion Hne; subst. simplify_eq/=.
  rewrite (bool_decide_false (v = "")) by done.
  destruct (IH values _ _ _ _ E) as [specs'' ->]; [congruence|done|]. by eexists.
Qed.
End props.

(** ** An example *)
Definition demo_secret : secretSpec := {|
  s_name := "API_KEY"; s_hosts := ["*.example.com"]; s_value := "s3cr3t";
  s_header := "Authorization"; s_format := SecretFormat.BEARER;
  s_placeholder := "klitka:api_key:0001020304050607" |}.
Definition demo_headers : Header :=
  {[ "Authorization" := ["klitka:api_key:0001020304050607"; "other"]; "Accept" := ["*/*"] ]}.

Lemma apply_spec_witness :
  CanonicalHeaderKey (s_header demo_secret) = s_header demo_secret
  ∧ spec_apply demo_secret demo_headers !! "Authorization" = Some ["Bearer s3cr3t"; "other"].
Proof.
  split; [by vm_compute|].
  rewrite (apply_spec demo_secret demo_headers "Authorization" ltac:(by vm_compute)).
  by vm_compute.
Defined.

Definition other_value : secretSpec := {|
  s_name := "API_KEY"; s_hosts := ["*.example.com"]; s_value := "different";
  s_header := "Authorization"; s_format := SecretFormat.BEARER;
  s_placeholder := "klitka:api_key:0001020304050607" |}.

Lemma secrets_for_other_hosts_witness :
  matchesHost demo_secret "evil.test" = false
  ∧ @applySecrets ascii_tables "evil.test" demo_headers [demo_secret]
    = @applySecrets ascii_tables "evil.test" demo_headers [other_value].
Proof.
  split; [by vm_compute|].
  apply (@secrets_for_other_hosts ascii_tables). constructor; [|constructor].
  split; [done|]. vm_compute. done.
Defined.

Definition demo_request : list Secret := [
  {| Secret_Name := " API_KEY "; Secret_Hosts := ["*.Example.com"]; Secret_Value := "s3cr3t";
     Secret_Header := ""; Secret_Format := SecretFormat.UNSPECIFIED |}].
Definition demo_rands : list (option (list Z)) := [Some [0; 1; 2; 3; 4; 5; 6; 7]].
Definition demo_env : list string := ["API_KEY=klitka:api_key:0001020304050607"].

Example demo_buildSecrets :
  @buildSecrets ascii_tables demo_request demo_rands = Good ([demo_secret], demo_env).
Proof. by vm_compute. Qed.

Lemma buildSecrets_wf_witness :
  @buildSecrets ascii_tables demo_request demo_rands = Good ([demo_secret], demo_env)
  ∧ demo_env = map (λ s, s_name s +:+ "=" +:+ s_placeholder s) [demo_secret]
  ∧ NoDup (map s_name [demo_secret]).
Proof.
  split; [exact demo_buildSecrets|].
  destruct (@buildSecrets_wf ascii_tables _ _ _ _ demo_buildSecrets) as (_ & H1 & H2 & _).
  by split.
Defined.

Lemma guest_env_hides_values_witness :
  @buildSecrets ascii_tables demo_request demo_rands = Good ([demo_secret], demo_env)
  ∧ ∃ specs', @buildSecrets ascii_tables (zip_with with_value ["x"] demo_request) demo_rands
              = Good (specs', demo_env).
Proof.
  split; [exact demo_buildSecrets|].
  apply (@guest_env_hides_values ascii_tables _ ["x"] _ _ _ demo_buildSecrets); [done|].
  by constructor.
Defined.
