(* ===== verification/Proxy.v ===== *)
(** * The egress proxy ([daemon/network.go])

    Every HTTP request and CONNECT of a guest in a VM with a network policy
    goes through this proxy: it checks the host, resolves its addresses,
    connects and forwards.  The network is a parameter ([NetWorld]): what the
    resolver answers, which connections succeed, what servers reply.  What is
    written to the guest's client ([reply]) and what is closed are events too.  The
    functions run in a state monad over the proxy's counters, the network and
    the list of what was done ([net_event]). *)
From Stdlib Require Import Ascii.
From S2P Require Export NetPolicyProps Secrets.

(** ** The network and [net/http] *)
Record url := { u_scheme : string; u_host : string; u_path : string; u_rawquery : string }.

Record http_request := {
  r_method : string;
  r_url : option url;
  r_host : string;
  r_header : Header;
  r_body : list Byte.byte;
  r_close : bool
}.

Record http_response := { rs_status : Z; rs_header : Header; rs_body : list Byte.byte; rs_close : bool }.

(** A request as it leaves the proxy. *)
Record out_request := {
  o_method : string;
  o_url : url;
  o_host : string;
  o_header : Header;
  o_body : list Byte.byte
}.

Definition conn := nat.

(** What the guest is answered: [http.Error] and a server's response through the
    [ResponseWriter]; text and a response written on the connection. *)
Inductive reply :=
| HttpError (status : Z) (text : string)
| HttpResponse (status : Z) (header : Header) (body : list Byte.byte)
| RawText (text : string)
| RawResponse (rs : http_response).

Inductive net_event :=
| EvLookup (servers : option (list string)) (host : string)  (* a DNS lookup *)
| EvDial (address : string)                                  (* a TCP connection attempt *)
| EvSend (req : out_request)                                 (* a request leaves the proxy *)
| EvTunnel (upstream : conn)                                 (* bytes are relayed both ways *)
| EvReply (answer : reply)                                   (* an answer to the guest *)
| EvClose (upstream : conn)                                  (* a connection is closed *)
| EvClientClosed.                                            (* the guest's, once it is hijacked *)

(** [Hijack] of the [ResponseWriter]. *)
Inductive hijacking := NoHijacker | HijackFailed | HijackedConn.

Class NetWorld (W : Type) := {
  (** how often a lookup dials a DNS server, and its answer *)
  world_dns_dials : string → W → nat;
  world_lookup : option (list string) → string → W → osres string (list (option IP)) * W;
  world_dial : string → W → osres string conn * W;
  (** the transport has an idle connection for the request *)
  world_idle : out_request → W → bool;
  world_exchange : out_request → W → osres string http_response * W;
  world_hijack : W → hijacking * W;
  (** of an intercepted connection: [mitmCA.certificateForHost], the TLS handshake, the
      requests it carries, and whether a response can be written to it *)
  world_certificate : string → W → bool * W;
  world_handshake : string → W → bool * W;
  world_requests : string → W → list http_request * W;
  world_write : http_response → W → bool * W
}.

(** Functions of [net/url] and [net/http] that are not modelled: whether
    [http.NewRequest] accepts the request, and the address the transport dials
    for a URL. *)
Class HttpLib := {
  NewRequest_ok : string → url → bool;
  canonicalAddr : url → string
}.

(** ** The proxy *)
Record proxyServer := {
  px_policy : networkPolicy;
  px_secrets : list secretSpec;
  px_mitm : bool;                      (* a CA is loaded *)
  px_trusted : option (list string)    (* the trusted resolver's servers *)
}.

(** What [newTrustedResolver] makes: a resolver that dials these servers. *)
Definition newTrustedResolver (servers : list string) : list string := servers.

(** The proxy that [newProxyServer] returns, when it returns one: it has a resolver of
    its own in trusted mode only, and a certificate authority when there are secrets.
    The listener, the authority and the errors are [VMService.newProxyServer]'s. *)
Definition new_proxy (policy : networkPolicy) (secrets : list secretSpec) : proxyServer := {|
  px_policy := policy;
  px_secrets := secrets;
  px_mitm := negb (bool_decide (secrets = []));
  px_trusted := if dnsMode policy =? DNSMode.TRUSTED
                then Some (newTrustedResolver (trustedDNSServers policy)) else None
|}.

(** [proxyServer.Port]: the port of the listener, if it is a TCP one. *)
Inductive net_addr := TCPAddress (ip : IP) (port : Z) | OtherAddress (text : string).
Definition Port (addr : net_addr) : Z :=
  match addr with TCPAddress _ port => port | OtherAddress _ => 0 end.

(** [newProxyTransport]: no proxy of its own, and certificates are verified unless the
    environment says otherwise. *)
Record http_transport (D : Type) := {
  tr_Proxy : option string;
  tr_InsecureSkipVerify : bool;
  tr_DialContext : D
}.
Arguments Build_http_transport {D}.
Definition newProxyTransport {D} `{UT : UnicodeTables} (getenv : string → string) (dialContext : D)
    : http_transport D :=
  {| tr_Proxy := None;
     tr_InsecureSkipVerify := negb (bool_decide (TrimSpace (getenv "KLITKA_PROXY_INSECURE") = ""));
     tr_DialContext := dialContext |}.

Record pstate (W : Type) := {
  blockedEgress : Z;
  dnsBlocked : Z;
  nextDNSServer : Z;
  world : W;
  events : list net_event
}.
Arguments blockedEgress {W}. Arguments dnsBlocked {W}. Arguments nextDNSServer {W}.
Arguments world {W}. Arguments events {W}.

(** The state monad. *)
Definition N (W A : Type) : Type := pstate W → A * pstate W.
#[global] Instance N_mret {W} : MRet (N W) := λ A a st, (a, st).
#[global] Instance N_mbind {W} : MBind (N W) := λ A B f m st, let '(a, st') := m st in f a st'.

Section ops.
Context {W : Type}.

Definition set_world (w : W) (st : pstate W) : pstate W :=
  {| blockedEgress := blockedEgress st; dnsBlocked := dnsBlocked st;
     nextDNSServer := nextDNSServer st; world := w; events := events st |}.
Definition emit (e : net_event) : N W () := λ st,
  ((), {| blockedEgress := blockedEgress st; dnsBlocked := dnsBlocked st;
          nextDNSServer := nextDNSServer st; world := world st; events := events st ++ [e] |}).
Definition on_world {A} (f : W → A * W) : N W A := λ st,
  let '(a, w) := f (world st) in (a, set_world w st).

(** [atomic.AddUint64(&proxy.blockedEgress, 1)] and [dnsBlocked]. *)
Definition markBlockedEgress : N W () := λ st,
  ((), {| blockedEgress := uint64_of (blockedEgress st + 1); dnsBlocked := dnsBlocked st;
          nextDNSServer := nextDNSServer st; world := world st; events := events st |}).
Definition markDNSBlocked : N W () := λ st,
  ((), {| blockedEgress := blockedEgress st; dnsBlocked := uint64_of (dnsBlocked st + 1);
          nextDNSServer := nextDNSServer st; world := world st; events := events st |}).

(** The dial function of the trusted resolver: the servers take turns. *)
Definition next_server (servers : list string) : N W (option string) := λ st,
  if bool_decide (servers = []) then (None, st)
  else
    let n := uint32_of (nextDNSServer st + 1) in
    let idx := Z.to_nat (uint32_of (n - 1) mod Z.of_nat (length servers)) in
    (servers !! idx, {| blockedEgress := blockedEgress st; dnsBlocked := dnsBlocked st;
                        nextDNSServer := n; world := world st; events := events st |}).

Fixpoint dial_servers (n : nat) (servers : list string) : N W (list string) :=
  match n with
  | O => mret []
  | S k =>
      s ← next_server servers;
      rest ← dial_servers k servers;
      mret (match s with Some x => x :: rest | None => rest end)
  end.
End ops.

Definition isPrivateIP (ip : IP) : bool :=
  IsLoopback ip || IsLinkLocalUnicast ip || IsLinkLocalMulticast ip || IsPrivate ip
  || IsUnspecified ip.

Section code.
Context `{UT : UnicodeTables} `{NW : NetWorld W} `{HL : HttpLib} (proxy : proxyServer).

Definition enforceAddressFamily (host : string) (ips : list IP) : N W (osres host_error (list IP)) :=
  if negb (egressMode (px_policy proxy) =? EgressMode.STRICT) then mret (Good ips)
  else
    let filtered := filter (λ ip, is_Some (To4 ip)) ips in
    if bool_decide (filtered = []) then
      _ ← markBlockedEgress; mret (Bad (BlockedHostIPv6 host))
    else mret (Good filtered).

(** [resolver.LookupIPAddr], with the trusted resolver's dialling. *)
Definition LookupIPAddr (host : string) : N W (osres string (list (option IP))) :=
  targets ← match px_trusted proxy with
            | None => mret None
            | Some servers =>
                l ← (λ st, dial_servers (world_dns_dials host (world st)) servers st);
                mret (Some l)
            end;
  _ ← emit (EvLookup targets host);
  on_world (world_lookup targets host).

Definition lookupIPs (host : string) : N W (osres host_error (list IP)) :=
  let host := TrimSuffix (ToLower (TrimSpace host)) "." in
  if bool_decide (host = "") then mret (Bad EmptyHost) else
  match ParseIP host with
  | Some ip => enforceAddressFamily host [ip]
  | None =>
      let dm := dnsMode (px_policy proxy) in
      if dm =? DNSMode.SYNTHETIC then
        if bool_decide (host = "localhost")
        then enforceAddressFamily host [IPv4 127 0 0 1; IPv6loopback]
        else _ ← markDNSBlocked; mret (Bad (BlockedDNS host))
      else if (dm =? DNSMode.OPEN) || (dm =? DNSMode.TRUSTED) then
        let blocked := if dm =? DNSMode.TRUSTED then markDNSBlocked else mret () in
        r ← LookupIPAddr host;
        match r with
        | Bad e => _ ← blocked; mret (Bad (LookupFailed e))
        | Good addrs =>
            let ips := omap (λ a, a) addrs in
            if bool_decide (ips = []) then _ ← blocked; mret (Bad (NoIP host))
            else enforceAddressFamily host ips
        end
      else mret (Bad (UnsupportedDNS dm))
  end.

Definition hostResolvesToPrivate (host : string) : N W (osres host_error bool) :=
  r ← lookupIPs host;
  mret (osres_map (existsb isPrivateIP) r).

(** [None] is the nil error. *)
Definition enforceHost (host : string) : N W (option host_error) :=
  let host := TrimSuffix (ToLower (TrimSpace host)) "." in
  match checkHost (px_policy proxy) host with
  | Some err => _ ← markBlockedEgress; mret (Some err)
  | None =>
      if blockPrivateRange (px_policy proxy) then
        r ← hostResolvesToPrivate host;
        match r with
        | Good false => mret None
        | _ => _ ← markBlockedEgress; mret (Some (BlockedHost host))
        end
      else mret None
  end.

(** One connection attempt. *)
Definition dial (address : string) : N W (osres string conn) :=
  _ ← emit (EvDial address); on_world (world_dial address).

(** The loop of [dialContext] over the addresses; [lastErr] starts as nil. *)
Fixpoint dial_ips (host port : string) (ips : list IP) (lastErr : option string)
    : N W (osres host_error conn) :=
  match ips with
  | [] => mret (Bad (match lastErr with
                     | Some e => DialFailed e
                     | None => DialFailed ("unable to dial host " +:+ host)
                     end))
  | ip :: ips' =>
      r ← dial (JoinHostPort (IP_String ip) port);
      match r with
      | Good c => mret (Good c)
      | Bad e => dial_ips host port ips' (Some e)
      end
  end.

Definition dialContext (address : string) : N W (osres host_error conn) :=
  match SplitHostPort address with
  | None =>
      r ← dial address;
      mret (match r with Good c => Good c | Bad e => Bad (DialFailed e) end)
  | Some (host, port) =>
      r ← lookupIPs host;
      match r with
      | Bad e => mret (Bad e)
      | Good ips =>
          if bool_decide (ips = []) then mret (Bad (NoIP host))
          else dial_ips host port ips None
      end
  end.

(** [http.Transport.RoundTrip]: on an idle connection, or on a new one from
    the proxy's own [dialContext]. *)
Definition RoundTrip (req : out_request) : N W (osres host_error http_response) :=
  idle ← (λ st, (world_idle req (world st), st));
  ready ← (if (idle : bool) then mret (Good 0%nat) else dialContext (canonicalAddr (o_url req)));
  match ready with
  | Bad e => mret (Bad e)
  | Good _ =>
      _ ← emit (EvSend req);
      r ← on_world (world_exchange req);
      mret (match r with Good x => Good x | Bad e => Bad (DialFailed e) end)
  end.

(** *** Headers *)

(** [range] over the source map in the order given by [map_to_list]; for the
    canonical keys of a parsed request the order does not matter. *)
Definition copyHeader (dst src : Header) : Header :=
  foldl (λ h (kv : string * list string), foldl (λ h v, header_Add kv.1 v h) h kv.2)
        dst (map_to_list src).
Definition cloneHeader (header : Header) : Header := copyHeader ∅ header.

Definition stripProxyHeaders (header : Header) : Header :=
  header_Del "Connection" (header_Del "Proxy-Authorization"
    (header_Del "Proxy-Authenticate" (header_Del "Proxy-Connection" header))).

Definition splitHostPort (hostport : string) : string * string :=
  if bool_decide (hostport = "") then ("", "")
  else if Contains hostport ":" then
    match SplitHostPort hostport with Some hp => hp | None => (hostport, "") end
  else (hostport, "").

(** *** Handlers *)
Definition StatusBadRequest : Z := 400.
Definition StatusForbidden : Z := 403.
Definition StatusInternalServerError : Z := 500.
Definition StatusBadGateway : Z := 502.

(** [Error()] *)
Definition host_error_text (e : host_error) : string :=
  match e with
  | EmptyHost => "empty host"
  | BlockedHost host => "blocked host: " +:+ host
  | BlockedHostIPv6 host => "blocked host: " +:+ host +:+ " (ipv6 egress unsupported in strict mode)"
  | BlockedDNS host => "blocked dns lookup for host: " +:+ host
  | NoIP host => "no ip for host " +:+ host
  | UnsupportedDNS mode =>
      "unsupported dns mode: " +:+ if mode =? DNSMode.UNSPECIFIED then "DNS_MODE_UNSPECIFIED" else Itoa mode
  | LookupFailed text | DialFailed text => text
  end.

Definition http_error (status : Z) (text : string) : N W () := emit (EvReply (HttpError status text)).

(** *** On the connection itself *)
Definition cr : ascii := ascii_of_nat 13.
Definition crlf : string := String cr (String (ascii_of_nat 10) "").

(** [http.StatusText], of the two statuses the proxy answers on an intercepted
    connection. *)
Definition StatusText (status : Z) : string :=
  if status =? 403 then "Forbidden" else if status =? 502 then "Bad Gateway" else "".

Definition writeProxyError (status : Z) (message : string) : string :=
  let statusText := StatusText status in
  let statusText := if bool_decide (statusText = "") then "Error" else statusText in
  "HTTP/1.1 " +:+ Itoa status +:+ " " +:+ statusText +:+ crlf
  +:+ "Content-Length: " +:+ Itoa (Z.of_nat (slen message)) +:+ crlf
  +:+ "Content-Type: text/plain" +:+ crlf +:+ "Connection: close" +:+ crlf +:+ crlf +:+ message.

Definition connection_established : string := "HTTP/1.1 200 Connection established" +:+ crlf +:+ crlf.
Definition write_error (status : Z) (message : string) : N W () :=
  emit (EvReply (RawText (writeProxyError status message))).

Definition proxy_applySecrets (host : string) (header : Header) : Header :=
  applySecrets host header (px_secrets proxy).
(** The headers a request leaves with. *)
Definition out_headers (host : string) (header : Header) : Header :=
  proxy_applySecrets host (stripProxyHeaders header).

Definition handleHTTP (r : http_request) (scheme : string) : N W () :=
  match r_url r with
  | None => http_error StatusBadRequest "missing url"
  | Some u =>
      if bool_decide (u_scheme u = "") && bool_decide (r_host r = "")
      then http_error StatusBadRequest "missing host"
      else
        let targetURL :=
          if bool_decide (u_scheme u = "")
          then {| u_scheme := scheme; u_host := r_host r; u_path := u_path u;
                  u_rawquery := u_rawquery u |}
          else u in
        let host := ToLower (url_Hostname (u_host targetURL)) in
        err ← enforceHost host;
        match err with
        | Some e => http_error StatusForbidden (host_error_text e)
        | None =>
            if negb (NewRequest_ok (r_method r) targetURL) then http_error StatusBadRequest "bad request"
            else
              resp ← RoundTrip {| o_method := r_method r; o_url := targetURL;
                                  o_host := u_host targetURL;
                                  o_header := out_headers host (cloneHeader (r_header r));
                                  o_body := r_body r |};
              match resp with
              | Bad e => http_error StatusBadGateway (host_error_text e)
              | Good rs => emit (EvReply (HttpResponse (rs_status rs) (copyHeader ∅ (rs_header rs)) (rs_body rs)))
              end
        end
  end.

Definition handleConnectTunnel (host port : string) : N W () :=
  r ← dialContext (JoinHostPort host port);
  match r with
  | Bad e => http_error StatusBadGateway (host_error_text e)
  | Good upstream =>
      h ← on_world world_hijack;
      match h with
      | NoHijacker =>
          _ ← emit (EvClose upstream); http_error StatusInternalServerError "hijack not supported"
      | HijackFailed => emit (EvClose upstream)
      | HijackedConn =>
          _ ← emit (EvReply (RawText connection_established)); emit (EvTunnel upstream)
      end
  end.

(** The loop of [serveMitm] over the requests of the intercepted connection. *)
Fixpoint serveMitm (host : string) (reqs : list http_request) : N W () :=
  match reqs with
  | [] => mret ()
  | req :: reqs' =>
      let targetHost := if bool_decide (r_host req = "") then host else r_host req in
      let u := match r_url req with
               | Some u => {| u_scheme := "https"; u_host := targetHost; u_path := u_path u;
                              u_rawquery := u_rawquery u |}
               | None => {| u_scheme := "https"; u_host := targetHost; u_path := "";
                            u_rawquery := "" |}
               end in
      let hostname := ToLower (url_Hostname (u_host u)) in
      err ← enforceHost hostname;
      match err with
      | Some e => write_error StatusForbidden (host_error_text e)
      | None =>
          resp ← RoundTrip {| o_method := r_method req; o_url := u; o_host := targetHost;
                              o_header := out_headers hostname (r_header req);
                              o_body := r_body req |};
          match resp with
          | Bad e => write_error StatusBadGateway (host_error_text e)
          | Good rs =>
              _ ← emit (EvReply (RawResponse rs));
              written ← on_world (world_write rs);
              if negb (written : bool) then mret ()
              else if r_close req || rs_close rs then mret () else serveMitm host reqs'
          end
      end
  end.

Definition handleMitm (host : string) : N W () :=
  h ← on_world world_hijack;
  match h with
  | NoHijacker => http_error StatusInternalServerError "hijack not supported"
  | HijackFailed => mret ()
  | HijackedConn =>
      _ ← emit (EvReply (RawText connection_established));
      cert ← on_world (world_certificate host);
      if negb (cert : bool) then emit EvClientClosed
      else
        ok ← on_world (world_handshake host);
        if negb (ok : bool) then emit EvClientClosed
        else
          reqs ← on_world (world_requests host);
          _ ← serveMitm host reqs;
          emit EvClientClosed
  end.

Definition handleConnect (r : http_request) : N W () :=
  let '(host, port) := splitHostPort (r_host r) in
  if bool_decide (host = "") then http_error StatusBadRequest "missing host"
  else
    let port := if bool_decide (port = "") then "443" else port in
    err ← enforceHost host;
    match err with
    | Some e => http_error StatusForbidden (host_error_text e)
    | None =>
        if px_mitm proxy && shouldMitmHost host (px_secrets proxy) then handleMitm host
        else handleConnectTunnel host port
    end.

Definition ServeHTTP (r : http_request) : N W () :=
  if bool_decide (r_method r = "CONNECT") then handleConnect r else handleHTTP r "http".
End code.
