(* ===== verification/ProxyProps.v ===== *)
(** * What the egress proxy guarantees

    The events of a run of [Proxy]: forwarded requests are allowed
    and answers are the servers' ([forwarded_requests_allowed]), strict mode dials IPv4 only
    ([strict_dials_ipv4]), lookups follow the DNS mode
    ([lookups_follow_dns_mode]). *)
From Stdlib Require Import Ascii.
From S2P Require Export SecretsProps Proxy.

(** ** Specifications: what a run emits and returns *)
Definition spec {W A} (E : net_event → Prop) (m : N W A) (Q : A → Prop) : Prop :=
  ∀ st, ∃ evs, events (m st).2 = events st ++ evs ∧ Forall E evs ∧ Q (m st).1.

Section spec.
Context {W : Type} (E : net_event → Prop).

Lemma spec_ret {A} (a : A) (Q : A → Prop) : Q a → spec (W := W) E (mret a) Q.
Proof. intros H st. exists []. by rewrite app_nil_r. Qed.

Lemma spec_bind {A B} (m : N W A) (f : A → N W B) (P : A → Prop) (Q : B → Prop) :
  spec E m P → (∀ a, P a → spec E (f a) Q) → spec E (m ≫= f) Q.
Proof.
  intros Hm Hf st. unfold mbind, N_mbind. destruct (Hm st) as (e1 & H1 & H2 & H3).
  destruct (m st) as [a st1]. simpl in *. destruct (Hf a H3 st1) as (e2 & H4 & H5 & H6).
  exists (e1 ++ e2). rewrite H4, H1, app_assoc. split; [done|]. split; [|done].
  by apply Forall_app.
Qed.

Lemma spec_mono {A} (m : N W A) (P Q : A → Prop) :
  (∀ a, P a → Q a) → spec E m P → spec E m Q.
Proof. intros HPQ Hm st. destruct (Hm st) as (evs & ? & ? & ?). eauto. Qed.

Lemma spec_emit e (Q : () → Prop) : E e → Q () → spec (W := W) E (emit e) Q.
Proof. intros He HQ st. exists [e]. split; [done|]. split; [by constructor|done]. Qed.

Lemma spec_on_world {A} (f : W → A * W) (Q : A → Prop) : (∀ a, Q a) → spec E (on_world f) Q.
Proof.
  intros HQ st. exists []. unfold on_world. destruct (f (world st)) as [a w]. simpl.
  by rewrite app_nil_r.
Qed.

Lemma spec_on_world_of {A} (f : W → A * W) (Q : A → Prop) : (∀ w, Q (f w).1) → spec E (on_world f) Q.
Proof.
  intros HQ st. exists []. unfold on_world. specialize (HQ (world st)). destruct (f (world st)) as [a w]. simpl.
  by rewrite app_nil_r.
Qed.

Lemma spec_mark (Q : () → Prop) : Q () → spec (W := W) E markBlockedEgress Q.
Proof. intros HQ st. exists []. by rewrite app_nil_r. Qed.
Lemma spec_markDNS (Q : () → Prop) : Q () → spec (W := W) E markDNSBlocked Q.
Proof. intros HQ st. exists []. by rewrite app_nil_r. Qed.

Lemma spec_read {A} (f : pstate W → A) (Q : A → Prop) :
  (∀ a, Q a) → spec E (λ st, (f st, st)) Q.
Proof. intros HQ st. exists []. by rewrite app_nil_r. Qed.
End spec.

(** ** Copying headers *)

(** Keys as [net/http] writes them, none without a value. *)
Definition canonical_header (h : Header) : Prop :=
  ∀ k vs, h !! k = Some vs → CanonicalHeaderKey k = k ∧ vs ≠ [].

Lemma add_values k vs h :
  CanonicalHeaderKey k = k → vs ≠ [] →
  foldl (λ h v, header_Add k v h) h vs = <[k := default [] (h !! k) ++ vs]> h.
Proof.
  intros Hk. revert h. induction vs as [|v vs IH]; intros h Hvs; [done|]. cbn [foldl].
  unfold header_Add at 2. rewrite Hk. destruct vs as [|v' vs]; [done|].
  rewrite IH by done. rewrite lookup_insert_eq, insert_insert_eq. cbn. by rewrite <-(assoc_L (++)).
Qed.
Lemma copy_list (l : list (string * list string)) (dst : Header) :
  NoDup l.*1 → (∀ k vs, (k, vs) ∈ l → CanonicalHeaderKey k = k ∧ vs ≠ [] ∧ dst !! k = None) →
  foldl (λ h (kv : string * list string), foldl (λ h v, header_Add kv.1 v h) h kv.2) dst l = list_to_map l ∪ dst.
Proof.
  revert dst. induction l as [|[k vs] l IH]; intros dst Hn Hl; [by cbn; rewrite (left_id_L ∅ (∪))|].
  apply NoDup_cons in Hn as [Hk Hn]. destruct (Hl k vs) as (Hc & Hv & Hd); [by left|]. cbn [foldl fst snd].
  rewrite add_values by done. rewrite IH; [|done|].
  - rewrite Hd. cbn. by rewrite <-insert_union_l, insert_union_r by (by apply not_elem_of_list_to_map_1).
  - intros k' vs' Hin. destruct (Hl k' vs') as (? & ? & ?); [by right|]. split_and!; [done..|].
    rewrite lookup_insert_ne; [done|]. intros <-. apply Hk. by apply (list_elem_of_fmap_2' fst _ (k, vs')).
Qed.
Lemma cloneHeader_id h : canonical_header h → cloneHeader h = h.
Proof.
  intros Hh. unfold cloneHeader, copyHeader. rewrite copy_list.
  - by rewrite list_to_map_to_list, (right_id_L ∅ (∪)).
  - apply NoDup_fst_map_to_list.
  - intros k vs Hin%elem_of_map_to_list. destruct (Hh k vs Hin). split_and!; [done..|apply lookup_empty].
Qed.

Section props.
Context `{UT : UnicodeTables} `{NW : NetWorld W} `{HL : HttpLib} (proxy : proxyServer) (guest : http_request).

(** ** Addresses *)

(** The addresses a strict policy lets through. *)
Definition family_ok (ip : IP) : Prop :=
  egressMode (px_policy proxy) = EgressMode.STRICT → is_Some (To4 ip).

(** There is a lookup in open and in trusted mode only; a trusted resolver asks its own
    servers only, and without one the system's is asked. *)
Definition lookup_ok (e : net_event) : Prop :=
  match e with
  | EvLookup servers _ =>
      (dnsMode (px_policy proxy) = DNSMode.OPEN ∨ dnsMode (px_policy proxy) = DNSMode.TRUSTED)
      ∧ match px_trusted proxy with
        | None => servers = None
        | Some trusted => ∃ l, servers = Some l ∧ Forall (λ s, s ∈ trusted) l
        end
  | _ => True
  end.

(** An address [net.Dial] refuses, or one of an allowed family. *)
Definition dial_ok (e : net_event) : Prop :=
  match e with
  | EvDial a => SplitHostPort a = None
                ∨ ∃ ip port, family_ok ip ∧ a = JoinHostPort (IP_String ip) port
  | _ => True
  end.

(** What leaves the proxy: to an allowed host, with the secrets of that host
    only, and without the headers meant for the proxy; and otherwise what the guest
    asked, in this request or in one inside an intercepted connection. *)
Definition host_allowed (host : string) : Prop :=
  checkHost (px_policy proxy) (TrimSuffix (ToLower (TrimSpace host)) ".") = None.

Definition guest_request (r : http_request) : Prop := r = guest ∨ ∃ host w, r ∈ (world_requests host w).1.
Definition forwards (host : string) (o : out_request) : Prop :=
  ∃ r header, guest_request r ∧ o_method o = r_method r ∧ o_body o = r_body r
    ∧ (header = r_header r ∨ header = cloneHeader (r_header r))
    ∧ o_header o = applySecrets host (stripProxyHeaders header) (px_secrets proxy).
Definition allowed (o : out_request) : Prop :=
  let host := ToLower (url_Hostname (u_host (o_url o))) in host_allowed host ∧ forwards host o.
Definition send_ok (e : net_event) : Prop :=
  match e with EvSend o => allowed o | _ => True end.

(** A response the guest gets is what a server answered to such a request, as it is. *)
Definition answered (rs : http_response) : Prop :=
  ∃ o w w', allowed o ∧ world_exchange o w = (Good rs, w').
Definition reply_ok (e : net_event) : Prop :=
  match e with
  | EvReply (HttpResponse status header body) =>
      ∃ rs, answered rs ∧ status = rs_status rs ∧ header = cloneHeader (rs_header rs) ∧ body = rs_body rs
  | EvReply (RawResponse rs) => answered rs
  | _ => True
  end.

Definition ev_ok (e : net_event) : Prop := lookup_ok e ∧ dial_ok e ∧ send_ok e ∧ reply_ok e.

Lemma spec_enforceAddressFamily E host ips :
  spec (W := W) E (enforceAddressFamily proxy host ips)
    (λ r, ∀ l, r = Good l → Forall (λ ip, family_ok ip ∧ ip ∈ ips) l).
Proof.
  unfold enforceAddressFamily. destruct (_ =? _) eqn:Em; simpl.
  - case_bool_decide; [apply (spec_bind E _ _ (λ _, True)); [by apply spec_mark|]|];
      intros; apply spec_ret; intros; simplify_eq.
    apply Forall_forall. intros ip [H1 H2]%list_elem_of_filter. split; [by intros _|done].
  - apply spec_ret. intros l [= ->]. apply Forall_forall. intros ip Hip. split; [|done].
    intros Hs. apply Z.eqb_neq in Em. by destruct Em.
Qed.

Lemma spec_dial_servers E n servers :
  spec (W := W) E (dial_servers n servers) (λ l, Forall (λ s, s ∈ servers) l).
Proof.
  induction n as [|n IH]; [apply spec_ret; constructor|]. simpl.
  eapply (spec_bind E _ _ (λ s, ∀ x, s = Some x → x ∈ servers)).
  { intros st. exists []. unfold next_server. case_bool_decide; simpl;
      rewrite app_nil_r; (split; [done|split; [done|]]); [done|].
    intros x Hx. by eapply list_elem_of_lookup_2. }
  intros s Hs. eapply spec_bind; [exact IH|]. intros rest Hrest. apply spec_ret.
  destruct s as [x|]; [|done]. constructor; [by apply Hs|done].
Qed.

Lemma spec_LookupIPAddr host :
  dnsMode (px_policy proxy) = DNSMode.OPEN ∨ dnsMode (px_policy proxy) = DNSMode.TRUSTED →
  spec ev_ok (LookupIPAddr proxy host) (λ _, True).
Proof.
  intros Hd. unfold LookupIPAddr.
  eapply (spec_bind ev_ok _ _ (λ t, match px_trusted proxy with
            | None => t = None
            | Some trusted => ∃ l, t = Some l ∧ Forall (λ s, s ∈ trusted) l end)).
  - destruct (px_trusted proxy) as [trusted|]; [|by apply spec_ret].
    eapply spec_bind.
    + intros st. apply (spec_dial_servers ev_ok (world_dns_dials host (world st)) trusted st).
    + intros l Hl. apply spec_ret. by exists l.
  - intros t Ht. eapply (spec_bind _ _ _ (λ _, True)).
    + apply spec_emit; [|done]. by split.
    + intros _ _. by apply spec_on_world.
Qed.

Lemma spec_lookupIPs host :
  spec ev_ok (lookupIPs proxy host) (λ r, ∀ l, r = Good l → Forall family_ok l).
Proof.
  assert (Hf : ∀ h ips, spec ev_ok (enforceAddressFamily (W := W) proxy h ips)
            (λ r, ∀ l, r = Good l → Forall family_ok l)).
  { intros h ips. eapply spec_mono; [|apply spec_enforceAddressFamily].
    intros r Hr l ->. eapply Forall_impl; [by apply Hr|]. by intros ip []. }
  unfold lookupIPs. cbv zeta. case_bool_decide; [by apply spec_ret|].
  destruct (ParseIP _); [apply Hf|].
  destruct (_ =? DNSMode.SYNTHETIC).
  { case_bool_decide; [apply Hf|].
    eapply (spec_bind _ _ _ (λ _, True)); [by apply spec_markDNS|]. intros. by apply spec_ret. }
  destruct (_ || _) eqn:Eo; [|by apply spec_ret].
  eapply spec_bind; [apply spec_LookupIPAddr; by rewrite orb_true_iff, !Z.eqb_eq in Eo|]. intros r _.
  assert (Hb : ∀ (b : bool), spec (W := W) ev_ok (if b then markDNSBlocked else mret ()) (λ _, True))
    by (intros []; [by apply spec_markDNS|by apply spec_ret]).
  destruct r as [addrs|e].
  - case_bool_decide; [|apply Hf]. eapply spec_bind; [apply Hb|]. intros. by apply spec_ret.
  - eapply spec_bind; [apply Hb|]. intros. by apply spec_ret.
Qed.

(** ** Hosts *)
Lemma spec_enforceHost host :
  spec ev_ok (enforceHost proxy host) (λ r, r = None → host_allowed host).
Proof.
  unfold enforceHost, host_allowed. cbv zeta.
  destruct (checkHost _ _) as [e|] eqn:E.
  { eapply (spec_bind _ _ _ (λ _, True)); [by apply spec_mark|]. intros. by apply spec_ret. }
  destruct (blockPrivateRange _); [|by apply spec_ret].
  eapply (spec_bind _ _ _ (λ _, True)).
  { unfold hostResolvesToPrivate. eapply spec_bind; [apply spec_lookupIPs|].
    intros. by apply spec_ret. }
  intros r _. destruct r as [[]|]; [|by apply spec_ret|];
    (eapply (spec_bind _ _ _ (λ _, True)); [by apply spec_mark|]; intros; by apply spec_ret).
Qed.

(** ** Connections *)
Lemma spec_dial a : dial_ok (EvDial a) → spec ev_ok (dial a) (λ _, True).
Proof.
  intros Ha. eapply (spec_bind _ _ _ (λ _, True)); [apply spec_emit; [|done]|].
  - by repeat split.
  - intros. by apply spec_on_world.
Qed.

Lemma spec_dial_ips host port ips last :
  Forall family_ok ips → spec ev_ok (dial_ips host port ips last) (λ _, True).
Proof.
  intros H. revert last. induction H as [|ip ips Hip _ IH]; intros last; [by apply spec_ret|].
  simpl. eapply spec_bind; [apply spec_dial; right; by exists ip, port|].
  intros [c|e] _; [by apply spec_ret|apply IH].
Qed.

Lemma spec_dialContext address : spec ev_ok (dialContext proxy address) (λ _, True).
Proof.
  unfold dialContext. destruct (SplitHostPort address) as [[host port]|] eqn:E.
  - eapply spec_bind; [apply spec_lookupIPs|]. intros [ips|e] Hips; [|by apply spec_ret].
    case_bool_decide; [by apply spec_ret|]. apply spec_dial_ips. by apply Hips.
  - eapply spec_bind; [apply spec_dial; by left|]. intros. by apply spec_ret.
Qed.

Lemma spec_RoundTrip req : send_ok (EvSend req) → spec ev_ok (RoundTrip proxy req) (λ r, ∀ rs, r = Good rs → answered rs).
Proof.
  intros Hs. unfold RoundTrip.
  eapply (spec_bind _ _ _ (λ _, True)); [by apply spec_read|]. intros idle _.
  eapply (spec_bind _ _ _ (λ _, True)).
  { destruct idle; [by apply spec_ret|apply spec_dialContext]. }
  intros [c|e] _; [|by apply spec_ret].
  eapply (spec_bind _ _ _ (λ _, True)); [apply spec_emit; [|done]|].
  { split; [done|]. split; [done|]. split; [exact Hs|done]. }
  intros _ _. eapply (spec_bind _ _ _ (λ r, ∀ rs, r = Good rs → answered rs)).
  - apply spec_on_world_of. intros w rs Hr. exists req, w, (world_exchange req w).2. split; [done|].
    rewrite <-Hr. apply surjective_pairing.
  - intros [rs|e] Hr; apply spec_ret; [by intros ? [= <-]; apply Hr|done].
Qed.

(** ** Handlers *)
Lemma spec_event e : (match e with EvReply (HttpError _ _ | RawText _) | EvTunnel _ | EvClose _ | EvClientClosed => True | _ => False end) →
  spec (W := W) ev_ok (emit e) (λ _, True).
Proof. intros He. apply spec_emit; [|done]. by destruct e as [| | | |[]| |]. Qed.
Lemma spec_reply n text : spec (W := W) ev_ok (http_error n text) (λ _, True).
Proof. by apply spec_event. Qed.
Lemma spec_write_error n text : spec (W := W) ev_ok (write_error n text) (λ _, True).
Proof. by apply spec_event. Qed.

(** A request that left, and the answer to the guest. *)
Lemma spec_forward (host : string) o (k : http_response → N W ()) (fail : host_error → N W ()) :
  host = ToLower (url_Hostname (u_host (o_url o))) → host_allowed host →
  forwards host o →
  (∀ rs, answered rs → spec ev_ok (k rs) (λ _, True)) → (∀ e, spec ev_ok (fail e) (λ _, True)) →
  spec ev_ok (resp ← RoundTrip proxy o; match resp with Bad e => fail e | Good rs => k rs end)
    (λ _, True).
Proof.
  intros -> Ha Hh Hk Hf. eapply spec_bind; [apply spec_RoundTrip; by split|].
  intros [rs|e] Hr; [by apply Hk, Hr|apply Hf].
Qed.

Lemma spec_handleHTTP scheme : spec ev_ok (handleHTTP proxy guest scheme) (λ _, True).
Proof.
  unfold handleHTTP. destruct (r_url guest) as [u|]; [|apply spec_reply].
  destruct (_ && _); [apply spec_reply|]. cbv zeta.
  set (target := if bool_decide (u_scheme u = "") then _ else u).
  eapply spec_bind; [apply spec_enforceHost|]. intros [e|] He; [apply spec_reply|].
  destruct (negb _); [apply spec_reply|].
  eapply spec_forward; [reflexivity|by apply He| | |intros; apply spec_reply].
  { exists guest, (cloneHeader (r_header guest)). split_and!; [by left|done..|by right|done]. }
  intros rs Hrs. apply spec_emit; [|done]. split_and!; try done. by exists rs.
Qed.

Lemma spec_handleConnectTunnel host port :
  spec ev_ok (handleConnectTunnel proxy host port) (λ _, True).
Proof.
  eapply spec_bind; [apply spec_dialContext|]. intros [c|e] _; [|apply spec_reply].
  eapply (spec_bind _ _ _ (λ _, True)); [by apply spec_on_world|].
  intros [] _.
  - eapply spec_bind; [by apply spec_event|]. intros _ _. apply spec_reply.
  - by apply spec_event.
  - eapply spec_bind; [by apply spec_event|]. intros _ _. by apply spec_event.
Qed.

Lemma spec_serveMitm host reqs :
  Forall guest_request reqs → spec ev_ok (serveMitm proxy host reqs) (λ _, True).
Proof.
  induction 1 as [|r reqs Hr _ IH]; [by apply spec_ret|]. cbn [serveMitm]. cbv zeta.
  eapply spec_bind; [apply spec_enforceHost|]. intros [e|] He; [apply spec_write_error|].
  eapply spec_forward; [reflexivity|by apply He| | |intros; apply spec_write_error].
  { exists r, (r_header r). split_and!; [done..|by left|done]. }
  intros rs Hrs. eapply (spec_bind _ _ _ (λ _, True)); [by apply spec_emit; [split_and!|]|]. intros _ _.
  eapply (spec_bind _ _ _ (λ _, True)); [by apply spec_on_world|]. intros written _.
  destruct (negb written); [by apply spec_ret|]. destruct (_ || _); [by apply spec_ret|exact IH].
Qed.

Lemma spec_handleMitm host : spec ev_ok (handleMitm proxy host) (λ _, True).
Proof.
  eapply (spec_bind _ _ _ (λ _, True)); [by apply spec_on_world|]. intros [] _; [apply spec_reply|by apply spec_ret|].
  eapply spec_bind; [by apply spec_event|]. intros _ _.
  eapply (spec_bind _ _ _ (λ _, True)); [by apply spec_on_world|]. intros cert _.
  destruct (negb cert); [by apply spec_event|].
  eapply (spec_bind _ _ _ (λ _, True)); [by apply spec_on_world|]. intros ok _.
  destruct (negb ok); [by apply spec_event|].
  eapply (spec_bind _ _ _ (Forall guest_request)).
  { apply spec_on_world_of. intros w. apply Forall_forall. intros r Hr. right. by exists host, w. }
  intros reqs Hreqs. eapply spec_bind; [by apply spec_serveMitm|]. intros _ _. by apply spec_event.
Qed.

Lemma spec_ServeHTTP : spec ev_ok (ServeHTTP proxy guest) (λ _, True).
Proof.
  unfold ServeHTTP. case_bool_decide; [|apply spec_handleHTTP].
  unfold handleConnect. destruct (splitHostPort (r_host guest)) as [host port].
  case_bool_decide; [apply spec_reply|]. cbv zeta.
  eapply spec_bind; [apply spec_enforceHost|]. intros [e|] He; [apply spec_reply|].
  destruct (_ && _); [apply spec_handleMitm|apply spec_handleConnectTunnel].
Qed.

(** No connection is lost: the one a CONNECT opened is relayed or closed, and the one
    taken over from the guest to be intercepted is closed in the end. *)
Lemma tunnel_or_closed host port st c :
  (dialContext proxy (JoinHostPort host port) st).1 = Good c →
  EvTunnel c ∈ events (handleConnectTunnel proxy host port st).2
  ∨ EvClose c ∈ events (handleConnectTunnel proxy host port st).2.
Proof.
  unfold handleConnectTunnel, mbind, N_mbind. destruct (dialContext _ _ st) as [r st1]. intros [= ->].
  unfold on_world. destruct (world_hijack (world st1)) as [[] w]; cbn; [right|right|left]; set_solver.
Qed.
Lemma intercepted_closed host st :
  (world_hijack (world st)).1 = HijackedConn → EvClientClosed ∈ events (handleMitm proxy host st).2.
Proof.
  unfold handleMitm, mbind, N_mbind, on_world at 1. destruct (world_hijack (world st)) as [h w]. intros [= ->].
  cbn [emit]. unfold on_world. destruct (world_certificate host _) as [[] w1]; cbn; [|set_solver].
  destruct (world_handshake host w1) as [[] w2]; cbn; [|set_solver].
  destruct (world_requests host w2) as [reqs w3]. destruct (serveMitm proxy host reqs _) as [[] st4]. cbn. set_solver.
Qed.

(** What a run of the proxy adds to the events. *)
Lemma ServeHTTP_events st :
  ∃ evs, events (ServeHTTP proxy guest st).2 = events st ++ evs ∧ Forall ev_ok evs.
Proof. destruct (spec_ServeHTTP st) as (evs & H1 & H2 & _). eauto. Qed.

(** C7: whatever request the guest makes, what the proxy forwards goes to a
    host its policy lets through, carries the secrets of that host only, and is
    otherwise what the guest asked: its method, its body and its headers but for
    those meant for the proxy; this holds for plain requests and for those inside
    an intercepted connection.  And a response that the guest gets is what a server
    answered to such a request, its status, headers and body. *)
Theorem forwarded_requests_allowed st :
  ∃ evs, events (ServeHTTP proxy guest st).2 = events st ++ evs
  ∧ (∀ o, EvSend o ∈ evs →
      let host := ToLower (url_Hostname (u_host (o_url o))) in
      checkHost (px_policy proxy) (TrimSuffix (ToLower (TrimSpace host)) ".") = None
      ∧ ∃ r header, guest_request r ∧ o_method o = r_method r ∧ o_body o = r_body r
          ∧ (header = r_header r ∨ header = cloneHeader (r_header r))
          ∧ o_header o = applySecrets host (stripProxyHeaders header) (px_secrets proxy))
  ∧ (∀ status header body, EvReply (HttpResponse status header body) ∈ evs →
      ∃ rs, answered rs ∧ status = rs_status rs ∧ body = rs_body rs ∧ header = cloneHeader (rs_header rs)
        ∧ (canonical_header (rs_header rs) → header = rs_header rs))
  ∧ (∀ rs, EvReply (RawResponse rs) ∈ evs → answered rs).
Proof.
  destruct (ServeHTTP_events st) as (evs & H1 & H2). exists evs. rewrite Forall_forall in H2.
  split; [done|]. split; [|split].
  - intros o Ho. by destruct (H2 _ Ho) as (_ & _ & Hs & _).
  - intros status header body Ho. destruct (H2 _ Ho) as (_ & _ & _ & rs & Hr & -> & -> & ->).
    exists rs. split_and!; [done..|apply cloneHeader_id].
  - intros rs Ho. by destruct (H2 _ Ho) as (_ & _ & _ & Hr).
Qed.

(** C26: in strict mode the proxy connects to IPv4 addresses only: every
    address it dials is one net.Dial refuses as malformed or that of an IPv4
    address. *)
Theorem strict_dials_ipv4 st :
  egressMode (px_policy proxy) = EgressMode.STRICT →
  ∃ evs, events (ServeHTTP proxy guest st).2 = events st ++ evs
  ∧ ∀ a, EvDial a ∈ evs → SplitHostPort a = None
         ∨ ∃ ip port, is_Some (To4 ip) ∧ a = JoinHostPort (IP_String ip) port.
Proof.
  intros Hs. destruct (ServeHTTP_events st) as (evs & H1 & H2). exists evs. split; [done|].
  intros a Ha. rewrite Forall_forall in H2. destruct (H2 _ Ha) as (_ & Hd & _).
  destruct Hd as [?|(ip & port & Hip & ->)]; [by left|right].
  exists ip, port. split; [by apply Hip|done].
Qed.

End props.

(** C28: names are resolved by the resolver the policy names.  Take the proxy that
    newProxyServer makes for a policy and secrets, and any request: in synthetic mode
    it makes no lookup, in trusted mode every lookup asks servers of the policy's
    trusted list only, in open mode the system's resolver, and in any other mode there
    is none. *)
Theorem lookups_follow_dns_mode `{UT : UnicodeTables} `{NW : NetWorld W} `{HL : HttpLib}
    policy secrets guest (st : pstate W) :
  ∃ evs, events (ServeHTTP (new_proxy policy secrets) guest st).2 = events st ++ evs
  ∧ ∀ servers host, EvLookup servers host ∈ evs →
      (dnsMode policy = DNSMode.TRUSTED
       ∧ ∃ l, servers = Some l ∧ Forall (λ s, s ∈ trustedDNSServers policy) l)
      ∨ (dnsMode policy = DNSMode.OPEN ∧ servers = None).
Proof.
  destruct (ServeHTTP_events (new_proxy policy secrets) guest st) as (evs & H1 & H2). exists evs. split; [done|].
  intros servers host Ho. rewrite Forall_forall in H2. destruct (H2 _ Ho) as ([Hm Hl] & _).
  cbn [new_proxy px_policy px_trusted newTrustedResolver] in Hm, Hl.
  destruct (Z.eqb_spec (dnsMode policy) DNSMode.TRUSTED) as [Ht|Hne]; [by left|right].
  by destruct Hm.
Qed.
