(* ===== verification/ProxyPrivate.v ===== *)
(** * The private-range guard of the egress proxy

    When it holds: for an address given as a number, and, with a resolver that answers
    the same every time, for a tunnel to a name that is trimmed at once.  [MemNet] has
    runs where it does not. *)
From Stdlib Require Import Ascii.
From S2P Require Export ProxyProps.

Section guard.
Context `{UT : UnicodeTables} `{NW : NetWorld W} `{HL : HttpLib} (proxy : proxyServer).

Definition trim_host (host : string) : string := TrimSuffix (ToLower (TrimSpace host)) ".".

(** A request refused before anything is looked up or dialled. *)
Definition refused (st st' : pstate W) : Prop :=
  (∃ text, events st' = events st ++ [EvReply (HttpError StatusForbidden text)]) ∧ world st' = world st.

(** a CONNECT to a host the policy does not let through is answered 403
    and counted; nothing is looked up and nothing is dialled. *)
Theorem denied_connect_refused r host port e st :
  r_method r = "CONNECT" → splitHostPort (r_host r) = (host, port) → host ≠ "" →
  checkHost (px_policy proxy) (trim_host host) = Some e →
  refused st (ServeHTTP proxy r st).2
  ∧ blockedEgress (ServeHTTP proxy r st).2 = uint64_of (blockedEgress st + 1).
Proof.
  intros Hm Hh Hne Hc. unfold ServeHTTP. rewrite bool_decide_true by done.
  unfold handleConnect. rewrite Hh, bool_decide_false by done. cbv zeta.
  unfold enforceHost. fold (trim_host host). rewrite Hc. split; [|done]. split; [by eexists|done].
Qed.

(** with the private-range guard on, a CONNECT to a private address given
    as a number is answered 403, and nothing is dialled. *)
Theorem private_literal_refused r host port ip st :
  r_method r = "CONNECT" → splitHostPort (r_host r) = (host, port) → host ≠ "" →
  blockPrivateRange (px_policy proxy) = true →
  trim_host (trim_host host) = trim_host host → ParseIP (trim_host host) = Some ip →
  isPrivateIP ip = true → refused st (ServeHTTP proxy r st).2.
Proof.
  intros Hm Hh Hne Hb Htrim Hip Hp. unfold ServeHTTP. rewrite bool_decide_true by done.
  unfold handleConnect. rewrite Hh, bool_decide_false by done. cbv zeta.
  unfold enforceHost. fold (trim_host host).
  destruct (checkHost _ _) as [e|]; [by split; [eexists|]|]. rewrite Hb.
  unfold hostResolvesToPrivate, lookupIPs. fold (trim_host (trim_host host)). rewrite Htrim.
  destruct (decide (trim_host host = "")) as [Hz|Hz]; [by rewrite Hz in Hip|].
  cbv zeta. rewrite (bool_decide_false (trim_host host = "")) by done. rewrite Hip.
  unfold enforceAddressFamily. destruct (negb _).
  - unfold mbind, N_mbind, mret, N_mret. simpl. rewrite Hp. by split; [eexists|].
  - rewrite filter_cons, filter_nil.
    destruct (decide (is_Some (To4 ip))); [|by split; [eexists|]].
    rewrite (bool_decide_false ([ip] = [])) by done.
    unfold mbind, N_mbind, mret, N_mret. simpl. rewrite Hp. by split; [eexists|].
Qed.

(** ** A resolver that answers the same every time *)
Context (ans : string → osres string (list (option IP))).
Context (Hans : ∀ targets host w, (world_lookup targets host w).1 = ans host).

Definition family_answer (host : string) (ips : list IP) : osres host_error (list IP) :=
  if negb (egressMode (px_policy proxy) =? EgressMode.STRICT) then Good ips
  else
    let filtered := filter (λ ip, is_Some (To4 ip)) ips in
    if bool_decide (filtered = []) then Bad (BlockedHostIPv6 host) else Good filtered.

Lemma enforceAddressFamily_answer host ips st :
  (enforceAddressFamily (W := W) proxy host ips st).1 = family_answer host ips.
Proof.
  unfold enforceAddressFamily, family_answer. destruct (negb _); [done|].
  cbv zeta. by case_bool_decide.
Qed.

Definition lookup_answer (host : string) : osres host_error (list IP) :=
  let host := trim_host host in
  if bool_decide (host = "") then Bad EmptyHost else
  match ParseIP host with
  | Some ip => family_answer host [ip]
  | None =>
      let dm := dnsMode (px_policy proxy) in
      if dm =? DNSMode.SYNTHETIC then
        if bool_decide (host = "localhost")
        then family_answer host [IPv4 127 0 0 1; IPv6loopback] else Bad (BlockedDNS host)
      else if (dm =? DNSMode.OPEN) || (dm =? DNSMode.TRUSTED) then
        match ans host with
        | Bad e => Bad (LookupFailed e)
        | Good addrs =>
            let ips := omap (λ a, a) addrs in
            if bool_decide (ips = []) then Bad (NoIP host) else family_answer host ips
        end
      else Bad (UnsupportedDNS dm)
  end.

Lemma LookupIPAddr_answer host st : (LookupIPAddr proxy host st).1 = ans host.
Proof.
  unfold LookupIPAddr, mbind, N_mbind, emit, on_world.
  destruct (match px_trusted proxy with _ => _ end st) as [targets st1]. simpl.
  rewrite <-(Hans targets host (world st1)). by destruct (world_lookup _ _ _).
Qed.

Lemma lookupIPs_answer host st : (lookupIPs proxy host st).1 = lookup_answer host.
Proof.
  unfold lookupIPs, lookup_answer. fold (trim_host host). cbv zeta.
  case_bool_decide; [done|]. destruct (ParseIP _); [apply enforceAddressFamily_answer|].
  destruct (_ =? DNSMode.SYNTHETIC).
  { case_bool_decide; [apply enforceAddressFamily_answer|done]. }
  destruct ((_ =? _) || _); [|done].
  pose proof (LookupIPAddr_answer (trim_host host) st) as Hl.
  unfold mbind at 1. unfold N_mbind at 1.
  destruct (LookupIPAddr proxy (trim_host host) st) as [r st1]. simpl in Hl. subst r.
  destruct (ans (trim_host host)) as [addrs|e].
  - case_bool_decide; [|apply enforceAddressFamily_answer]. by destruct (_ =? DNSMode.TRUSTED).
  - by destruct (_ =? DNSMode.TRUSTED).
Qed.

(** What is dialled is not private. *)
Definition not_private (e : net_event) : Prop :=
  match e with
  | EvDial a => ∃ ip port, isPrivateIP ip = false ∧ a = JoinHostPort (IP_String ip) port
  | _ => True
  end.

Lemma spec_quiet_lookup host : spec not_private (lookupIPs proxy host) (λ _, True).
Proof.
  unfold lookupIPs. cbv zeta. case_bool_decide; [by apply spec_ret|].
  assert (Hf : ∀ h ips, spec not_private (enforceAddressFamily (W := W) proxy h ips) (λ _, True)).
  { intros h ips. eapply spec_mono; [|apply spec_enforceAddressFamily]. done. }
  destruct (ParseIP _); [apply Hf|]. destruct (_ =? DNSMode.SYNTHETIC).
  { case_bool_decide; [apply Hf|]. eapply (spec_bind _ _ _ (λ _, True)); [by apply spec_markDNS|].
    intros. by apply spec_ret. }
  destruct (_ || _); [|by apply spec_ret].
  eapply (spec_bind _ _ _ (λ _, True)).
  { unfold LookupIPAddr. eapply (spec_bind _ _ _ (λ _, True)).
    - destruct (px_trusted proxy) as [trusted|]; [|by apply spec_ret].
      eapply (spec_bind _ _ _ (λ _, True)); [|intros; by apply spec_ret].
      intros st. set (n := world_dns_dials _ _).
      destruct (spec_dial_servers not_private n trusted st) as (evs & H1 & H2 & _). eauto.
    - intros. eapply (spec_bind _ _ _ (λ _, True)); [by apply spec_emit|].
      intros. by apply spec_on_world. }
  intros r _.
  assert (Hb : ∀ (b : bool), spec (W := W) not_private (if b then markDNSBlocked else mret ()) (λ _, True))
    by (intros []; [by apply spec_markDNS|by apply spec_ret]).
  destruct r as [addrs|e].
  - case_bool_decide; [|apply Hf]. eapply spec_bind; [apply Hb|]. intros. by apply spec_ret.
  - eapply spec_bind; [apply Hb|]. intros. by apply spec_ret.
Qed.

Lemma spec_lookup_answer host : spec not_private (lookupIPs proxy host) (λ r, r = lookup_answer host).
Proof.
  intros st. destruct (spec_quiet_lookup host st) as (evs & H1 & H2 & _).
  exists evs. split; [done|]. split; [done|apply lookupIPs_answer].
Qed.

(** A host let through resolves to no private address. *)
Lemma spec_enforceHost_public host :
  blockPrivateRange (px_policy proxy) = true →
  spec not_private (enforceHost proxy host)
    (λ r, r = None → ∀ ips, lookup_answer (trim_host host) = Good ips →
                     Forall (λ ip, isPrivateIP ip = false) ips).
Proof.
  intros Hb. unfold enforceHost. fold (trim_host host). cbv zeta. rewrite Hb.
  assert (Hm : ∀ e, spec (W := W) not_private (_ ← markBlockedEgress; mret (Some e))
      (λ r : option host_error, r = None → ∀ ips, lookup_answer (trim_host host) = Good ips →
                     Forall (λ ip, isPrivateIP ip = false) ips)).
  { intros e. eapply (spec_bind _ _ _ (λ _, True)); [by apply spec_mark|]. intros. by apply spec_ret. }
  destruct (checkHost _ _); [apply Hm|].
  eapply (spec_bind _ _ _ (λ r, r = osres_map (existsb isPrivateIP) (lookup_answer (trim_host host)))).
  - eapply spec_bind; [apply spec_lookup_answer|]. intros r ->. by apply spec_ret.
  - intros r Hr. destruct r as [[]|]; [apply Hm| |apply Hm]. apply spec_ret. intros _ ips Hips.
    rewrite Hips in Hr. injection Hr as Hr. apply Forall_forall. intros ip Hin.
    apply not_true_is_false. intros Hp.
    assert (existsb isPrivateIP ips = true); [|congruence].
    apply existsb_exists. exists ip. split; [by apply list_elem_of_In|done].
Qed.

Lemma spec_dial_public host port ips last :
  Forall (λ ip, isPrivateIP ip = false) ips →
  spec not_private (dial_ips host port ips last) (λ _, True).
Proof.
  intros H. revert last. induction H as [|ip ips Hip _ IH]; intros last; [by apply spec_ret|].
  simpl. eapply (spec_bind _ _ _ (λ _, True)).
  - eapply (spec_bind _ _ _ (λ _, True)); [apply spec_emit; [by exists ip, port|done]|].
    intros. by apply spec_on_world.
  - intros [c|e] _; [by apply spec_ret|apply IH].
Qed.

(** C27: with a resolver that answers the same every time, the private-range guard is
    effective on tunnels: a CONNECT that the proxy does not intercept, to a host text
    without brackets from which one trimming (of spaces and a final dot) takes all
    there is to trim, and a port text without brackets and colons, makes the proxy
    connect to public addresses only. A text that trimming twice makes shorter, such as
    [corp..], is not covered: the guard and the connection then resolve different names
    (finding double_dot_reaches_private); nor are intercepted connections. *)
Theorem stable_dns_tunnels_public r host port st :
  r_method r = "CONNECT" → splitHostPort (r_host r) = (host, port) →
  has_char "[" host = false → has_char "]" host = false →
  has_char ":" port = false → has_char "[" port = false → has_char "]" port = false →
  trim_host (trim_host host) = trim_host host →
  blockPrivateRange (px_policy proxy) = true →
  px_mitm proxy && shouldMitmHost host (px_secrets proxy) = false →
  ∃ evs, events (ServeHTTP proxy r st).2 = events st ++ evs
  ∧ ∀ a, EvDial a ∈ evs →
      ∃ ip port, isPrivateIP ip = false ∧ a = JoinHostPort (IP_String ip) port.
Proof.
  intros Hm Hh H1 H2 H3 H4 H5 Htrim Hb Hmitm.
  assert (Hreply : ∀ n text, spec (W := W) not_private (http_error n text) (λ _, True))
    by (intros; by apply spec_emit).
  assert (Hs : spec not_private (ServeHTTP proxy r) (λ _, True)).
  { unfold ServeHTTP. rewrite bool_decide_true by done. unfold handleConnect. rewrite Hh.
    case_bool_decide; [apply Hreply|]. cbv zeta.
    eapply spec_bind; [by apply spec_enforceHost_public|].
    intros [e|] He; [apply Hreply|]. specialize (He eq_refl).
    rewrite Hmitm. unfold handleConnectTunnel, dialContext.
    rewrite SplitHostPort_Join by (done || by case_bool_decide).
    eapply (spec_bind _ _ _ (λ _, True)).
    - eapply spec_bind; [apply spec_lookup_answer|]. intros [ips|e] Hips; [|by apply spec_ret].
      case_bool_decide; [by apply spec_ret|]. apply spec_dial_public, He. symmetry.
      rewrite Hips. unfold lookup_answer. by rewrite Htrim.
    - intros [c|e] _; [|apply Hreply].
      eapply (spec_bind _ _ _ (λ _, True)); [by apply spec_on_world|]. intros [] _; [|by apply spec_emit|];
        (eapply (spec_bind _ _ _ (λ _, True)); [by apply spec_emit|]; intros; by apply spec_emit). }
  destruct (Hs st) as (evs & E1 & E2 & _). exists evs. split; [done|].
  intros a Ha. rewrite Forall_forall in E2. exact (E2 _ Ha).
Qed.
End guard.
