(* ===== verification/MemNet.v ===== *)
(** * A small network, and the proxy run on it

    A concrete [NetWorld]: a zone answers each lookup (it may answer
    differently each time), every connection succeeds and every server replies
    200.  The theorems on the proxy are applied to it, and the cases its checks
    do not cover are shown on it. *)
From Stdlib Require Import Ascii.
From S2P Require Export ProxyPrivate.

#[local] Existing Instance ascii_tables.

(** The world is the number of lookups made so far. *)
Definition mem_net (zone : string → nat → list IP) : NetWorld nat := {|
  world_dns_dials _ _ := 1%nat;
  world_lookup _ host n :=
    (if bool_decide (zone host n = []) then Bad "no such host" else Good (map Some (zone host n)), S n);
  world_dial _ n := (Good n, n);
  world_idle _ _ := false;
  world_exchange _ n := (Good {| rs_status := 200; rs_header := ∅; rs_body := []; rs_close := false |}, n);
  world_hijack n := (HijackedConn, n);
  world_certificate _ n := (true, n);
  world_handshake _ n := (true, n);
  world_requests _ n := ([], n);
  world_write _ n := (true, n)
|}.

#[export] Instance mem_http : HttpLib := {|
  NewRequest_ok _ _ := true;
  canonicalAddr u := JoinHostPort (url_Hostname (u_host u)) "443"
|}.

Definition start : pstate nat :=
  {| blockedEgress := 0; dnsBlocked := 0; nextDNSServer := 0; world := 0%nat; events := [] |}.

Definition connect_to (authority : string) : http_request :=
  {| r_method := "CONNECT"; r_url := None; r_host := authority; r_header := ∅; r_body := []; r_close := false |}.

Definition open_policy : networkPolicy :=
  {| allowHosts := []; denyHosts := []; blockPrivateRange := false;
     egressMode := EgressMode.COMPAT; dnsMode := DNSMode.OPEN; trustedDNSServers := [] |}.

Definition guard_policy : networkPolicy :=
  {| allowHosts := []; denyHosts := ["evil.test"]; blockPrivateRange := true;
     egressMode := EgressMode.STRICT; dnsMode := DNSMode.OPEN; trustedDNSServers := [] |}.

Definition deny_policy : networkPolicy :=
  {| allowHosts := []; denyHosts := ["evil.test"; "10.0.0.5"]; blockPrivateRange := false;
     egressMode := EgressMode.COMPAT; dnsMode := DNSMode.OPEN; trustedDNSServers := [] |}.

Definition plain_proxy (p : networkPolicy) : proxyServer :=
  new_proxy p [].

(** [web.test] has a public address of each family; [rebind.test] has a
    public one at the first lookup and a private one afterwards. *)
Definition web_zone (host : string) (n : nat) : list IP :=
  if bool_decide (host = "web.test") then [IPv4 93 184 216 34; [38; 6] ++ replicate 13 0 ++ [1]]
  else if bool_decide (host = "evil.test") then [IPv4 203 0 113 7]
  else if bool_decide (host = "rebind.test") then
    match n with O => [IPv4 93 184 216 34] | _ => [IPv4 10 0 0 5] end
  else [].

Definition run (zone : string → nat → list IP) (p : networkPolicy) (authority : string) : pstate nat :=
  (@ServeHTTP ascii_tables nat (mem_net zone) mem_http (plain_proxy p) (connect_to authority) start).2.

Example run_values :
  events (run web_zone guard_policy "web.test:443")
  = [EvLookup None "web.test"; EvLookup None "web.test"; EvDial "93.184.216.34:443";
     EvReply (RawText connection_established); EvTunnel 2%nat]
  ∧ events (run web_zone guard_policy "EVIL.test.:443") = [EvReply (HttpError 403 "blocked host: evil.test")]
  ∧ events (run web_zone guard_policy "127.0.0.1:22") = [EvReply (HttpError 403 "blocked host: 127.0.0.1")]
  ∧ events (run web_zone guard_policy "nowhere.test:22")
    = [EvLookup None "nowhere.test"; EvReply (HttpError 403 "blocked host: nowhere.test")].
Proof. by vm_compute. Qed.

(** ** The theorems at concrete inputs *)
Lemma strict_dials_ipv4_witness :
  ∃ evs, events (run web_zone guard_policy "web.test:443") = [] ++ evs
  ∧ ∀ a, EvDial a ∈ evs → SplitHostPort a = None
         ∨ ∃ ip port, is_Some (To4 ip) ∧ a = JoinHostPort (IP_String ip) port.
Proof.
  exact (@strict_dials_ipv4 ascii_tables nat (mem_net web_zone) mem_http (plain_proxy guard_policy)
           (connect_to "web.test:443") start eq_refl).
Defined.

Lemma denied_connect_refused_witness :
  refused start (run web_zone guard_policy "EVIL.test.:443")
  ∧ blockedEgress (run web_zone guard_policy "EVIL.test.:443") = uint64_of (blockedEgress start + 1).
Proof.
  exact (@denied_connect_refused ascii_tables nat (mem_net web_zone) mem_http
           (plain_proxy guard_policy) (connect_to "EVIL.test.:443") "EVIL.test." "443"
           (BlockedHost "evil.test") start eq_refl
           ltac:(by vm_compute) ltac:(done) ltac:(by vm_compute)).
Defined.

Lemma private_literal_refused_witness : refused start (run web_zone guard_policy "127.0.0.1:22").
Proof.
  exact (@private_literal_refused ascii_tables nat (mem_net web_zone) mem_http
           (plain_proxy guard_policy) (connect_to "127.0.0.1:22") "127.0.0.1" "22" (IPv4 127 0 0 1)
           start eq_refl ltac:(by vm_compute) ltac:(done) eq_refl ltac:(by vm_compute)
           ltac:(by vm_compute) ltac:(by vm_compute)).
Defined.

Definition web_answers (host : string) : osres string (list (option IP)) :=
  if bool_decide (host = "web.test")
  then Good [Some (IPv4 93 184 216 34); Some ([38; 6] ++ replicate 13 0 ++ [1])]
  else Bad "no such host".
Definition stable_zone (host : string) (_ : nat) : list IP :=
  if bool_decide (host = "web.test") then [IPv4 93 184 216 34; [38; 6] ++ replicate 13 0 ++ [1]] else [].

Lemma stable_dns_tunnels_public_witness :
  ∃ evs, events (run stable_zone guard_policy "web.test:443") = [] ++ evs
  ∧ ∀ a, EvDial a ∈ evs →
      ∃ ip port, isPrivateIP ip = false ∧ a = JoinHostPort (IP_String ip) port.
Proof.
  refine (@stable_dns_tunnels_public ascii_tables nat (mem_net stable_zone) mem_http
           (plain_proxy guard_policy) web_answers _ (connect_to "web.test:443") "web.test" "443"
           start eq_refl ltac:(by vm_compute) ltac:(by vm_compute) ltac:(by vm_compute)
           ltac:(by vm_compute) ltac:(by vm_compute) ltac:(by vm_compute) ltac:(by vm_compute)
           eq_refl eq_refl).
  intros targets host w. unfold mem_net, web_answers, stable_zone. simpl.
  by destruct (bool_decide (host = "web.test")).
Defined.

(** ** What the checks do not cover *)

(** the private-range guard resolves the name, and the connection resolves
    it again: a name that first has a public address and then a private one
    passes the guard, and the proxy connects to the private address. *)
Theorem rebinding_reaches_private :
  blockPrivateRange guard_policy = true ∧ isPrivateIP (IPv4 10 0 0 5) = true
  ∧ EvDial (JoinHostPort (IP_String (IPv4 10 0 0 5)) "80")
    ∈ events (run web_zone guard_policy "rebind.test:80").
Proof. split; [done|]. split; [done|]. apply list_elem_of_In. vm_compute. tauto. Qed.

(** so does a stable resolver, for a host text that trimming twice makes shorter: the
    guard trims twice and resolves [corp], the connection trims once and resolves
    [corp.], which is another name to a resolver with a search list. *)
Definition search_zone (host : string) (_ : nat) : list IP :=
  if bool_decide (host = "corp") then [IPv4 93 184 216 34]
  else if bool_decide (host = "corp.") then [IPv4 10 0 0 5] else [].
Theorem double_dot_reaches_private :
  blockPrivateRange guard_policy = true ∧ isPrivateIP (IPv4 10 0 0 5) = true
  ∧ (∀ host n m, search_zone host n = search_zone host m)
  ∧ events (run search_zone guard_policy "corp..:443")
    = [EvLookup None "corp"; EvLookup None "corp."; EvDial (JoinHostPort (IP_String (IPv4 10 0 0 5)) "443");
       EvReply (RawText connection_established); EvTunnel 2%nat].
Proof. split; [done|]. split; [done|]. split; [done|]. by vm_compute. Qed.

(** the deny list compares the text of the CONNECT target: a denied name
    in brackets, and a denied IPv4 address written as an IPv4-mapped IPv6
    address, are not found in it and the denied host is connected to. *)
Theorem deny_list_bypassed :
  checkHost deny_policy "evil.test" = Some (BlockedHost "evil.test")
  ∧ EvDial "203.0.113.7:443" ∈ events (run web_zone deny_policy "[evil.test]")
  ∧ checkHost deny_policy "10.0.0.5" = Some (BlockedHost "10.0.0.5")
  ∧ EvDial "10.0.0.5:80" ∈ events (run web_zone deny_policy "[::ffff:10.0.0.5]:80").
Proof.
  split; [by vm_compute|]. split; [apply list_elem_of_In; vm_compute; tauto|].
  split; [by vm_compute|]. apply list_elem_of_In. vm_compute. tauto.
Qed.
