(* ===== verification/ProxyTunnel.v ===== *)
(** * The proxy's tunnels and error replies

    [proxyTunnel] of [daemon/network.go], and what a client reads of the replies
    of [writeProxyError] ([Proxy]).  A tunnel is two
    goroutines, one per direction, that copy bytes until a read or a write fails
    and then close both connections.  [tstep] is one atomic action of one of
    them or of a peer; theorems hold for every run.

    In every interleaving each peer gets a prefix of what the other sent
    ([tunnel_faithful]), and once one direction has ended both connections are
    closed and the other direction ends too ([tunnel_closes]).  A peer that only
    stops sending closes both directions ([half_close_cuts]). *)
From Stdlib Require Import Ascii.
From stdpp Require Export functions.
From S2P Require Export Proxy.

#[local] Abbreviation byte := Byte.byte.

(** ** The two connections *)
Inductive peer := Guest | Upstream.
#[export] Instance peer_eq : EqDecision peer.
Proof. solve_decision. Defined.
Definition other (e : peer) : peer := match e with Guest => Upstream | Upstream => Guest end.

Record endpoint := {
  e_sent : list byte;     (* all the peer sent *)
  e_inbox : list byte;    (* what of it was not read yet *)
  e_open : bool;          (* the peer may send more *)
  e_broken : bool;        (* the connection is reset *)
  e_closed : bool;        (* the proxy closed it *)
  e_got : list byte       (* what was written to the peer *)
}.

(** Where the goroutine that reads from a peer stands: in [io.Copy], before its
    read or before the write of what it read, or before the two closes. *)
Inductive copier :=
| CRead
| CWrite (data : list byte)
| CCloseDst
| CCloseSrc
| CEnded.

Record tunnel := { t_end : peer → endpoint; t_copier : peer → copier }.

Definition set_end (e : peer) (x : endpoint) (t : tunnel) : tunnel :=
  {| t_end := <[e := x]> (t_end t); t_copier := t_copier t |}.
Definition set_copier (e : peer) (c : copier) (t : tunnel) : tunnel :=
  {| t_end := t_end t; t_copier := <[e := c]> (t_copier t) |}.

Definition receive (data : list byte) (x : endpoint) : endpoint :=
  {| e_sent := e_sent x ++ data; e_inbox := e_inbox x ++ data; e_open := e_open x;
     e_broken := e_broken x; e_closed := e_closed x; e_got := e_got x |}.
Definition finish (x : endpoint) : endpoint :=
  {| e_sent := e_sent x; e_inbox := e_inbox x; e_open := false; e_broken := e_broken x;
     e_closed := e_closed x; e_got := e_got x |}.
Definition reset (x : endpoint) : endpoint :=
  {| e_sent := e_sent x; e_inbox := e_inbox x; e_open := false; e_broken := true;
     e_closed := e_closed x; e_got := e_got x |}.
Definition drop_inbox (n : nat) (x : endpoint) : endpoint :=
  {| e_sent := e_sent x; e_inbox := drop n (e_inbox x); e_open := e_open x; e_broken := e_broken x;
     e_closed := e_closed x; e_got := e_got x |}.
Definition write (data : list byte) (x : endpoint) : endpoint :=
  {| e_sent := e_sent x; e_inbox := e_inbox x; e_open := e_open x; e_broken := e_broken x;
     e_closed := e_closed x; e_got := e_got x ++ data |}.
Definition close (x : endpoint) : endpoint :=
  {| e_sent := e_sent x; e_inbox := e_inbox x; e_open := e_open x; e_broken := e_broken x;
     e_closed := true; e_got := e_got x |}.

(** ** One action *)
Inductive taction :=
| TSend (e : peer) (data : list byte)      (* a peer sends *)
| TFinish (e : peer)                       (* it stops sending *)
| TReset (e : peer)                        (* its connection breaks *)
| TRead (s : peer) (n : nat)               (* [Read] of the direction from [s]; at most [n] bytes *)
| TWrite (s : peer)                        (* its [Write] to the other peer *)
| TWriteFails (s : peer) (n : nat)         (* ... which fails after [n] bytes *)
| TCloseDst (s : peer)
| TCloseSrc (s : peer).

Definition dead (x : endpoint) : bool := e_closed x || e_broken x.

Definition tstep (a : taction) (t : tunnel) : option tunnel :=
  match a with
  | TSend e data =>
      if e_open (t_end t e) then Some (set_end e (receive data (t_end t e)) t) else None
  | TFinish e => Some (set_end e (finish (t_end t e)) t)
  | TReset e => Some (set_end e (reset (t_end t e)) t)
  | TRead s n =>
      match t_copier t s with
      | CRead =>
          let src := t_end t s in
          if dead src then Some (set_copier s CCloseDst t)
          else if (length (e_inbox src) =? 0)%nat
          then if e_open src then None else Some (set_copier s CCloseDst t)
          else let k := (1 `max` n)%nat in
               Some (set_copier s (CWrite (take k (e_inbox src))) (set_end s (drop_inbox k src) t))
      | _ => None
      end
  | TWrite s =>
      match t_copier t s with
      | CWrite data =>
          let dst := t_end t (other s) in
          if dead dst then Some (set_copier s CCloseDst t)
          else Some (set_copier s CRead (set_end (other s) (write data dst) t))
      | _ => None
      end
  | TWriteFails s n =>
      match t_copier t s with
      | CWrite data =>
          let dst := t_end t (other s) in
          Some (set_copier s CCloseDst
                  (if dead dst then t else set_end (other s) (write (take n data) dst) t))
      | _ => None
      end
  | TCloseDst s =>
      match t_copier t s with
      | CCloseDst => Some (set_copier s CCloseSrc (set_end (other s) (close (t_end t (other s))) t))
      | _ => None
      end
  | TCloseSrc s =>
      match t_copier t s with
      | CCloseSrc => Some (set_copier s CEnded (set_end s (close (t_end t s)) t))
      | _ => None
      end
  end.

Fixpoint trun (acts : list taction) (t : tunnel) : option tunnel :=
  match acts with [] => Some t | a :: acts' => t' ← tstep a t; trun acts' t' end.

(** The two goroutines that [handleConnectTunnel] starts.  What the server's
    reader held of the guest's bytes when the connection was hijacked is dropped:
    [e_sent] is what arrives afterwards. *)
Definition fresh_end : endpoint :=
  {| e_sent := []; e_inbox := []; e_open := true; e_broken := false; e_closed := false; e_got := [] |}.
Definition tunnel_started : tunnel := {| t_end _ := fresh_end; t_copier _ := CRead |}.

(** ** What arrives *)

(** No connection breaks and no write fails. *)
Definition undisturbed (a : taction) : bool :=
  match a with TReset _ | TWriteFails _ _ => false | _ => true end.

(** In [io.Copy]. *)
Definition copying (c : copier) : bool := match c with CRead | CWrite _ => true | _ => false end.

(** The direction from [s]: what [other s] got of what [s] sent.  [clean]: the
    run so far was undisturbed. *)
Definition carried (clean : bool) (s : peer) (t : tunnel) : Prop :=
  let src := t_end t s in let dst := t_end t (other s) in
  match t_copier t s with
  | CRead => e_sent src = e_got dst ++ e_inbox src
  | CWrite data => e_sent src = e_got dst ++ data ++ e_inbox src
  | _ => prefix (e_got dst) (e_sent src)
         ∧ (clean = true → copying (t_copier t (other s)) = true →
            e_got dst = e_sent src ∧ e_open src = false)
  end.

(** Who closed what: a connection is closed by the direction into it before
    [CCloseSrc], or by the one from it at its end. *)
Definition closed_by (t : tunnel) (e : peer) : bool :=
  match t_copier t (other e) with CCloseSrc | CEnded => true | _ => false end
  || match t_copier t e with CEnded => true | _ => false end.

Record tunnel_inv (clean : bool) (t : tunnel) : Prop := {
  ti_carried : ∀ s, carried clean s t;
  ti_closed : ∀ e, e_closed (t_end t e) = closed_by t e;
  ti_clean : clean = true → ∀ e, e_broken (t_end t e) = false
}.

Ltac tun := repeat (rewrite fn_lookup_insert || rewrite fn_lookup_insert_ne by done).

Lemma tunnel_inv_started : tunnel_inv true tunnel_started.
Proof. by split. Qed.

Lemma closed_of t e : closed_by t e = false →
  copying (t_copier t e) = true ∨ t_copier t e = CCloseDst ∨ t_copier t e = CCloseSrc.
Proof. unfold closed_by. destruct (t_copier t e); auto. by rewrite orb_true_r. Qed.

(** A direction while neither it nor the peers' side of its ends changes but as
    the peer [s] sends. *)
Lemma carried_ext clean clean' s t t' :
  carried clean s t → t_copier t' s = t_copier t s →
  (copying (t_copier t' (other s)) = true → copying (t_copier t (other s)) = true) →
  (clean' = true → clean = true) →
  e_got (t_end t' (other s)) = e_got (t_end t (other s)) →
  e_sent (t_end t' s) = e_sent (t_end t s) →
  (copying (t_copier t s) = true → e_inbox (t_end t' s) = e_inbox (t_end t s)) →
  (e_open (t_end t s) = false → e_open (t_end t' s) = false) →
  carried clean' s t'.
Proof.
  unfold carried. cbv zeta. intros H Ec Eo Ecl Eg Es Ei Ef. rewrite Ec, Eg, Es.
  destruct (t_copier t s); try (rewrite Ei by done; exact H);
    (destruct H as [Hp H]; split; [done|intros ? ?; destruct H as [? ?]; auto]).
Qed.

Lemma other_ne e : other e ≠ e.
Proof. by destruct e. Qed.
Lemma other_other e : other (other e) = e.
Proof. by destruct e. Qed.
Lemma ne_other e s : e ≠ s → e = other s.
Proof. by destruct e, s. Qed.

(** Only the peer [e]'s end changed, and neither what it got nor a close. *)
Lemma inv_peer clean clean' e x t :
  tunnel_inv clean t → (clean' = true → clean = true) →
  e_got x = e_got (t_end t e) → e_closed x = e_closed (t_end t e) →
  (clean' = true → e_broken x = e_broken (t_end t e)) →
  carried clean e (set_end e x t) → tunnel_inv clean' (set_end e x t).
Proof.
  intros [Hc Hcl Hb] Hcln Hg Hcd Hbr He. pose proof (other_ne e) as Hne. split.
  - intros s. destruct (decide (s = e)) as [->|Hs].
    + eapply carried_ext; [exact He|try done..].
    + eapply carried_ext; [apply Hc|try done..]; cbn; tun; try done.
      apply ne_other in Hs as ->. rewrite other_other. by tun.
  - intros s. change (closed_by _ s) with (closed_by t s). cbn.
    destruct (decide (s = e)) as [->|Hs]; tun; [by rewrite Hcd|]; apply Hcl.
  - intros Hx s. cbn. destruct (decide (s = e)) as [->|Hs]; tun; [rewrite Hbr by done|]; apply Hb; auto.
Qed.

(** The copier from [s] moves on, having read from [s] or written to the other. *)
Lemma inv_copier clean clean' s c t t' :
  tunnel_inv clean t → (clean' = true → clean = true) →
  t_copier t' = <[s := c]> (t_copier t) →
  (copying c = true → copying (t_copier t s) = true) →
  (∀ e, e_sent (t_end t' e) = e_sent (t_end t e) ∧ e_open (t_end t' e) = e_open (t_end t e)
        ∧ e_broken (t_end t' e) = e_broken (t_end t e)) →
  e_got (t_end t' s) = e_got (t_end t s) →
  e_inbox (t_end t' (other s)) = e_inbox (t_end t (other s)) →
  (∀ e, e_closed (t_end t' e) = closed_by t' e) →
  carried clean' s t' → tunnel_inv clean' t'.
Proof.
  intros [Hc _ Hb] Hcln Hcop Hcp He Hg Hi Hcl Hs. pose proof (other_ne s) as Hne. split; [|done|].
  - intros e. destruct (decide (e = s)) as [->|Hes]; [done|]. apply ne_other in Hes as ->.
    eapply carried_ext; [apply Hc|..]; rewrite ?Hcop, ?other_other; tun; try done; try apply He.
    intros H. destruct (He (other s)) as (_ & -> & _). done.
  - intros Hx e. destruct (He e) as (_ & _ & ->). by apply Hb; auto.
Qed.

(** A step of a copier that closes nothing. *)
Lemma closed_same s c t t' :
  (∀ e, e_closed (t_end t e) = closed_by t e) →
  t_copier t' = <[s := c]> (t_copier t) →
  (∀ e, e_closed (t_end t' e) = e_closed (t_end t e)) →
  match t_copier t s with CCloseSrc | CEnded => false | _ => true end = true →
  match c with CCloseSrc | CEnded => false | _ => true end = true →
  ∀ e, e_closed (t_end t' e) = closed_by t' e.
Proof.
  intros Hcl Hcop Hsame Ho Hn e. rewrite Hsame, Hcl. unfold closed_by. rewrite Hcop.
  pose proof (other_ne s). destruct (decide (e = s)) as [->|Hes].
  - tun. by destruct (t_copier t s), c.
  - apply ne_other in Hes as ->. rewrite other_other. tun. by destruct (t_copier t s), c.
Qed.

Lemma end_cases (P : endpoint → endpoint → Prop) s x t :
  (∀ e, P (t_end t e) (t_end t e)) → P x (t_end t s) → ∀ e, P (<[s:=x]> (t_end t) e) (t_end t e).
Proof. intros Hr Hx e. destruct (decide (e = s)) as [->|Hne]; by tun. Qed.

(** *** Each action *)
Section actions.
Context (clean : bool) (t : tunnel) (Hinv : tunnel_inv clean t).

(** Changes of one end that a copier may make. *)
Lemma end_kept s x :
  e_sent x = e_sent (t_end t s) → e_open x = e_open (t_end t s) → e_broken x = e_broken (t_end t s) →
  ∀ e, e_sent (<[s:=x]> (t_end t) e) = e_sent (t_end t e)
       ∧ e_open (<[s:=x]> (t_end t) e) = e_open (t_end t e)
       ∧ e_broken (<[s:=x]> (t_end t) e) = e_broken (t_end t e).
Proof.
  intros. by apply (end_cases (λ x y, e_sent x = e_sent y ∧ e_open x = e_open y ∧ e_broken x = e_broken y)).
Qed.

(** A copier leaves [io.Copy]: after an error, or at the end of what its peer
    sent. *)
Lemma inv_leave clean' s t' :
  (clean' = true → clean = true) →
  copying (t_copier t s) = true →
  t_copier t' = <[s := CCloseDst]> (t_copier t) →
  (t' = set_copier s CCloseDst t ∨ ∃ data, t' = set_copier s CCloseDst (set_end (other s) (write data (t_end t (other s))) t)) →
  prefix (e_got (t_end t' (other s))) (e_sent (t_end t s)) →
  (clean' = true → copying (t_copier t (other s)) = true →
   e_got (t_end t' (other s)) = e_sent (t_end t s) ∧ e_open (t_end t s) = false) →
  tunnel_inv clean' t'.
Proof.
  intros Hcln Hcop Hc' Ht' Hp Hx. pose proof (other_ne s) as Hne.
  assert (Hsent : e_sent (t_end t' s) = e_sent (t_end t s) ∧ e_open (t_end t' s) = e_open (t_end t s)).
  { destruct Ht' as [-> | [data ->]]; cbn; by tun. }
  apply (inv_copier clean clean' s CCloseDst t t'); try done.
  - destruct Ht' as [-> | [data ->]]; [done|]. by apply end_kept.
  - destruct Ht' as [-> | [data ->]]; cbn; by tun.
  - destruct Ht' as [-> | [data ->]]; cbn; by tun.
  - apply (closed_same s CCloseDst t t'); [apply (ti_closed _ _ Hinv)|done| | |done].
    + destruct Ht' as [-> | [data ->]]; [done|]. by apply (end_cases (λ x y, e_closed x = e_closed y)).
    + by destruct (t_copier t s).
  - unfold carried. rewrite Hc'. destruct Hsent as [-> ->]. tun. by split.
Qed.

(** In an undisturbed run nothing is dead while the other direction copies. *)
Lemma not_dead s :
  clean = true → copying (t_copier t s) = true → copying (t_copier t (other s)) = true →
  dead (t_end t s) = false ∧ dead (t_end t (other s)) = false.
Proof.
  intros H1 H2 H3. unfold dead. rewrite !(ti_clean _ _ Hinv H1), !(ti_closed _ _ Hinv).
  unfold closed_by. rewrite other_other. by destruct (t_copier t s), (t_copier t (other s)).
Qed.

Lemma inv_read s n t' : tstep (TRead s n) t = Some t' → tunnel_inv clean t'.
Proof.
  cbn. destruct (t_copier t s) eqn:Ec; try done. pose proof (other_ne s) as Hne.
  pose proof (ti_carried _ _ Hinv s) as Hc. unfold carried in Hc. rewrite Ec in Hc.
  assert (Hstop : (clean = true → copying (t_copier t (other s)) = true →
                   e_inbox (t_end t s) = [] ∧ e_open (t_end t s) = false) →
                  tunnel_inv clean (set_copier s CCloseDst t)).
  { intros Hx. apply (inv_leave clean s); try done; [by rewrite Ec|by left|..]; cbn.
    - rewrite Hc. by apply prefix_app_r.
    - intros H1 H2. destruct (Hx H1 H2) as [Hi ?]. by rewrite Hc, Hi, app_nil_r. }
  destruct (dead (t_end t s)) eqn:Ed.
  { intros [= <-]. apply Hstop. intros H1 H2.
    destruct (not_dead s H1 (eq_trans (f_equal copying Ec) eq_refl) H2). congruence. }
  destruct (length (e_inbox (t_end t s)) =? 0)%nat eqn:El.
  { destruct (e_open (t_end t s)) eqn:Eo; [done|]. intros [= <-]. apply Hstop. intros _ _.
    apply Nat.eqb_eq in El. by destruct (e_inbox (t_end t s)). }
  intros [= <-]. set (k := (1 `max` n)%nat). set (c := CWrite _). set (t2 := set_copier _ _ _).
  apply (inv_copier clean clean s c t t2); try done; [by rewrite Ec|by apply end_kept|cbn; by tun..| |].
  - apply (closed_same s c t t2); [apply (ti_closed _ _ Hinv)|done| |by rewrite Ec|done].
    by apply (end_cases (λ x y, e_closed x = e_closed y)).
  - unfold carried. cbn. tun. cbn. by rewrite take_drop.
Qed.

Lemma inv_write s t' : tstep (TWrite s) t = Some t' → tunnel_inv clean t'.
Proof.
  cbn. destruct (t_copier t s) as [|data| | |] eqn:Ec; try done. pose proof (other_ne s) as Hne.
  pose proof (ti_carried _ _ Hinv s) as Hc. unfold carried in Hc. rewrite Ec in Hc.
  destruct (dead (t_end t (other s))) eqn:Ed; intros [= <-].
  - apply (inv_leave clean s); try done; [by rewrite Ec|by left|..]; cbn.
    + rewrite Hc. by apply prefix_app_r.
    + intros H1 H2. destruct (not_dead s H1 (eq_trans (f_equal copying Ec) eq_refl) H2). congruence.
  - set (t2 := set_copier _ _ _). apply (inv_copier clean clean s CRead t t2); try done;
      [by rewrite Ec|by apply end_kept|cbn; by tun..| |].
    + apply (closed_same s CRead t t2); [apply (ti_closed _ _ Hinv)|done| |by rewrite Ec|done].
      by apply (end_cases (λ x y, e_closed x = e_closed y)).
    + unfold carried. cbn. tun. cbn. by rewrite Hc, <-app_assoc.
Qed.

Lemma inv_write_fails s n t' : tstep (TWriteFails s n) t = Some t' → tunnel_inv false t'.
Proof.
  cbn. destruct (t_copier t s) as [|data| | |] eqn:Ec; try done. pose proof (other_ne s) as Hne.
  pose proof (ti_carried _ _ Hinv s) as Hc. unfold carried in Hc. rewrite Ec in Hc.
  intros [= <-]. destruct (dead (t_end t (other s))).
  - apply (inv_leave false s); try done; [by rewrite Ec|by left|]. cbn. rewrite Hc. by apply prefix_app_r.
  - apply (inv_leave false s); try done; [by rewrite Ec|by right; eexists|]. cbn. tun. cbn. rewrite Hc.
    exists (drop n data ++ e_inbox (t_end t s)).
    by rewrite <-app_assoc, (app_assoc (take n data)), take_drop.
Qed.

Lemma inv_close_dst s t' : tstep (TCloseDst s) t = Some t' → tunnel_inv clean t'.
Proof.
  cbn. destruct (t_copier t s) as [|data| | |] eqn:Ec; try done. pose proof (other_ne s) as Hne.
  pose proof (ti_carried _ _ Hinv s) as Hc. unfold carried in Hc. rewrite Ec in Hc.
  intros [= <-]. set (t2 := set_copier _ _ _).
  apply (inv_copier clean clean s CCloseSrc t t2); try done; [by apply end_kept|cbn; by tun..| |].
  - intros e. destruct (decide (e = s)) as [->|Hes].
    + cbn. tun. rewrite (ti_closed _ _ Hinv). unfold closed_by. cbn. tun. by rewrite Ec.
    + apply ne_other in Hes as ->. unfold closed_by. rewrite other_other. cbn. by tun.
  - unfold carried. cbn. tun. cbn. exact Hc.
Qed.

Lemma inv_close_src s t' : tstep (TCloseSrc s) t = Some t' → tunnel_inv clean t'.
Proof.
  cbn. destruct (t_copier t s) as [|data| | |] eqn:Ec; try done. pose proof (other_ne s) as Hne.
  pose proof (ti_carried _ _ Hinv s) as Hc. unfold carried in Hc. rewrite Ec in Hc.
  intros [= <-]. set (t2 := set_copier _ _ _).
  apply (inv_copier clean clean s CEnded t t2); try done; [by apply end_kept|cbn; by tun..| |].
  - intros e. destruct (decide (e = s)) as [->|Hes].
    + unfold closed_by. cbn. tun. by rewrite orb_true_r.
    + apply ne_other in Hes as ->. unfold closed_by. rewrite other_other. cbn. tun.
      rewrite (ti_closed _ _ Hinv). unfold closed_by. by rewrite other_other, Ec.
  - unfold carried. cbn. tun. cbn. exact Hc.
Qed.

Lemma inv_send e data t' : tstep (TSend e data) t = Some t' → tunnel_inv clean t'.
Proof.
  cbn. destruct (e_open (t_end t e)) eqn:Eo; [|done]. intros [= <-]. eapply inv_peer; [done..|].
  pose proof (ti_carried _ _ Hinv e) as Hc. unfold carried in *. cbn. pose proof (other_ne e). tun. cbn.
  destruct (t_copier t e); [by rewrite Hc, app_assoc|by rewrite Hc, <-!app_assoc|..];
    (destruct Hc as [Hp Hx]; split;
      [by apply prefix_app_r|intros Hcln Hcp; destruct (Hx Hcln Hcp); congruence]).
Qed.

Lemma inv_finish e : tunnel_inv clean (set_end e (finish (t_end t e)) t).
Proof.
  eapply inv_peer; [done..|]. pose proof (ti_carried _ _ Hinv e) as Hc. unfold carried in *. cbn.
  pose proof (other_ne e). tun. cbn. destruct (t_copier t e); naive_solver.
Qed.

Lemma inv_reset e : tunnel_inv false (set_end e (reset (t_end t e)) t).
Proof.
  eapply inv_peer; [done..|]. pose proof (ti_carried _ _ Hinv e) as Hc. unfold carried in *. cbn.
  pose proof (other_ne e). tun. cbn. destruct (t_copier t e); naive_solver.
Qed.
End actions.

Lemma tunnel_inv_step clean a t t' :
  tstep a t = Some t' → tunnel_inv clean t → tunnel_inv (clean && undisturbed a) t'.
Proof.
  intros Hs Hinv. destruct a as [e data|e|e|s n|s|s n|s|s]; cbn [undisturbed];
    rewrite ?andb_true_r, ?andb_false_r.
  - by eapply inv_send.
  - injection Hs as <-. by apply inv_finish.
  - injection Hs as <-. by eapply inv_reset.
  - by eapply inv_read.
  - by eapply inv_write.
  - by eapply inv_write_fails.
  - by eapply inv_close_dst.
  - by eapply inv_close_src.
Qed.

Lemma tunnel_inv_run acts : ∀ clean t t',
  trun acts t = Some t' → tunnel_inv clean t → tunnel_inv (clean && forallb undisturbed acts) t'.
Proof.
  induction acts as [|a acts IH]; intros clean t t'; cbn [trun forallb].
  { intros [= <-]. by rewrite andb_true_r. }
  destruct (tstep a t) as [t1|] eqn:E; [|done]. intros Hr Hi. rewrite andb_assoc.
  eapply IH; [exact Hr|]. by eapply tunnel_inv_step.
Qed.

(** C30: a tunnel passes on what it is given: in every interleaving of the two
    directions and the peers, each peer has got a prefix of what the other sent;
    and when no connection broke and no write failed, a direction that has left
    its copy before the other did has passed on everything its peer sent, and the
    peer has stopped sending. *)
Theorem tunnel_faithful acts t s :
  trun acts tunnel_started = Some t →
  prefix (e_got (t_end t (other s))) (e_sent (t_end t s))
  ∧ (forallb undisturbed acts = true → copying (t_copier t s) = false →
     copying (t_copier t (other s)) = true →
     e_got (t_end t (other s)) = e_sent (t_end t s) ∧ e_open (t_end t s) = false).
Proof.
  intros Hr. pose proof (tunnel_inv_run _ _ _ _ Hr tunnel_inv_started) as Hi.
  pose proof (ti_carried _ _ Hi s) as Hc. unfold carried in Hc.
  cbv zeta in Hc. cbn [copying].
  destruct (t_copier t s); [split; [rewrite Hc; by apply prefix_app_r|by intros _ [=]]..| | |];
    (destruct Hc as [Hp Hx]; split; [exact Hp|intros H1 _; exact (Hx H1)]).
Qed.

(** ** The end of a tunnel *)

(** The actions of the two goroutines. *)
Definition own (a : taction) : bool :=
  match a with TSend _ _ | TFinish _ | TReset _ => false | _ => true end.
Definition left_of (c : copier) : nat :=
  match c with CRead | CWrite _ => 3 | CCloseDst => 2 | CCloseSrc => 1 | CEnded => 0 end.

Definition all_closed (t : tunnel) : Prop := ∀ e, e_closed (t_end t e) = true.

Lemma all_closed_dead t e : all_closed t → dead (t_end t e) = true.
Proof. intros H. unfold dead. by rewrite H. Qed.

Lemma own_step a t t' :
  all_closed t → own a = true → tstep a t = Some t' →
  all_closed t' ∧ ∃ s, t_copier t' (other s) = t_copier t (other s)
                      ∧ left_of (t_copier t s) = S (left_of (t_copier t' s)).
Proof.
  intros Hcl Ho Hs. pose proof (λ e, all_closed_dead t e Hcl) as Hd. unfold all_closed.
  destruct a as [e data|e|e|s n|s|s n|s|s]; try done; cbn in Hs; pose proof (other_ne s) as Hne;
    destruct (t_copier t s) eqn:Ec; try done; rewrite ?Hd in Hs; injection Hs as <-;
    (split; [|exists s; cbn; tun; by rewrite Ec]); cbn; try exact Hcl;
    intros e; by apply (end_cases (λ x y, e_closed y = true → e_closed x = true)).
Qed.

Lemma own_bound more : ∀ t t',
  all_closed t → forallb own more = true → trun more t = Some t' →
  (length more ≤ left_of (t_copier t Guest) + left_of (t_copier t Upstream))%nat.
Proof.
  induction more as [|a more IH]; intros t t' Hcl Ho; [simpl; lia|]. cbn in *.
  apply andb_prop in Ho as [Ha Ho]. destruct (tstep a t) as [t1|] eqn:E; [|done]. intros Hr.
  destruct (own_step a t t1 Hcl Ha E) as (Hcl1 & s & E1 & E2).
  specialize (IH _ _ Hcl1 Ho Hr). destruct s; cbn in E1; rewrite E1 in IH; lia.
Qed.

(** C31: a tunnel ends as a whole: in every run, once one of its goroutines has
    ended both connections are closed, the other one takes at most three more
    actions, and until it has ended it can always take one, so neither a goroutine
    nor a connection outlives the tunnel. *)
Theorem tunnel_closes acts t s :
  trun acts tunnel_started = Some t → t_copier t s = CEnded →
  (∀ e, e_closed (t_end t e) = true)
  ∧ (∀ more t', forallb own more = true → trun more t = Some t' → (length more ≤ 3)%nat)
  ∧ (t_copier t (other s) ≠ CEnded → ∃ a t', own a = true ∧ tstep a t = Some t').
Proof.
  intros Hr He. pose proof (tunnel_inv_run _ _ _ _ Hr tunnel_inv_started) as [_ Hcl _].
  assert (Ha : all_closed t).
  { intros e. rewrite Hcl. unfold closed_by. destruct (decide (e = s)) as [->|Hes].
    - rewrite He. by rewrite orb_true_r.
    - apply ne_other in Hes as ->. by rewrite other_other, He. }
  split; [exact Ha|]. split.
  - intros more t' Ho Hm. pose proof (own_bound more t t' Ha Ho Hm) as Hb.
    destruct s; rewrite He in Hb; cbn in Hb; [destruct (t_copier t Upstream)|destruct (t_copier t Guest)];
      cbn in Hb; lia.
  - intros Hne. pose proof (λ e, all_closed_dead t e Ha) as Hd. destruct (t_copier t (other s)) eqn:Ec; try done.
    + exists (TRead (other s) 1). eexists. split; [done|]. cbn. by rewrite Ec, Hd.
    + exists (TWrite (other s)). eexists. split; [done|]. cbn. by rewrite Ec, Hd.
    + exists (TCloseDst (other s)). eexists. split; [done|]. cbn. by rewrite Ec.
    + exists (TCloseSrc (other s)). eexists. split; [done|]. cbn. by rewrite Ec.
Qed.

(** ** Runs *)
Definition question : list byte := [Byte.x47; Byte.x45; Byte.x54].
Definition reply : list byte := [Byte.x4f; Byte.x4b].

(** The guest asks, the server answers and stops, and the tunnel ends. *)
Definition exchange : list taction :=
  [TSend Guest question; TRead Guest 2; TWrite Guest; TRead Guest 9; TWrite Guest;
   TSend Upstream reply; TFinish Upstream; TRead Upstream 9; TWrite Upstream; TRead Upstream 9;
   TCloseDst Upstream; TCloseSrc Upstream].
Definition end_of (acts : list taction) : tunnel := default tunnel_started (trun acts tunnel_started).

Lemma exchange_runs : trun exchange tunnel_started = Some (end_of exchange).
Proof. reflexivity. Qed.

Lemma tunnel_faithful_witness :
  e_got (t_end (end_of (take 10 exchange)) Guest) = reply ∧
  prefix (e_got (t_end (end_of (take 10 exchange)) Guest)) (e_sent (t_end (end_of (take 10 exchange)) Upstream))
  ∧ (forallb undisturbed (take 10 exchange) = true →
     copying (t_copier (end_of (take 10 exchange)) Upstream) = false →
     copying (t_copier (end_of (take 10 exchange)) Guest) = true →
     e_got (t_end (end_of (take 10 exchange)) Guest) = e_sent (t_end (end_of (take 10 exchange)) Upstream)
     ∧ e_open (t_end (end_of (take 10 exchange)) Upstream) = false).
Proof.
  split; [reflexivity|].
  exact (tunnel_faithful (take 10 exchange) (end_of (take 10 exchange)) Upstream eq_refl).
Defined.

Lemma tunnel_closes_witness :
  (∀ e, e_closed (t_end (end_of exchange) e) = true)
  ∧ (∀ more t', forallb own more = true → trun more (end_of exchange) = Some t' → (length more ≤ 3)%nat)
  ∧ (t_copier (end_of exchange) Guest ≠ CEnded →
     ∃ a t', own a = true ∧ tstep a (end_of exchange) = Some t').
Proof. exact (tunnel_closes exchange (end_of exchange) Upstream exchange_runs eq_refl). Defined.

(** A guest that stops sending after its question, and waits for the answer, does
    not get it: the end of its bytes closes the connection to it too. *)
Definition half_closed : list taction :=
  [TSend Guest question; TFinish Guest; TRead Guest 9; TWrite Guest; TRead Guest 9;
   TCloseDst Guest; TCloseSrc Guest; TSend Upstream reply; TRead Upstream 9; TCloseDst Upstream;
   TCloseSrc Upstream].
Theorem half_close_cuts :
  let t := end_of half_closed in
  trun half_closed tunnel_started = Some t
  ∧ e_got (t_end t Upstream) = question ∧ e_sent (t_end t Upstream) = reply
  ∧ e_got (t_end t Guest) = [] ∧ t_copier t Guest = CEnded ∧ t_copier t Upstream = CEnded.
Proof. by vm_compute. Qed.

(** ** What [writeProxyError] writes *)
(** What stands before and after the first occurrence of [sep]. *)
Fixpoint cut_at (sep s : string) : option (string * string) :=
  match strip_prefix sep s with
  | Some rest => Some ("", rest)
  | None => match s with
            | "" => None
            | String c s' => (λ p, (String c p.1, p.2)) <$> cut_at sep s'
            end
  end.

Lemma cut_at_skip sep c p s :
  (∀ r, strip_prefix sep (String c r) = None) →
  cut_at sep (String c p +:+ s) = (λ q, (String c q.1, q.2)) <$> cut_at sep (p +:+ s).
Proof. intros H. change (String c p +:+ s) with (String c (p +:+ s)). cbn [cut_at]. by rewrite H. Qed.

Lemma strip_line c r : c ≠ cr → strip_prefix (crlf +:+ crlf) (String c r) = None.
Proof.
  intros Hc. change (strip_prefix (crlf +:+ crlf) (String c r))
    with (if decide (cr = c) then strip_prefix (String (ascii_of_nat 10) crlf) r else None).
  by rewrite decide_False by congruence.
Qed.

(** Text without a carriage return is passed over. *)
Lemma cut_at_text t s :
  has_char cr t = false →
  cut_at (crlf +:+ crlf) (t +:+ s) = (λ q, (t +:+ q.1, q.2)) <$> cut_at (crlf +:+ crlf) s.
Proof.
  induction t as [|c t IH]; cbn [has_char].
  { intros _. change ("" +:+ s) with s. by destruct (cut_at _ s) as [[]|]. }
  intros [Hc Ht]%orb_false_iff. apply bool_decide_eq_false in Hc. rewrite cut_at_skip.
  - rewrite IH by done. by destruct (cut_at _ s) as [[]|].
  - intros r. by apply strip_line.
Qed.

(** A line break that another line follows too. *)
Lemma cut_at_line t s :
  has_char cr t = false → t ≠ "" →
  cut_at (crlf +:+ crlf) (crlf +:+ t +:+ s) = (λ q, (crlf +:+ t +:+ q.1, q.2)) <$> cut_at (crlf +:+ crlf) s.
Proof.
  intros Ht Hne. destruct t as [|c t]; [done|].
  pose proof (cut_at_text (String c t) s Ht) as Hcut.
  cbn [has_char] in Ht. apply orb_false_iff in Ht as [Hc _]. apply bool_decide_eq_false in Hc.
  change (crlf +:+ String c t +:+ s) with (String cr (String (ascii_of_nat 10) (String c t +:+ s))).
  set (u := String c t +:+ s) in *.
  assert (E : cut_at (crlf +:+ crlf) (String cr (String (ascii_of_nat 10) u))
              = (λ q, (String cr (String (ascii_of_nat 10) q.1), q.2)) <$> cut_at (crlf +:+ crlf) u).
  { assert (H1 : strip_prefix (crlf +:+ crlf) (String cr (String (ascii_of_nat 10) u)) = None).
    { change (strip_prefix (crlf +:+ crlf) (String cr (String (ascii_of_nat 10) u)))
        with (if decide (cr = c) then strip_prefix (String (ascii_of_nat 10) "") (t +:+ s) else None).
      by rewrite decide_False by congruence. }
    cbn [cut_at]. rewrite H1, strip_line by done. by destruct (cut_at _ u) as [[]|]. }
  rewrite E, Hcut. by destruct (cut_at _ s) as [[]|].
Qed.

Lemma cut_at_end s : cut_at (crlf +:+ crlf) (crlf +:+ crlf +:+ s) = Some ("", s).
Proof. done. Qed.

(** the text of an error cannot pass for the answer's headers: whatever the
    message, even one with empty lines, a client that reads the answer up to its
    first empty line finds the four lines the proxy writes, which give the length
    of the message, and the message after them. *)
Theorem writeProxyError_reads status message :
  status = 403 ∨ status = 502 →
  cut_at (crlf +:+ crlf) (writeProxyError status message)
  = Some (Join ["HTTP/1.1 " +:+ Itoa status +:+ " " +:+ StatusText status;
                "Content-Length: " +:+ Itoa (Z.of_nat (slen message));
                "Content-Type: text/plain"; "Connection: close"] crlf, message).
Proof.
  intros Hs.
  assert (Hn : has_char cr ("Content-Length: " +:+ Itoa (Z.of_nat (slen message))) = false).
  { rewrite has_char_app, has_char_Itoa by (done || lia). done. }
  assert (Hline : has_char cr ("HTTP/1.1 " +:+ Itoa status +:+ " " +:+ StatusText status) = false)
    by (by destruct Hs as [-> | ->]; vm_compute).
  assert (Htext : bool_decide (StatusText status = "") = false) by (by destruct Hs as [-> | ->]; vm_compute).
  unfold writeProxyError. cbv zeta. rewrite Htext.
  set (l1 := "HTTP/1.1 " +:+ Itoa status +:+ " " +:+ StatusText status) in *.
  set (l2 := "Content-Length: " +:+ Itoa (Z.of_nat (slen message))) in *.
  replace ("HTTP/1.1 " +:+ _) with (l1 +:+ crlf +:+ l2 +:+ crlf +:+ "Content-Type: text/plain" +:+ crlf
    +:+ "Connection: close" +:+ crlf +:+ crlf +:+ message) by (unfold l1, l2; by rewrite !sapp_assoc).
  rewrite (cut_at_text l1), (cut_at_line l2), (cut_at_line "Content-Type: text/plain"),
    (cut_at_line "Connection: close"), cut_at_end by done.
  cbn [fmap option_fmap option_map fst snd Join]. by rewrite sapp_nil_r.
Qed.
