(* ===== verification/VMService.v ===== *)
(** * The VMs of the daemon: network managers, backends, the service

    [daemon/service.go], [daemon/backend.go] and the network manager of
    [daemon/network.go].  What the handlers hold (a listening proxy, a strict
    transport anchor, a backend) is recorded in a trace of openings and
    closings.  The machine (sockets, CA files, environment, the two backend
    factories and the strict-transport hooks, which are package variables of
    the code) is a parameter. *)
From Stdlib Require Import Ascii.
From S2P Require Export Lifetimes Secrets.

(** ** What is held *)
Inductive resource :=
| RProxy (vm : string)    (* the proxy's listener and server *)
| RStrict (vm : string)   (* the strict transport of the VM *)
| RBackend (vm : string). (* the backend: processes, sockets, directories *)

#[export] Instance resource_eq : EqDecision resource.
Proof. solve_decision. Defined.
#[export] Instance resource_countable : Countable resource.
Proof.
  refine (inj_countable'
    (λ r, match r with RProxy v => inl v | RStrict v => inr (inl v) | RBackend v => inr (inr v) end)
    (λ s, match s with inl v => RProxy v | inr (inl v) => RStrict v | inr (inr v) => RBackend v end) _).
  by intros [].
Defined.

Abbreviation vm_event := (life resource).

(** ** Data *)
Record networkManager := {
  nm_vmID : string;
  nm_policy : networkPolicy;
  nm_port : Z;                       (* the proxy's port *)
  nm_env : list string;
  nm_caCertPath : string;
  nm_strictTransport : option string (* its AnchorID *)
}.

Inductive backend_kind := HostKind | VMKind.

Record VM := {
  vm_ID : string;
  vm_Backend : backend_kind;
  vm_Network : option networkManager
}.

(** What [vmBackendFactory] can fail with: whether [errors.Is] finds
    [ErrVMUnavailable] in it. *)
Inductive backend_error :=
| VMUnavailable (text : string)
| BackendFailed (text : string).

Inductive vm_error :=
| PolicyInvalid (e : policy_error)
| SecretsInvalid (e : secret_error)
| ProxyFailed (text : string)
| StrictPrepareFailed (text : string)
| StrictSetupFailed (text : string)
| StrictNeedsVM (cause : option backend_error)
| BackendError (e : backend_error).

Inductive backendMode := backendAuto | backendHost | backendVM.
#[export] Instance backendMode_eq : EqDecision backendMode.
Proof. solve_decision. Defined.

(** The errors of the RPC handlers. *)
Inductive rpc_error :=
| InvalidArgument (cause : option vm_error)   (* [None]: a field is missing *)
| NotFound (vm : string)
| Internal (text : string).

Record exec_response := { ex_ExitCode : Z; ex_Stdout : list Byte.byte; ex_Stderr : list Byte.byte }.

(** The first message of an ExecStream call, when it is a start. *)
Record exec_start := { st_VmId : string; st_Command : string; st_Args : list string; st_Pty : bool }.

(** ** The machine *)
Class VMHost (W : Type) := {
  h_listen : W → osres string Z * W;                     (* net.Listen: the port *)
  h_listen_close : W → option string * W;
  h_loadOrCreateCA : W → osres string string * W;        (* the certificate's path *)
  h_random : W → list (option (list Z)) * W;
  h_strictPrepare : W → option string * W;
  h_strictFactory : string → Z → W → osres string (option string) * W;
  h_strictClose : string → W → option string * W;
  h_getenv : string → W → string;
  h_vmBackend : string → StartVMRequest → list string → option networkManager
                → W → osres backend_error () * W;
  h_hostBackend : string → StartVMRequest → list string → W → osres backend_error () * W;
  h_backendClose : string → W → option string * W;
  h_backendExec : string → string → list string → W → osres rpc_error exec_response * W;
  h_backendExecStream : string → exec_start → W → osres rpc_error () * W
}.

(** ** The service *)
Record service (W : Type) := {
  vms : gmap string VM;
  closed_managers : gmap string (option string);  (* closeOnce and closeErr *)
  host : W;
  trace : list vm_event
}.
Arguments vms {W}. Arguments closed_managers {W}. Arguments host {W}. Arguments trace {W}.

Definition M (W A : Type) : Type := service W → A * service W.
#[export] Instance M_mret {W} : MRet (M W) := λ A a s, (a, s).
#[export] Instance M_mbind {W} : MBind (M W) := λ A B f m s, let '(a, s') := m s in f a s'.

Section ops.
Context {W : Type}.

Definition act {A} (f : W → A * W) : M W A := λ s,
  let '(a, w) := f (host s) in
  (a, {| vms := vms s; closed_managers := closed_managers s; host := w; trace := trace s |}).
Definition ev (e : vm_event) : M W () := λ s,
  ((), {| vms := vms s; closed_managers := closed_managers s; host := host s;
          trace := trace s ++ [e] |}).
Definition set_vms (f : gmap string VM → gmap string VM) : M W () := λ s,
  ((), {| vms := f (vms s); closed_managers := closed_managers s; host := host s;
          trace := trace s |}).
Definition set_closed (id : string) (e : option string) : M W () := λ s,
  ((), {| vms := vms s; closed_managers := <[id := e]> (closed_managers s); host := host s;
          trace := trace s |}).
Definition getenv `{VMHost W} (k : string) : M W string := λ s, (h_getenv k (host s), s).
End ops.

(** [errors.Join] of two errors; nil is [None]. *)
Definition errors_Join (a b : option string) : option string :=
  match a, b with
  | Some x, Some y => Some (x +:+ String (ascii_of_nat 10) "" +:+ y)
  | Some x, None => Some x
  | None, b => b
  end.

Section code.
Context `{UT : UnicodeTables} `{VH : VMHost W}.

Definition guestProxyHost : string := "10.0.2.2".
Definition joinHostPort (host : string) (port : Z) : string := JoinHostPort host (Itoa port).

(** What [newProxyServer] does with the machine: the proxy's port and, with secrets, the
    path of the CA's certificate.  The proxy itself, its resolver included, is
    [Proxy.new_proxy] of the same policy and secrets. *)
Definition newProxyServer (vmID : string) (policy : networkPolicy) (secrets : list secretSpec)
    : M W (osres string (Z * option string)) :=
  l ← act h_listen;
  match l with
  | Bad e => mret (Bad e)
  | Good port =>
      _ ← ev (EvOpened (RProxy vmID));
      if bool_decide (secrets = []) then mret (Good (port, None))
      else
        ca ← act h_loadOrCreateCA;
        match ca with
        | Bad e =>
            _ ← ev (EvClosed (RProxy vmID)); _ ← act h_listen_close; mret (Bad e)
        | Good path => mret (Good (port, Some path))
        end
  end.

Definition proxy_Close (vmID : string) : M W (option string) :=
  _ ← ev (EvClosed (RProxy vmID)); act h_listen_close.

Definition proxy_env (port : Z) : list string :=
  let proxyURL := "http://" +:+ joinHostPort guestProxyHost port in
  ["HTTP_PROXY=" +:+ proxyURL; "HTTPS_PROXY=" +:+ proxyURL; "ALL_PROXY=" +:+ proxyURL;
   "http_proxy=" +:+ proxyURL; "https_proxy=" +:+ proxyURL; "all_proxy=" +:+ proxyURL].

(** The strict transport of [newNetworkManager]: nothing outside strict mode. *)
Definition start_strict (vmID : string) (policy : networkPolicy) (port : Z)
    : M W (osres vm_error (option string)) :=
  if egressMode policy =? EgressMode.STRICT then
    prepareErr ← act h_strictPrepare;
    match prepareErr with
    | Some e => _ ← proxy_Close vmID; mret (Bad (StrictPrepareFailed e))
    | None =>
        st ← act (h_strictFactory vmID port);
        match st with
        | Bad e => _ ← proxy_Close vmID; mret (Bad (StrictSetupFailed e))
        | Good None => mret (Good None)
        | Good (Some anchor) => _ ← ev (EvOpened (RStrict vmID)); mret (Good (Some anchor))
        end
    end
  else mret (Good None).

(** [Good None] is the nil manager without an error. *)
Definition newNetworkManager (vmID : string) (req : StartVMRequest)
    : M W (osres vm_error (option networkManager)) :=
  match buildNetworkPolicy (Network req) with
  | Bad e => mret (Bad (PolicyInvalid e))
  | Good policy =>
  match validateNetworkPolicy policy with
  | Some e => mret (Bad (PolicyInvalid e))
  | None =>
      rands ← act h_random;
      match buildSecrets (Secrets req) rands with
      | Bad e => mret (Bad (SecretsInvalid e))
      | Good (secrets, secretEnv) =>
          if negb (requiresProxy policy) && (length secrets =? 0)%nat then mret (Good None)
          else
            p ← newProxyServer vmID policy secrets;
            match p with
            | Bad e => mret (Bad (ProxyFailed e))
            | Good (port, ca) =>
                st ← start_strict vmID policy port;
                match st with
                | Bad e => mret (Bad e)
                | Good strict =>
                    mret (Good (Some {| nm_vmID := vmID; nm_policy := policy; nm_port := port;
                                        nm_env := proxy_env port ++ secretEnv;
                                        nm_caCertPath := default "" ca;
                                        nm_strictTransport := strict |}))
                end
            end
      end
  end
  end.

(** [networkManager.Close], on a manager that is not nil. *)
Definition manager_Close (m : networkManager) : M W (option string) := λ s,
  match closed_managers s !! nm_vmID m with
  | Some e => (e, s)
  | None =>
      (strictErr ← match nm_strictTransport m with
                   | Some anchor =>
                       _ ← ev (EvClosed (RStrict (nm_vmID m))); act (h_strictClose anchor)
                   | None => mret None
                   end;
       proxyErr ← proxy_Close (nm_vmID m);
       let closeErr := errors_Join strictErr proxyErr in
       _ ← set_closed (nm_vmID m) closeErr;
       mret closeErr) s
  end.

Definition network_Close (network : option networkManager) : M W (option string) :=
  match network with Some m => manager_Close m | None => mret None end.

Definition requiresStrictEgress (req : StartVMRequest) : bool :=
  match Network req with
  | None => false
  | Some network => np_EgressMode network =? EgressMode.STRICT
  end.

Definition backendModeFromEnv : M W backendMode :=
  v ← getenv "KLITKA_BACKEND";
  let raw := TrimSpace (ToLower v) in
  mret (if bool_decide (raw = "") then backendAuto
        else if bool_decide (raw = "host") then backendHost
        else if bool_decide (raw = "vm") then backendVM
        else backendAuto).

(** The factory calls of [newVM]: a backend that starts is held. *)
Definition start_backend (id : string) (f : W → osres backend_error () * W)
    : M W (osres backend_error ()) :=
  r ← act f;
  match r with
  | Good _ => _ ← ev (EvOpened (RBackend id)); mret (Good ())
  | Bad e => mret (Bad e)
  end.

(** An error return of [newVM]. *)
Definition abandon (network : option networkManager) (e : vm_error) : M W (osres vm_error VM) :=
  _ ← network_Close network; mret (Bad e).

(** The last part of [newVM]: the host backend. *)
Definition newVM_host (id : string) (req : StartVMRequest) (env : list string)
    (network : option networkManager) : M W (osres vm_error VM) :=
  b ← start_backend id (h_hostBackend id req env);
  match b with
  | Bad e => abandon network (BackendError e)
  | Good _ => mret (Good {| vm_ID := id; vm_Backend := HostKind; vm_Network := network |})
  end.

Definition newVM (id : string) (req : StartVMRequest) : M W (osres vm_error VM) :=
  n ← newNetworkManager id req;
  match n with
  | Bad e => mret (Bad e)
  | Good network =>
      let env := match network with Some m => nm_env m | None => [] end in
      let strictEgress := requiresStrictEgress req in
      mode ← backendModeFromEnv;
      if strictEgress && bool_decide (mode = backendHost) then abandon network (StrictNeedsVM None)
      else if bool_decide (mode = backendVM) || bool_decide (mode = backendAuto) then
        b ← start_backend id (h_vmBackend id req env network);
        match b with
        | Good _ => mret (Good {| vm_ID := id; vm_Backend := VMKind; vm_Network := network |})
        | Bad e =>
            if bool_decide (mode = backendVM) then abandon network (BackendError e)
            else
              match e with
              | BackendFailed _ => abandon network (BackendError e)
              | VMUnavailable _ =>
                  if strictEgress then abandon network (StrictNeedsVM (Some e))
                  else newVM_host id req env network
              end
        end
      else newVM_host id req env network
  end.

(** ** The handlers *)

(** The two critical sections. *)
Definition publish (vm : VM) : M W () := set_vms (<[vm_ID vm := vm]>).
Definition take_vm (vmID : string) : M W (option VM) := λ s,
  match vms s !! vmID with
  | None => (None, s)
  | Some vm => let '(_, s') := set_vms (delete vmID) s in (Some vm, s')
  end.
Definition getVM (vmID : string) : M W (option VM) := λ s, (vms s !! vmID, s).

(** [uuid.NewString]'s result is the first argument. *)
Definition StartVM (vmID : string) (req : StartVMRequest) : M W (osres rpc_error string) :=
  r ← newVM vmID req;
  match r with
  | Bad e => mret (Bad (InvalidArgument (Some e)))
  | Good vm => _ ← publish vm; mret (Good vmID)
  end.

Definition Exec (vmID command : string) (args : list string)
    : M W (osres rpc_error exec_response) :=
  if bool_decide (vmID = "") then mret (Bad (InvalidArgument None))
  else
    v ← getVM vmID;
    match v with
    | None => mret (Bad (NotFound vmID))
    | Some vm =>
        if bool_decide (command = "") then mret (Bad (InvalidArgument None))
        else act (h_backendExec (vm_ID vm) command args)
    end.

(** [first]: the first message received, [None] if it is not a start. *)
Definition ExecStream (first : osres rpc_error (option exec_start)) : M W (osres rpc_error ()) :=
  match first with
  | Bad e => mret (Bad e)
  | Good None => mret (Bad (InvalidArgument None))
  | Good (Some start) =>
      if bool_decide (st_VmId start = "") then mret (Bad (InvalidArgument None))
      else
        v ← getVM (st_VmId start);
        match v with
        | None => mret (Bad (NotFound (st_VmId start)))
        | Some vm =>
            if bool_decide (st_Command start = "") then mret (Bad (InvalidArgument None))
            else act (h_backendExecStream (vm_ID vm) start)
        end
  end.

(** The part of [StopVM] after the VM left the table. *)
Definition close_vm (vm : VM) : M W (option string) :=
  _ ← ev (EvClosed (RBackend (vm_ID vm)));
  closeErr ← act (h_backendClose (vm_ID vm));
  match vm_Network vm with
  | None => mret closeErr
  | Some m => e ← manager_Close m; mret (errors_Join closeErr e)
  end.

Definition StopVM (vmID : string) : M W (osres rpc_error ()) :=
  if bool_decide (vmID = "") then mret (Bad (InvalidArgument None))
  else
    v ← take_vm vmID;
    match v with
    | None => mret (Bad (NotFound vmID))
    | Some vm =>
        closeErr ← close_vm vm;
        mret (match closeErr with Some e => Bad (Internal e) | None => Good () end)
    end.
End code.
