(* ===== verification/VMServiceProps.v ===== *)
(** * What the service guarantees: nothing leaks, strict egress is kept

    Specifications of the sequential parts of the handlers, with respect to the
    trace of openings and closings: what each opens, closes and still holds on
    every branch.  [VMConcurrent] puts them together for concurrent calls. *)
From Stdlib Require Import Ascii.
From S2P Require Export SecretsProps VMService.

(** ** What a VM holds *)
Definition res_vm (r : resource) : string :=
  match r with RProxy v => v | RStrict v => v | RBackend v => v end.

Definition network_held (network : option networkManager) : list resource :=
  match network with
  | None => []
  | Some m => RProxy (nm_vmID m) :: match nm_strictTransport m with
                                    | Some _ => [RStrict (nm_vmID m)]
                                    | None => []
                                    end
  end.
Definition held (vm : VM) : list resource := network_held (vm_Network vm) ++ [RBackend (vm_ID vm)].

(** Everything that was opened was closed again. *)
Definition balanced (id : string) (evs : list vm_event) : Prop :=
  ∃ l l', evs = map EvOpened l ++ map EvClosed l' ∧ l' ≡ₚ l ∧ NoDup l ∧ ∀ r, r ∈ l → res_vm r = id.

Lemma NoDup_network_held n : NoDup (network_held n).
Proof.
  destruct n as [m|]; simpl; [|constructor]. destruct (nm_strictTransport m); simpl.
  - apply NoDup_cons. split; [by intros ?%list_elem_of_singleton|]. apply NoDup_singleton.
  - apply NoDup_singleton.
Qed.

Lemma NoDup_held vm : NoDup (held vm).
Proof.
  unfold held. apply NoDup_app. split; [apply NoDup_network_held|]. split.
  - intros r Hr ->%list_elem_of_singleton. destruct (vm_Network vm) as [m|]; simpl in Hr.
    + destruct (nm_strictTransport m); set_solver.
    + set_solver.
  - apply NoDup_singleton.
Qed.

Section props.
Context `{UT : UnicodeTables} `{VH : VMHost W}.
Implicit Types s : service W.

(** The network a VM has is the one its request asks for. *)
Definition network_ok (id : string) (req : StartVMRequest) (n : option networkManager) : Prop :=
  ∃ policy specs senv rands,
    buildNetworkPolicy (Network req) = Good policy ∧ validateNetworkPolicy policy = None
    ∧ buildSecrets (Secrets req) rands = Good (specs, senv)
    ∧ match n with
      | None => requiresProxy policy = false ∧ Secrets req = []
      | Some m => nm_vmID m = id ∧ nm_policy m = policy
                  ∧ nm_env m = proxy_env (nm_port m) ++ senv
      end.

Definition vm_ok (id : string) (req : StartVMRequest) (vm : VM) : Prop :=
  vm_ID vm = id ∧ network_ok id req (vm_Network vm)
  ∧ (requiresStrictEgress req = true → vm_Backend vm = VMKind).

(** ** Specifications

    From a state in which the manager [id] was not closed: what is added to the
    trace; the table stays; [Q] when the manager is still not closed, [Qc]
    when it may be. *)
Definition msp {A} (id : string) (m : M W A) (Q Qc : A → list vm_event → Prop) : Prop :=
  ∀ s, closed_managers s !! id = None →
  ∃ evs, trace (m s).2 = trace s ++ evs ∧ vms (m s).2 = vms s
    ∧ (∀ k, k ≠ id → closed_managers (m s).2 !! k = closed_managers s !! k)
    ∧ (closed_managers (m s).2 !! id = None ∧ Q (m s).1 evs ∨ Qc (m s).1 evs).

Lemma msp_ret {A} id (a : A) (Q Qc : A → list vm_event → Prop) :
  Q a [] → msp id (mret a) Q Qc.
Proof. intros H s Hs. exists []. rewrite app_nil_r. split_and!; try done. by left. Qed.

Lemma msp_bind {A B} id (m : M W A) (f : A → M W B) P (Q Qc : B → list vm_event → Prop) :
  msp id m P (λ _ _, False) →
  (∀ a e, P a e → msp id (f a) (λ b e', Q b (e ++ e')) (λ b e', Qc b (e ++ e'))) →
  msp id (m ≫= f) Q Qc.
Proof.
  intros Hm Hf s Hs. destruct (Hm s Hs) as (e1 & H1 & H2 & H3 & [[H4 H5]|[]]).
  unfold mbind, M_mbind. destruct (m s) as [a s1]. simpl in *.
  destruct (Hf a e1 H5 s1 H4) as (e2 & J1 & J2 & J3 & J4).
  exists (e1 ++ e2). rewrite J1, H1, app_assoc, J2, H2. split; [done|]. split; [done|].
  split; [|done]. intros k Hk. by rewrite J3, H3.
Qed.

Lemma msp_mono {A} id (m : M W A) (P Q Qc : A → list vm_event → Prop) :
  (∀ a e, P a e → Q a e) → msp id m P (λ _ _, False) → msp id m Q Qc.
Proof.
  intros HPQ Hm s Hs. destruct (Hm s Hs) as (evs & H1 & H2 & H3 & [[H4 H5]|[]]).
  exists evs. split_and!; try done. left. split; [done|by apply HPQ].
Qed.

Lemma msp_act {A} id (f : W → A * W) (Q Qc : A → list vm_event → Prop) :
  (∀ a, Q a []) → msp id (act f) Q Qc.
Proof.
  intros H s Hs. exists []. rewrite app_nil_r. unfold act. destruct (f (host s)).
  split_and!; try done. left. by split.
Qed.

Lemma msp_ev id e (Q Qc : () → list vm_event → Prop) : Q () [e] → msp id (ev e) Q Qc.
Proof. intros H s Hs. exists [e]. split_and!; try done. by left. Qed.

Abbreviation nothing := (λ _ _, False).

Lemma balanced_nil id : balanced id [].
Proof. exists [], []. split_and!; [done|done|constructor|]. by intros r Hr%not_elem_of_nil. Qed.

Lemma balanced_proxy id : balanced id [EvOpened (RProxy id); EvClosed (RProxy id)].
Proof.
  exists [RProxy id], [RProxy id]. split_and!; [done|done|apply NoDup_singleton|].
  by intros r ->%list_elem_of_singleton.
Qed.

Lemma msp_newProxyServer id policy secrets :
  msp id (newProxyServer id policy secrets)
    (λ r e, match r with Good _ => e = [EvOpened (RProxy id)] | Bad _ => balanced id e end) nothing.
Proof.
  unfold newProxyServer. eapply (msp_bind _ _ _ (λ _ e, e = [])); [by apply msp_act|].
  intros [port|e] ? ->; [|apply msp_ret, balanced_nil].
  eapply (msp_bind _ _ _ (λ _ e, e = [EvOpened (RProxy id)])); [by apply msp_ev|].
  intros _ ? ->. case_bool_decide; [by apply msp_ret|].
  eapply (msp_bind _ _ _ (λ _ e, e = [])); [by apply msp_act|].
  intros [path|e] ? ->; [by apply msp_ret|].
  eapply (msp_bind _ _ _ (λ _ e, e = [EvClosed (RProxy id)])); [by apply msp_ev|].
  intros _ ? ->. eapply (msp_bind _ _ _ (λ _ e, e = [])); [by apply msp_act|].
  intros ? ? ->. apply msp_ret, balanced_proxy.
Qed.

Lemma msp_proxy_Close id : msp id (proxy_Close id) (λ _ e, e = [EvClosed (RProxy id)]) nothing.
Proof.
  eapply (msp_bind _ _ _ (λ _ e, e = [EvClosed (RProxy id)])); [by apply msp_ev|].
  intros _ ? ->. by apply msp_act.
Qed.

Lemma msp_start_strict id policy port :
  msp id (start_strict id policy port)
    (λ r e, match r with
            | Good (Some _) => e = [EvOpened (RStrict id)]
            | Good None => e = []
            | Bad _ => e = [EvClosed (RProxy id)]
            end) nothing.
Proof.
  unfold start_strict. destruct (_ =? _); [|by apply msp_ret].
  eapply (msp_bind _ _ _ (λ _ e, e = [])); [by apply msp_act|]. intros [e|] ? ->.
  { eapply msp_bind; [apply msp_proxy_Close|]. intros ? ? ->. by apply msp_ret. }
  eapply (msp_bind _ _ _ (λ _ e, e = [])); [by apply msp_act|]. intros [[a|]|e] ? ->.
  - eapply (msp_bind _ _ _ (λ _ e, e = [EvOpened (RStrict id)])); [by apply msp_ev|].
    intros _ ? ->. by apply msp_ret.
  - by apply msp_ret.
  - eapply msp_bind; [apply msp_proxy_Close|]. intros ? ? ->. by apply msp_ret.
Qed.

Lemma buildSecrets_none secrets rands senv :
  buildSecrets secrets rands = Good ([], senv) → secrets = [].
Proof.
  intros H. apply buildSecrets_loop_spec in H as (H & _). by destruct secrets.
Qed.

Lemma msp_newNetworkManager id req :
  msp id (newNetworkManager id req)
    (λ r e, match r with
            | Good n => network_ok id req n ∧ e = map EvOpened (network_held n)
            | Bad _ => balanced id e
            end) nothing.
Proof.
  unfold newNetworkManager.
  destruct (buildNetworkPolicy _) as [policy|] eqn:Ep; [|apply msp_ret, balanced_nil].
  destruct (validateNetworkPolicy policy) eqn:Ev; [apply msp_ret, balanced_nil|].
  eapply (msp_bind _ _ _ (λ _ e, e = [])); [by apply msp_act|]. intros rands ? ->.
  destruct (buildSecrets _ rands) as [[specs senv]|] eqn:Es; [|apply msp_ret, balanced_nil].
  destruct (negb _ && _) eqn:Eneed.
  { apply andb_true_iff in Eneed as [Hr%negb_true_iff Hl%Nat.eqb_eq].
    apply msp_ret. split; [|done]. exists policy, specs, senv, rands. split_and!; try done.
    apply length_zero_iff_nil in Hl as ->. by eapply buildSecrets_none. }
  eapply msp_bind; [apply msp_newProxyServer|]. intros [[port ca]|e] e1 He1;
    [|apply msp_ret; by rewrite app_nil_r].
  simpl in He1. subst e1. eapply msp_bind; [apply msp_start_strict|].
  intros [st|e] e2 He2.
  - apply msp_ret. split.
    + by exists policy, specs, senv, rands.
    + destruct st; by subst e2.
  - subst e2. apply msp_ret, balanced_proxy.
Qed.

Lemma msp_abandon id n e :
  (∀ m, n = Some m → nm_vmID m = id) →
  let Q r evs := r = Bad e ∧ ∃ l', evs = map EvClosed l' ∧ l' ≡ₚ network_held n in
  msp id (abandon n e) Q Q.
Proof.
  intros Hn Q s Hs. unfold Q. destruct n as [m|]; simpl.
  2: { exists []. rewrite app_nil_r. split_and!; try done. left. split; [done|].
       split; [done|]. by exists []. }
  specialize (Hn m eq_refl). unfold abandon, network_Close, manager_Close.
  unfold proxy_Close, act, ev, set_closed, mbind, M_mbind, mret, M_mret.
  rewrite Hn, Hs. destruct (nm_strictTransport m) as [a|]; simpl.
  - destruct (h_strictClose a _) as [e1 w1]. simpl. destruct (h_listen_close _) as [e2 w2]. simpl.
    exists [EvClosed (RStrict id); EvClosed (RProxy id)]. rewrite <-app_assoc.
    split_and!; try done; [by intros k Hk; rewrite lookup_insert_ne|]. right. split; [done|].
    exists [RStrict id; RProxy id]. split; [done|]. constructor.
  - destruct (h_listen_close _) as [e2 w2]. simpl.
    exists [EvClosed (RProxy id)].
    split_and!; try done; [by intros k Hk; rewrite lookup_insert_ne|]. right. split; [done|].
    by exists [RProxy id].
Qed.

Lemma network_ok_id id req n : network_ok id req n → ∀ m, n = Some m → nm_vmID m = id.
Proof. intros (? & ? & ? & ? & _ & _ & _ & H) m ->. by destruct H as (? & _). Qed.

Lemma res_vm_held n id : (∀ m, n = Some m → nm_vmID m = id) →
  ∀ r, r ∈ network_held n → res_vm r = id.
Proof.
  intros Hn r Hr. destruct n as [m|]; [|by apply not_elem_of_nil in Hr]. simpl in Hr.
  destruct (nm_strictTransport m); repeat apply elem_of_cons in Hr as [->|Hr];
    simpl; auto; by apply not_elem_of_nil in Hr.
Qed.

Lemma balanced_network n id l' :
  (∀ m, n = Some m → nm_vmID m = id) → l' ≡ₚ network_held n →
  balanced id (map EvOpened (network_held n) ++ map EvClosed l').
Proof.
  intros Hn Hl. exists (network_held n), l'. split_and!; [done|done|apply NoDup_network_held|].
  by apply res_vm_held.
Qed.

(** How [newVM] ends: with a VM that holds what was opened, or with nothing. *)
Definition newVM_post id req (r : osres vm_error VM) (e : list vm_event) : Prop :=
  match r with
  | Good vm => vm_ok id req vm ∧ e = map EvOpened (held vm)
  | Bad _ => balanced id e
  end.
Definition newVM_post_closed id (r : osres vm_error VM) (e : list vm_event) : Prop :=
  match r with Good _ => False | Bad _ => balanced id e end.

Lemma msp_weaken {A} id (m : M W A) (P Pc Q Qc : A → list vm_event → Prop) :
  (∀ a e, P a e → Q a e) → (∀ a e, Pc a e → Qc a e) → msp id m P Pc → msp id m Q Qc.
Proof.
  intros HP HPc Hm s Hs. destruct (Hm s Hs) as (evs & H1 & H2 & H3 & H4).
  exists evs. split_and!; try done. naive_solver.
Qed.

Lemma msp_abandon_opened id req n e : network_ok id req n →
  msp id (abandon n e) (λ r e', newVM_post id req r (map EvOpened (network_held n) ++ e'))
                       (λ r e', newVM_post_closed id r (map EvOpened (network_held n) ++ e')).
Proof.
  intros Hn. eapply msp_weaken; [| |by apply msp_abandon; eapply network_ok_id];
    intros r e' [-> (l' & -> & Hl)]; simpl; by eapply balanced_network, Hl; eapply network_ok_id.
Qed.

Lemma msp_start_backend id (f : W → osres backend_error () * W) :
  msp id (start_backend id f)
    (λ r e, match r with Good _ => e = [EvOpened (RBackend id)] | Bad _ => e = [] end) nothing.
Proof.
  unfold start_backend. eapply (msp_bind _ _ _ (λ _ e, e = [])); [by apply msp_act|].
  intros [u|e] ? ->; [|by apply msp_ret].
  eapply (msp_bind _ _ _ (λ _ e, e = [EvOpened (RBackend id)])); [by apply msp_ev|].
  intros _ ? ->. by apply msp_ret.
Qed.

Lemma held_built id kind n :
  held {| vm_ID := id; vm_Backend := kind; vm_Network := n |} = network_held n ++ [RBackend id].
Proof. done. Qed.

Lemma msp_newVM_host id req env n :
  network_ok id req n → requiresStrictEgress req = false →
  msp id (newVM_host id req env n)
    (λ r e', newVM_post id req r (map EvOpened (network_held n) ++ e'))
    (λ r e', newVM_post_closed id r (map EvOpened (network_held n) ++ e')).
Proof.
  intros Hn Hr. unfold newVM_host. eapply msp_bind; [apply msp_start_backend|].
  intros [u|e] e1 ->.
  - apply msp_ret. simpl. split; [split; [done|split; [done|congruence]]|].
    by rewrite held_built, map_app.
  - simpl. by apply msp_abandon_opened.
Qed.

Lemma msp_newVM id req :
  msp id (newVM id req) (newVM_post id req) (newVM_post_closed id).
Proof.
  unfold newVM. eapply msp_bind; [apply msp_newNetworkManager|].
  intros [n|e] e1 He1; [|apply msp_ret; simpl; by rewrite app_nil_r].
  destruct He1 as [Hn ->]. cbv zeta.
  eapply (msp_bind _ _ _ (λ _ e, e = [])).
  { intros s Hs. exists []. rewrite app_nil_r. split_and!; try done. by left. }
  intros mode ? ->. simpl.
  case_match eqn:Ehost; [by apply msp_abandon_opened|].
  destruct (_ || _) eqn:Emode.
  2: { apply msp_newVM_host; [done|]. destruct mode; try done.
       by rewrite bool_decide_true, andb_true_r in Ehost. }
  eapply msp_bind; [apply msp_start_backend|]. intros [u|e] e1 ->.
  { apply msp_ret. simpl. split; [by split|]. by rewrite held_built, map_app. }
  simpl. case_bool_decide; [by apply msp_abandon_opened|].
  destruct e; [|by apply msp_abandon_opened].
  destruct (requiresStrictEgress req) eqn:Es; [by apply msp_abandon_opened|].
  by apply msp_newVM_host.
Qed.
End props.

(** ** Operations that leave a resource of every VM alone

    [agree] relates the host to the trace; [res] is the resource it is about. *)
Section neutral.
Context {W : Type} (agree : service W → Prop) (res : string → resource).

Definition neutral {A} (m : M W A) : Prop :=
  ∀ s, agree s → agree (m s).2
    ∧ ∀ id, res id ∈ live_of (trace (m s).2) ↔ res id ∈ live_of (trace s).

Lemma neutral_ret {A} (a : A) : neutral (mret a).
Proof. done. Qed.
Lemma neutral_bind {A B} (m : M W A) (f : A → M W B) :
  neutral m → (∀ a, neutral (f a)) → neutral (m ≫= f).
Proof.
  intros Hm Hf s Hs. unfold mbind, M_mbind. destruct (Hm s Hs) as [H1 H2].
  destruct (m s) as [a s1]. cbn [snd] in *. destruct (Hf a s1 H1) as [H3 H4].
  split; [done|]. intros id. by rewrite H4.
Qed.
End neutral.
