(* ===== verification/VMConcurrent.v ===== *)
(** * Concurrent calls of the service

    Calls of [StartVM] and [StopVM] run in goroutines of their own; a step is
    one of their critical sections or what lies between two of them (in
    [ServiceCalls] each call to the machine is a step).  Whatever
    the interleaving, nothing leaks and nothing is closed twice. *)
From Stdlib Require Import Ascii.
From S2P Require Export VMServiceProps.

Inductive thread :=
| TStart (vmID : string) (req : StartVMRequest)  (* a StartVM call; the uuid it will draw *)
| TPublish (vm : VM)                             (* ... that has its VM and no lock yet *)
| TStop (vmID : string)                          (* a StopVM call *)
| TClose (vm : VM)                               (* ... that took the VM from the table *)
| TDone.

Definition in_flight (t : thread) : option VM :=
  match t with TPublish vm | TClose vm => Some vm | _ => None end.
Definition drawn (t : thread) : option string :=
  match t with TStart id _ => Some id | _ => None end.

Section conc.
Context `{UT : UnicodeTables} `{VH : VMHost W}.
Implicit Types s : service W.

Definition config : Type := service W * list thread.

Inductive sstep : config → config → Prop :=
| step_start s ts1 ts2 id req :
    sstep (s, ts1 ++ TStart id req :: ts2)
          ((newVM id req s).2,
           ts1 ++ match (newVM id req s).1 with Good vm => TPublish vm | Bad _ => TDone end :: ts2)
| step_publish s ts1 ts2 vm :
    sstep (s, ts1 ++ TPublish vm :: ts2) ((publish vm s).2, ts1 ++ TDone :: ts2)
| step_stop_empty s ts1 ts2 :
    sstep (s, ts1 ++ TStop "" :: ts2) (s, ts1 ++ TDone :: ts2)
| step_take s ts1 ts2 id : id ≠ "" →
    sstep (s, ts1 ++ TStop id :: ts2)
          ((take_vm id s).2,
           ts1 ++ match (take_vm id s).1 with Some vm => TClose vm | None => TDone end :: ts2)
| step_close s ts1 ts2 vm :
    sstep (s, ts1 ++ TClose vm :: ts2) ((close_vm vm s).2, ts1 ++ TDone :: ts2).

(** The handlers are these steps one after the other. *)
Lemma StartVM_steps id req s :
  star sstep (s, [TStart id req]) ((StartVM id req s).2, [TDone]).
Proof.
  unfold StartVM, mbind at 1, M_mbind at 1.
  eapply star_step; [apply (step_start s [] [])|]. cbn [app].
  destruct (newVM id req s) as [[vm|e] s1]; [|apply star_refl].
  apply star_one. apply (step_publish s1 [] []).
Qed.

Lemma StopVM_steps id s : star sstep (s, [TStop id]) ((StopVM id s).2, [TDone]).
Proof.
  unfold StopVM. case_bool_decide as Hid.
  { subst id. apply star_one. apply (step_stop_empty s [] []). }
  unfold mbind at 1, M_mbind at 1. eapply star_step; [by apply (step_take s [] [])|]. cbn [app].
  destruct (take_vm id s) as [[vm|] s1]; [|apply star_refl]. cbn [fst snd].
  apply star_one. unfold mbind, M_mbind.
  replace ((let '(a, s') := close_vm vm s1 in _).2) with (close_vm vm s1).2
    by (by destruct (close_vm vm s1)).
  apply (step_close s1 [] []).
Qed.

(** ** The invariant

    [calls] are the calls made. *)
Variable calls : list thread.

Definition asked (vm : VM) : Prop :=
  ∃ req, TStart (vm_ID vm) req ∈ calls ∧ vm_ok (vm_ID vm) req vm.

Definition owners s (ts : list thread) : list VM :=
  (map_to_list (vms s)).*2 ++ omap in_flight ts.
Definition holdings (O : list VM) : gset resource := list_to_set (O ≫= held).

(** The VMs [O] and the uuids [S] still to be used account for everything. *)
Record inv_at s (O : list VM) (S : list string) : Prop := {
  inv_ids : NoDup (map vm_ID O ++ S);
  inv_open : ∀ id, id ∈ map vm_ID O ++ S → closed_managers s !! id = None;
  inv_ok : Forall asked O;
  inv_clean : clean (trace s);
  inv_live : live_of (trace s) = holdings O
}.

Definition inv (c : config) : Prop :=
  map_Forall (λ id vm, vm_ID vm = id) (vms c.1)
  ∧ (∀ id req, TStart id req ∈ c.2 → TStart id req ∈ calls)
  ∧ inv_at c.1 (owners c.1 c.2) (omap drawn c.2).

Lemma inv_at_perm s O O' S S' : O ≡ₚ O' → S ≡ₚ S' → inv_at s O S → inv_at s O' S'.
Proof.
  intros HO HS [H1 H2 H3 H4 H5]. split; [by rewrite <-HO, <-HS| |by rewrite <-HO|done|].
  - intros id Hid. apply H2. by rewrite HO, HS.
  - rewrite H5. unfold holdings. by rewrite HO.
Qed.

Lemma inv_at_same s s' O S :
  closed_managers s' = closed_managers s → trace s' = trace s → inv_at s O S → inv_at s' O S.
Proof. intros Hc Ht [H1 H2 H3 H4 H5]. split; rewrite ?Hc, ?Ht; done. Qed.

Lemma res_vm_held_vm vm req r : vm_ok (vm_ID vm) req vm → r ∈ held vm → res_vm r = vm_ID vm.
Proof.
  intros (_ & Hn & _) [Hr|Hr]%elem_of_app.
  - eapply res_vm_held; [|exact Hr]. by eapply network_ok_id.
  - by apply list_elem_of_singleton in Hr as ->.
Qed.

Lemma holdings_ids O r :
  Forall asked O → r ∈ holdings O → res_vm r ∈ map vm_ID O.
Proof.
  unfold holdings. rewrite elem_of_list_to_set, list_elem_of_bind.
  intros Hok (vm & Hr & Hvm). rewrite Forall_forall in Hok. destruct (Hok _ Hvm) as (req & _ & Hv).
  rewrite (res_vm_held_vm _ _ _ Hv Hr). by apply list_elem_of_fmap_2.
Qed.

Lemma holdings_cons vm O : holdings (vm :: O) = list_to_set (held vm) ∪ holdings O.
Proof. unfold holdings. simpl. by rewrite list_to_set_app_L. Qed.

Lemma balanced_trace tr id evs :
  clean tr → (∀ r, r ∈ live_of tr → res_vm r ≠ id) → balanced id evs →
  clean (tr ++ evs) ∧ live_of (tr ++ evs) = live_of tr.
Proof.
  intros Hc Hid (l & l' & -> & Hp & Hn & Hl). apply balanced_clean; try done.
  intros r Hr Hin. apply (Hid r Hin); auto.
Qed.

(** ** Steps keep it *)
Lemma inv_at_newVM id req s O S :
  TStart id req ∈ calls → inv_at s O (id :: S) →
  vms (newVM id req s).2 = vms s
  ∧ match (newVM id req s).1 with
    | Good vm => vm_ID vm = id ∧ inv_at (newVM id req s).2 (vm :: O) S
    | Bad _ => inv_at (newVM id req s).2 O S
    end.
Proof.
  intros Hcall [H1 H2 H3 H4 H5]. destruct (msp_newVM id req s) as (evs & Ht & Hv & Hc & Hpost).
  { apply H2. set_solver. }
  split; [done|].
  assert (Hid : id ∉ map vm_ID O ++ S).
  { rewrite Permutation_app_comm in H1. simpl in H1. apply NoDup_cons in H1 as [H1 _].
    by rewrite Permutation_app_comm. }
  assert (Hnd : NoDup (map vm_ID O ++ S)).
  { rewrite <-Permutation_middle in H1. by apply NoDup_cons in H1 as [_ H1]. }
  assert (Hlive : ∀ r, r ∈ live_of (trace s) → res_vm r ≠ id).
  { intros r Hr <-. rewrite H5 in Hr. apply holdings_ids in Hr; [|done]. set_solver. }
  assert (Hopen : ∀ k, k ∈ map vm_ID O ++ S → closed_managers (newVM id req s).2 !! k = None).
  { intros k Hk. rewrite Hc by (by intros ->). apply H2. set_solver. }
  destruct (newVM id req s) as [[vm|e] s']; simpl in *.
  - destruct Hpost as [[Hcl [Hok ->]]|[]]. pose proof Hok as (Hvid & _). split; [done|].
    assert (Hfresh : ∀ r, r ∈ held vm → r ∉ live_of (trace s)).
    { intros r Hr Hin. apply (Hlive r Hin). rewrite <-Hvid in Hok |- *.
      by eapply res_vm_held_vm. }
    split; simpl.
    + rewrite Hvid. by apply NoDup_cons.
    + intros k. rewrite Hvid. intros [->|Hk]%elem_of_cons; [done|by apply Hopen].
    + constructor; [|done]. exists req. by rewrite Hvid.
    + rewrite Ht. apply clean_open; [done|apply NoDup_held|done].
    + rewrite Ht, live_open, H5, holdings_cons. set_solver.
  - assert (Hb : balanced id evs) by (destruct Hpost as [[_ Hb]|Hb]; exact Hb).
    destruct (balanced_trace _ _ _ H4 Hlive Hb) as [Hc' Hl'].
    split; [done|done|done|by rewrite Ht|by rewrite Ht, Hl'].
Qed.

Lemma close_vm_spec vm req s :
  vm_ok (vm_ID vm) req vm → closed_managers s !! vm_ID vm = None →
  ∃ l, trace (close_vm vm s).2 = trace s ++ map EvClosed l ∧ l ≡ₚ held vm
    ∧ vms (close_vm vm s).2 = vms s
    ∧ ∀ k, k ≠ vm_ID vm → closed_managers (close_vm vm s).2 !! k = closed_managers s !! k.
Proof.
  intros (_ & Hn & _) Hs. unfold close_vm, held, act, ev, mbind, M_mbind.
  cbn [host vms closed_managers trace]. destruct (h_backendClose _ _) as [e1 w1].
  destruct (vm_Network vm) as [m|] eqn:Em.
  2: { exists [RBackend (vm_ID vm)]. by split_and!. }
  assert (Hid : nm_vmID m = vm_ID vm) by (eapply network_ok_id; [exact Hn|done]).
  set (s1 := {| vms := _; closed_managers := _; host := w1; trace := _ |}).
  destruct (msp_abandon (W := W) (vm_ID vm) (Some m) (StrictNeedsVM None)
              ltac:(by intros ? [= <-]) s1 Hs) as (evs & H1 & H2 & H3 & H4).
  assert (H5 : ∃ l', evs = map EvClosed l' ∧ l' ≡ₚ network_held (Some m))
    by (destruct H4 as [[_ [_ H4]]|[_ H4]]; exact H4).
  destruct H5 as (l' & -> & Hl'). clear H4.
  unfold abandon, network_Close, mbind, M_mbind in H1, H2, H3.
  destruct (manager_Close m s1) as [e2 s2]. cbn [fst snd mret M_mret] in *.
  exists (RBackend (vm_ID vm) :: l'). split_and!; [|by rewrite Hl', Permutation_cons_append|done|done].
  rewrite H1. unfold s1. cbn [trace]. by rewrite <-app_assoc.
Qed.

Lemma inv_at_close vm s O S :
  inv_at s (vm :: O) S → inv_at (close_vm vm s).2 O S ∧ vms (close_vm vm s).2 = vms s.
Proof.
  intros [H1 H2 H3 H4 H5]. simpl in H1. apply NoDup_cons in H1 as [H1 H1'].
  inversion_clear H3 as [|?? (req & _ & Hok) H3'].
  destruct (close_vm_spec vm req s Hok) as (l & Ht & Hl & Hv & Hc); [apply H2; by left|].
  split; [|done].
  assert (Hdisj : ∀ r, r ∈ held vm → r ∉ holdings O).
  { intros r Hr Hin. apply holdings_ids in Hin; [|done].
    rewrite (res_vm_held_vm _ _ _ Hok Hr) in Hin. apply H1. apply elem_of_app. by left. }
  rewrite holdings_cons in H5. split; [done| |done| |].
  - intros k Hk. rewrite Hc by (by intros ->). apply H2. by right.
  - rewrite Ht. apply clean_close; [done|by rewrite Hl; apply NoDup_held|].
    intros r Hr. rewrite Hl in Hr. rewrite H5. set_solver.
  - rewrite Ht, live_close, H5.
    assert (list_to_set l = (list_to_set (held vm) : gset resource)) as -> by (by rewrite Hl).
    apply set_eq. intros r. specialize (Hdisj r).
    rewrite elem_of_difference, elem_of_union, elem_of_list_to_set. tauto.
Qed.

Lemma owners_mid s ts1 t ts2 :
  owners s (ts1 ++ t :: ts2)
  ≡ₚ match in_flight t with Some vm => [vm] | None => [] end ++ owners s (ts1 ++ ts2).
Proof.
  unfold owners. rewrite !omap_app. simpl. destruct (in_flight t); simpl; [|done].
  by rewrite app_assoc, <-Permutation_middle, <-app_assoc.
Qed.

Lemma drawn_mid ts1 t ts2 :
  omap drawn (ts1 ++ t :: ts2)
  ≡ₚ match drawn t with Some id => [id] | None => [] end ++ omap drawn (ts1 ++ ts2).
Proof. rewrite !omap_app. simpl. by destruct (drawn t); simpl; rewrite <-?Permutation_middle. Qed.

Lemma owners_insert s s' vm ts :
  vms s' = <[vm_ID vm := vm]> (vms s) → vms s !! vm_ID vm = None →
  owners s' ts ≡ₚ vm :: owners s ts.
Proof. intros Hv Hn. unfold owners. rewrite Hv, map_to_list_insert by done. done. Qed.

Lemma owners_delete s s' vm ts :
  vms s' = delete (vm_ID vm) (vms s) → vms s !! vm_ID vm = Some vm →
  owners s ts ≡ₚ vm :: owners s' ts.
Proof. intros Hv Hs. unfold owners. by rewrite Hv, <-(map_to_list_delete _ _ _ Hs). Qed.

Lemma owners_same s s' ts : vms s' = vms s → owners s' ts = owners s ts.
Proof. unfold owners. by intros ->. Qed.

(** The table's VM is one of the owners. *)
Lemma table_owner s ts id vm : vms s !! id = Some vm → vm ∈ owners s ts.
Proof.
  intros H. unfold owners. apply elem_of_app. left.
  apply (list_elem_of_fmap_2 snd _ (id, vm)). by apply elem_of_map_to_list.
Qed.

Lemma inv_at_mid s ts1 t ts2 :
  inv_at s (match in_flight t with Some vm => [vm] | None => [] end ++ owners s (ts1 ++ ts2))
           (match drawn t with Some id => [id] | None => [] end ++ omap drawn (ts1 ++ ts2)) →
  inv_at s (owners s (ts1 ++ t :: ts2)) (omap drawn (ts1 ++ t :: ts2)).
Proof. apply inv_at_perm; symmetry; [apply owners_mid|apply drawn_mid]. Qed.

Lemma starts_mid ts1 t t' ts2 :
  (∀ id req, TStart id req ∈ ts1 ++ t :: ts2 → TStart id req ∈ calls) → drawn t' = None →
  ∀ id req, TStart id req ∈ ts1 ++ t' :: ts2 → TStart id req ∈ calls.
Proof.
  intros H Ht id req Hin. apply H. rewrite elem_of_app, elem_of_cons in *.
  destruct Hin as [?|[<-|?]]; [by left|done|by right; right].
Qed.

Lemma sstep_inv c c' : inv c → sstep c c' → inv c'.
Proof.
  intros (Hk & Hts & Hi) Hstep.
  destruct Hstep as [s ts1 ts2 id req|s ts1 ts2 vm|s ts1 ts2|s ts1 ts2 id Hne|s ts1 ts2 vm];
    unfold inv; cbn [fst snd] in *;
    (eapply inv_at_perm in Hi; [|apply owners_mid|apply drawn_mid]); cbn [in_flight drawn app] in Hi.
  - destruct (inv_at_newVM id req _ _ _ ltac:(apply Hts; set_solver) Hi) as [Hv Hpost].
    rewrite Hv. split; [done|].
    destruct (newVM id req s) as [[vm|e] s']; cbn [fst snd] in *;
      (split; [by eapply starts_mid|]); apply inv_at_mid; cbn [in_flight drawn app];
      rewrite (owners_same s s') by done; by destruct_and?.
  - assert (Hn : vms s !! vm_ID vm = None).
    { destruct (vms s !! vm_ID vm) as [vm'|] eqn:E; [|done]. exfalso.
      destruct Hi as [Hnd _ _ _ _]. simpl in Hnd. apply NoDup_cons in Hnd as [Hnd _]. apply Hnd.
      apply elem_of_app. left. rewrite <-(Hk _ _ E). apply list_elem_of_fmap_2.
      by eapply table_owner. }
    split; [by apply map_Forall_insert_2|]. split; [by eapply starts_mid|].
    apply inv_at_mid. cbn [in_flight drawn app].
    eapply inv_at_perm; [symmetry; by apply owners_insert|done|by eapply inv_at_same, Hi].
  - split; [done|]. split; [by eapply starts_mid|]. by apply inv_at_mid.
  - unfold take_vm. destruct (vms s !! id) as [vm|] eqn:E; cbn [fst snd].
    + pose proof (Hk _ _ E) as Hid. cbn in Hid. subst id.
      split; [by apply map_Forall_delete|]. split; [by eapply starts_mid|].
      apply inv_at_mid. cbn [in_flight drawn app].
      eapply inv_at_perm; [|done|by eapply inv_at_same, Hi]. by apply owners_delete.
    + split; [done|]. split; [by eapply starts_mid|]. by apply inv_at_mid.
  - destruct (inv_at_close _ _ _ _ Hi) as [Hi' Hv]. rewrite Hv. split; [done|].
    split; [by eapply starts_mid|]. apply inv_at_mid. cbn [in_flight drawn app].
    by rewrite (owners_same s _).
Qed.

Definition NewService (w : W) : service W :=
  {| vms := ∅; closed_managers := ∅; host := w; trace := [] |}.

Definition is_call (t : thread) : Prop :=
  match t with TStart _ _ | TStop _ => True | _ => False end.

Lemma owners_start w ts : Forall is_call ts → owners (NewService w) ts = [].
Proof.
  intros Hc. unfold owners. cbn [NewService vms]. rewrite map_to_list_empty. simpl.
  induction Hc as [|t ts' Ht _ IH]; [done|]. by destruct t.
Qed.

Lemma inv_start w : Forall is_call calls → NoDup (omap drawn calls) → inv (NewService w, calls).
Proof.
  intros Hc Hn. split; [apply map_Forall_empty|]. split; [done|].
  cbn [fst snd]. rewrite owners_start by done. split; simpl; [done|intros; by rewrite lookup_empty|constructor|apply clean_nil|done].
Qed.

(** calls of StartVM and StopVM, however they interleave, leak nothing:
    at any time what is open (proxies, strict transports, backends) is what
    the VMs of the table and of the calls in progress hold, nothing is opened
    twice, and nothing is closed that is not open.  (uuids are distinct.) *)
Theorem service_no_leaks w s ts :
  Forall is_call calls → NoDup (omap drawn calls) →
  star sstep (NewService w, calls) (s, ts) →
  clean (trace s) ∧ live_of (trace s) = holdings (owners s ts)
  ∧ NoDup (map vm_ID (owners s ts)).
Proof.
  intros Hc Hn Hr.
  destruct (star_invariant sstep inv sstep_inv _ _ Hr (inv_start w Hc Hn)) as (_ & _ & Hi).
  destruct Hi as [H1 H2 H3 H4 H5]. by apply NoDup_app in H1 as [H1 _].
Qed.

(** A request for strict egress gets the VM backend behind a strict proxy. *)
Lemma vm_ok_strict id req vm :
  vm_ok id req vm → requiresStrictEgress req = true →
  vm_Backend vm = VMKind ∧ ∃ m, vm_Network vm = Some m ∧ egressMode (nm_policy m) = EgressMode.STRICT.
Proof.
  intros (_ & Hnet & Hstrict) Hs. split; [by apply Hstrict|].
  destruct Hnet as (policy & specs & senv & rands & Hp & _ & _ & Hm).
  assert (He : egressMode policy = EgressMode.STRICT).
  { unfold requiresStrictEgress in Hs. unfold buildNetworkPolicy in Hp.
    destruct (Network req) as [cfg|]; [|done]. apply Z.eqb_eq in Hs.
    destruct (normalizeDNSServers _); [|done]. injection Hp as <-. cbn. by rewrite Hs. }
  destruct (vm_Network vm) as [m|].
  - exists m. split; [done|]. by destruct Hm as (_ & -> & _).
  - destruct Hm as [Hr' _]. unfold requiresProxy in Hr'.
    rewrite He in Hr'. rewrite !orb_false_iff in Hr'. by destruct Hr' as [[[_ Hf] _] _].
Qed.

(** however the calls interleave, each VM of the table and of the calls in
    progress comes from a StartVM call under its uuid, has the network that
    call's request asks for, and, if the request asks for strict egress, runs
    on the VM backend behind a proxy whose policy is strict: strict egress is
    never served by the host backend. *)
Theorem strict_egress_kept w s ts :
  Forall is_call calls → NoDup (omap drawn calls) →
  star sstep (NewService w, calls) (s, ts) →
  Forall (λ vm, ∃ req, TStart (vm_ID vm) req ∈ calls
            ∧ network_ok (vm_ID vm) req (vm_Network vm)
            ∧ (requiresStrictEgress req = true →
               vm_Backend vm = VMKind
               ∧ ∃ m, vm_Network vm = Some m ∧ egressMode (nm_policy m) = EgressMode.STRICT))
         (owners s ts).
Proof.
  intros Hc Hn Hr.
  destruct (star_invariant sstep inv sstep_inv _ _ Hr (inv_start w Hc Hn)) as (_ & _ & [_ _ Hok _ _]).
  eapply Forall_impl; [exact Hok|]. intros vm (req & Hin & Hvm). exists req.
  split; [done|]. split; [apply Hvm|]. by eapply vm_ok_strict.
Qed.
End conc.
