(* ===== verification/Goroutines.v ===== *)
(** * Goroutines over shared state

    A call as the sequence of its actions on a state it shares with others, runs
    that interleave the actions of several calls and of the rest of the world, and
    a rule for the invariants of such runs ([keeps_run]). *)
From S2P Require Export Prelude.
From stdpp Require Import relations.

(** [Act f k]: one indivisible action; [k] goes on with the state it found. *)
Inductive acts (St A : Type) :=
| Finished (a : A)
| Act (f : St → St) (k : St → acts St A).
Arguments Finished {St A}. Arguments Act {St A}.

#[export] Instance acts_mret {St} : MRet (acts St) := λ A a, Finished a.
#[export] Instance acts_mbind {St} : MBind (acts St) := λ A B g,
  fix bind m := match m with Finished a => g a | Act f k => Act f (λ s, bind (k s)) end.

(** A state-passing function as one action. *)
Definition atomic {St A} (m : St → A * St) : acts St A := Act (λ s, (m s).2) (λ s, Finished (m s).1).

Fixpoint run_alone {St A} (m : acts St A) (s : St) : A * St :=
  match m with Finished a => (a, s) | Act f k => run_alone (k s) (f s) end.

Definition finished {St A} (m : acts St A) : option A :=
  match m with Finished a => Some a | Act _ _ => None end.

Section runs.
Context {St A : Type}.
Implicit Types (ts : list (acts St A)) (s : St).

Lemma run_alone_bind {B} (m : acts St B) (g : B → acts St A) s :
  run_alone (m ≫= g) s = run_alone (g (run_alone m s).1) (run_alone m s).2.
Proof. revert s. induction m as [b|f k IH]; intros s; [done|]. exact (IH s (f s)). Qed.
Lemma run_alone_atomic (m : St → A * St) s : run_alone (atomic m) s = m s.
Proof. cbn. by destruct (m s). Qed.

(** ** Runs *)
Inductive gstep (env : St → St → Prop) : list (acts St A) * St → list (acts St A) * St → Prop :=
| step_act ts s i f k :
    ts !! i = Some (Act f k) → gstep env (ts, s) (<[i := k s]> ts, f s)
| step_env ts s s' : env s s' → gstep env (ts, s) (ts, s').

(** A schedule: whose turn it is. *)
Definition turn (i : nat) (c : list (acts St A) * St) : list (acts St A) * St :=
  match c.1 !! i with
  | Some (Act f k) => (<[i := k c.2]> c.1, f c.2)
  | _ => c
  end.
Definition turns (js : list nat) (c : list (acts St A) * St) : list (acts St A) * St :=
  foldl (λ c i, turn i c) c js.

Lemma turns_run env js c : rtc (gstep env) c (turns js c).
Proof.
  revert c. induction js as [|i js IH]; intros [ts s]; [done|]. cbn [turns foldl].
  unfold turn at 2. cbn [fst snd]. destruct (ts !! i) as [[a|f k]|] eqn:E; try apply IH.
  eapply rtc_l; [by apply step_act|apply IH].
Qed.

(** ** Invariants

    [keeps I Q m]: wherever [I] holds of the state before each action it holds
    after it, and the result is in [Q]. *)
Fixpoint keeps {B} (I : St → Prop) (Q : B → Prop) (m : acts St B) : Prop :=
  match m with Finished a => Q a | Act f k => ∀ s, I s → I (f s) ∧ keeps I Q (k s) end.

Lemma keeps_mono {B} (I : St → Prop) (Q R : B → Prop) (m : acts St B) :
  (∀ a, Q a → R a) → keeps I Q m → keeps I R m.
Proof.
  intros HQ. induction m as [a|f k IH]; [apply HQ|]. intros H s Hs. destruct (H s Hs). auto.
Qed.
Lemma keeps_bind {B} (I : St → Prop) (P : B → Prop) (Q : A → Prop) (m : acts St B) (g : B → acts St A) :
  keeps I P m → (∀ b, P b → keeps I Q (g b)) → keeps I Q (m ≫= g).
Proof.
  intros Hm Hg. induction m as [b|f k IH]; [by apply Hg|].
  intros s Hs. destruct (Hm s Hs) as [H1 H2]. split; [done|]. by apply IH.
Qed.
Lemma keeps_atomic {B} (I : St → Prop) (Q : B → Prop) (m : St → B * St) :
  (∀ s, I s → I (m s).2 ∧ Q (m s).1) → keeps I Q (atomic m).
Proof. intros H s Hs. exact (H s Hs). Qed.

(** In a run of calls that keep [I], among steps of others that keep it, it
    holds; and each call that returns returns what its [Q] says. *)
Lemma keeps_run env (I : St → Prop) (Qs : list (A → Prop)) ts s ts' s' :
  (∀ s1 s2, env s1 s2 → I s1 → I s2) → I s → Forall2 (keeps I) Qs ts →
  rtc (gstep env) (ts, s) (ts', s') →
  I s' ∧ Forall2 (keeps I) Qs ts'.
Proof.
  intros Henv. remember (ts, s) as c eqn:Ec. remember (ts', s') as c' eqn:Ec'. intros Hs Hts H.
  revert ts s Hs Hts Ec. induction H as [c|c c1 c2 Hstep _ IH]; intros ts s Hs Hts ->.
  { by injection Ec' as <- <-. }
  inversion Hstep as [ts0 s0 i f k Hi|ts0 s0 s1 He]; subst.
  - destruct (Forall2_lookup_r _ _ _ _ _ Hts Hi) as (Q & HQ & Hk).
    destruct (Hk s Hs) as [H1 H2]. eapply (IH eq_refl); [exact H1| |done].
    rewrite <-(list_insert_id Qs i Q HQ). by apply Forall2_insert.
  - eapply (IH eq_refl); [by eapply Henv|exact Hts|done].
Qed.

Lemma keeps_finished (I : St → Prop) (Qs : list (A → Prop)) ts i a :
  Forall2 (keeps I) Qs ts → ts !! i = Some (Finished a) → ∃ Q, Qs !! i = Some Q ∧ Q a.
Proof. intros H Hi. destruct (Forall2_lookup_r _ _ _ _ _ H Hi) as (Q & HQ & Hk). by exists Q. Qed.
End runs.

(** ** How many actions are left *)
Section fuel.
Context {St A : Type}.

Fixpoint within {B} (n : nat) (m : acts St B) {struct m} : Prop :=
  match m with
  | Finished _ => True
  | Act _ k => match n with O => False | S n' => ∀ s, within n' (k s) end
  end.

Lemma within_le {B} n n' (m : acts St B) : (n ≤ n')%nat → within n m → within n' m.
Proof.
  revert n n'. induction m as [a|f k IH]; intros n n' Hle H; [done|].
  destruct n as [|n]; [done|]. destruct n' as [|n']; [lia|]. intros s. apply (IH s n); [lia|done].
Qed.
Lemma within_bind {B} n n' (m : acts St B) (g : B → acts St A) :
  within n m → (∀ b, within n' (g b)) → within (n + n') (m ≫= g).
Proof.
  intros Hm Hg. revert n Hm. induction m as [b|f k IH]; intros n Hm; [apply (within_le n'); [lia|apply Hg]|].
  destruct n as [|n]; [done|]. intros s. by apply IH.
Qed.
Lemma within_atomic (m : St → A * St) n : within (S n) (atomic m).
Proof. by intros s. Qed.

(** The turns a call had, its result after enough of them. *)
Lemma turn_within i n (ts : list (acts St A)) s m :
  ts !! i = Some m → within (S n) m → ∃ m', (turn i (ts, s)).1 !! i = Some m' ∧ within n m'.
Proof.
  intros Hi Hw. unfold turn. cbn [fst snd]. rewrite Hi. destruct m as [a|f k].
  { by exists (Finished a). }
  exists (k s). split; [|apply Hw]. cbn. apply list_lookup_insert_eq. by eapply lookup_lt_Some.
Qed.
Lemma turn_other i j (ts : list (acts St A)) s : i ≠ j → (turn j (ts, s)).1 !! i = ts !! i.
Proof.
  intros Hne. unfold turn. cbn [fst snd]. destruct (ts !! j) as [[a|f k]|]; try done. cbn.
  by apply list_lookup_insert_ne.
Qed.
Lemma turns_finish i n js (ts : list (acts St A)) s m :
  ts !! i = Some m → within n m → (n ≤ length (filter (eq i) js))%nat →
  ∃ a, (turns js (ts, s)).1 !! i = Some (Finished a).
Proof.
  revert n ts s m. induction js as [|j js IH]; intros n ts s m Hi Hw Hn.
  { destruct m as [a|f k]; [by exists a|]. cbn in Hn. by destruct n; [|lia]. }
  cbn [turns foldl]. destruct (turn j (ts, s)) as [ts1 s1] eqn:Et.
  destruct (decide (i = j)) as [<-|Hne].
  - rewrite filter_cons_True in Hn by done. cbn in Hn.
    destruct (turn_within i (pred n) ts s m Hi) as (m' & Hm & Hw'); [by eapply within_le; [|exact Hw]; lia|].
    rewrite Et in Hm. eapply (IH (pred n)); [exact Hm|done|lia].
  - rewrite filter_cons_False in Hn by done. eapply (IH n ts1 s1 m); [|done|done].
    by rewrite <-(turn_other i j ts s Hne), Et in Hi.
Qed.
End fuel.
