(* ===== verification/ServiceCalls.v ===== *)
(** * The handlers of the service, a call to the machine at a time

    [VMService]'s handlers with each call to the machine, each critical section
    and each call of a backend an action of its own ([Goroutines]), so that
    calls interleave inside the handlers too; what opens or
    closes something records it in the same action.  Run alone they are the
    handlers of [VMService].  However they interleave nothing leaks, and a VM of
    the table has what it holds ([calls_leak_nothing]); strict egress is kept
    ([calls_keep_strict]). *)
From Stdlib Require Import Ascii.
From S2P Require Export Goroutines VMConcurrent.
From stdpp Require Import relations.
#[local] Open Scope Z_scope.

Section code.
Context `{UT : UnicodeTables} `{VH : VMHost W}.
Abbreviation G := (acts (service W)).

(** ** Openings and closings *)
Definition listen_proxy (vmID : string) : M W (osres string Z) :=
  l ← act h_listen;
  match l with
  | Bad e => mret (Bad e)
  | Good port => _ ← ev (EvOpened (RProxy vmID)); mret (Good port)
  end.
Definition open_strict (vmID : string) (port : Z) : M W (osres string (option string)) :=
  st ← act (h_strictFactory vmID port);
  match st with
  | Bad e => mret (Bad e)
  | Good None => mret (Good None)
  | Good (Some anchor) => _ ← ev (EvOpened (RStrict vmID)); mret (Good (Some anchor))
  end.
(** The transport counts as closed once its hook was called; what a failed flush leaves
    in the filter is in [DaemonStrictProps]. *)
Definition close_strict (vmID anchor : string) : M W (option string) :=
  _ ← ev (EvClosed (RStrict vmID)); act (h_strictClose anchor).
Definition close_backend_of (vmID : string) : M W (option string) :=
  _ ← ev (EvClosed (RBackend vmID)); act (h_backendClose vmID).

(** ** The network manager *)
Definition newProxyServer_calls (vmID : string) (policy : networkPolicy) (secrets : list secretSpec)
    : G (osres string (Z * option string)) :=
  l ← atomic (listen_proxy vmID);
  match l with
  | Bad e => mret (Bad e)
  | Good port =>
      if bool_decide (secrets = []) then mret (Good (port, None))
      else
        ca ← atomic (act h_loadOrCreateCA);
        match ca with
        | Bad e => _ ← atomic (proxy_Close vmID); mret (Bad e)
        | Good path => mret (Good (port, Some path))
        end
  end.

Definition start_strict_calls (vmID : string) (policy : networkPolicy) (port : Z)
    : G (osres vm_error (option string)) :=
  if egressMode policy =? EgressMode.STRICT then
    prepareErr ← atomic (act h_strictPrepare);
    match prepareErr with
    | Some e => _ ← atomic (proxy_Close vmID); mret (Bad (StrictPrepareFailed e))
    | None =>
        st ← atomic (open_strict vmID port);
        match st with
        | Bad e => _ ← atomic (proxy_Close vmID); mret (Bad (StrictSetupFailed e))
        | Good anchor => mret (Good anchor)
        end
    end
  else mret (Good None).

Definition newNetworkManager_calls (vmID : string) (req : StartVMRequest)
    : G (osres vm_error (option networkManager)) :=
  match buildNetworkPolicy (Network req) with
  | Bad e => mret (Bad (PolicyInvalid e))
  | Good policy =>
  match validateNetworkPolicy policy with
  | Some e => mret (Bad (PolicyInvalid e))
  | None =>
      rands ← atomic (act h_random);
      match buildSecrets (Secrets req) rands with
      | Bad e => mret (Bad (SecretsInvalid e))
      | Good (secrets, secretEnv) =>
          if negb (requiresProxy policy) && (length secrets =? 0)%nat then mret (Good None)
          else
            p ← newProxyServer_calls vmID policy secrets;
            match p with
            | Bad e => mret (Bad (ProxyFailed e))
            | Good (port, ca) =>
                st ← start_strict_calls vmID policy port;
                match st with
                | Bad e => mret (Bad e)
                | Good strict =>
                    mret (Good (Some {| nm_vmID := vmID; nm_policy := policy; nm_port := port;
                                        nm_env := proxy_env port ++ secretEnv;
                                        nm_caCertPath := default "" ca;
                                        nm_strictTransport := strict |}))
                end
            end
      end
  end
  end.

(** [closeOnce.Do]. A second caller would wait in it; there is none, since one call at
    a time has a VM ([ao_once] in [ServiceCallsProps]). *)
Definition manager_Close_calls (m : networkManager) : G (option string) :=
  once ← atomic (λ s, (closed_managers s !! nm_vmID m, s));
  match once with
  | Some e => mret e
  | None =>
      strictErr ← match nm_strictTransport m with
                  | Some anchor => atomic (close_strict (nm_vmID m) anchor)
                  | None => mret None
                  end;
      proxyErr ← atomic (proxy_Close (nm_vmID m));
      let closeErr := errors_Join strictErr proxyErr in
      _ ← atomic (set_closed (nm_vmID m) closeErr);
      mret closeErr
  end.
Definition network_Close_calls (network : option networkManager) : G (option string) :=
  match network with Some m => manager_Close_calls m | None => mret None end.

(** ** Starting a VM *)
Definition abandon_calls (network : option networkManager) (e : vm_error) : G (osres vm_error VM) :=
  _ ← network_Close_calls network; mret (Bad e).

Definition newVM_host_calls (id : string) (req : StartVMRequest) (env : list string)
    (network : option networkManager) : G (osres vm_error VM) :=
  b ← atomic (start_backend id (h_hostBackend id req env));
  match b with
  | Bad e => abandon_calls network (BackendError e)
  | Good _ => mret (Good {| vm_ID := id; vm_Backend := HostKind; vm_Network := network |})
  end.

Definition newVM_calls (id : string) (req : StartVMRequest) : G (osres vm_error VM) :=
  n ← newNetworkManager_calls id req;
  match n with
  | Bad e => mret (Bad e)
  | Good network =>
      let env := match network with Some m => nm_env m | None => [] end in
      let strictEgress := requiresStrictEgress req in
      mode ← atomic backendModeFromEnv;
      if strictEgress && bool_decide (mode = backendHost) then abandon_calls network (StrictNeedsVM None)
      else if bool_decide (mode = backendVM) || bool_decide (mode = backendAuto) then
        b ← atomic (start_backend id (h_vmBackend id req env network));
        match b with
        | Good _ => mret (Good {| vm_ID := id; vm_Backend := VMKind; vm_Network := network |})
        | Bad e =>
            if bool_decide (mode = backendVM) then abandon_calls network (BackendError e)
            else
              match e with
              | BackendFailed _ => abandon_calls network (BackendError e)
              | VMUnavailable _ =>
                  if strictEgress then abandon_calls network (StrictNeedsVM (Some e))
                  else newVM_host_calls id req env network
              end
        end
      else newVM_host_calls id req env network
  end.

(** ** The handlers *)
Definition StartVM_calls (vmID : string) (req : StartVMRequest) : G (osres rpc_error string) :=
  r ← newVM_calls vmID req;
  match r with
  | Bad e => mret (Bad (InvalidArgument (Some e)))
  | Good vm => _ ← atomic (publish vm); mret (Good vmID)
  end.

Definition Exec_calls (vmID command : string) (args : list string) : G (osres rpc_error exec_response) :=
  if bool_decide (vmID = "") then mret (Bad (InvalidArgument None))
  else
    v ← atomic (getVM vmID);
    match v with
    | None => mret (Bad (NotFound vmID))
    | Some vm =>
        if bool_decide (command = "") then mret (Bad (InvalidArgument None))
        else atomic (act (h_backendExec (vm_ID vm) command args))
    end.

Definition ExecStream_calls (first : osres rpc_error (option exec_start)) : G (osres rpc_error ()) :=
  match first with
  | Bad e => mret (Bad e)
  | Good None => mret (Bad (InvalidArgument None))
  | Good (Some start) =>
      if bool_decide (st_VmId start = "") then mret (Bad (InvalidArgument None))
      else
        v ← atomic (getVM (st_VmId start));
        match v with
        | None => mret (Bad (NotFound (st_VmId start)))
        | Some vm =>
            if bool_decide (st_Command start = "") then mret (Bad (InvalidArgument None))
            else atomic (act (h_backendExecStream (vm_ID vm) start))
        end
  end.

Definition close_vm_calls (vm : VM) : G (option string) :=
  closeErr ← atomic (close_backend_of (vm_ID vm));
  match vm_Network vm with
  | None => mret closeErr
  | Some m => e ← manager_Close_calls m; mret (errors_Join closeErr e)
  end.

Definition StopVM_calls (vmID : string) : G (osres rpc_error ()) :=
  if bool_decide (vmID = "") then mret (Bad (InvalidArgument None))
  else
    v ← atomic (take_vm vmID);
    match v with
    | None => mret (Bad (NotFound vmID))
    | Some vm =>
        closeErr ← close_vm_calls vm;
        mret (match closeErr with Some e => Bad (Internal e) | None => Good () end)
    end.

(** ** A call of a client *)
Inductive svc_call :=
| SvcStart (vmID : string) (req : StartVMRequest)   (* with the uuid it will draw *)
| SvcExec (vmID command : string) (args : list string)
| SvcExecStream (first : osres rpc_error (option exec_start))
| SvcStop (vmID : string).
Inductive svc_reply :=
| ReStart (r : osres rpc_error string)
| ReExec (r : osres rpc_error exec_response)
| ReExecStream (r : osres rpc_error ())
| ReStop (r : osres rpc_error ()).

(** The VM a call starts or stops. *)
Definition svc_vm (c : svc_call) : option string :=
  match c with SvcStart vmID _ | SvcStop vmID => Some vmID | _ => None end.
Definition svc_drawn (c : svc_call) : option string :=
  match c with SvcStart vmID _ => Some vmID | _ => None end.

Definition serve_call (c : svc_call) : G svc_reply :=
  match c with
  | SvcStart vmID req => r ← StartVM_calls vmID req; mret (ReStart r)
  | SvcExec vmID command args => r ← Exec_calls vmID command args; mret (ReExec r)
  | SvcExecStream first => r ← ExecStream_calls first; mret (ReExecStream r)
  | SvcStop vmID => r ← StopVM_calls vmID; mret (ReStop r)
  end.

(** ** Run alone they are the handlers *)
Lemma M_bind_run {A B} (m : M W A) (k : A → M W B) s : (m ≫= k) s = k (m s).1 (m s).2.
Proof. unfold mbind, M_mbind. by destruct (m s). Qed.
Lemma M_ret_run {A} (a : A) s : (mret a : M W A) s = (a, s).
Proof. done. Qed.
Lemma atomic_bind {A B} (m : M W A) (g : A → G B) s :
  run_alone (atomic m ≫= g) s = run_alone (g (m s).1) (m s).2.
Proof. by rewrite run_alone_bind, run_alone_atomic. Qed.

(** A part of a handler, and what follows it. *)
Definition as_one {A} (c : G A) (m : M W A) : Prop := ∀ s, run_alone c s = m s.
Lemma as_one_ret {A} (a : A) : as_one (mret a) (mret a).
Proof. done. Qed.
Lemma as_one_atomic {A} (m : M W A) : as_one (atomic m) m.
Proof. intros s. apply run_alone_atomic. Qed.
Lemma as_one_bind {A B} (c : G A) (m : M W A) (k : A → G B) (g : A → M W B) :
  as_one c m → (∀ a, as_one (k a) (g a)) → as_one (c ≫= k) (m ≫= g).
Proof. intros Hc Hk s. rewrite run_alone_bind, M_bind_run, Hc. apply Hk. Qed.
(** ... when the handler does in two steps what is one action here. *)
Lemma as_one_split {A B D} (m1 : M W A) (f : A → M W B) (k : B → G D) (g : A → M W D) :
  (∀ a s, run_alone (k (f a s).1) (f a s).2 = g a s) → as_one (atomic (m1 ≫= f) ≫= k) (m1 ≫= g).
Proof. intros H s. rewrite atomic_bind, !M_bind_run. apply H. Qed.

Create HintDb as_one.
#[local] Hint Resolve as_one_ret as_one_atomic : as_one.
Ltac as_one := repeat first
  [ apply as_one_bind; [eauto with as_one|intros ?]
  | match goal with |- as_one (match ?x with _ => _ end) _ => destruct x eqn:? end
  | solve [eauto with as_one] ].

Lemma newProxyServer_alone id policy secrets :
  as_one (newProxyServer_calls id policy secrets) (newProxyServer id policy secrets).
Proof.
  apply as_one_split. intros [port|e] s; [|done]. rewrite !M_bind_run, M_ret_run. cbn [fst snd ev].
  case_bool_decide; [done|]. rewrite M_bind_run, atomic_bind.
  destruct (act h_loadOrCreateCA _) as [[path|e] s1]; [done|]. cbn [fst snd].
  rewrite atomic_bind. unfold proxy_Close. by rewrite !M_bind_run.
Qed.
Lemma start_strict_alone id policy port : as_one (start_strict_calls id policy port) (start_strict id policy port).
Proof.
  unfold start_strict_calls, start_strict. destruct (_ =? _); [|done].
  apply as_one_bind; [apply as_one_atomic|]. intros [e|]; [as_one|].
  apply as_one_split. intros [[a|]|e] s; try done. by apply as_one_bind; as_one.
Qed.
#[local] Hint Resolve newProxyServer_alone start_strict_alone : as_one.
Lemma newNetworkManager_alone id req : as_one (newNetworkManager_calls id req) (newNetworkManager id req).
Proof. unfold newNetworkManager_calls, newNetworkManager. as_one. Qed.

Lemma manager_Close_alone m : as_one (manager_Close_calls m) (manager_Close m).
Proof.
  intros s. unfold manager_Close_calls, manager_Close. rewrite atomic_bind. cbn [fst snd].
  destruct (closed_managers s !! _); [done|]. revert s. change (as_one
    (strictErr ← match nm_strictTransport m with
                 | Some anchor => atomic (close_strict (nm_vmID m) anchor)
                 | None => mret None
                 end;
     proxyErr ← atomic (proxy_Close (nm_vmID m));
     let closeErr := errors_Join strictErr proxyErr in
     _ ← atomic (set_closed (nm_vmID m) closeErr); mret closeErr)
    (strictErr ← match nm_strictTransport m with
                 | Some anchor => close_strict (nm_vmID m) anchor
                 | None => mret None
                 end;
     proxyErr ← proxy_Close (nm_vmID m);
     let closeErr := errors_Join strictErr proxyErr in
     _ ← set_closed (nm_vmID m) closeErr; mret closeErr)).
  apply as_one_bind; [by destruct (nm_strictTransport m); as_one|intros strictErr]. as_one.
Qed.
Lemma network_Close_alone n : as_one (network_Close_calls n) (network_Close n).
Proof. destruct n; [apply manager_Close_alone|done]. Qed.
#[local] Hint Resolve newNetworkManager_alone manager_Close_alone network_Close_alone : as_one.
Lemma abandon_alone n e : as_one (abandon_calls n e) (abandon n e).
Proof. unfold abandon_calls, abandon. as_one. Qed.
#[local] Hint Resolve abandon_alone : as_one.
Lemma newVM_host_alone id req env n : as_one (newVM_host_calls id req env n) (newVM_host id req env n).
Proof. unfold newVM_host_calls, newVM_host. as_one. Qed.
#[local] Hint Resolve newVM_host_alone : as_one.
Lemma newVM_alone id req : as_one (newVM_calls id req) (newVM id req).
Proof. unfold newVM_calls, newVM. as_one. Qed.
#[local] Hint Resolve newVM_alone : as_one.

Lemma StartVM_alone id req : as_one (StartVM_calls id req) (StartVM id req).
Proof. unfold StartVM_calls, StartVM. as_one. Qed.
Lemma Exec_alone id command args : as_one (Exec_calls id command args) (Exec id command args).
Proof. unfold Exec_calls, Exec. as_one. Qed.
Lemma ExecStream_alone first : as_one (ExecStream_calls first) (ExecStream first).
Proof. unfold ExecStream_calls, ExecStream. as_one. Qed.
Lemma close_vm_alone vm : as_one (close_vm_calls vm) (close_vm vm).
Proof.
  intros s. unfold close_vm_calls, close_vm, close_backend_of. rewrite atomic_bind, !M_bind_run.
  destruct (vm_Network vm) as [m|]; [|done].
  apply as_one_bind; [apply manager_Close_alone|intros e; apply as_one_ret].
Qed.
#[local] Hint Resolve close_vm_alone : as_one.
Lemma StopVM_alone id : as_one (StopVM_calls id) (StopVM id).
Proof. unfold StopVM_calls, StopVM. as_one. Qed.

(** ** How many actions a call takes *)
Ltac actions := repeat first
  [ progress intros
  | progress cbv zeta
  | match goal with
    | |- within _ (match ?x with _ => _ end) => destruct x
    | |- within (S ?n) (_ ≫= _) => apply (within_bind 1 n); [first [apply within_atomic|by case_match]|]
    end
  | apply within_atomic
  | exact I ].

Lemma newProxyServer_within id policy secrets : within 3 (newProxyServer_calls id policy secrets).
Proof. unfold newProxyServer_calls. actions. Qed.
Lemma start_strict_within id policy port : within 3 (start_strict_calls id policy port).
Proof. unfold start_strict_calls. actions. Qed.
Lemma newNetworkManager_within id req : within 7 (newNetworkManager_calls id req).
Proof.
  unfold newNetworkManager_calls. destruct (buildNetworkPolicy _); [|done]. destruct (validateNetworkPolicy _); [done|].
  apply (within_bind 1 6); [apply within_atomic|]. intros rands. destruct (buildSecrets _ _) as [[specs senv]|]; [|done].
  destruct (_ && _); [done|]. apply (within_bind 3 3); [apply newProxyServer_within|]. intros [[port ca]|e]; [|done].
  apply (within_bind 3 0); [apply start_strict_within|]. by intros [st|e].
Qed.
Lemma manager_Close_within m : within 4 (manager_Close_calls m).
Proof. unfold manager_Close_calls. actions. Qed.
Lemma abandon_within n e : within 4 (abandon_calls n e).
Proof. apply (within_bind 4 0); [|done]. destruct n; [apply manager_Close_within|done]. Qed.
Lemma newVM_host_within id req env n : within 5 (newVM_host_calls id req env n).
Proof. apply (within_bind 1 4); [apply within_atomic|]. intros [u|e]; [done|apply abandon_within]. Qed.
Lemma newVM_within id req : within 14 (newVM_calls id req).
Proof.
  apply (within_bind 7 7); [apply newNetworkManager_within|]. intros [n|e]; [|done]. cbv zeta.
  apply (within_bind 1 6); [apply within_atomic|]. intros mode.
  assert (Ha : ∀ e, within 6 (abandon_calls n e)) by (intros e; eapply within_le; [|apply abandon_within]; lia).
  assert (Hh : ∀ env, within 5 (newVM_host_calls id req env n)) by (intros env; apply newVM_host_within).
  destruct (_ && _); [apply Ha|]. destruct (_ || _); [|eapply within_le; [|apply Hh]; lia].
  apply (within_bind 1 5); [apply within_atomic|].
  assert (Ha5 : ∀ e, within 5 (abandon_calls n e)) by (intros e; eapply within_le; [|apply abandon_within]; lia).
  intros [u|e]; [done|]. case_bool_decide; [apply Ha5|]. destruct e; [|apply Ha5].
  destruct (requiresStrictEgress req); [apply Ha5|apply Hh].
Qed.

(** Each call is done after fifteen. *)
Lemma serve_call_within c : within 15 (serve_call c).
Proof.
  destruct c as [id req|id command args|first|id]; cbn [serve_call]; apply (within_bind 15 0); try done.
  - apply (within_bind 14 1); [apply newVM_within|]. intros [vm|e]; [|done]. actions.
  - unfold Exec_calls. actions.
  - unfold ExecStream_calls. actions.
  - unfold StopVM_calls. case_bool_decide; [done|]. apply (within_bind 1 14); [apply within_atomic|].
    intros [vm|]; [|done]. apply (within_bind 14 0); [|done]. apply (within_bind 1 13); [apply within_atomic|].
    intros e. destruct (vm_Network vm) as [m|]; [|done]. apply (within_bind 13 0); [|done].
    eapply within_le; [|apply manager_Close_within]. lia.
Qed.
End code.
