(* ===== verification/MemVM.v ===== *)
(** * A small machine for the service

    A concrete [VMHost]: the proxy gets port 4000, the VM backend is available
    or not, closing never fails.  The theorems on the service are applied to
    runs on it. *)
From Stdlib Require Import Ascii.
From S2P Require Export VMConcurrent.

#[local] Existing Instance ascii_tables.

(** The world: [KLITKA_BACKEND] and whether the VM backend is available. *)
Definition machine : Type := string * bool.

#[export] Instance mem_host : VMHost machine := {|
  h_listen w := (Good 4000, w);
  h_listen_close w := (None, w);
  h_loadOrCreateCA w := (Good "/home/u/.klitka/ca.crt", w);
  h_random w := ([Some [1; 2; 3; 4; 5; 6; 7; 8]], w);
  h_strictPrepare w := (None, w);
  h_strictFactory id _ w := (Good (Some ("com.klitka.vm/" +:+ id)), w);
  h_strictClose _ w := (None, w);
  h_getenv _ w := w.1;
  h_vmBackend _ _ _ _ w := (if w.2 : bool then Good () else Bad (VMUnavailable "qemu not found"), w);
  h_hostBackend _ _ _ w := (Good (), w);
  h_backendClose _ w := (None, w);
  h_backendExec _ _ _ w := (Good {| ex_ExitCode := 0; ex_Stdout := []; ex_Stderr := [] |}, w);
  h_backendExecStream _ _ w := (Good (), w)
|}.

Definition strict_request : StartVMRequest :=
  {| Mounts := []; Secrets := [];
     Network := Some {| AllowHosts := ["api.test"]; DenyHosts := []; BlockPrivateRanges := false;
                        np_EgressMode := EgressMode.STRICT; np_DnsMode := DNSMode.OPEN;
                        TrustedDnsServers := [] |} |}.
Definition plain_request : StartVMRequest := {| Mounts := []; Secrets := []; Network := None |}.

Definition trace_of (w : machine) (req : StartVMRequest) : list vm_event :=
  trace (StartVM "vm1" req (NewService w)).2.

Example StartVM_values :
  trace_of ("", true) strict_request
  = [EvOpened (RProxy "vm1"); EvOpened (RStrict "vm1"); EvOpened (RBackend "vm1")]
  ∧ trace_of ("", false) strict_request
    = [EvOpened (RProxy "vm1"); EvOpened (RStrict "vm1"); EvClosed (RStrict "vm1"); EvClosed (RProxy "vm1")]
  ∧ trace_of ("host", true) strict_request
    = [EvOpened (RProxy "vm1"); EvOpened (RStrict "vm1"); EvClosed (RStrict "vm1"); EvClosed (RProxy "vm1")]
  ∧ trace_of (" Host ", true) plain_request = [EvOpened (RBackend "vm1")]
  ∧ (StartVM "vm1" plain_request (NewService ("vm", false))).1
    = Bad (InvalidArgument (Some (BackendError (VMUnavailable "qemu not found"))))
  ∧ vms (StopVM "vm1" (StartVM "vm1" strict_request (NewService ("", true))).2).2 = ∅.
Proof. by vm_compute. Qed.

(** One VM started, a second one started, the first being stopped. *)
Definition demo_calls : list thread :=
  [TStart "a" strict_request; TStop "a"; TStart "b" plain_request].
Definition demo_s0 : service machine := NewService ("", true).
Definition demo_s1 : service machine := (newVM "a" strict_request demo_s0).2.
Definition demo_vm : VM := {|
  vm_ID := "a"; vm_Backend := VMKind;
  vm_Network := Some {| nm_vmID := "a";
    nm_policy := {| allowHosts := ["api.test"]; denyHosts := []; blockPrivateRange := false;
                    egressMode := EgressMode.STRICT; dnsMode := DNSMode.OPEN;
                    trustedDNSServers := [] |};
    nm_port := 4000; nm_env := proxy_env 4000; nm_caCertPath := "";
    nm_strictTransport := Some "com.klitka.vm/a" |} |}.
Definition demo_s2 : service machine := (publish demo_vm demo_s1).2.
Definition demo_s3 : service machine := (take_vm "a" demo_s2).2.

Lemma demo_service_run :
  star sstep (demo_s0, demo_calls) (demo_s3, [TDone; TClose demo_vm; TStart "b" plain_request]).
Proof.
  eapply star_step; [apply (step_start demo_s0 [] [TStop "a"; TStart "b" plain_request])|].
  replace (newVM "a" strict_request demo_s0).1 with (@Good vm_error VM demo_vm) by (by vm_compute).
  eapply star_step; [apply (step_publish demo_s1 [] [TStop "a"; TStart "b" plain_request])|].
  eapply star_step; [by apply (step_take demo_s2 [TDone] [TStart "b" plain_request])|].
  replace (take_vm "a" demo_s2).1 with (Some demo_vm) by (by vm_compute). apply star_refl.
Qed.

Lemma service_no_leaks_witness :
  clean (trace demo_s3)
  ∧ live_of (trace demo_s3)
    = holdings (owners demo_s3 [TDone; TClose demo_vm; TStart "b" plain_request])
  ∧ NoDup (map vm_ID (owners demo_s3 [TDone; TClose demo_vm; TStart "b" plain_request])).
Proof.
  refine (service_no_leaks demo_calls ("", true) _ _ _ _ demo_service_run).
  - repeat constructor.
  - apply (bool_decide_unpack (NoDup (omap drawn demo_calls))). by vm_compute.
Defined.

Lemma strict_egress_kept_witness :
  Forall (λ vm, ∃ req, TStart (vm_ID vm) req ∈ demo_calls
            ∧ network_ok (vm_ID vm) req (vm_Network vm)
            ∧ (requiresStrictEgress req = true →
               vm_Backend vm = VMKind
               ∧ ∃ m, vm_Network vm = Some m ∧ egressMode (nm_policy m) = EgressMode.STRICT))
         (owners demo_s3 [TDone; TClose demo_vm; TStart "b" plain_request]).
Proof.
  refine (strict_egress_kept demo_calls ("", true) _ _ _ _ demo_service_run).
  - repeat constructor.
  - apply (bool_decide_unpack (NoDup (omap drawn demo_calls))). by vm_compute.
Defined.
