(* ===== verification/VirtioClient.v ===== *)
(** * The client of a VM's console port ([daemon/virtio.go])

    The daemon runs commands in the guest through one connection: each
    [startExec] registers a request with three channels, a reader goroutine
    ([readLoop]) sends what arrives to the request's channels, and the caller
    collects it with [collectExecOutput].  Requests are shared by pointer: the
    reader keeps one after it released the lock.  The model has the heap of
    requests, channels with their capacity, and the two ways a channel
    operation can go wrong: a panic and blocking. *)
From Stdlib Require Import Ascii.
From S2P Require Export FsrpcServer.

(** ** Channels *)
Record chan (A : Type) := { ch_buf : list A; ch_cap : nat; ch_closed : bool }.
Arguments ch_buf {A}. Arguments ch_cap {A}. Arguments ch_closed {A}.
Arguments Build_chan {A}.

Inductive outcome (A : Type) := Ret (a : A) | Panic | Block.
Arguments Ret {A}. Arguments Panic {A}. Arguments Block {A}.

Section chan.
Context {A : Type}.

Definition make_chan (cap : nat) : chan A := {| ch_buf := []; ch_cap := cap; ch_closed := false |}.
Definition chan_put (v : A) (c : chan A) : chan A :=
  {| ch_buf := ch_buf c ++ [v]; ch_cap := ch_cap c; ch_closed := ch_closed c |}.

(** [c <- v] *)
Definition chan_send (v : A) (c : chan A) : outcome (chan A) :=
  if ch_closed c then Panic
  else if (length (ch_buf c) <? ch_cap c)%nat then Ret (chan_put v c) else Block.

(** [select { case c <- v: default: }] *)
Definition chan_try_send (v : A) (c : chan A) : outcome (chan A) :=
  if ch_closed c then Panic
  else if (length (ch_buf c) <? ch_cap c)%nat then Ret (chan_put v c) else Ret c.

(** [close(c)] *)
Definition chan_close (c : chan A) : outcome (chan A) :=
  if ch_closed c then Panic
  else Ret {| ch_buf := ch_buf c; ch_cap := ch_cap c; ch_closed := true |}.

(** [v, ok := <-c]; [None] is the zero value with [ok] false. *)
Definition chan_recv (c : chan A) : outcome (option A * chan A) :=
  match ch_buf c with
  | v :: buf => Ret (Some v, {| ch_buf := buf; ch_cap := ch_cap c; ch_closed := ch_closed c |})
  | [] => if ch_closed c then Ret (None, c) else Block
  end.
End chan.

(** ** Data *)
Record virtioOutput := { out_stream : string; out_data : list byte }.
Record virtioExit := { exit_code : Z; exit_signal : option Z }.

Inductive virtio_error :=
| ReadFailed (e : read_error)
| DecodeFailed (e : decode_error)
| GuestError (message : string).   (* "virtio error: ..." *)

(** Errors of the connection, some wrapped with a text; what [decodeVirtioError], which
    nothing calls, makes of them. *)
Inductive conn_error := ErrEOF | ErrClosed | ErrText (text : string) | ErrWrapped (text : string) (err : conn_error).
#[export] Instance conn_error_eq_dec : EqDecision conn_error.
Proof. solve_decision. Defined.
Fixpoint errors_Is (err target : conn_error) : bool :=
  bool_decide (err = target)
  || match err with ErrWrapped _ err' => errors_Is err' target | _ => false end.
Definition decodeVirtioError (err : option conn_error) : option conn_error :=
  match err with
  | None => None
  | Some e =>
      if errors_Is e ErrEOF then Some ErrEOF
      else if errors_Is e ErrClosed then Some ErrClosed
      else Some e
  end.

Record virtioRequest := {
  rq_id : Z;
  rq_output : chan virtioOutput;
  rq_exit : chan virtioExit;
  rq_err : chan virtio_error
}.

Record virtioMessage := {
  vm_typ : string;
  vm_id : Z;
  vm_stream : string;
  vm_data : list byte;
  vm_exitCode : Z;
  vm_signal : option Z;
  vm_errMessage : string
}.

(** The requests are in [heap]; [reqs] holds pointers into it. *)
Record virtioClient (CS : Type) := {
  nextID : Z;
  reqs : gmap Z nat;
  vc_closed : bool;
  heap : list virtioRequest;
  vc_conn : CS
}.
Arguments nextID {CS}. Arguments reqs {CS}. Arguments vc_closed {CS}.
Arguments heap {CS}. Arguments vc_conn {CS}.

(** State, panics and blocking. *)
Definition V (CS A : Type) : Type := virtioClient CS → outcome (A * virtioClient CS).
#[export] Instance V_mret {CS} : MRet (V CS) := λ A a c, Ret (a, c).
#[export] Instance V_mbind {CS} : MBind (V CS) := λ A B f m c,
  match m c with Ret (a, c') => f a c' | Panic => Panic | Block => Block end.

(** ** Decoding *)
Section decode.
Context `{Codec}.

Definition empty_message (typ : string) (id : Z) : virtioMessage :=
  {| vm_typ := typ; vm_id := id; vm_stream := ""; vm_data := []; vm_exitCode := 0;
     vm_signal := None; vm_errMessage := "" |}.

(** The payload is a map or nil; reading a nil map finds nothing. *)
Definition message_of (raw : obj) : osres decode_error virtioMessage :=
  let msgType := default "" (as_text (assoc "t" raw)) in
  try id := readUint32 (assoc "id" raw) catch e => Bad e in
  let payload := default [] (as_obj (assoc "p" raw)) in
  if bool_decide (msgType = "exec_output") then
    Good {| vm_typ := msgType; vm_id := id;
            vm_stream := default "" (as_text (assoc "stream" payload));
            vm_data := default [] (as_bytes (assoc "data" payload));
            vm_exitCode := 0; vm_signal := None; vm_errMessage := "" |}
  else if bool_decide (msgType = "exec_response") then
    try code := readInt32 (assoc "exit_code" payload) catch e => Bad e in
    Good {| vm_typ := msgType; vm_id := id; vm_stream := ""; vm_data := []; vm_exitCode := code;
            vm_signal := match assoc "signal" payload with
                         | Some sig => match readInt32 (Some sig) with
                                       | Good v => Some v
                                       | Bad _ => None
                                       end
                         | None => None
                         end;
            vm_errMessage := "" |}
  else if bool_decide (msgType = "error") then
    Good {| vm_typ := msgType; vm_id := id; vm_stream := ""; vm_data := []; vm_exitCode := 0;
            vm_signal := None; vm_errMessage := default "" (as_text (assoc "message" payload)) |}
  else Bad (UnknownType msgType).

Definition decodeVirtioMessage (frame : list byte) : osres decode_error virtioMessage :=
  try raw := Unmarshal frame catch e => Bad (CborError e) in message_of raw.
End decode.

(** ** The client *)
Section client.
Context `{C : Codec} `{OS : ConnOS CS}.
Implicit Types c : virtioClient CS.

Definition set_reqs (reqs' : gmap Z nat) (c : virtioClient CS) : virtioClient CS :=
  {| nextID := nextID c; reqs := reqs'; vc_closed := vc_closed c; heap := heap c;
     vc_conn := vc_conn c |}.
Definition set_heap (heap' : list virtioRequest) (c : virtioClient CS) : virtioClient CS :=
  {| nextID := nextID c; reqs := reqs c; vc_closed := vc_closed c; heap := heap';
     vc_conn := vc_conn c |}.
Definition set_conn (conn : CS) (c : virtioClient CS) : virtioClient CS :=
  {| nextID := nextID c; reqs := reqs c; vc_closed := vc_closed c; heap := heap c;
     vc_conn := conn |}.

(** An operation on the request at a pointer. *)
Definition on_request (ptr : nat) (f : virtioRequest → outcome virtioRequest) : V CS () := λ c,
  match heap c !! ptr with
  | None => Panic
  | Some r => match f r with
              | Ret r' => Ret ((), set_heap (<[ptr := r']> (heap c)) c)
              | Panic => Panic
              | Block => Block
              end
  end.

Definition on_output (f : chan virtioOutput → outcome (chan virtioOutput)) (r : virtioRequest)
    : outcome virtioRequest :=
  match f (rq_output r) with
  | Ret ch => Ret {| rq_id := rq_id r; rq_output := ch; rq_exit := rq_exit r; rq_err := rq_err r |}
  | Panic => Panic
  | Block => Block
  end.
Definition on_exit (f : chan virtioExit → outcome (chan virtioExit)) (r : virtioRequest)
    : outcome virtioRequest :=
  match f (rq_exit r) with
  | Ret ch => Ret {| rq_id := rq_id r; rq_output := rq_output r; rq_exit := ch; rq_err := rq_err r |}
  | Panic => Panic
  | Block => Block
  end.
Definition on_err (f : chan virtio_error → outcome (chan virtio_error)) (r : virtioRequest)
    : outcome virtioRequest :=
  match f (rq_err r) with
  | Ret ch => Ret {| rq_id := rq_id r; rq_output := rq_output r; rq_exit := rq_exit r; rq_err := ch |}
  | Panic => Panic
  | Block => Block
  end.

(** [close(req.output); close(req.exit); close(req.err)] *)
Definition close_request (ptr : nat) : V CS () :=
  _ ← on_request ptr (on_output chan_close);
  _ ← on_request ptr (on_exit chan_close);
  on_request ptr (on_err chan_close).

Fixpoint for_each (f : nat → V CS ()) (ptrs : list nat) : V CS () :=
  match ptrs with
  | [] => mret ()
  | p :: ptrs' => _ ← f p; for_each f ptrs'
  end.

Definition pointers c : list nat := (map_to_list (reqs c)).*2.

Definition modify (f : virtioClient CS → virtioClient CS) : V CS () := λ c, Ret ((), f c).

Definition set_closed_flag (c : virtioClient CS) : virtioClient CS :=
  {| nextID := nextID c; reqs := reqs c; vc_closed := true; heap := heap c;
     vc_conn := vc_conn c |}.

Definition client_Close : V CS () := λ c,
  if vc_closed c then Ret ((), c)
  else
    (_ ← modify set_closed_flag;
     _ ← for_each close_request (pointers c);
     _ ← modify (set_reqs ∅);
     modify (λ c, set_conn (conn_close (vc_conn c)) c)) c.

(** The first critical section of [startExec]: the id and the pointer. *)
Definition register : V CS (Z * nat) := λ c,
  let id := uint32_of (nextID c + 1) in
  let req := {| rq_id := id; rq_output := make_chan 32; rq_exit := make_chan 1;
                rq_err := make_chan 1 |} in
  let ptr := length (heap c) in
  Ret ((id, ptr),
       {| nextID := id; reqs := <[id := ptr]> (reqs c); vc_closed := vc_closed c;
          heap := heap c ++ [req]; vc_conn := vc_conn c |}).

(** The second one, after a failed send. *)
Definition forget (id : Z) : V CS () := modify (λ c, set_reqs (delete id (reqs c)) c).

Definition sendMessage (message : obj) : V CS (option string) := λ c,
  match Marshal message with
  | Bad err => Ret (Some err, c)
  | Good payload =>
      let '((_, err), conn) := conn_write (encode_frame payload) (vc_conn c) in
      Ret (err, set_conn conn c)
  end.

Definition texts (l : list string) : value := VArr (map VText l).

Definition exec_request (id : Z) (cmd : string) (args : list string) (stdin pty : bool)
    (env : list string) : obj :=
  [("v", VInt 1); ("t", VText "exec_request"); ("id", VU32 id);
   ("p", VObj ([("cmd", VText cmd)]
               ++ (if (0 <? length args)%nat then [("argv", texts args)] else [])
               ++ (if (0 <? length env)%nat then [("env", texts env)] else [])
               ++ (if stdin then [("stdin", VBool true)] else [])
               ++ (if pty then [("pty", VBool true)] else [])))].

Definition startExec (cmd : string) (args : list string) (stdin pty : bool) (env : list string)
    : V CS (osres string nat) :=
  r ← register;
  let '(id, req) := r in
  err ← sendMessage (exec_request id cmd args stdin pty env);
  match err with
  | Some e => _ ← forget id; mret (Bad e)
  | None => mret (Good req)
  end.

(** [None] is a nil slice, which is marshalled as null. *)
Definition sendStdin (id : Z) (data : option (list byte)) (eof : bool) : V CS (option string) :=
  sendMessage [("v", VInt 1); ("t", VText "stdin_data"); ("id", VU32 id);
               ("p", VObj ([("data", from_option VBytes VNil data)] ++ if eof then [("eof", VBool true)] else []))].

Definition sendResize (id rows cols : Z) : V CS (option string) :=
  sendMessage [("v", VInt 1); ("t", VText "pty_resize"); ("id", VU32 id);
               ("p", VObj [("rows", VU32 rows); ("cols", VU32 cols)])].

Definition broadcastError (err : virtio_error) : V CS () := λ c,
  for_each (λ ptr, on_request ptr (on_err (chan_try_send err))) (pointers c) c.

(** [dispatch] up to the release of the lock ... *)
Definition final_message (msg : virtioMessage) : bool :=
  bool_decide (vm_typ msg = "exec_response") || bool_decide (vm_typ msg = "error").

Definition dispatch_lookup (msg : virtioMessage) : V CS (option nat) := λ c,
  match reqs c !! vm_id msg with
  | None => Ret (None, c)
  | Some req =>
      Ret (Some req, if final_message msg then set_reqs (delete (vm_id msg) (reqs c)) c else c)
  end.

(** ... and after it. *)
Definition dispatch_deliver (msg : virtioMessage) (req : nat) : V CS () :=
  if bool_decide (vm_typ msg = "exec_output") then
    on_request req (on_output (chan_try_send
      {| out_stream := vm_stream msg; out_data := vm_data msg |}))
  else if bool_decide (vm_typ msg = "exec_response") then
    _ ← on_request req (on_exit (chan_send
          {| exit_code := vm_exitCode msg; exit_signal := vm_signal msg |}));
    close_request req
  else if bool_decide (vm_typ msg = "error") then
    _ ← on_request req (on_err (chan_send (GuestError (vm_errMessage msg))));
    close_request req
  else mret ().

Definition dispatch (msg : virtioMessage) : V CS () :=
  r ← dispatch_lookup msg;
  match r with None => mret () | Some req => dispatch_deliver msg req end.

(** The reader's loop over the bytes that arrive; each round reads a frame, so
    the length of the stream bounds the rounds. *)
Fixpoint readLoop (fuel : nat) (stream : list byte) : V CS () :=
  match fuel with
  | O => mret ()
  | S k =>
      match readFrame stream with
      | Bad err => broadcastError (ReadFailed err)
      | Good (frame, rest) =>
          match decodeVirtioMessage frame with
          | Bad err => broadcastError (DecodeFailed err)
          | Good msg => _ ← dispatch msg; readLoop k rest
          end
      end
  end.
Definition readLoop_fuel (stream : list byte) : nat := S (length stream).
End client.

(** ** Collecting

    [select] picks any of its ready cases; the choices are an argument, and one
    that is not ready is skipped. *)
Inductive select_case := SelOutput | SelExit | SelErr.

Record exec_result := {
  er_stdout : list byte;
  er_stderr : list byte;
  er_exit : Z;
  er_err : option virtio_error
}.

(** [None]: still in the loop when the choices end. *)
Fixpoint collectExecOutput (choices : list select_case) (outBuf errBuf : list byte)
    (req : virtioRequest) : option exec_result :=
  match choices with
  | [] => None
  | SelOutput :: choices' =>
      match chan_recv (rq_output req) with
      | Ret (v, ch) =>
          let req := {| rq_id := rq_id req; rq_output := ch; rq_exit := rq_exit req;
                        rq_err := rq_err req |} in
          match v with
          | Some output =>
              if bool_decide (out_stream output = "stderr")
              then collectExecOutput choices' outBuf (errBuf ++ out_data output) req
              else collectExecOutput choices' (outBuf ++ out_data output) errBuf req
          | None => collectExecOutput choices' outBuf errBuf req
          end
      | _ => collectExecOutput choices' outBuf errBuf req
      end
  | SelExit :: choices' =>
      match chan_recv (rq_exit req) with
      | Ret (Some exitMsg, _) =>
          Some {| er_stdout := outBuf; er_stderr := errBuf; er_exit := exit_code exitMsg;
                  er_err := None |}
      | _ => collectExecOutput choices' outBuf errBuf req
      end
  | SelErr :: choices' =>
      match chan_recv (rq_err req) with
      | Ret (Some reqErr, _) =>
          Some {| er_stdout := outBuf; er_stderr := errBuf; er_exit := 1; er_err := Some reqErr |}
      | _ => collectExecOutput choices' outBuf errBuf req
      end
  end.
