(* ===== verification/VirtioProps.v ===== *)
(** * The client's goroutines: when channel operations cannot go wrong

    The calls of [startExec], the reader and [Close] interleave at their
    critical sections ([vstep]).  The reader never blocks, and it panics only
    if [Close] comes between the lookup and the delivery of an output. *)
From Stdlib Require Import Ascii.
From S2P Require Export VirtioClient.

(** ** Requests *)
Definition req_open (r : virtioRequest) : Prop :=
  ch_closed (rq_output r) = false ∧ ch_closed (rq_exit r) = false ∧ ch_closed (rq_err r) = false.

(** Open, and nothing final was sent to it. *)
Definition req_live (r : virtioRequest) : Prop :=
  ch_closed (rq_output r) = false ∧ rq_exit r = make_chan 1 ∧ rq_err r = make_chan 1.

Lemma req_live_open r : req_live r → req_open r.
Proof. intros (? & He & Hr). unfold req_open. by rewrite He, Hr. Qed.

Definition shut {A} (c : chan A) : chan A :=
  {| ch_buf := ch_buf c; ch_cap := ch_cap c; ch_closed := true |}.
Definition closed_request (r : virtioRequest) : virtioRequest :=
  {| rq_id := rq_id r; rq_output := shut (rq_output r); rq_exit := shut (rq_exit r);
     rq_err := shut (rq_err r) |}.

Definition try_put {A} (v : A) (c : chan A) : chan A :=
  if (length (ch_buf c) <? ch_cap c)%nat then chan_put v c else c.

Lemma try_put_closed {A} (v : A) c : ch_closed (try_put v c) = ch_closed c.
Proof. unfold try_put. by destruct (_ <? _)%nat. Qed.

Lemma chan_try_send_open {A} (v : A) c : ch_closed c = false → chan_try_send v c = Ret (try_put v c).
Proof. intros H. unfold chan_try_send, try_put. rewrite H. by destruct (_ <? _)%nat. Qed.

Lemma chan_recv_closed {A} (c : chan A) v ch : chan_recv c = Ret (v, ch) → ch_closed ch = ch_closed c.
Proof.
  unfold chan_recv. destruct (ch_buf c); [destruct (ch_closed c) eqn:E; [|done]|]; intros [= <- <-]; done.
Qed.

Section props.
Context `{C : Codec} `{OS : ConnOS CS}.
Implicit Types c : virtioClient CS.

(** ** Operations on the heap *)
Lemma on_request_Ret ptr f c r r' :
  heap c !! ptr = Some r → f r = Ret r' →
  on_request ptr f c = Ret ((), set_heap (<[ptr := r']> (heap c)) c).
Proof. intros Hr Hf. unfold on_request. by rewrite Hr, Hf. Qed.

Lemma close_request_open ptr c r :
  heap c !! ptr = Some r → req_open r →
  close_request ptr c = Ret ((), set_heap (<[ptr := closed_request r]> (heap c)) c).
Proof.
  intros Hr (H1 & H2 & H3). pose proof (lookup_lt_Some _ _ _ Hr) as Hlt.
  unfold close_request, mbind, V_mbind.
  erewrite on_request_Ret; [|done|unfold on_output, chan_close; by rewrite H1].
  erewrite on_request_Ret; [|by apply list_lookup_insert_eq|unfold on_exit, chan_close; simpl; by rewrite H2].
  erewrite on_request_Ret; [|apply list_lookup_insert_eq; simpl; by rewrite ?length_insert
                            |unfold on_err, chan_close; simpl; by rewrite H3].
  unfold set_heap. simpl. by rewrite !list_insert_insert_eq.
Qed.

Lemma for_each_spec (P : virtioRequest → Prop) (g : virtioRequest → virtioRequest)
    (f : nat → V CS ()) ptrs c :
  (∀ p c r, heap c !! p = Some r → P r → f p c = Ret ((), set_heap (<[p := g r]> (heap c)) c)) →
  NoDup ptrs → (∀ p, p ∈ ptrs → ∃ r, heap c !! p = Some r ∧ P r) →
  ∃ h, for_each f ptrs c = Ret ((), set_heap h c)
    ∧ ∀ p, h !! p = if decide (p ∈ ptrs) then g <$> heap c !! p else heap c !! p.
Proof.
  intros Hf. revert c. induction ptrs as [|q ptrs IH]; intros c Hn Hp.
  { exists (heap c). split; [by destruct c|]. intros p. by rewrite decide_False by apply not_elem_of_nil. }
  apply NoDup_cons in Hn as [Hq Hn]. destruct (Hp q) as (r & Hr & HP); [by left|].
  simpl. unfold mbind, V_mbind. rewrite (Hf _ _ _ Hr HP).
  destruct (IH (set_heap (<[q:=g r]> (heap c)) c)) as (h & Hh & Hl); [done| |].
  { intros p Hin. simpl. rewrite list_lookup_insert_ne by (by intros ->). apply Hp. by right. }
  exists h. split; [by rewrite Hh|]. intros p. rewrite Hl. simpl.
  destruct (decide (p = q)) as [->|Hne].
  - rewrite decide_False by done. rewrite decide_True by (by left).
    rewrite list_lookup_insert_eq by (by eapply lookup_lt_Some). by rewrite Hr.
  - rewrite list_lookup_insert_ne by done.
    destruct (decide (p ∈ ptrs)) as [Hi|Hi].
    + by rewrite decide_True by (by right).
    + rewrite decide_False; [done|]. by intros [?|?]%elem_of_cons.
Qed.

Definition inj_reqs c : Prop :=
  ∀ id id' p, reqs c !! id = Some p → reqs c !! id' = Some p → id = id'.

Lemma elem_of_pointers c p : p ∈ pointers c ↔ ∃ id, reqs c !! id = Some p.
Proof.
  unfold pointers. rewrite list_elem_of_fmap. split.
  - intros ([id q] & -> & Hin). apply elem_of_map_to_list in Hin. by exists id.
  - intros [id Hid]. exists (id, p). split; [done|]. by apply elem_of_map_to_list.
Qed.

Lemma NoDup_pointers c : inj_reqs c → NoDup (pointers c).
Proof.
  intros Hi. unfold pointers. apply NoDup_fmap_2_strong; [|apply NoDup_map_to_list].
  intros [i p] [j q] H1%elem_of_map_to_list H2%elem_of_map_to_list. simpl. intros ->.
  by rewrite (Hi i j q).
Qed.

(** [Close] closes the requests of the table and forgets them. *)
Lemma client_Close_Ret c :
  inj_reqs c → (∀ p, p ∈ pointers c → ∃ r, heap c !! p = Some r ∧ req_open r) →
  ∃ c', client_Close c = Ret ((), c')
    ∧ if vc_closed c then c' = c
      else reqs c' = ∅
           ∧ ∀ p, heap c' !! p = if decide (p ∈ pointers c) then closed_request <$> heap c !! p
                                 else heap c !! p.
Proof.
  intros Hi Hp. unfold client_Close. destruct (vc_closed c); [by exists c|].
  unfold mbind, V_mbind, modify.
  destruct (for_each_spec req_open closed_request close_request (pointers c) (set_closed_flag c))
    as (h & Hh & Hl); [|by apply NoDup_pointers|done|].
  { intros p c' r. apply close_request_open. }
  rewrite Hh. eexists. split; [reflexivity|]. split; [done|exact Hl].
Qed.

Lemma broadcastError_Ret err c :
  inj_reqs c → (∀ p, p ∈ pointers c → ∃ r, heap c !! p = Some r ∧ req_open r) →
  ∃ h, broadcastError err c = Ret ((), set_heap h c)
    ∧ ∀ p, h !! p = if decide (p ∈ pointers c)
                    then (λ r, {| rq_id := rq_id r; rq_output := rq_output r; rq_exit := rq_exit r;
                                  rq_err := try_put err (rq_err r) |}) <$> heap c !! p
                    else heap c !! p.
Proof.
  intros Hi Hp. apply (for_each_spec req_open); [|by apply NoDup_pointers|done].
  intros p c' r Hr (_ & _ & H3). eapply on_request_Ret; [done|].
  unfold on_err. by rewrite chan_try_send_open.
Qed.

(** ** Delivery *)
Definition delivered (msg : virtioMessage) (r : virtioRequest) : virtioRequest :=
  if bool_decide (vm_typ msg = "exec_output") then
    {| rq_id := rq_id r;
       rq_output := try_put {| out_stream := vm_stream msg; out_data := vm_data msg |} (rq_output r);
       rq_exit := rq_exit r; rq_err := rq_err r |}
  else if bool_decide (vm_typ msg = "exec_response") then
    closed_request {| rq_id := rq_id r; rq_output := rq_output r;
       rq_exit := chan_put {| exit_code := vm_exitCode msg; exit_signal := vm_signal msg |} (rq_exit r);
       rq_err := rq_err r |}
  else if bool_decide (vm_typ msg = "error") then
    closed_request {| rq_id := rq_id r; rq_output := rq_output r; rq_exit := rq_exit r;
       rq_err := chan_put (GuestError (vm_errMessage msg)) (rq_err r) |}
  else r.

(** What the reader needs of the request it delivers to. *)
Definition deliverable (msg : virtioMessage) (r : virtioRequest) : Prop :=
  (vm_typ msg = "exec_output" → ch_closed (rq_output r) = false)
  ∧ (final_message msg = true → req_live r).

Lemma dispatch_deliver_Ret msg ptr c r :
  heap c !! ptr = Some r → deliverable msg r →
  dispatch_deliver msg ptr c = Ret ((), set_heap (<[ptr := delivered msg r]> (heap c)) c).
Proof.
  intros Hr [Ho Hf]. unfold dispatch_deliver, delivered, final_message in *.
  pose proof (lookup_lt_Some _ _ _ Hr) as Hlt.
  destruct (bool_decide (vm_typ msg = "exec_output")) eqn:H1.
  { apply bool_decide_eq_true in H1. eapply on_request_Ret; [done|].
    unfold on_output. by rewrite chan_try_send_open by auto. }
  destruct (bool_decide (vm_typ msg = "exec_response")) eqn:H2.
  { destruct (Hf eq_refl) as (Hf1 & Hf2 & Hf3). unfold mbind, V_mbind.
    erewrite on_request_Ret; [|done|unfold on_exit; by rewrite Hf2].
    erewrite close_request_open; [|by apply list_lookup_insert_eq|unfold req_open; simpl; by rewrite Hf3].
    simpl. by rewrite list_insert_insert_eq, Hf2. }
  destruct (bool_decide (vm_typ msg = "error")) eqn:H3.
  { destruct (Hf eq_refl) as (Hf1 & Hf2 & Hf3). unfold mbind, V_mbind.
    erewrite on_request_Ret; [|done|unfold on_err; by rewrite Hf3].
    erewrite close_request_open; [|by apply list_lookup_insert_eq|unfold req_open; simpl; by rewrite Hf2].
    simpl. by rewrite list_insert_insert_eq, Hf3. }
  unfold mret, V_mret. rewrite list_insert_id by done. by destruct c.
Qed.

(** ** Interleaving *)
Inductive reader :=
| RIdle
| RDeliver (msg : virtioMessage) (req : nat)   (* between the two parts of dispatch *)
| RDone                                        (* after broadcastError *)
| RPanic.

Definition delivers_output (r : reader) : bool :=
  match r with RDeliver msg _ => bool_decide (vm_typ msg = "exec_output") | _ => false end.

(** What a caller receives from a channel of its request; [None]: it is closed. *)
Inductive taken :=
| TookOutput (v : option virtioOutput)
| TookExit (v : option virtioExit)
| TookErr (v : option virtio_error).

(** One receive by a caller on a channel of its request. *)
Inductive receives : taken → virtioRequest → virtioRequest → Prop :=
| recv_output r v ch : chan_recv (rq_output r) = Ret (v, ch) →
    receives (TookOutput v) r
      {| rq_id := rq_id r; rq_output := ch; rq_exit := rq_exit r; rq_err := rq_err r |}
| recv_exit r v ch : chan_recv (rq_exit r) = Ret (v, ch) →
    receives (TookExit v) r
      {| rq_id := rq_id r; rq_output := rq_output r; rq_exit := ch; rq_err := rq_err r |}
| recv_err r v ch : chan_recv (rq_err r) = Ret (v, ch) →
    receives (TookErr v) r
      {| rq_id := rq_id r; rq_output := rq_output r; rq_exit := rq_exit r; rq_err := ch |}.

(** What a step passes through the channels of the request [p], which was [r]. *)
Inductive vlabel :=
| Quiet
| Delivered (msg : virtioMessage) (p : nat) (r : option virtioRequest)
| Took (p : nat) (v : taken).

(** [race]: whether [Close] may come while the reader holds an output. *)
Inductive vstep (race : bool) : vlabel → virtioClient CS * reader → virtioClient CS * reader → Prop :=
| v_register c x c' rd : register c = Ret (x, c') → vstep race Quiet (c, rd) (c', rd)
| v_forget c id c' rd : forget id c = Ret ((), c') → vstep race Quiet (c, rd) (c', rd)
| v_conn c conn rd : vstep race Quiet (c, rd) (set_conn conn c, rd)
| v_receive c rd p r v r' : heap c !! p = Some r → receives v r r' →
    vstep race (Took p v) (c, rd) (set_heap (<[p := r']> (heap c)) c, rd)
| v_close c c' rd : race = true ∨ delivers_output rd = false → client_Close c = Ret ((), c') →
    vstep race Quiet (c, rd) (c', rd)
| v_lookup c msg x c' : dispatch_lookup msg c = Ret (x, c') →
    vstep race Quiet (c, RIdle) (c', match x with Some p => RDeliver msg p | None => RIdle end)
| v_deliver c msg p c' : dispatch_deliver msg p c = Ret ((), c') →
    vstep race (Delivered msg p (heap c !! p)) (c, RDeliver msg p) (c', RIdle)
| v_deliver_panic c msg p : dispatch_deliver msg p c = Panic →
    vstep race Quiet (c, RDeliver msg p) (c, RPanic)
| v_fail c err c' : broadcastError err c = Ret ((), c') → vstep race Quiet (c, RIdle) (c', RDone)
| v_fail_panic c err : broadcastError err c = Panic → vstep race Quiet (c, RIdle) (c, RPanic).

Definition vmove (race : bool) (x y : virtioClient CS * reader) : Prop := ∃ l, vstep race l x y.

(** The requests of the table are open, and live while the reader runs; what
    the reader holds can be delivered. *)
Definition table_ok c (done : bool) : Prop :=
  inj_reqs c
  ∧ ∀ id p, reqs c !! id = Some p →
      ∃ r, heap c !! p = Some r ∧ req_open r ∧ (done = false → req_live r).
Definition is_done (rd : reader) : bool := match rd with RDone => true | _ => false end.

Definition reader_ok c (rd : reader) : Prop :=
  match rd with
  | RDeliver msg p =>
      ∃ r, heap c !! p = Some r ∧ deliverable msg r
      ∧ (final_message msg = true → ∀ id, reqs c !! id ≠ Some p)
  | RPanic => False
  | _ => True
  end.
Definition vinv (x : virtioClient CS * reader) : Prop :=
  table_ok x.1 (is_done x.2) ∧ reader_ok x.1 x.2.

Lemma receives_live v r r' : receives v r r' → (req_open r → req_open r') ∧ (req_live r → req_live r').
Proof.
  unfold req_open, req_live. intros [? w ch H|? w ch H|? w ch H]; simpl;
    rewrite ?(chan_recv_closed _ _ _ H); (split; [tauto|]).
  - tauto.
  - intros (? & He & ?). rewrite He in H. done.
  - intros (? & ? & He). rewrite He in H. done.
Qed.

Lemma receives_deliverable msg v r r' : receives v r r' → deliverable msg r → deliverable msg r'.
Proof.
  intros Hr [H1 H2]. split; [|intros Hf; by apply (receives_live v r r'); auto].
  intros Ht. specialize (H1 Ht). destruct Hr as [? w ch H|? w ch H|? w ch H]; simpl; [|done|done].
  by rewrite (chan_recv_closed _ _ _ H).
Qed.

(** Replacing a request in the heap by one as good. *)
Lemma table_ok_set c done p r r' :
  heap c !! p = Some r → (req_open r → req_open r') → (req_live r → req_live r') →
  table_ok c done → table_ok (set_heap (<[p := r']> (heap c)) c) done.
Proof.
  intros Hr Ho Hl [Hi Ht]. split; [exact Hi|]. intros id q Hq. simpl in *.
  destruct (Ht id q Hq) as (rq & Hrq & H1 & H2). destruct (decide (p = q)) as [->|Hne].
  - rewrite list_lookup_insert_eq by (by eapply lookup_lt_Some). simplify_eq. eauto 8.
  - rewrite list_lookup_insert_ne by done. eauto.
Qed.
End props.
