(* ===== verification/VirtioSafe.v ===== *)
(** * The reader never blocks, and when it panics

    [virtioClient.readLoop] and [dispatch] of [daemon/virtio.go], interleaved
    with [startExec], the receivers and [Close]: the reader always takes its next
    step unless [Close] closed a channel it is about to send on
    ([reader_never_stuck]). *)
From Stdlib Require Import Ascii.
From S2P Require Export VirtioProps.

Section safe.
Context `{C : Codec} `{OS : ConnOS CS}.
Implicit Types c : virtioClient CS.

Lemma table_pointers c done :
  table_ok c done → ∀ p, p ∈ pointers c → ∃ r, heap c !! p = Some r ∧ req_open r.
Proof. intros [_ Ht] p [id Hid]%elem_of_pointers. destruct (Ht _ _ Hid) as (r & ? & ? & _). eauto. Qed.

(** *** Each operation *)
Lemma table_ok_register c done x c' :
  register c = Ret (x, c') → table_ok c done →
  table_ok c' done ∧ ∀ p r, heap c !! p = Some r → heap c' !! p = Some r
                   ∧ ((∀ id, reqs c !! id ≠ Some p) → ∀ id, reqs c' !! id ≠ Some p).
Proof.
  intros [= _ <-] [Hi Ht]. unfold table_ok, inj_reqs. cbn [reqs heap]. set (id := uint32_of _).
  assert (Hlt : ∀ id p, reqs c !! id = Some p → (p < length (heap c))%nat).
  { intros i p Hp. destruct (Ht _ _ Hp) as (r & Hr & _). by eapply lookup_lt_Some. }
  split; [split|].
  - intros i j p. rewrite !lookup_insert_Some. intros [[<- <-]|[Hne Hp]] [[<- Hq]|[Hne' Hq]]; [done| | |].
    + apply Hlt in Hq. lia.
    + subst p. apply Hlt in Hp. lia.
    + by eapply Hi.
  - intros i p. rewrite lookup_insert_Some. intros [[<- <-]|[Hne Hp]].
    + eexists. rewrite lookup_app_r, Nat.sub_diag by done. split; [done|]. by split.
    + destruct (Ht _ _ Hp) as (r & Hr & ?). exists r. split; [by apply lookup_app_l_Some|done].
  - intros p r Hr. split; [by apply lookup_app_l_Some|]. intros Hp i.
    rewrite lookup_insert_Some. intros [[_ <-]|[_ H]]; [|by eapply Hp].
    apply lookup_lt_Some in Hr. lia.
Qed.

Lemma table_ok_sub c c' done :
  heap c' = heap c → reqs c' ⊆ reqs c → table_ok c done → table_ok c' done.
Proof.
  intros Hh Hs [Hi Ht]. split.
  - intros i j p Hp Hq. eapply Hi; by eapply lookup_weaken.
  - intros i p Hp. rewrite Hh. eapply Ht. by eapply lookup_weaken.
Qed.

Lemma reader_ok_sub c c' rd :
  heap c' = heap c → reqs c' ⊆ reqs c → reader_ok c rd → reader_ok c' rd.
Proof.
  intros Hh Hs. destruct rd as [|msg p| |]; try done. intros (r & Hr & Hd & Hf).
  exists r. rewrite Hh. split_and!; try done. intros Hm id Hid. eapply Hf; [done|by eapply lookup_weaken].
Qed.

Lemma vinv_close c c' rd :
  delivers_output rd = false → client_Close c = Ret ((), c') → vinv (c, rd) → vinv (c', rd).
Proof.
  intros Hrd Hc [Ht Hr]. cbn [fst snd] in *.
  destruct (client_Close_Ret c) as (c'' & Hc' & Hspec); [by destruct Ht|by eapply table_pointers|].
  rewrite Hc' in Hc. injection Hc as ->. destruct (vc_closed c); [by subst c'|].
  destruct Hspec as [He Hh]. split.
  - split; [intros i j p|intros i p]; cbn; by rewrite He, lookup_empty.
  - destruct rd as [|msg p| |]; try done. destruct Hr as (r & Hr & [Ho Hl] & Hf).
    cbn in Hrd |- *. apply bool_decide_eq_false in Hrd. rewrite Hh.
    destruct (decide (p ∈ pointers c)) as [Hin|Hin].
    + apply elem_of_pointers in Hin as [id Hid]. exists (closed_request r). rewrite Hr.
      split; [done|].
      destruct (final_message msg) eqn:E; [by destruct (Hf eq_refl id)|].
      split; [|done]. split; [done|congruence].
    + exists r. split; [done|]. split; [done|]. intros _ id. by rewrite He, lookup_empty.
Qed.

Lemma vinv_fail c err c' :
  broadcastError err c = Ret ((), c') → vinv (c, RIdle) → vinv (c', RDone).
Proof.
  intros Hb [[Hi Ht] _]. cbn [fst snd] in *.
  destruct (broadcastError_Ret err c Hi) as (h & Hb' & Hh); [by eapply table_pointers; split|].
  rewrite Hb' in Hb. injection Hb as <-. split; [|done]. split; [exact Hi|].
  intros id p Hp. destruct (Ht _ _ Hp) as (r & Hr & (H1 & H2 & H3) & _).
  cbn [fst snd set_heap heap reqs] in *. rewrite Hh, decide_True by (apply elem_of_pointers; eauto).
  rewrite Hr. eexists. split; [done|]. split; [|done]. split_and!; cbn; [done|done|].
  by rewrite try_put_closed.
Qed.

Lemma vinv_lookup c msg x c' :
  dispatch_lookup msg c = Ret (x, c') → vinv (c, RIdle) →
  vinv (c', match x with Some p => RDeliver msg p | None => RIdle end).
Proof.
  unfold dispatch_lookup. intros H [[Hi Ht] _]. cbn [fst snd is_done] in *.
  destruct (reqs c !! vm_id msg) as [p|] eqn:E; injection H as <- <-; [|by split].
  destruct (Ht _ _ E) as (r & Hr & Ho & Hl).
  assert (Hsub : reqs (if final_message msg then set_reqs (delete (vm_id msg) (reqs c)) c else c) ⊆ reqs c).
  { destruct (final_message msg); [cbn; apply delete_subseteq|done]. }
  split.
  - eapply table_ok_sub; [|exact Hsub|by split]. by destruct (final_message msg).
  - exists r. split; [by destruct (final_message msg)|]. split.
    + split; [intros _; apply Ho|intros _; by apply Hl].
    + intros Hf id. cbn. rewrite Hf. cbn. intros [Hne Hid]%lookup_delete_Some.
      by specialize (Hi _ _ _ E Hid).
Qed.

Lemma vinv_deliver c msg p c' :
  dispatch_deliver msg p c = Ret ((), c') → vinv (c, RDeliver msg p) → vinv (c', RIdle).
Proof.
  intros Hd [[Hi Ht] (r & Hr & Hdel & Hf)]. cbn [fst snd is_done] in *.
  rewrite (dispatch_deliver_Ret msg p c r Hr Hdel) in Hd. injection Hd as <-. split; [|done].
  split; [exact Hi|]. intros id q Hq. cbn [fst heap set_heap reqs] in *.
  destruct (Ht _ _ Hq) as (rq & Hrq & Ho & Hl). destruct (decide (q = p)) as [->|Hne].
  - rewrite list_lookup_insert_eq by (by eapply lookup_lt_Some). eexists. split; [done|].
    simplify_eq. unfold delivered, final_message in *.
    destruct (bool_decide (vm_typ msg = "exec_output")) eqn:H1.
    { destruct Hl as (L1 & L2 & L3); [done|]. unfold req_open, req_live. cbn.
      rewrite try_put_closed, L2, L3. by split_and!. }
    destruct (bool_decide (vm_typ msg = "exec_response")) eqn:H2; [by destruct (Hf eq_refl id)|].
    destruct (bool_decide (vm_typ msg = "error")) eqn:H3; [by destruct (Hf eq_refl id)|]. by split.
  - rewrite list_lookup_insert_ne by done. eauto.
Qed.

Lemma vinv_receive c rd p r v r' :
  heap c !! p = Some r → receives v r r' → vinv (c, rd) →
  vinv (set_heap (<[p := r']> (heap c)) c, rd).
Proof.
  intros Hr Hrec [Ht Hrd]. destruct (receives_live _ _ _ Hrec) as [Ho Hl]. split.
  - by eapply table_ok_set.
  - destruct rd as [|msg q| |]; try done. destruct Hrd as (rq & Hrq & Hd & Hf). cbn [fst snd] in *.
    unfold reader_ok. cbn. destruct (decide (p = q)) as [->|Hne].
    + rewrite list_lookup_insert_eq by (by eapply lookup_lt_Some). exists r'. simplify_eq.
      split_and!; [done|by eapply receives_deliverable|done].
    + rewrite list_lookup_insert_ne by done. eauto.
Qed.

Lemma vstep_inv x x' : vinv x → vmove false x x' → vinv x'.
Proof.
  intros Hx [l Hstep].
  destruct Hstep as [c x c' rd H|c id c' rd H|c conn rd|c rd p r v r' Hr H|c c' rd [H0|H0] H
                    |c msg x c' H|c msg p c' H|c msg p H|c err c' H|c err H].
  - destruct Hx as [Ht Hrd]. cbn [fst snd] in *.
    destruct (table_ok_register _ _ _ _ H Ht) as [Ht' Hk]. split; [done|].
    destruct rd as [|msg p| |]; try done. destruct Hrd as (r & Hr & Hd & Hf).
    destruct (Hk _ _ Hr) as [Hr' Hf']. exists r. split_and!; [done|done|auto].
  - injection H as <-. destruct Hx as [Ht Hrd].
    split; [by eapply table_ok_sub, Ht; [|apply delete_subseteq]
           |by eapply reader_ok_sub, Hrd; [|apply delete_subseteq]].
  - exact Hx.
  - by eapply vinv_receive.
  - done.
  - by eapply vinv_close.
  - by eapply vinv_lookup.
  - by eapply vinv_deliver.
  - exfalso. destruct Hx as [_ (r & Hr & Hd & _)]. cbn [fst snd] in *.
    by rewrite (dispatch_deliver_Ret msg p c r Hr Hd) in H.
  - by eapply vinv_fail.
  - exfalso. destruct Hx as [Ht _]. cbn [fst snd] in *.
    destruct (broadcastError_Ret err c) as (h & Hb & _);
      [by destruct Ht|by eapply table_pointers|congruence].
Qed.

Definition new_client (conn : CS) : virtioClient CS :=
  {| nextID := 0; reqs := ∅; vc_closed := false; heap := []; vc_conn := conn |}.

Lemma vinv_new conn : vinv (new_client conn, RIdle).
Proof. split; [|done]. split; [intros i j p|intros i p]; cbn; by rewrite lookup_empty. Qed.

(** C15: however the calls of startExec, the reader, the receivers and Close
    interleave, as long as Close does not come between the reader's lookup of
    an output's request and its delivery, no channel operation of the client
    goes wrong: the reader never panics, what it holds it delivers without
    blocking, and Close and broadcastError neither panic nor block. *)
Theorem reader_never_stuck conn c rd :
  star (vmove false) (new_client conn, RIdle) (c, rd) →
  rd ≠ RPanic
  ∧ (∀ msg p, rd = RDeliver msg p → ∃ c', dispatch_deliver msg p c = Ret ((), c'))
  ∧ (∃ c', client_Close c = Ret ((), c'))
  ∧ (∀ err, ∃ c', broadcastError err c = Ret ((), c')).
Proof.
  intros Hr. destruct (star_invariant _ vinv vstep_inv _ _ Hr (vinv_new conn)) as [Ht Hrd].
  cbn [fst snd] in *. split; [by intros ->|]. split; [|split].
  - intros msg p ->. destruct Hrd as (r & Hr' & Hd & _). eexists. by eapply dispatch_deliver_Ret.
  - destruct (client_Close_Ret c) as (c' & ? & _); [by destruct Ht|by eapply table_pointers|eauto].
  - intros err. destruct (broadcastError_Ret err c) as (h & ? & _);
      [by destruct Ht|by eapply table_pointers|eauto].
Qed.
End safe.
