(* ===== verification/VirtioExec.v ===== *)
(** * From the bytes of the guest to the result of a command

    The composition of [readFrame], [dispatch] and [collectExecOutput] of
    [daemon/virtio.go]: the outputs and the exit of a request, among the messages
    of others, become its result ([exec_result_arrives]). *)
From Stdlib Require Import Ascii.
From S2P Require Export VirtioSafe.

(** What a caller makes of the outputs it received. *)
Definition stdout_of (outs : list virtioOutput) : list byte :=
  mjoin (map out_data (filter (λ o, out_stream o ≠ "stderr") outs)).
Definition stderr_of (outs : list virtioOutput) : list byte :=
  mjoin (map out_data (filter (λ o, out_stream o = "stderr") outs)).

Lemma stdout_of_cons o outs :
  stdout_of (o :: outs) = (if bool_decide (out_stream o = "stderr") then [] else out_data o) ++ stdout_of outs.
Proof.
  unfold stdout_of. rewrite filter_cons. case_bool_decide.
  - by rewrite decide_False by (intros ?; done).
  - by rewrite decide_True by done.
Qed.
Lemma stderr_of_cons o outs :
  stderr_of (o :: outs) = (if bool_decide (out_stream o = "stderr") then out_data o else []) ++ stderr_of outs.
Proof.
  unfold stderr_of. rewrite filter_cons. case_bool_decide; [by rewrite decide_True|by rewrite decide_False].
Qed.

(** A request whose command ended: closed, with its exit and its outputs. *)
Definition finished (outs : list virtioOutput) (e : virtioExit) (r : virtioRequest) : Prop :=
  ch_buf (rq_output r) = outs ∧ ch_closed (rq_output r) = true
  ∧ ch_buf (rq_exit r) = [e] ∧ ch_buf (rq_err r) = [] ∧ ch_closed (rq_err r) = true.

Definition result_of (o e : list byte) (outs : list virtioOutput) (code : Z) : exec_result :=
  {| er_stdout := o ++ stdout_of outs; er_stderr := e ++ stderr_of outs; er_exit := code;
     er_err := None |}.

(** Any choices give, if anything, the exit code and a prefix of the outputs. *)
Lemma collect_prefix choices : ∀ outs x o e r,
  finished outs x r →
  collectExecOutput choices o e r = None
  ∨ ∃ k, collectExecOutput choices o e r = Some (result_of o e (take k outs) (exit_code x)).
Proof.
  induction choices as [|ch choices IH]; intros outs x o e r Hf; [by left|].
  pose proof Hf as (H1 & H2 & H3 & H4 & H5). destruct ch; cbn [collectExecOutput].
  - unfold chan_recv. destruct (ch_buf (rq_output r)) as [|out buf] eqn:Eb.
    + rewrite H2. destruct (IH outs x o e {| rq_id := rq_id r; rq_output := rq_output r;
        rq_exit := rq_exit r; rq_err := rq_err r |}) as [?|?]; [|by left|by right].
      destruct r. exact Hf.
    + subst outs. set (r' := {| rq_id := _; rq_output := _; rq_exit := _; rq_err := _ |}).
      assert (Hf' : finished buf x r') by (by split_and!).
      case_bool_decide as Es.
      * destruct (IH buf x o (e ++ out_data out) r' Hf') as [?|[k Hk]]; [by left|right].
        exists (S k). rewrite Hk. unfold result_of. cbn [take].
        rewrite stdout_of_cons, stderr_of_cons, bool_decide_true by done. by rewrite <-app_assoc.
      * destruct (IH buf x (o ++ out_data out) e r' Hf') as [?|[k Hk]]; [by left|right].
        exists (S k). rewrite Hk. unfold result_of. cbn [take].
        rewrite stdout_of_cons, stderr_of_cons, bool_decide_false by done. by rewrite <-app_assoc.
  - unfold chan_recv. rewrite H3. right. exists 0%nat. unfold result_of, stdout_of, stderr_of.
    cbn. by rewrite !app_nil_r.
  - unfold chan_recv. rewrite H4, H5. by apply IH.
Qed.

(** Choices that take the outputs first give everything. *)
Lemma collect_outputs_first n : ∀ outs x o e r,
  finished outs x r → (length outs ≤ n)%nat →
  collectExecOutput (replicate n SelOutput ++ [SelExit]) o e r
  = Some (result_of o e outs (exit_code x)).
Proof.
  induction n as [|n IH]; intros outs x o e r Hf Hn; pose proof Hf as (H1 & H2 & H3 & H4 & H5);
    cbn [replicate app collectExecOutput].
  - destruct outs; [|simpl in Hn; lia]. unfold chan_recv. rewrite H3.
    unfold result_of, stdout_of, stderr_of. cbn. by rewrite !app_nil_r.
  - unfold chan_recv. destruct (ch_buf (rq_output r)) as [|out buf] eqn:Eb; subst outs.
    + rewrite H2. apply IH; [by destruct r|simpl in *; lia].
    + case_bool_decide as Es; erewrite IH by (done || simpl in *; lia); unfold result_of;
        rewrite stdout_of_cons, stderr_of_cons;
        [rewrite bool_decide_true by done|rewrite bool_decide_false by done]; by rewrite <-app_assoc.
Qed.

(** The outputs among the messages. *)
Definition output_of (msg : virtioMessage) : virtioOutput :=
  {| out_stream := vm_stream msg; out_data := vm_data msg |}.
Definition outputs_for (id : Z) (msgs : list virtioMessage) : list virtioOutput :=
  map output_of (filter (λ m, vm_id m = id) msgs).

Lemma outputs_for_cons id m msgs :
  outputs_for id (m :: msgs)
  = if decide (vm_id m = id) then [output_of m] ++ outputs_for id msgs else outputs_for id msgs.
Proof. unfold outputs_for. rewrite filter_cons. by destruct (decide _). Qed.

Section exec.
Context `{C : Codec} `{OS : ConnOS CS}.
Implicit Types c : virtioClient CS.

(** ** One message *)
Lemma dispatch_spec msg c :
  table_ok c false →
  ∃ c', dispatch msg c = Ret ((), c') ∧ table_ok c' false
  ∧ match reqs c !! vm_id msg with
    | None => c' = c
    | Some p =>
        reqs c' = (if final_message msg then delete (vm_id msg) (reqs c) else reqs c)
        ∧ ∃ r, heap c !! p = Some r ∧ req_live r ∧ heap c' = <[p := delivered msg r]> (heap c)
    end.
Proof.
  intros Ht. unfold dispatch, mbind, V_mbind.
  assert (Hv : vinv (c, RIdle)) by (by split).
  destruct (dispatch_lookup msg c) as [[x c1]| |] eqn:El;
    [|by unfold dispatch_lookup in El; destruct (_ !! _)
     |by unfold dispatch_lookup in El; destruct (_ !! _)].
  pose proof (vinv_lookup _ _ _ _ El Hv) as Hv1.
  unfold dispatch_lookup in El. destruct (reqs c !! vm_id msg) as [p|] eqn:E; injection El as <- <-.
  2: { exists c. by split_and!. }
  pose proof Hv1 as [_ (r & Hr & Hd & Hf)]. cbn [fst snd] in *.
  assert (Hdel : dispatch_deliver msg p
      (if final_message msg then set_reqs (delete (vm_id msg) (reqs c)) c else c) = Ret ((), _))
    by (by apply dispatch_deliver_Ret).
  pose proof (vinv_deliver _ _ _ _ Hdel Hv1) as [Ht2 _].
  eexists. split; [exact Hdel|]. split; [exact Ht2|].
  assert (Hr' : heap c !! p = Some r) by (by destruct (final_message msg)).
  split; [by destruct (final_message msg)|]. exists r. split; [done|]. split.
  - destruct Ht as [_ Ht]. destruct (Ht _ _ E) as (r0 & ? & _ & Hl). simplify_eq. by apply Hl.
  - by destruct (final_message msg).
Qed.

(** A list of messages, one after the other. *)
Fixpoint dispatch_all (msgs : list virtioMessage) : V CS () :=
  match msgs with
  | [] => mret ()
  | m :: msgs' => _ ← dispatch m; dispatch_all msgs'
  end.

Lemma dispatch_all_app l1 l2 c :
  dispatch_all (l1 ++ l2) c = (_ ← dispatch_all l1; dispatch_all l2) c.
Proof.
  revert c. induction l1 as [|m l1 IH]; intros c; [done|]. cbn [app dispatch_all].
  unfold mbind, V_mbind in *. destruct (dispatch m c) as [[[] c1]| |]; [apply IH|done|done].
Qed.

(** The request [p] of [id] gets the outputs of its messages, up to the
    capacity. *)
Definition holds (p : nat) (outs : list virtioOutput) c : Prop :=
  ∃ r, heap c !! p = Some r ∧ req_live r ∧ ch_cap (rq_output r) = 32%nat
       ∧ ch_buf (rq_output r) = take 32 outs.

Lemma take_snoc_cap {A} (l : list A) x n :
  (if (length (take n l) <? n)%nat then take n l ++ [x] else take n l) = take n (l ++ [x]).
Proof.
  rewrite length_take. destruct (_ <? _)%nat eqn:E.
  - apply Nat.ltb_lt in E. rewrite !take_ge; [done|rewrite length_app; simpl; lia|lia].
  - apply Nat.ltb_ge in E. rewrite take_app_le by lia. done.
Qed.

Lemma dispatch_outputs id p msgs : ∀ c outs,
  table_ok c false → reqs c !! id = Some p → holds p outs c →
  Forall (λ m, vm_id m = id → vm_typ m = "exec_output") msgs →
  ∃ c', dispatch_all msgs c = Ret ((), c') ∧ table_ok c' false ∧ reqs c' !! id = Some p
    ∧ holds p (outs ++ outputs_for id msgs) c'.
Proof.
  induction msgs as [|m msgs IH]; intros c outs Ht Hp Hh Hm.
  { exists c. unfold outputs_for. cbn. rewrite app_nil_r. by split_and!. }
  apply Forall_cons in Hm as [Hm Hms]. destruct (dispatch_spec m c Ht) as (c1 & Hd & Ht1 & Hspec).
  assert (Hnext : reqs c1 !! id = Some p
                  ∧ holds p (if decide (vm_id m = id) then outs ++ [output_of m] else outs) c1).
  { destruct Hh as (r & Hr & Hl & Hcap & Hbuf). destruct (decide (vm_id m = id)) as [Heq|Hne].
    - rewrite Heq, Hp in Hspec. destruct Hspec as (Hreqs & r0 & Hr0 & _ & Hheap).
      assert (Hty : vm_typ m = "exec_output") by auto.
      assert (Hnf : final_message m = false) by (unfold final_message; by rewrite Hty).
      rewrite Hnf in Hreqs. rewrite Hreqs. split; [done|]. simplify_eq.
      exists (delivered m r). rewrite Hheap, list_lookup_insert_eq by (by eapply lookup_lt_Some).
      unfold delivered. rewrite bool_decide_true by done. split; [done|].
      destruct Hl as (L1 & L2 & L3). split_and!; cbn; [split_and!; cbn; by rewrite ?try_put_closed| |];
        unfold try_put; rewrite Hcap, Hbuf.
      + by destruct (_ <? _)%nat.
      + rewrite <-take_snoc_cap. destruct (length (take 32 outs) <? 32)%nat; cbn [ch_buf chan_put];
          by rewrite Hbuf.
    - destruct (reqs c !! vm_id m) as [q|] eqn:Eq; [|subst c1; split; [done|by exists r]].
      destruct Hspec as (Hreqs & r0 & Hr0 & _ & Hheap).
      assert (Hpq : p ≠ q) by (intros ->; destruct Ht as [Hi _]; by specialize (Hi _ _ _ Eq Hp)).
      split.
      + rewrite Hreqs. destruct (final_message m); [|done]. by rewrite lookup_delete_ne.
      + exists r. rewrite Hheap, list_lookup_insert_ne by done. by split_and!. }
  destruct Hnext as [Hp1 Hh1]. destruct (IH c1 _ Ht1 Hp1 Hh1 Hms) as (c2 & Hd2 & Ht2 & Hp2 & Hh2).
  exists c2. cbn [dispatch_all]. unfold mbind, V_mbind. rewrite Hd. split_and!; try done.
  rewrite outputs_for_cons. destruct (decide (vm_id m = id)); [|done]. by rewrite <-app_assoc in Hh2.
Qed.

(** A request nothing points to is left alone. *)
Lemma dispatch_untouched p msgs : ∀ c,
  table_ok c false → (∀ i, reqs c !! i ≠ Some p) →
  ∃ c', dispatch_all msgs c = Ret ((), c') ∧ table_ok c' false
    ∧ (∀ i, reqs c' !! i ≠ Some p) ∧ heap c' !! p = heap c !! p.
Proof.
  induction msgs as [|m msgs IH]; intros c Ht Hn; [by exists c|].
  destruct (dispatch_spec m c Ht) as (c1 & Hd & Ht1 & Hspec).
  assert (Hn1 : (∀ i, reqs c1 !! i ≠ Some p) ∧ heap c1 !! p = heap c !! p).
  { destruct (reqs c !! vm_id m) as [q|] eqn:Eq; [|by subst].
    destruct Hspec as (Hreqs & r0 & Hr0 & _ & Hheap). rewrite Hheap. split.
    - intros i. rewrite Hreqs. destruct (final_message m); [|done].
      intros [_ H]%lookup_delete_Some. by eapply Hn.
    - apply list_lookup_insert_ne. intros ->. by eapply Hn. }
  destruct Hn1 as [Hn1 Hh1]. destruct (IH c1 Ht1 Hn1) as (c2 & Hd2 & Ht2 & Hn2 & Hh2).
  exists c2. cbn [dispatch_all]. unfold mbind, V_mbind. rewrite Hd. split_and!; try done. congruence.
Qed.

Lemma readLoop_frames frames msgs :
  Forall2 (λ f m, decodeVirtioMessage f = Good m) frames msgs →
  Forall (λ f, Z.of_nat (length f) ≤ maxVirtioFrame) frames →
  ∀ fuel c c', (length frames < fuel)%nat → dispatch_all msgs c = Ret ((), c') →
  readLoop fuel (mjoin (map encode_frame frames)) c = broadcastError (ReadFailed ReadEOF) c'.
Proof.
  induction 1 as [|f m frames msgs Hd _ IH]; intros Hlen fuel c c' Hfuel Hall;
    (destruct fuel as [|fuel]; [simpl in Hfuel; lia|]).
  - cbn in Hall. by injection Hall as <-.
  - apply Forall_cons in Hlen as [Hf Hlen]. cbn [readLoop map].
    change (mjoin (encode_frame f :: map encode_frame frames))
      with (encode_frame f ++ mjoin (map encode_frame frames)).
    rewrite readFrame_encode by done. rewrite Hd. cbn [dispatch_all] in Hall.
    unfold mbind, V_mbind in *. destruct (dispatch m c) as [[[] c1]| |]; try done.
    apply IH; [done|simpl in Hfuel; lia|done].
Qed.

(** The stream is longer than the number of its frames. *)
Lemma frames_length frames :
  (length frames ≤ length (mjoin (map encode_frame frames)))%nat.
Proof.
  induction frames as [|f frames IH]; [done|]. cbn [map length].
  change (mjoin (encode_frame f :: map encode_frame frames))
    with (encode_frame f ++ mjoin (map encode_frame frames)).
  rewrite length_app. unfold encode_frame at 1. rewrite length_app, length_PutUint32. lia.
Qed.

(** C22: a command's result comes back: when the guest sends, among the
    messages of other requests and in any number of frames, the outputs of a
    request and then its exit, the reader consumes the stream, and what
    collectExecOutput returns, whatever cases select picks, is the exit code
    with a prefix of the outputs in order, split by stream.  Taking the outputs
    first gives all the channel kept: the first 32 if nothing was received
    meanwhile. *)
Theorem exec_result_arrives conn c id p r frames pre resp post :
  star (vmove false) (new_client conn, RIdle) (c, RIdle) →
  reqs c !! id = Some p → heap c !! p = Some r → rq_output r = make_chan 32 →
  Forall2 (λ f m, decodeVirtioMessage f = Good m) frames (pre ++ resp :: post) →
  Forall (λ f, Z.of_nat (length f) ≤ maxVirtioFrame) frames →
  Forall (λ m, vm_id m = id → vm_typ m = "exec_output") pre →
  vm_id resp = id → vm_typ resp = "exec_response" →
  let stream := mjoin (map encode_frame frames) in
  let outs := take 32 (outputs_for id pre) in
  ∃ c' r', readLoop (readLoop_fuel stream) stream c = Ret ((), c') ∧ heap c' !! p = Some r'
  ∧ (∀ choices, collectExecOutput choices [] [] r' = None
       ∨ ∃ k, collectExecOutput choices [] [] r'
              = Some (result_of [] [] (take k outs) (vm_exitCode resp)))
  ∧ collectExecOutput (replicate 32 SelOutput ++ [SelExit]) [] [] r'
    = Some (result_of [] [] outs (vm_exitCode resp)).
Proof.
  intros Hrun Hp Hr Hfresh Hdec Hlen Hpre Hid Hty stream outs.
  destruct (star_invariant _ vinv vstep_inv _ _ Hrun (vinv_new conn)) as [Ht _].
  cbn [fst snd is_done] in Ht.
  assert (Hlive : req_live r).
  { destruct Ht as [_ Ht]. destruct (Ht _ _ Hp) as (r0 & ? & _ & Hl). simplify_eq. by apply Hl. }
  destruct (dispatch_outputs id p pre c [] Ht Hp) as (c1 & Hd1 & Ht1 & Hp1 & Hh1); [|done|].
  { exists r. rewrite Hfresh. by split_and!. }
  destruct (dispatch_spec resp c1 Ht1) as (c2 & Hd2 & Ht2 & Hspec).
  rewrite Hid, Hp1 in Hspec. destruct Hspec as (Hreqs & r1 & Hr1 & _ & Hheap).
  assert (Hfm : final_message resp = true) by (unfold final_message; by rewrite Hty).
  rewrite Hfm in Hreqs.
  assert (Hun : ∀ i, reqs c2 !! i ≠ Some p).
  { intros i. rewrite Hreqs. intros [Hne H]%lookup_delete_Some. destruct Ht1 as [Hi _].
    by specialize (Hi _ _ _ Hp1 H). }
  destruct (dispatch_untouched p post c2 Ht2 Hun) as (c3 & Hd3 & Ht3 & Hun3 & Hh3).
  assert (Hall : dispatch_all (pre ++ resp :: post) c = Ret ((), c3)).
  { rewrite dispatch_all_app. unfold mbind, V_mbind. rewrite Hd1. cbn [dispatch_all].
    unfold mbind, V_mbind. by rewrite Hd2. }
  destruct (broadcastError_Ret (ReadFailed ReadEOF) c3) as (h & Hb & Hhb);
    [by destruct Ht3|by eapply table_pointers|].
  exists (set_heap h c3), (delivered resp r1). split; [|split].
  - unfold stream. etrans; [|exact Hb]. eapply readLoop_frames; [done|done| |done].
    unfold readLoop_fuel. pose proof (frames_length frames). lia.
  - cbn. rewrite Hhb, decide_False, Hh3, Hheap; [by apply list_lookup_insert_eq, (lookup_lt_Some _ _ r1)|].
    rewrite elem_of_pointers. intros [i Hi]. by eapply Hun3.
  - assert (Hfin : finished outs {| exit_code := vm_exitCode resp; exit_signal := vm_signal resp |}
                     (delivered resp r1)).
    { destruct Hh1 as (r2 & Hr2 & (L1 & L2 & L3) & _ & Hbuf).
      rewrite Hr1 in Hr2. injection Hr2 as <-. unfold delivered. rewrite Hty.
      rewrite bool_decide_false, bool_decide_true by done. unfold finished. cbn. rewrite L2, L3, Hbuf. by split_and!. }
    split.
    + intros choices. by apply (collect_prefix choices _ _ [] [] _ Hfin).
    + apply (collect_outputs_first 32 _ _ [] [] _ Hfin). unfold outs. rewrite length_take. lia.
Qed.
End exec.
