(* ===== verification/VirtioFlow.v ===== *)
(** * What reaches the caller of a command, in every interleaving

    Runs of the client of [daemon/virtio.go] with what each step passes through
    the channels of a request: the reader's deliveries on one side, the receives
    of [collectExecOutput] and of the loop of [ExecStream] on the other.  [Close]
    may come at any moment.  A caller only ever sees its own command
    ([console_faithful]), and none is answered once the reader has ended
    ([silent_after_reader]). *)
From Stdlib Require Import Ascii.
From S2P Require Export VirtioExec.

(** ** What a run passes through a request's channels *)
Definition sent_by (p : nat) (l : vlabel) : option virtioMessage :=
  match l with Delivered msg q _ => if decide (q = p) then Some msg else None | _ => None end.
Definition sent_to (p : nat) (ls : list vlabel) : list virtioMessage := omap (sent_by p) ls.

Definition exit_in (m : virtioMessage) : virtioExit :=
  {| exit_code := vm_exitCode m; exit_signal := vm_signal m |}.
Definition outputs_in (ms : list virtioMessage) : list virtioOutput :=
  map output_of (filter (λ m, vm_typ m = "exec_output") ms).
Definition exits_in (ms : list virtioMessage) : list virtioExit :=
  map exit_in (filter (λ m, vm_typ m = "exec_response") ms).

Definition output_by (p : nat) (l : vlabel) : option virtioOutput :=
  match l with Took q (TookOutput v) => if decide (q = p) then v else None | _ => None end.
Definition exit_by (p : nat) (l : vlabel) : option virtioExit :=
  match l with Took q (TookExit v) => if decide (q = p) then v else None | _ => None end.
Definition outputs_taken (p : nat) (ls : list vlabel) : list virtioOutput := omap (output_by p) ls.
Definition exits_taken (p : nat) (ls : list vlabel) : list virtioExit := omap (exit_by p) ls.

(** An output that is delivered to [p] finds room in its channel. *)
Definition found_room (p : nat) (l : vlabel) : bool :=
  match l with
  | Delivered msg q (Some r) =>
      negb (bool_decide (q = p) && bool_decide (vm_typ msg = "exec_output"))
      || (length (ch_buf (rq_output r)) <? ch_cap (rq_output r))%nat
  | _ => true
  end.

(** What the caller of [r] received, and what waits for it in the channels, came
    from the guest's messages for [r], in order. *)
Record flows (p : nat) (ls : list vlabel) (r : virtioRequest) : Prop := {
  fl_ids : Forall (λ m, vm_id m = rq_id r) (sent_to p ls);
  fl_out : sublist (outputs_taken p ls ++ ch_buf (rq_output r)) (outputs_in (sent_to p ls));
  fl_all : forallb (found_room p) ls = true →
           outputs_taken p ls ++ ch_buf (rq_output r) = outputs_in (sent_to p ls);
  fl_cap : ch_cap (rq_output r) = 32%nat ∧ (length (ch_buf (rq_output r)) ≤ 32)%nat;
  fl_exit : exits_taken p ls ++ ch_buf (rq_exit r) = exits_in (sent_to p ls)
}.

(** The same request with the same outputs and exit in its channels. *)
Definition same_results (r r' : virtioRequest) : Prop :=
  rq_id r' = rq_id r ∧ ch_buf (rq_output r') = ch_buf (rq_output r)
  ∧ ch_cap (rq_output r') = ch_cap (rq_output r) ∧ ch_buf (rq_exit r') = ch_buf (rq_exit r).
Definition same_content (r r' : virtioRequest) : Prop :=
  same_results r r' ∧ ch_buf (rq_err r') = ch_buf (rq_err r).

#[export] Instance same_results_pre : PreOrder same_results.
Proof.
  unfold same_results. split; [intros x; by split_and!|].
  intros x y z (?&?&?&?) (?&?&?&?). split_and!; congruence.
Qed.
#[export] Instance same_content_pre : PreOrder same_content.
Proof.
  unfold same_content, same_results. split; [intros x; by split_and!|].
  intros x y z [(?&?&?&?) ?] [(?&?&?&?) ?]. split_and!; congruence.
Qed.

Lemma sent_to_app p ls l : sent_to p (ls ++ l) = sent_to p ls ++ sent_to p l.
Proof. apply omap_app. Qed.
Lemma outputs_in_app l l' : outputs_in (l ++ l') = outputs_in l ++ outputs_in l'.
Proof. unfold outputs_in. by rewrite filter_app, map_app. Qed.
Lemma exits_in_app l l' : exits_in (l ++ l') = exits_in l ++ exits_in l'.
Proof. unfold exits_in. by rewrite filter_app, map_app. Qed.
Lemma outputs_taken_app p ls l : outputs_taken p (ls ++ l) = outputs_taken p ls ++ outputs_taken p l.
Proof. apply omap_app. Qed.
Lemma exits_taken_app p ls l : exits_taken p (ls ++ l) = exits_taken p ls ++ exits_taken p l.
Proof. apply omap_app. Qed.

(** A step that passes nothing through the channels of [p]. *)
Lemma flows_quiet p ls l r r' :
  sent_by p l = None → output_by p l = None → exit_by p l = None → same_results r r' →
  flows p ls r → flows p (ls ++ [l]) r'.
Proof.
  intros H1 H2 H3 (E1 & E2 & E3 & E4) [F1 F2 F3 F4 F5].
  assert (S : sent_to p (ls ++ [l]) = sent_to p ls).
  { rewrite sent_to_app. cbn. by rewrite H1, app_nil_r. }
  assert (O : outputs_taken p (ls ++ [l]) = outputs_taken p ls).
  { rewrite outputs_taken_app. cbn. by rewrite H2, app_nil_r. }
  assert (X : exits_taken p (ls ++ [l]) = exits_taken p ls).
  { rewrite exits_taken_app. cbn. by rewrite H3, app_nil_r. }
  split; rewrite ?S, ?O, ?X, ?E1, ?E2, ?E3, ?E4; try done.
  rewrite forallb_app. intros [H _]%andb_prop. by apply F3.
Qed.

(** A receive takes the first value, if there is one. *)
Lemma chan_recv_buf {A} (c : chan A) v ch :
  chan_recv c = Ret (v, ch) →
  ch_cap ch = ch_cap c ∧ ch_buf c = match v with Some x => [x] | None => [] end ++ ch_buf ch.
Proof.
  unfold chan_recv. destruct (ch_buf c) as [|x buf] eqn:E; [destruct (ch_closed c); [|done]|];
    intros [= <- <-]; by rewrite ?E.
Qed.

(** A receive from a channel of [p]. *)
Lemma flows_receive p ls v r r' :
  receives v r r' → flows p ls r → flows p (ls ++ [Took p v]) r'.
Proof.
  intros Hr [F1 F2 F3 [F4 F4'] F5].
  assert (S : sent_to p (ls ++ [Took p v]) = sent_to p ls).
  { rewrite sent_to_app. cbn. by rewrite app_nil_r. }
  assert (A : forallb (found_room p) (ls ++ [Took p v]) = true → forallb (found_room p) ls = true).
  { rewrite forallb_app. by intros [? _]%andb_prop. }
  destruct Hr as [r w ch H|r w ch H|r w ch H]; apply chan_recv_buf in H as [Hcap Hbuf].
  - assert (O : outputs_taken p (ls ++ [Took p (TookOutput w)]) ++ ch_buf ch
                = outputs_taken p ls ++ ch_buf (rq_output r)).
    { rewrite outputs_taken_app, Hbuf, <-app_assoc. f_equal. cbn. rewrite decide_True by done. by destruct w. }
    split; cbn [rq_id rq_output rq_exit]; rewrite ?S, ?O; auto.
    + rewrite Hcap. split; [done|]. rewrite Hbuf, length_app in F4'. lia.
    + rewrite exits_taken_app. cbn. by rewrite app_nil_r.
  - assert (O : outputs_taken p (ls ++ [Took p (TookExit w)]) = outputs_taken p ls).
    { rewrite outputs_taken_app. cbn. by rewrite app_nil_r. }
    split; cbn [rq_id rq_output rq_exit]; rewrite ?S, ?O; auto.
    rewrite exits_taken_app, <-F5, Hbuf, <-app_assoc. f_equal. cbn. rewrite decide_True by done. by destruct w.
  - by eapply flows_quiet.
Qed.

(** A delivery to [p]. *)
Definition takes (msg : virtioMessage) (r r' : virtioRequest) : Prop :=
  rq_id r' = rq_id r ∧ ch_cap (rq_output r') = ch_cap (rq_output r)
  ∧ ch_buf (rq_output r') = ch_buf (rq_output r)
      ++ (if bool_decide (vm_typ msg = "exec_output")
             && (length (ch_buf (rq_output r)) <? ch_cap (rq_output r))%nat
          then [output_of msg] else [])
  ∧ ch_buf (rq_exit r') = ch_buf (rq_exit r)
      ++ (if bool_decide (vm_typ msg = "exec_response") then [exit_in msg] else []).

Lemma flows_deliver p ls msg r r' :
  takes msg r r' → vm_id msg = rq_id r → flows p ls r →
  flows p (ls ++ [Delivered msg p (Some r)]) r'.
Proof.
  intros (E1 & E2 & E3 & E4) Hid [F1 F2 F3 [F4 F4'] F5].
  assert (S : sent_to p (ls ++ [Delivered msg p (Some r)]) = sent_to p ls ++ [msg]).
  { rewrite sent_to_app. cbn. by rewrite decide_True. }
  assert (O : outputs_taken p (ls ++ [Delivered msg p (Some r)]) = outputs_taken p ls).
  { rewrite outputs_taken_app. cbn. by rewrite app_nil_r. }
  assert (X : exits_taken p (ls ++ [Delivered msg p (Some r)]) = exits_taken p ls).
  { rewrite exits_taken_app. cbn. by rewrite app_nil_r. }
  assert (Hout : outputs_in [msg] = if bool_decide (vm_typ msg = "exec_output") then [output_of msg] else []).
  { unfold outputs_in. destruct (decide (vm_typ msg = "exec_output")).
    - rewrite filter_cons_True, bool_decide_true by done. by rewrite filter_nil.
    - rewrite filter_cons_False, bool_decide_false by done. by rewrite filter_nil. }
  assert (Hexit : exits_in [msg] = if bool_decide (vm_typ msg = "exec_response") then [exit_in msg] else []).
  { unfold exits_in. destruct (decide (vm_typ msg = "exec_response")).
    - rewrite filter_cons_True, bool_decide_true by done. by rewrite filter_nil.
    - rewrite filter_cons_False, bool_decide_false by done. by rewrite filter_nil. }
  split; rewrite ?S, ?O, ?X, ?E1, ?E2, ?E3, ?E4, ?outputs_in_app, ?exits_in_app.
  - apply Forall_app. split; [done|]. by constructor.
  - rewrite app_assoc. apply sublist_app; [done|]. rewrite Hout.
    destruct (bool_decide (vm_typ msg = "exec_output")); [|done]. cbn [andb].
    destruct (_ <? _)%nat; [done|apply sublist_nil_l].
  - rewrite forallb_app. intros [Hl Hr]%andb_prop. rewrite app_assoc, F3, Hout by done. f_equal.
    cbn [forallb found_room] in Hr. rewrite andb_true_r, bool_decide_true in Hr by done. cbn [andb] in Hr.
    destruct (bool_decide (vm_typ msg = "exec_output")); [|done]. cbn [negb orb] in Hr. by rewrite Hr.
  - split; [done|]. rewrite length_app. rewrite F4.
    destruct (Nat.ltb_spec (length (ch_buf (rq_output r))) 32);
      destruct (bool_decide (vm_typ msg = "exec_output")); simpl; lia.
  - by rewrite app_assoc, F5, Hexit.
Qed.

Section flow.
Context `{C : Codec} `{OS : ConnOS CS}.
Implicit Types c : virtioClient CS.

(** ** What each action leaves of the requests *)

(** Only the request [p] changes, and as [R] says. *)
Definition touches (R : virtioRequest → virtioRequest → Prop) (p : nat) c c' : Prop :=
  reqs c' = reqs c ∧ length (heap c') = length (heap c)
  ∧ (∀ q, q ≠ p → heap c' !! q = heap c !! q)
  ∧ ∀ r, heap c !! p = Some r → ∃ r', heap c' !! p = Some r' ∧ R r r'.

(** Every request keeps its content, and no other is made. *)
Definition keeps (R : virtioRequest → virtioRequest → Prop) c c' : Prop :=
  length (heap c') = length (heap c)
  ∧ ∀ p r, heap c !! p = Some r → ∃ r', heap c' !! p = Some r' ∧ R r r'.

Lemma touches_comp (R1 R2 R : virtioRequest → virtioRequest → Prop) p c c' c'' :
  (∀ x y z, R1 x y → R2 y z → R x z) →
  touches R1 p c c' → touches R2 p c' c'' → touches R p c c''.
Proof.
  intros HR (E1 & L1 & O1 & P1) (E2 & L2 & O2 & P2). split_and!; [congruence|congruence| |].
  - intros q Hq. by rewrite O2, O1.
  - intros r Hr. destruct (P1 r Hr) as (r1 & Hr1 & H1). destruct (P2 r1 Hr1) as (r2 & Hr2 & H2).
    exists r2. split; [done|by eapply HR].
Qed.

Lemma touches_trans R p c c' c'' `{HR : !Transitive R} :
  touches R p c c' → touches R p c' c'' → touches R p c c''.
Proof. apply touches_comp. exact HR. Qed.

Lemma touches_keeps R p c c' `{!Reflexive R} : touches R p c c' → keeps R c c'.
Proof.
  intros (_ & L & O & P). split; [done|]. intros q r Hr. destruct (decide (q = p)) as [->|Hne]; [by apply P|].
  exists r. by rewrite O.
Qed.

Lemma on_request_inv ptr f c c' :
  on_request ptr f c = Ret ((), c') →
  ∃ r r', heap c !! ptr = Some r ∧ f r = Ret r' ∧ heap c' !! ptr = Some r'
    ∧ touches (λ x x', f x = Ret x') ptr c c'.
Proof.
  unfold on_request. destruct (heap c !! ptr) as [r|] eqn:E; [|done].
  destruct (f r) as [r'| |] eqn:Ef; [|done|done]. intros [= <-].
  exists r, r'. pose proof (lookup_lt_Some _ _ _ E). unfold touches. cbn [reqs heap set_heap]. split_and!; try done.
  - by apply list_lookup_insert_eq.
  - apply length_insert.
  - intros q Hq. by apply list_lookup_insert_ne.
  - intros x Hx. rewrite E in Hx. injection Hx as <-. exists r'. split; [by apply list_lookup_insert_eq|done].
Qed.

Lemma touches_mono (R R' : virtioRequest → virtioRequest → Prop) p c c' :
  (∀ r r', R r r' → R' r r') → touches R p c c' → touches R' p c c'.
Proof.
  intros HR (E & L & O & P). split; [done|]. split; [done|]. split; [done|].
  intros r Hr. destruct (P r Hr) as (r' & ? & ?). eauto.
Qed.

Lemma on_request_touches (R : virtioRequest → virtioRequest → Prop) ptr f c c' :
  (∀ r r', f r = Ret r' → R r r') → on_request ptr f c = Ret ((), c') → touches R ptr c c'.
Proof. intros Hf (? & ? & _ & _ & _ & H)%on_request_inv. eapply touches_mono; [|exact H]. exact Hf. Qed.

Lemma close_request_touches ptr c c' :
  close_request ptr c = Ret ((), c') → touches same_content ptr c c'.
Proof.
  unfold close_request, mbind, V_mbind.
  destruct (on_request ptr (on_output chan_close) c) as [[[] c1]| |] eqn:E1; [|done|done].
  destruct (on_request ptr (on_exit chan_close) c1) as [[[] c2]| |] eqn:E2; [|done|done].
  intros E3.
  apply (on_request_touches same_content) in E1; [apply (on_request_touches same_content) in E2; [apply (on_request_touches same_content) in E3|]|].
  - exact (touches_trans _ _ _ _ _ E1 (touches_trans _ _ _ _ _ E2 E3)).
  - unfold on_err, chan_close. intros r r'. destruct (ch_closed _); intros [= <-]. by split.
  - unfold on_exit, chan_close. intros r r'. destruct (ch_closed _); intros [= <-]. by split.
  - unfold on_output, chan_close. intros r r'. destruct (ch_closed _); intros [= <-]. by split.
Qed.

Lemma keeps_trans R c c' c'' `{!Transitive R} : keeps R c c' → keeps R c' c'' → keeps R c c''.
Proof.
  intros [L1 P1] [L2 P2]. split; [congruence|]. intros p r Hr.
  destruct (P1 p r Hr) as (r1 & Hr1 & H1). destruct (P2 p r1 Hr1) as (r2 & Hr2 & H2).
  exists r2. split; [done|by etrans].
Qed.

Lemma for_each_keeps R f ptrs `{!PreOrder R} : ∀ c c',
  (∀ p c c', f p c = Ret ((), c') → touches R p c c') →
  for_each f ptrs c = Ret ((), c') → reqs c' = reqs c ∧ keeps R c c'.
Proof.
  induction ptrs as [|p ptrs IH]; intros c c' Hf; cbn [for_each].
  { intros [= <-]. split; [done|]. split; [done|]. intros q r Hr. by exists r. }
  unfold mbind, V_mbind. destruct (f p c) as [[[] c1]| |] eqn:E; [|done|done]. intros Hrest.
  apply Hf in E. destruct (IH _ _ Hf Hrest) as [Hreqs Hk]. pose proof E as [Hreqs1 _].
  split; [congruence|]. exact (keeps_trans _ _ _ _ (touches_keeps _ _ _ _ E) Hk).
Qed.

Lemma client_Close_keeps c c' :
  client_Close c = Ret ((), c') → reqs c' ⊆ reqs c ∧ keeps same_content c c'.
Proof.
  unfold client_Close. destruct (vc_closed c).
  { intros [= <-]. split; [done|]. split; [done|]. intros p r Hr. by exists r. }
  unfold mbind, V_mbind, modify.
  destruct (for_each close_request (pointers c) (set_closed_flag c)) as [[[] c1]| |] eqn:E; [|done|done].
  intros [= <-].
  pose proof (for_each_keeps same_content close_request _ _ _ (λ p, close_request_touches p) E) as [_ Hk].
  split; [apply map_empty_subseteq|exact Hk].
Qed.

Lemma broadcastError_keeps err c c' :
  broadcastError err c = Ret ((), c') → reqs c' = reqs c ∧ keeps same_results c c'.
Proof.
  unfold broadcastError. apply (for_each_keeps same_results (λ p, on_request p (on_err (chan_try_send err))));
    [apply _|].
  intros p c0 c0'. apply on_request_touches. intros r r'. unfold on_err. destruct (chan_try_send _ _); [|done|done]. intros [= <-]. by split_and!.
Qed.

(** A channel of a request that is sent to, closed afterwards. *)
Lemma send_close_touches (R : virtioRequest → virtioRequest → Prop) f p c c' :
  (∀ r r' r'', f r = Ret r' → same_content r' r'' → R r r'') →
  (_ ← on_request p f; close_request p) c = Ret ((), c') → touches R p c c'.
Proof.
  intros Hf. unfold mbind, V_mbind.
  destruct (on_request p f c) as [[[] c1]| |] eqn:E; [|done|done]. intros Hc%close_request_touches.
  apply (on_request_touches (λ r r', f r = Ret r')) in E; [|done].
  by eapply touches_comp; [|exact E|exact Hc].
Qed.

Lemma dispatch_deliver_takes msg p c c' :
  dispatch_deliver msg p c = Ret ((), c') → touches (takes msg) p c c'.
Proof.
  unfold dispatch_deliver, takes. destruct (bool_decide (vm_typ msg = "exec_output")) eqn:Eo.
  { apply bool_decide_eq_true in Eo. rewrite bool_decide_false by (by rewrite Eo).
    apply on_request_touches. intros r r'. unfold on_output, chan_try_send.
    destruct (ch_closed (rq_output r)); [done|].
    destruct (_ <? _)%nat; intros [= <-]; cbn; by rewrite ?app_nil_r. }
  destruct (bool_decide (vm_typ msg = "exec_response")).
  { apply send_close_touches. intros r r' r''. unfold on_exit, chan_send.
    destruct (ch_closed (rq_exit r)); [done|]. destruct (_ <? _)%nat; [|done].
    intros [= <-] [(E1 & E2 & E3 & E4) _]. cbn in *. rewrite app_nil_r. by split_and!. }
  destruct (bool_decide (vm_typ msg = "error")).
  { apply send_close_touches. intros r r' r''. unfold on_err, chan_send.
    destruct (ch_closed (rq_err r)); [done|]. destruct (_ <? _)%nat; [|done].
    intros [= <-] [(E1 & E2 & E3 & E4) _]. cbn in *. rewrite !app_nil_r. by split_and!. }
  intros [= <-]. split; [done|]. split; [done|]. split; [done|].
  intros r Hr. exists r. cbn. rewrite !app_nil_r. by split_and!.
Qed.

(** ** Runs *)
Inductive lrun (race : bool) (x : virtioClient CS * reader)
    : list vlabel → virtioClient CS * reader → Prop :=
| lrun_nil : lrun race x [] x
| lrun_snoc ls l y z : lrun race x ls y → vstep race l y z → lrun race x (ls ++ [l]) z.

Lemma lrun_cons race x l y ls z : vstep race l x y → lrun race y ls z → lrun race x (l :: ls) z.
Proof.
  intros Hs Hr. induction Hr as [|ls l' y' z _ IH Hs'].
  - apply (lrun_snoc race x [] l x); [constructor|done].
  - change (l :: ls ++ [l']) with ((l :: ls) ++ [l']). by eapply lrun_snoc.
Qed.

Definition unfinished (p : nat) (ls : list vlabel) : Prop :=
  Forall (λ m, final_message m = false) (sent_to p ls).

(** Nothing follows a final message. *)
Definition final_last (ms : list virtioMessage) : Prop :=
  ∃ outs fin, ms = outs ++ fin ∧ Forall (λ m, final_message m = false) outs
    ∧ Forall (λ m, final_message m = true) fin ∧ (length fin ≤ 1)%nat.

Definition untouched (p : nat) (ls : list vlabel) : Prop :=
  sent_to p ls = [] ∧ outputs_taken p ls = [] ∧ exits_taken p ls = [].

Definition reader_flow (ls : list vlabel) c (rd : reader) : Prop :=
  match rd with
  | RDeliver msg p =>
      (∃ r, heap c !! p = Some r ∧ rq_id r = vm_id msg) ∧ unfinished p ls
      ∧ (final_message msg = true → ∀ id, reqs c !! id ≠ Some p)
  | _ => True
  end.

Record console_inv (ls : list vlabel) c (rd : reader) : Prop := {
  ci_inj : inj_reqs c;
  ci_table : ∀ id p, reqs c !! id = Some p →
    (∃ r, heap c !! p = Some r ∧ rq_id r = id) ∧ unfinished p ls;
  ci_reader : reader_flow ls c rd;
  ci_flows : ∀ p r, heap c !! p = Some r → flows p ls r ∧ final_last (sent_to p ls);
  ci_new : ∀ p, heap c !! p = None → untouched p ls
}.

Lemma keeps_None R c c' p : keeps R c c' → heap c' !! p = None → heap c !! p = None.
Proof. intros [L _]. rewrite !lookup_ge_None. lia. Qed.
Lemma keeps_back R c c' p r' :
  keeps R c c' → heap c' !! p = Some r' → ∃ r, heap c !! p = Some r ∧ R r r'.
Proof.
  intros [L P] Hr'. destruct (heap c !! p) as [r|] eqn:E.
  - destruct (P p r E) as (r1 & ? & ?). simplify_eq. eauto.
  - apply lookup_ge_None in E. apply lookup_lt_Some in Hr'. lia.
Qed.

Lemma unfinished_quiet p ls l : sent_by p l = None → unfinished p ls → unfinished p (ls ++ [l]).
Proof. unfold unfinished. rewrite sent_to_app. cbn. intros ->. by rewrite app_nil_r. Qed.
Lemma untouched_quiet p ls l :
  sent_by p l = None → output_by p l = None → exit_by p l = None → untouched p ls → untouched p (ls ++ [l]).
Proof.
  unfold untouched. rewrite sent_to_app, outputs_taken_app, exits_taken_app. cbn.
  intros -> -> ->. by rewrite !app_nil_r.
Qed.
Lemma sent_quiet p ls l : sent_by p l = None → sent_to p (ls ++ [l]) = sent_to p ls.
Proof. rewrite sent_to_app. cbn. intros ->. by rewrite app_nil_r. Qed.

(** A step that passes nothing. *)
Lemma inv_quiet ls c c' rd rd' :
  console_inv ls c rd → reqs c' ⊆ reqs c → keeps same_results c c' →
  reader_flow (ls ++ [Quiet]) c' rd' → console_inv (ls ++ [Quiet]) c' rd'.
Proof.
  intros [Hi Ht _ Hf Hn] Hsub Hk Hrd. split; [| |done| |].
  - intros i j p Hp Hq. eapply Hi; by eapply lookup_weaken.
  - intros id p Hp. destruct (Ht id p) as [(r & Hr & Hid) Hu]; [by eapply lookup_weaken|].
    split; [|by apply unfinished_quiet]. destruct Hk as [_ P]. destruct (P p r Hr) as (r' & Hr' & E & _).
    exists r'. split; [done|congruence].
  - intros p r' Hr'. destruct (keeps_back _ _ _ _ _ Hk Hr') as (r & Hr & Hs). destruct (Hf p r Hr) as [Hfl Hl].
    rewrite sent_quiet by done. split; [|done]. by eapply flows_quiet.
  - intros p Hp. apply untouched_quiet; try done. apply Hn. by eapply keeps_None.
Qed.

Lemma reader_flow_keep ls c c' rd :
  reader_flow ls c rd → reqs c' ⊆ reqs c → keeps same_results c c' → reader_flow (ls ++ [Quiet]) c' rd.
Proof.
  intros Hrd Hsub [_ P]. destruct rd as [|msg p| |]; try done.
  destruct Hrd as ((r & Hr & Hid) & Hu & Hf). destruct (P p r Hr) as (r' & Hr' & E & _).
  split; [exists r'; split; [done|congruence]|]. split; [by apply unfinished_quiet|].
  intros Hm id H'. eapply Hf; [done|by eapply lookup_weaken].
Qed.

Lemma keeps_heap R c c' `{!Reflexive R} : heap c' = heap c → keeps R c c'.
Proof. intros Hh. split; [by rewrite Hh|]. intros p r Hr. exists r. by rewrite Hh. Qed.

Lemma table_lt ls c rd id p : console_inv ls c rd → reqs c !! id = Some p → (p < length (heap c))%nat.
Proof. intros Hc Hp. destruct (ci_table _ _ _ Hc _ _ Hp) as [(r & Hr & _) _]. by eapply lookup_lt_Some. Qed.

Lemma flows_fresh p ls id :
  untouched p ls →
  flows p ls {| rq_id := id; rq_output := make_chan 32; rq_exit := make_chan 1; rq_err := make_chan 1 |}
  ∧ final_last (sent_to p ls).
Proof.
  intros (S & O & X). split; [split; rewrite ?S, ?O, ?X; cbn; try done; split; [done|lia]|].
  rewrite S. exists [], []. split_and!; try done; simpl; lia.
Qed.

Lemma inv_register ls c rd x c' :
  register c = Ret (x, c') → console_inv ls c rd → console_inv (ls ++ [Quiet]) c' rd.
Proof.
  intros [= _ <-] Hc. pose proof Hc as [Hi Ht Hrd Hf Hn]. set (id := uint32_of _).
  assert (Hn' : heap c !! length (heap c) = None) by (by apply lookup_ge_None).
  destruct (Hn _ Hn') as (Ns & No & Nx).
  split; unfold inj_reqs; cbn [reqs heap].
  - intros i j p. rewrite !lookup_insert_Some. intros [[<- <-]|[_ Hp]] [[<- Hq]|[_ Hq]]; [done| | |by eapply Hi].
    + apply (table_lt _ _ _ _ _ Hc) in Hq. lia.
    + subst p. apply (table_lt _ _ _ _ _ Hc) in Hp. lia.
  - intros i p. rewrite lookup_insert_Some. intros [[<- <-]|[_ Hp]].
    + split; [|unfold unfinished; by rewrite sent_quiet, Ns].
      eexists. rewrite lookup_app_r, Nat.sub_diag by done. by split.
    + destruct (Ht _ _ Hp) as [(r & Hr & ?) ?]. split; [|by apply unfinished_quiet].
      exists r. split; [by apply lookup_app_l_Some|done].
  - destruct rd as [|msg p| |]; try done. destruct Hrd as ((r & Hr & Hid) & Hu & Hfin). split_and!.
    + exists r. split; [by apply lookup_app_l_Some|done].
    + by apply unfinished_quiet.
    + intros Hm i. cbn [reqs]. rewrite lookup_insert_Some. intros [[_ <-]|[_ H]]; [congruence|by eapply Hfin].
  - intros p r. rewrite lookup_app_Some. intros [Hr|[Hlen Hr]].
    + destruct (Hf p r Hr) as [Hfl Hl]. rewrite sent_quiet by done. split; [by eapply flows_quiet|done].
    + destruct (p - length (heap c))%nat as [|k] eqn:Ek in Hr; [|by destruct k].
      injection Hr as <-. replace p with (length (heap c)) by lia. apply flows_fresh.
      by apply untouched_quiet.
  - intros p Hp. apply untouched_quiet; try done. apply Hn. rewrite lookup_ge_None in Hp |- *.
    rewrite length_app in Hp. lia.
Qed.

Lemma inv_receive ls c rd p r v r' :
  heap c !! p = Some r → receives v r r' → console_inv ls c rd →
  console_inv (ls ++ [Took p v]) (set_heap (<[p := r']> (heap c)) c) rd.
Proof.
  intros Hr Hv [Hi Ht Hrd Hf Hn]. pose proof (lookup_lt_Some _ _ _ Hr) as Hlt.
  assert (Hs : ∀ q, sent_by q (Took p v) = None) by done.
  assert (Hids : ∀ q x, heap c !! q = Some x → ∃ x', <[p:=r']> (heap c) !! q = Some x' ∧ rq_id x' = rq_id x).
  { intros q x Hq. destruct (decide (q = p)) as [->|Hne].
    - exists r'. rewrite list_lookup_insert_eq by done. split; [done|]. simplify_eq. by destruct Hv.
    - exists x. by rewrite list_lookup_insert_ne. }
  split; [exact Hi| | | |]; cbn [reqs heap set_heap].
  - intros id q Hq. destruct (Ht id q Hq) as [(x & Hx & Hid) Hu]. split; [|by apply unfinished_quiet].
    destruct (Hids q x Hx) as (x' & Hx' & E). exists x'. split; [done|congruence].
  - destruct rd as [|msg q| |]; try done. destruct Hrd as ((x & Hx & Hid) & Hu & Hfin).
    split; [|split; [by apply unfinished_quiet|done]].
    destruct (Hids q x Hx) as (x' & Hx' & E). exists x'. split; [done|congruence].
  - intros q x. rewrite (sent_quiet q ls _ (Hs q)). destruct (decide (q = p)) as [->|Hne].
    + rewrite list_lookup_insert_eq by done. intros [= <-]. destruct (Hf p r Hr). split; [|done].
      by eapply flows_receive.
    + rewrite list_lookup_insert_ne by done. intros Hx. destruct (Hf q x Hx). split; [|done].
      eapply flows_quiet; try done; destruct v; cbn; by rewrite ?decide_False.
  - intros q Hq. rewrite lookup_ge_None, length_insert in Hq.
    apply untouched_quiet; [done| | |apply Hn; by apply lookup_ge_None];
      destruct v; cbn; try done; by rewrite decide_False by lia.
Qed.

Lemma inv_lookup ls c msg x c' :
  dispatch_lookup msg c = Ret (x, c') → console_inv ls c RIdle →
  console_inv (ls ++ [Quiet]) c' (match x with Some p => RDeliver msg p | None => RIdle end).
Proof.
  unfold dispatch_lookup. intros H Hc. pose proof Hc as [Hi Ht _ _ _].
  destruct (reqs c !! vm_id msg) as [p|] eqn:E; injection H as <- <-;
    [|by eapply inv_quiet; [exact Hc|done|apply keeps_heap; [apply _|done]|]].
  eapply inv_quiet; [exact Hc|destruct (final_message msg); [apply delete_subseteq|done]
                    |apply keeps_heap; [apply _|by destruct (final_message msg)]|].
  destruct (Ht _ _ E) as [(r & Hr & Hid) Hu]. cbn [reader_flow]. split_and!.
  - exists r. by destruct (final_message msg).
  - by apply unfinished_quiet.
  - intros -> id. cbn. intros [Hne H]%lookup_delete_Some. by specialize (Hi _ _ _ E H).
Qed.

Lemma inv_deliver ls c msg p c' :
  dispatch_deliver msg p c = Ret ((), c') → console_inv ls c (RDeliver msg p) →
  console_inv (ls ++ [Delivered msg p (heap c !! p)]) c' RIdle.
Proof.
  intros Hd [Hi Ht ((r & Hr & Hid) & Hu & Hfin) Hf Hn].
  apply dispatch_deliver_takes in Hd as (Hreqs & Hlen & Hother & Hp).
  destruct (Hp r Hr) as (r' & Hr' & Htk). rewrite Hr. set (l := Delivered msg p (Some r)).
  assert (Hq : ∀ q, q ≠ p → sent_by q l = None) by (intros q Hne; cbn; by rewrite decide_False).
  assert (Hsent : sent_to p (ls ++ [l]) = sent_to p ls ++ [msg]).
  { rewrite sent_to_app. cbn. by rewrite decide_True. }
  assert (Hunf : final_message msg = false → unfinished p (ls ++ [l])).
  { intros Hm. unfold unfinished. rewrite Hsent. apply Forall_app. by repeat constructor. }
  split; [| |done| |].
  - unfold inj_reqs. by rewrite Hreqs.
  - intros id q. rewrite Hreqs. intros Hlk. destruct (Ht id q Hlk) as [(x & Hx & Hxid) Hxu].
    destruct (decide (q = p)) as [->|Hne].
    + split; [exists r'; split; [done|]; destruct Htk; simplify_eq; congruence|]. apply Hunf.
      destruct (final_message msg) eqn:Em; [by destruct (Hfin eq_refl id)|done].
    + rewrite Hother by done. split; [by exists x|]. apply unfinished_quiet; auto.
  - intros q x Hx. destruct (decide (q = p)) as [->|Hne].
    + rewrite Hr' in Hx. injection Hx as <-. destruct (Hf p r Hr) as [Hfl _].
      split; [by eapply flows_deliver|]. rewrite Hsent. destruct (final_message msg) eqn:Em.
      * exists (sent_to p ls), [msg]. split_and!; [done|done|by repeat constructor|simpl; lia].
      * exists (sent_to p ls ++ [msg]), []. rewrite app_nil_r. split_and!; [done| |done|simpl; lia].
        apply Forall_app. by repeat constructor.
    + rewrite Hother in Hx by done. destruct (Hf q x Hx). rewrite sent_quiet by auto.
      split; [|done]. eapply flows_quiet; try done. by apply Hq.
  - intros q Hx. rewrite lookup_ge_None, Hlen in Hx. apply lookup_lt_Some in Hr as Hlt.
    apply untouched_quiet; [apply Hq; lia|done|done|]. apply Hn. by apply lookup_ge_None.
Qed.

Lemma console_step race ls l c rd c' rd' :
  vstep race l (c, rd) (c', rd') → console_inv ls c rd → console_inv (ls ++ [l]) c' rd'.
Proof.
  intros Hs Hc. pose proof (ci_reader _ _ _ Hc) as Hrd. inversion Hs; subst.
  - by eapply inv_register.
  - match goal with H : forget _ _ = _ |- _ => injection H as <- end.
    eapply inv_quiet; [exact Hc|apply delete_subseteq|by apply keeps_heap; [apply _|]|].
    eapply reader_flow_keep; [done|apply delete_subseteq|by apply keeps_heap; [apply _|]].
  - eapply inv_quiet; [exact Hc|done|by apply keeps_heap; [apply _|]|].
    eapply reader_flow_keep; [done|done|by apply keeps_heap; [apply _|]].
  - by eapply inv_receive.
  - match goal with H : client_Close _ = _ |- _ => apply client_Close_keeps in H as [Hsub Hk] end.
    assert (Hk' : keeps same_results c c').
    { destruct Hk as [L P]. split; [done|]. intros p r Hr. destruct (P p r Hr) as (r' & ? & ? & _). eauto. }
    eapply inv_quiet; [exact Hc|done|done|]. by eapply reader_flow_keep.
  - by eapply inv_lookup.
  - by apply inv_deliver.
  - eapply inv_quiet; [exact Hc|done|by apply keeps_heap; [apply _|]|done].
  - match goal with H : broadcastError _ _ = _ |- _ => apply broadcastError_keeps in H as [Hreqs Hk] end.
    eapply inv_quiet; [exact Hc|by rewrite Hreqs|done|done].
  - eapply inv_quiet; [exact Hc|done|by apply keeps_heap; [apply _|]|done].
Qed.

Lemma console_run race conn ls x :
  lrun race (new_client conn, RIdle) ls x → console_inv ls x.1 x.2.
Proof.
  intros Hr. induction Hr as [|ls l y z _ IH Hs].
  - split; cbn; try done; intros; by rewrite ?lookup_empty in *.
  - destruct y, z. by eapply console_step.
Qed.

(** C16: a caller sees its own command only, whatever happens around it: in
    every interleaving of the commands that start, the reader, the callers and
    Close (at any moment), what the caller of a request has received, followed by
    what waits in its channels, are outputs of the guest's messages with the
    request's id, in the order the reader delivered them; it is all of them if
    each found room in the channel, which holds at most 32; the exits it received
    or that wait are those of the messages; and the request is given at most one
    final message, after all its outputs. *)
Theorem console_faithful race conn ls c rd p r :
  lrun race (new_client conn, RIdle) ls (c, rd) → heap c !! p = Some r →
  let sent := sent_to p ls in
  Forall (λ m, vm_id m = rq_id r) sent
  ∧ sublist (outputs_taken p ls ++ ch_buf (rq_output r)) (outputs_in sent)
  ∧ (forallb (found_room p) ls = true →
     outputs_taken p ls ++ ch_buf (rq_output r) = outputs_in sent)
  ∧ (length (ch_buf (rq_output r)) ≤ 32)%nat
  ∧ exits_taken p ls ++ ch_buf (rq_exit r) = exits_in sent
  ∧ final_last sent.
Proof.
  intros Hr Hp. destruct (ci_flows _ _ _ (console_run _ _ _ _ Hr) p r Hp) as [[F1 F2 F3 [_ F4] F5] Hl].
  cbv zeta. by split_and!.
Qed.

(** ** After the reader has ended *)

(** Without an exit or an error in its channels a request is not answered. *)
Lemma collect_waits choices : ∀ o e r,
  ch_buf (rq_exit r) = [] → ch_buf (rq_err r) = [] → collectExecOutput choices o e r = None.
Proof.
  induction choices as [|ch choices IH]; intros o e r He Hr; [done|].
  destruct ch; cbn [collectExecOutput]; unfold chan_recv.
  - destruct (ch_buf (rq_output r)); [|case_bool_decide; by apply IH].
    destruct (ch_closed (rq_output r)); by apply IH.
  - rewrite He. destruct (ch_closed _); by apply IH.
  - rewrite Hr. destruct (ch_closed _); by apply IH.
Qed.

Definition drained (r : virtioRequest) : Prop :=
  ch_buf (rq_output r) = [] ∧ ch_buf (rq_exit r) = [] ∧ ch_buf (rq_err r) = [].

Lemma receives_drained v r r' : receives v r r' → drained r → drained r'.
Proof.
  unfold drained. intros [x w ch H|x w ch H|x w ch H] (D1 & D2 & D3); apply chan_recv_buf in H as [_ H];
    cbn; split_and!; try done; rewrite ?D1, ?D2, ?D3 in H; destruct w; by try discriminate H.
Qed.

Lemma keeps_drained c c' p :
  keeps same_content c c' → (∃ r, heap c !! p = Some r ∧ drained r) →
  ∃ r, heap c' !! p = Some r ∧ drained r.
Proof.
  intros [_ P] (r & Hr & D1 & D2 & D3). destruct (P p r Hr) as (r' & Hr' & (_ & E1 & _ & E2) & E3).
  exists r'. split; [done|]. unfold drained. by rewrite E1, E2, E3.
Qed.

Lemma drained_step race l c c' rd' p :
  vstep race l (c, RDone) (c', rd') → (∃ r, heap c !! p = Some r ∧ drained r) →
  rd' = RDone ∧ ∃ r, heap c' !! p = Some r ∧ drained r.
Proof.
  intros Hs Hd. inversion Hs; subst; (split; [done|]).
  - match goal with H : register _ = _ |- _ => injection H as <- <- end.
    destruct Hd as (r & Hr & Hd). exists r. split; [by apply lookup_app_l_Some|done].
  - by match goal with H : forget _ _ = _ |- _ => injection H as <- end.
  - done.
  - destruct Hd as (x & Hx & Hd). cbn. destruct (decide (p = p0)) as [->|Hne].
    + exists r'. rewrite list_lookup_insert_eq by (by eapply lookup_lt_Some). split; [done|].
      simplify_eq. by eapply receives_drained.
    + exists x. by rewrite list_lookup_insert_ne.
  - match goal with H : client_Close _ = _ |- _ => apply client_Close_keeps in H as [_ Hk] end.
    by eapply keeps_drained.
Qed.

(** A command that starts when the reader has ended is never answered: the
    reader ends at the first frame it cannot decode, the client stays open, and
    whatever happens then, the caller of a command that is registered afterwards
    waits for ever. *)
Theorem silent_after_reader race c id p c1 ls c2 rd :
  register c = Ret ((id, p), c1) → lrun race (c1, RDone) ls (c2, rd) →
  ∃ r, heap c2 !! p = Some r ∧ ∀ choices o e, collectExecOutput choices o e r = None.
Proof.
  intros [= _ <- <-] Hrun.
  assert (Hinv : ∀ x ls' y, lrun race x ls' y → x.2 = RDone →
            (∃ r, heap x.1 !! length (heap c) = Some r ∧ drained r) →
            y.2 = RDone ∧ ∃ r, heap y.1 !! length (heap c) = Some r ∧ drained r).
  { intros x ls' y Hr Hx Hd. induction Hr as [|ls' l [c' rd'] [c'' rd''] _ IH Hs]; [done|].
    destruct IH as [Hy Hd']. cbn [fst snd] in *. subst rd'. by eapply drained_step. }
  destruct (Hinv _ _ _ Hrun) as (_ & r & Hr & _ & D2 & D3); [done| |].
  - cbn. rewrite lookup_app_r, Nat.sub_diag by done. eexists. split; [done|]. by split_and!.
  - exists r. split; [done|]. intros. by apply collect_waits.
Qed.
End flow.
