(* ===== verification/VirtioFindings.v ===== *)
(** * Runs of the client: witnesses, and where results get lost

    Concrete runs of the model of [daemon/virtio.go]: a [Close] that makes the
    reader panic, and an exit code received before the output that preceded it. *)
From Stdlib Require Import Ascii.
From S2P Require Import MemHost.
From S2P Require Export VirtioFlow.

(** The guest's messages: an output of request 1 and its exit. *)
Definition guest_messages : list obj :=
  [ [("t", VText "exec_output"); ("id", VU64 1);
     ("p", VObj [("stream", VText "stdout"); ("data", VBytes (text_bytes "hi"))])];
    [("t", VText "exec_response"); ("id", VU64 1); ("p", VObj [("exit_code", VU64 0)])];
    [("t", VText "exec_output"); ("id", VU64 7);
     ("p", VObj [("stream", VText "stderr"); ("data", VBytes (text_bytes "x"))])] ].
#[local] Instance guest_codec : Codec := table_codec guest_messages.

Definition msg_output : virtioMessage :=
  {| vm_typ := "exec_output"; vm_id := 1; vm_stream := "stdout"; vm_data := text_bytes "hi";
     vm_exitCode := 0; vm_signal := None; vm_errMessage := "" |}.
Definition msg_exit : virtioMessage :=
  {| vm_typ := "exec_response"; vm_id := 1; vm_stream := ""; vm_data := [];
     vm_exitCode := 0; vm_signal := None; vm_errMessage := "" |}.
Definition msg_other : virtioMessage :=
  {| vm_typ := "exec_output"; vm_id := 7; vm_stream := "stderr"; vm_data := text_bytes "x";
     vm_exitCode := 0; vm_signal := None; vm_errMessage := "" |}.

Example decode_values :
  decodeVirtioMessage [Byte.x00] = Good msg_output ∧ decodeVirtioMessage [Byte.x01] = Good msg_exit
  ∧ decodeVirtioMessage [Byte.x02] = Good msg_other
  ∧ decodeVirtioMessage [Byte.x09] = Bad (CborError "unknown").
Proof. by vm_compute. Qed.

Definition fresh_request (id : Z) : virtioRequest :=
  {| rq_id := id; rq_output := make_chan 32; rq_exit := make_chan 1; rq_err := make_chan 1 |}.

(** A client with one command running. *)
Definition exec_client : virtioClient (list byte) :=
  {| nextID := 1; reqs := {[1 := 0%nat]}; vc_closed := false; heap := [fresh_request 1];
     vc_conn := [] |}.

Lemma exec_client_reachable race : star (vmove race) (new_client [], RIdle) (exec_client, RIdle).
Proof. apply star_one. eexists. by apply (v_register race (new_client []) (1, 0%nat)). Qed.

Lemma reader_never_stuck_witness :
  RIdle ≠ RPanic
  ∧ (∀ msg p, RIdle = RDeliver msg p → ∃ c', dispatch_deliver msg p exec_client = Ret ((), c'))
  ∧ (∃ c', client_Close exec_client = Ret ((), c'))
  ∧ (∀ err, ∃ c', broadcastError err exec_client = Ret ((), c')).
Proof. exact (reader_never_stuck [] exec_client RIdle (exec_client_reachable false)). Defined.

Definition demo_frames : list (list byte) := [[Byte.x02]; [Byte.x00]; [Byte.x01]; [Byte.x02]].
Definition demo_stream : list byte := mjoin (map encode_frame demo_frames).

Lemma exec_result_arrives_witness :
  ∃ c' r', readLoop (readLoop_fuel demo_stream) demo_stream exec_client = Ret ((), c')
  ∧ heap c' !! 0%nat = Some r'
  ∧ (∀ choices, collectExecOutput choices [] [] r' = None
       ∨ ∃ k, collectExecOutput choices [] [] r'
              = Some (result_of [] [] (take k (take 32 (outputs_for 1 [msg_other; msg_output]))) 0))
  ∧ collectExecOutput (replicate 32 SelOutput ++ [SelExit]) [] [] r'
    = Some (result_of [] [] (take 32 (outputs_for 1 [msg_other; msg_output])) 0).
Proof.
  refine (exec_result_arrives [] exec_client 1 0 (fresh_request 1) demo_frames
           [msg_other; msg_output] msg_exit [msg_other] (exec_client_reachable false)
           eq_refl eq_refl eq_refl _ _ _ eq_refl eq_refl).
  - repeat constructor.
  - repeat constructor; by vm_compute.
  - repeat constructor; by intros [=].
Defined.

(** A run: the command starts, the reader delivers its output, the caller takes it,
    the reader delivers the exit, and the caller takes that. *)
Definition demo_output : virtioOutput := {| out_stream := "stdout"; out_data := text_bytes "hi" |}.
Definition demo_exit : virtioExit := {| exit_code := 0; exit_signal := None |}.
Definition demo_labels : list vlabel :=
  [Quiet; Quiet; Delivered msg_output 0 (Some (fresh_request 1)); Took 0 (TookOutput (Some demo_output));
   Quiet; Delivered msg_exit 0 (Some (fresh_request 1)); Took 0 (TookExit (Some demo_exit))].
Definition demo_done : virtioRequest := closed_request (fresh_request 1).
Definition demo_after : virtioClient (list byte) :=
  {| nextID := 1; reqs := ∅; vc_closed := false; heap := [demo_done]; vc_conn := [] |}.

Lemma demo_lrun : lrun true (new_client [], RIdle) demo_labels (demo_after, RIdle).
Proof.
  eapply lrun_cons; [by apply (v_register true (new_client []) (1, 0%nat))|].
  eapply lrun_cons; [by apply (v_lookup true exec_client msg_output (Some 0%nat))|].
  eapply lrun_cons; [apply (v_deliver true exec_client msg_output 0); vm_compute; reflexivity|].
  eapply lrun_cons; [eapply v_receive; [vm_compute; reflexivity|by apply recv_output]|].
  eapply lrun_cons; [eapply (v_lookup true _ msg_exit (Some 0%nat)); vm_compute; reflexivity|].
  eapply lrun_cons; [apply (v_deliver true (set_reqs ∅ exec_client) msg_exit 0); vm_compute; reflexivity|].
  eapply lrun_cons; [eapply v_receive; [vm_compute; reflexivity|by apply recv_exit]|].
  apply lrun_nil.
Qed.

Lemma console_faithful_witness :
  outputs_taken 0 demo_labels = [demo_output] ∧ exits_taken 0 demo_labels = [demo_exit] ∧
  let sent := sent_to 0 demo_labels in
  Forall (λ m, vm_id m = 1) sent
  ∧ sublist (outputs_taken 0 demo_labels ++ []) (outputs_in sent)
  ∧ (forallb (found_room 0) demo_labels = true → outputs_taken 0 demo_labels ++ [] = outputs_in sent)
  ∧ (0 ≤ 32)%nat
  ∧ exits_taken 0 demo_labels ++ [] = exits_in sent
  ∧ final_last sent.
Proof.
  split; [done|]. split; [done|].
  exact (console_faithful true [] demo_labels demo_after RIdle 0 demo_done demo_lrun eq_refl).
Defined.

(** the result of a command depends on how select picks among its ready
    cases: with the output and the exit both in the request's channels, the
    loop may take the exit first and return without the output. *)
Theorem output_lost_to_exit :
  ∃ c' r', readLoop (readLoop_fuel demo_stream) demo_stream exec_client = Ret ((), c')
  ∧ heap c' !! 0%nat = Some r'
  ∧ collectExecOutput [SelOutput; SelExit] [] [] r'
    = Some {| er_stdout := text_bytes "hi"; er_stderr := []; er_exit := 0; er_err := None |}
  ∧ collectExecOutput [SelExit] [] [] r'
    = Some {| er_stdout := []; er_stderr := []; er_exit := 0; er_err := None |}.
Proof. eexists _, _. split; [vm_compute; reflexivity|]. by vm_compute. Qed.

(** closing the client while the reader is between the lookup of an
    output's request and the send makes the reader send on a closed channel:
    a panic, which ends the daemon. *)
Theorem close_race_panics :
  ∃ c', star (vmove true) (new_client [], RIdle) (c', RPanic).
Proof.
  eexists. eapply star_trans; [apply exec_client_reachable|].
  eapply star_step; [eexists; by apply (v_lookup true exec_client msg_output (Some 0%nat))|].
  eapply star_step; [eexists; apply v_close; [by left|]; vm_compute; reflexivity|].
  apply star_one. eexists. apply v_deliver_panic. by vm_compute.
Qed.

Section spin.
Context `{C : Codec} `{OS : ConnOS CS}.

(** a command that is running when its client is closed is never
    answered: its channels are closed and empty, every case of the select is
    ready and none returns, so collectExecOutput loops for ever. *)
Theorem close_strands_callers conn (c : virtioClient CS) id p :
  star (vmove false) (new_client conn, RIdle) (c, RIdle) →
  vc_closed c = false → reqs c !! id = Some p →
  ∃ c' r', client_Close c = Ret ((), c') ∧ heap c' !! p = Some r'
  ∧ ∀ choices o e, collectExecOutput choices o e r' = None.
Proof.
  intros Hrun Hcl Hp.
  destruct (star_invariant _ vinv vstep_inv _ _ Hrun (vinv_new conn)) as [[Hi Ht] _].
  cbn [fst snd is_done] in *. destruct (Ht _ _ Hp) as (r & Hr & Ho & Hl).
  destruct (Hl eq_refl) as (L1 & L2 & L3).
  destruct (client_Close_Ret c Hi) as (c' & Hc & Hspec); [by eapply table_pointers|].
  rewrite Hcl in Hspec. destruct Hspec as [_ Hh]. exists c', (closed_request r).
  split; [done|]. split; [by rewrite Hh, decide_True, Hr by (apply elem_of_pointers; eauto)|].
  intros choices o e. apply collect_waits; cbn; by rewrite ?L2, ?L3.
Qed.
End spin.

Lemma close_strands_callers_witness :
  ∃ c' r', client_Close exec_client = Ret ((), c') ∧ heap c' !! 0%nat = Some r'
  ∧ ∀ choices o e, collectExecOutput choices o e r' = None.
Proof.
  exact (close_strands_callers [] exec_client 1 0 (exec_client_reachable false) eq_refl eq_refl).
Defined.
