(* ===== verification/HostBackend.v ===== *)
(** * The host backend ([daemon/vm.go]) and its command helpers

    Without a VM, commands run on the host: guest paths in the command are
    rewritten to host paths, read-only mounts are copies.  Also the helpers of
    [exec_helpers.go] that are pure: [mergeEnv] and [exitCodeFromError].

    The file system is a parameter ([HostTree]); what is written is recorded. *)
From Stdlib Require Import Ascii.
From S2P Require Export GoPath Proto.

(** ** [mergeEnv] and [exitCodeFromError] *)

(** The key of an entry: what stands before the first [=]. *)
Definition env_key (entry : string) : string :=
  match cut_first "="%char entry with Some (k, _) => k | None => entry end.

Definition env_add (st : list string * gmap string nat) (entry : string)
    : list string * gmap string nat :=
  let '(out, index) := st in
  let key := env_key entry in
  match index !! key with
  | Some pos => (<[pos := entry]> out, index)
  | None => (out ++ [entry], <[key := length out]> index)
  end.

Definition mergeEnv (base overrides : list string) : list string :=
  if (length overrides =? 0)%nat then base
  else
    (foldl env_add (foldl env_add ([], ∅) base) (filter (λ e, e ≠ "") overrides)).1.

(** What [errors.As] finds in the error of a command. *)
Inductive run_error :=
| ExitError (code : Z)
| ExecError (text : string)
| PathError (text : string)
| OtherError (text : string).

(** [stderr] is nil, or a buffer; the exit code and the buffer. *)
Definition exitCodeFromError (err : run_error) (stderr : option string) : Z * option string :=
  let write text := match stderr with
                    | Some buf => Some (if bool_decide (buf = "") then text else buf)
                    | None => None
                    end in
  match err with
  | ExitError code => (int32_of code, stderr)
  | ExecError text => (127, write text)
  | PathError text => (127, write text)
  | OtherError text => (1, write text)
  end.

(** ** The file system *)
Inductive walk_entry :=
| WalkErr (text : string)                              (* the callback gets an error *)
| WalkInfo (isDir : bool) (info : osres string Z).     (* [entry.Info()]: the mode *)

Class HostTree (W : Type) := {
  t_stat : string → W → osres string (bool * Z);       (* is a directory, mode *)
  t_walk : string → W → list (string * walk_entry);    (* what [WalkDir] visits *)
  t_mkdirAll : string → Z → W → option string * W;
  t_open : string → W → option string * W;
  t_create : string → W → option string * W;
  t_copy : string → string → W → option string * W;
  t_fchmod : string → Z → W → option string * W;
  t_chmod : string → Z → W → option string * W
}.

Inductive fs_write := WMkdirAll (p : string) | WCreate (p : string) | WChmod (p : string).
Definition write_path (w : fs_write) : string :=
  match w with WMkdirAll p | WCreate p | WChmod p => p end.

Record tstate (W : Type) := { tree : W; writes : list fs_write }.
Arguments tree {W}. Arguments writes {W}.

Definition T (W A : Type) : Type := tstate W → A * tstate W.
#[export] Instance T_mret {W} : MRet (T W) := λ A a s, (a, s).
#[export] Instance T_mbind {W} : MBind (T W) := λ A B f m s, let '(a, s') := m s in f a s'.

Inductive mount_error :=
| InvalidGuestPath (path : string)
| InvalidHostPath (path : string)
| HostPathNotFound (path : string)
| FSError (text : string)
| RelError.

(** The mounts of the backend. *)
Record HostMount := { hm_GuestPath : string; hm_HostPath : string; hm_Mode : Z }.

Record HostBackend := {
  hb_Root : string;
  hb_Mounts : list HostMount;
  hb_Env : list string
}.

Section code.
Context `{HT : HostTree W}.

Definition tread {A} (f : W → A) : T W A := λ s, (f (tree s), s).
Definition tdo {A} (f : W → A * W) : T W A := λ s,
  let '(a, w) := f (tree s) in (a, {| tree := w; writes := writes s |}).
(** An operation that writes at a path: [None] is the nil error. *)
Definition twrite (e : fs_write) (f : W → option string * W) : T W (option string) := λ s,
  let '(r, w) := f (tree s) in (r, {| tree := w; writes := writes s ++ [e] |}).

Definition MkdirAll (p : string) (mode : Z) : T W (option string) :=
  twrite (WMkdirAll p) (t_mkdirAll p mode).

(** ** [copyFile], [copyTree], [makeReadOnly] *)
Definition os_ModePerm : Z := 511.

Definition copyFile (src dst : string) (mode : Z) : T W (option string) :=
  e ← MkdirAll (Dir dst) 493;
  match e with Some err => mret (Some err) | None =>
  e ← tdo (t_open src);
  match e with Some err => mret (Some err) | None =>
  e ← twrite (WCreate dst) (t_create dst);
  match e with Some err => mret (Some err) | None =>
  e ← tdo (t_copy src dst);
  match e with Some err => mret (Some err) | None =>
  twrite (WChmod dst) (t_fchmod dst (Z.land mode os_ModePerm))
  end end end end.

(** The callback of [copyTree] on what is visited, until an error. *)
Fixpoint copy_entries (src dst : string) (entries : list (string * walk_entry))
    : T W (option mount_error) :=
  match entries with
  | [] => mret None
  | (path, entry) :: entries' =>
      match entry with
      | WalkErr text => mret (Some (FSError text))
      | WalkInfo isDir info =>
          match Rel src path with
          | None => mret (Some RelError)
          | Some rel =>
              let target := PathJoin [dst; rel] in
              match info with
              | Bad text => mret (Some (FSError text))
              | Good mode =>
                  e ← (if isDir then MkdirAll target (Z.land mode os_ModePerm)
                       else copyFile path target mode);
                  match e with
                  | Some err => mret (Some (FSError err))
                  | None => copy_entries src dst entries'
                  end
              end
          end
      end
  end.

Definition copyTree (src dst : string) : T W (option mount_error) :=
  info ← tread (t_stat src);
  match info with
  | Bad text => mret (Some (FSError text))
  | Good (isDir, mode) =>
      if negb isDir then
        e ← copyFile src dst mode; mret (FSError <$> e)
      else
        entries ← tread (t_walk src);
        copy_entries src dst entries
  end.

Fixpoint readonly_entries (entries : list (string * walk_entry)) : T W (option mount_error) :=
  match entries with
  | [] => mret None
  | (path, entry) :: entries' =>
      match entry with
      | WalkErr text => mret (Some (FSError text))
      | WalkInfo _ (Bad text) => mret (Some (FSError text))
      | WalkInfo _ (Good mode) =>
          let mode := Z.ldiff (Z.land mode os_ModePerm) 146 in
          e ← twrite (WChmod path) (t_chmod path mode);
          match e with
          | Some err => mret (Some (FSError err))
          | None => readonly_entries entries'
          end
      end
  end.
Definition makeReadOnly (path : string) : T W (option mount_error) :=
  entries ← tread (t_walk path); readonly_entries entries.

(** ** [buildMounts] *)
Definition build_mount (root : string) (mount : Mount) : T W (osres mount_error HostMount) :=
  let guestPath := Clean (GuestPath mount) in
  if bool_decide (guestPath = ".") || bool_decide (guestPath = "") || negb (IsAbs guestPath)
  then mret (Bad (InvalidGuestPath (GuestPath mount))) else
  let hostPath := Clean (HostPath mount) in
  if bool_decide (hostPath = ".") || bool_decide (hostPath = "")
  then mret (Bad (InvalidHostPath (HostPath mount))) else
  info ← tread (t_stat hostPath);
  match info with
  | Bad _ => mret (Bad (HostPathNotFound hostPath))
  | Good _ =>
      let mode := if Mount_Mode mount =? MountMode.UNSPECIFIED then MountMode.RO
                  else Mount_Mode mount in
      if mode =? MountMode.RO then
        let copyPath := PathJoin [root; "mounts"; TrimPrefix guestPath Separator] in
        e ← copyTree hostPath copyPath;
        match e with Some err => mret (Bad err) | None =>
        e ← makeReadOnly copyPath;
        match e with Some err => mret (Bad err) | None =>
        mret (Good {| hm_GuestPath := guestPath; hm_HostPath := copyPath; hm_Mode := mode |})
        end end
      else mret (Good {| hm_GuestPath := guestPath; hm_HostPath := hostPath; hm_Mode := mode |})
  end.

Fixpoint build_mounts (root : string) (mounts : list Mount) : T W (osres mount_error (list HostMount)) :=
  match mounts with
  | [] => mret (Good [])
  | mount :: mounts' =>
      r ← build_mount root mount;
      match r with
      | Bad e => mret (Bad e)
      | Good m =>
          rs ← build_mounts root mounts';
          mret (osres_map (cons m) rs)
      end
  end.

(** [sort.SliceStable] by decreasing length of the guest path: insertion keeps
    equal lengths in order. *)
Fixpoint insert_mount (m : HostMount) (l : list HostMount) : list HostMount :=
  match l with
  | [] => [m]
  | x :: l' => if (slen (hm_GuestPath x) <? slen (hm_GuestPath m))%nat
               then m :: x :: l' else x :: insert_mount m l'
  end.
Definition sort_mounts (l : list HostMount) : list HostMount := foldl (λ acc m, insert_mount m acc) [] l.

Definition buildMounts (root : string) (mounts : list Mount) : T W (osres mount_error (list HostMount)) :=
  out ← build_mounts root mounts; mret (osres_map sort_mounts out).

(** ** Rewriting *)
Definition rootPath (backend : HostBackend) (input : string) : T W string :=
  if bool_decide (input = Separator) then mret (hb_Root backend)
  else
    let trimmed := TrimPrefix input Separator in
    let target := PathJoin [hb_Root backend; trimmed] in
    let parent := Dir target in
    if negb (bool_decide (parent = "")) && negb (bool_decide (parent = hb_Root backend)) then
      _ ← MkdirAll parent 493; mret target
    else mret target.

(** The loop of [rewritePath] over the mounts. *)
Fixpoint rewrite_mounts (mounts : list HostMount) (input : string) : option string :=
  match mounts with
  | [] => None
  | mount :: mounts' =>
      let guest := hm_GuestPath mount in
      if bool_decide (input = guest) then Some (hm_HostPath mount)
      else if HasPrefix input (guest +:+ Separator)
      then Some (Clean (hm_HostPath mount +:+ TrimPrefix input guest))
      else rewrite_mounts mounts' input
  end.

Definition rewritePath (backend : HostBackend) (input : string) (allowRoot : bool) : T W string :=
  if negb (HasPrefix input Separator) then mret input
  else
    match rewrite_mounts (hb_Mounts backend) input with
    | Some p => mret p
    | None =>
        if negb allowRoot || bool_decide (hb_Root backend = "") then mret input
        else rootPath backend input
    end.

Fixpoint rewrite_args (backend : HostBackend) (args : list string) : T W (list string) :=
  match args with
  | [] => mret []
  | arg :: args' =>
      a ← rewritePath backend arg true; rest ← rewrite_args backend args'; mret (a :: rest)
  end.

Definition RewriteCommand (backend : HostBackend) (command : string) (args : list string)
    : T W (string * list string) :=
  c ← rewritePath backend command false;
  rest ← rewrite_args backend args;
  mret (c, rest).
End code.

Example mergeEnv_values :
  mergeEnv ["A=1"; "B=2"; "A=3"] [] = ["A=1"; "B=2"; "A=3"]
  ∧ mergeEnv ["A=1"; "B=2"; "A=3"] [""; "B=4"; "C=5"] = ["A=3"; "B=4"; "C=5"]
  ∧ mergeEnv ["X"; "=C:=D"] ["X=1"] = ["X=1"; "=C:=D"].
Proof. by vm_compute. Qed.
