(* ===== verification/HostBackendProps.v ===== *)
(** * What the host backend promises: environments and guest paths

    [mergeEnv]'s index and result ([daemon/exec_helpers.go]), and the lemmas on
    guest paths and mounts ([daemon/vm.go]) that [HostMounts] and [HostRewrite]
    build on. *)
From Stdlib Require Import Ascii Sorting.Sorted.
From S2P Require Export HostBackend.

(** ** The environment *)
Section env.
Implicit Types st : list string * gmap string nat.

(** The index points each key to its entry, and every entry is indexed. *)
Definition env_inv st : Prop :=
  (∀ k i, st.2 !! k = Some i → ∃ e, st.1 !! i = Some e ∧ env_key e = k)
  ∧ ∀ i e, st.1 !! i = Some e → st.2 !! env_key e = Some i.

Definition env_get st (k : string) : option string := i ← st.2 !! k; st.1 !! i.

Lemma env_add_inv st e : env_inv st → env_inv (env_add st e).
Proof.
  destruct st as [out index]. intros [H1 H2]. unfold env_add. simpl in *.
  destruct (index !! env_key e) as [pos|] eqn:E; split; simpl.
  - intros k i Hk. destruct (H1 _ _ Hk) as (e' & He' & Hk').
    destruct (decide (i = pos)) as [->|Hne].
    + exists e. split; [apply list_lookup_insert_eq; by eapply lookup_lt_Some|].
      destruct (H1 _ _ E) as (e'' & ? & ?). by simplify_eq.
    + exists e'. by rewrite list_lookup_insert_ne.
  - intros i e' [(-> & -> & _)|[Hne Hi]]%list_lookup_insert_Some; [done|by apply H2].
  - intros k i [[<- <-]|[Hne Hk]]%lookup_insert_Some.
    + exists e. by rewrite lookup_app_r, Nat.sub_diag.
    + destruct (H1 _ _ Hk) as (e' & ? & ?). exists e'. split; [by apply lookup_app_l_Some|done].
  - intros i e' [Hi|[Hl Hi]]%lookup_app_Some.
    + rewrite lookup_insert_ne; [by apply H2|]. intros Hk. apply H2 in Hi. by rewrite <-Hk, E in Hi.
    + apply list_lookup_singleton_Some in Hi as [Hi ->].
      replace i with (length out) by lia. by rewrite lookup_insert_eq.
Qed.

Lemma env_add_get st e k : env_inv st →
  env_get (env_add st e) k = if decide (env_key e = k) then Some e else env_get st k.
Proof.
  destruct st as [out index]. intros [H1 H2]. unfold env_add, env_get. simpl in *.
  destruct (index !! env_key e) as [pos|] eqn:E; simpl.
  - destruct (H1 _ _ E) as (e0 & He0 & _). destruct (decide (env_key e = k)) as [<-|Hne].
    + rewrite E. simpl. apply list_lookup_insert_eq. by eapply lookup_lt_Some.
    + destruct (index !! k) as [i|] eqn:Ek; [|done]. simpl. apply list_lookup_insert_ne.
      intros ->. destruct (H1 _ _ Ek) as (e1 & ? & ?), (H1 _ _ E) as (e2 & ? & ?). by simplify_eq.
  - destruct (decide (env_key e = k)) as [<-|Hne].
    + rewrite lookup_insert_eq. simpl. by rewrite lookup_app_r, Nat.sub_diag.
    + rewrite lookup_insert_ne by done. destruct (index !! k) as [i|] eqn:Ek; [|done]. simpl.
      destruct (H1 _ _ Ek) as (e1 & He1 & _). rewrite He1. by apply lookup_app_l_Some.
Qed.

(** The entry of a key that counts: the last one. *)
Definition last_entry (k : string) (l : list string) : option string :=
  last (filter (λ e, env_key e = k) l).

Lemma env_fold l : ∀ st, env_inv st →
  env_inv (foldl env_add st l)
  ∧ ∀ k, env_get (foldl env_add st l) k
         = match last_entry k l with Some e => Some e | None => env_get st k end.
Proof.
  induction l as [|e l IH]; intros st Hst; [done|]. simpl.
  destruct (IH _ (env_add_inv _ e Hst)) as [H1 H2]. split; [done|]. intros k. rewrite H2.
  unfold last_entry. rewrite filter_cons. rewrite env_add_get by done.
  destruct (decide (env_key e = k)).
  - destruct (filter _ l) as [|x xs] eqn:E; [done|].
    change (last (e :: x :: xs)) with (last (x :: xs)).
    destruct (last (x :: xs)) eqn:El; [done|]. by apply last_None in El.
  - by destruct (last (filter _ l)).
Qed.

(** with overrides, the merged environment has one entry per key: the last
    one among the base entries and then the overrides that are not empty; an
    override wins over the base. *)
Theorem mergeEnv_spec base overrides :
  overrides ≠ [] →
  let inputs := base ++ filter (λ e, e ≠ "") overrides in
  NoDup (map env_key (mergeEnv base overrides))
  ∧ ∀ e, e ∈ mergeEnv base overrides ↔ last_entry (env_key e) inputs = Some e.
Proof.
  intros Ho inputs. unfold mergeEnv.
  replace (length overrides =? 0)%nat with false by (by destruct overrides).
  rewrite <-foldl_app. change (base ++ _) with inputs. clearbody inputs.
  assert (Hinv : env_inv ([], ∅)) by (split; [intros k i|intros i e]; simpl; by rewrite ?lookup_empty).
  destruct (env_fold inputs _ Hinv) as [[H1 H2] Hget].
  set (st := foldl env_add ([], ∅) inputs) in *. split.
  - apply NoDup_alt. intros i j k. rewrite !list_lookup_fmap, !fmap_Some.
    intros (e & He & ->) (e' & He' & Hk). apply H2 in He, He'. rewrite Hk in He. congruence.
  - intros e. specialize (Hget (env_key e)). unfold env_get in Hget at 2. simpl in Hget.
    rewrite lookup_empty in Hget. simpl in Hget. rewrite list_elem_of_lookup. split.
    + intros [i Hi]. pose proof (H2 _ _ Hi) as Hk. unfold env_get in Hget. rewrite Hk in Hget.
      simpl in Hget. rewrite Hi in Hget. by destruct (last_entry _ _).
    + intros Hl. rewrite Hl in Hget. unfold env_get in Hget.
      destruct (st.2 !! env_key e) as [i|]; [|done]. by exists i.
Qed.

Lemma mergeEnv_spec_witness :
  ["A=2"; ""] ≠ []
  ∧ NoDup (map env_key (mergeEnv ["A=1"; "B=1"; "A=0"] ["A=2"; ""])).
Proof.
  split; [done|]. by destruct (mergeEnv_spec ["A=1"; "B=1"; "A=0"] ["A=2"; ""] ltac:(done)).
Defined.
End env.

(** ** Paths *)
Lemma Clean_append cs s :
  Forall good cs →
  Clean (abs_path cs +:+ Separator +:+ s)
  = abs_path (reverse (foldl (push true) (reverse cs) (Split s slash))).
Proof.
  intros H. rewrite Clean_abs by (rewrite abs_path_cons, sapp_cons; apply IsAbs_slash). f_equal.
  change (Separator +:+ s) with (String slash s). rewrite Split_mid, Split_abs_path by done.
  unfold norm. f_equal. rewrite foldl_app. f_equal. simpl. rewrite push_skip.
  destruct cs as [|c cs]; [done|]. rewrite foldl_push_good by done. by rewrite app_nil_r.
Qed.

Lemma Split_Join_good rest :
  Forall good rest → Split (Join rest Separator) slash = match rest with [] => [""] | _ => rest end.
Proof.
  intros H. destruct rest as [|r rest]; [done|]. apply Split_Join; [done|by apply good_no_sep].
Qed.

Lemma Clean_append_good cs rest :
  Forall good cs → Forall good rest →
  Clean (abs_path cs +:+ Separator +:+ Join rest Separator) = abs_path (cs ++ rest).
Proof.
  intros Hc Hr. rewrite Clean_append, Split_Join_good by done.
  destruct rest as [|r rest].
  - simpl. rewrite push_skip. by rewrite reverse_involutive, app_nil_r.
  - rewrite foldl_push_good by done. by rewrite reverse_app, !reverse_involutive.
Qed.

(** ** Rewriting *)

(** The mounts as [buildMounts] leaves them: clean absolute guest paths, not
    the root, the longest first. *)
Definition mount_paths (m : HostMount) (gs hs : list string) : Prop :=
  Forall good gs ∧ gs ≠ [] ∧ Forall good hs
  ∧ hm_GuestPath m = abs_path gs ∧ hm_HostPath m = abs_path hs.
Definition longer (m m' : HostMount) : Prop := (slen (hm_GuestPath m') ≤ slen (hm_GuestPath m))%nat.

Lemma prefix_guest gs cs :
  Forall good gs → gs ≠ [] → Forall good cs →
  HasPrefix (abs_path cs) (abs_path gs +:+ Separator) = true ↔ ∃ r rest, cs = gs ++ r :: rest.
Proof.
  intros Hg Hn Hc. rewrite HasPrefix_true. split.
  - intros [s Hs]. apply (f_equal (λ p, Split p slash)) in Hs.
    rewrite <-sapp_assoc in Hs. change (Separator +:+ s) with (String slash s) in Hs.
    rewrite Split_mid, !Split_abs_path in Hs by done. destruct gs as [|g gs]; [done|].
    simplify_eq/=. destruct cs as [|c cs];
      [simplify_eq; by apply Forall_cons in Hg as [[Hg _] _]|].
    simplify_eq/=. pose proof (Split_not_nil s slash).
    destruct (Split s slash) as [|r rest] eqn:E; [done|]. exists r, rest. done.
  - intros (r & rest & ->). exists (Join (r :: rest) Separator).
    rewrite abs_path_app by done. unfold abs_path at 2. by rewrite sapp_assoc.
Qed.

Lemma slen_abs_app gs rest : gs ≠ [] → (slen (abs_path gs) ≤ slen (abs_path (gs ++ rest)))%nat.
Proof. intros H. rewrite abs_path_app, slen_app by done. lia. Qed.

Lemma slen_abs_app_lt gs r rest :
  gs ≠ [] → (slen (abs_path gs) < slen (abs_path (gs ++ r :: rest)))%nat.
Proof.
  intros H. rewrite abs_path_app, slen_app by done. unfold abs_path. rewrite slen_app. simpl. lia.
Qed.

(** The mount whose guest path is chosen: the longest above the input. *)
Lemma rewrite_mounts_longest mounts cs :
  Forall good cs → StronglySorted longer mounts →
  Forall (λ m, ∃ gs hs, mount_paths m gs hs) mounts →
  match rewrite_mounts mounts (abs_path cs) with
  | Some p => ∃ m gs hs rest, m ∈ mounts ∧ mount_paths m gs hs ∧ cs = gs ++ rest
      ∧ p = abs_path (hs ++ rest)
      ∧ ∀ m' gs' hs' rest', m' ∈ mounts → mount_paths m' gs' hs' → cs = gs' ++ rest' →
          (length gs' ≤ length gs)%nat
  | None => ∀ m gs hs rest, m ∈ mounts → mount_paths m gs hs → cs ≠ gs ++ rest
  end.
Proof.
  intros Hc Hs Hm. induction Hs as [|m mounts Hs IH Hall]; [by intros ???? ?%not_elem_of_nil|].
  apply Forall_cons in Hm as [(gs & hs & Hp) Hm]. specialize (IH Hm).
  pose proof Hp as (Hg & Hne & Hh & Eg & Eh). cbn [rewrite_mounts]. rewrite Eg, Eh.
  (* the first match is the longest: the others are shorter *)
  assert (Hlongest : ∀ rest, cs = gs ++ rest → ∀ m' gs' hs' rest', m' ∈ m :: mounts →
            mount_paths m' gs' hs' → cs = gs' ++ rest' → (length gs' ≤ length gs)%nat).
  { intros rest -> m' gs' hs' rest' Hin (Hg' & Hne' & _ & Eg' & _) E.
    destruct (decide (length gs' ≤ length gs)%nat) as [|Hlt]; [done|exfalso].
    assert (Hpre : ∃ r l, gs' = gs ++ r :: l).
    { apply (f_equal (take (length gs'))) in E. rewrite take_app_length in E.
      rewrite <-E, take_app, take_ge by lia.
      destruct (take (length gs' - length gs) rest) as [|r l] eqn:Et; [|by exists r, l].
      rewrite take_app, Et, app_nil_r, take_ge in E by lia. subst gs'. lia. }
    destruct Hpre as (r & l & ->). pose proof (slen_abs_app_lt gs r l Hne) as Hlen.
    apply elem_of_cons in Hin as [->|Hin].
    - rewrite Eg in Eg'. apply abs_path_inj in Eg'; [|done|done].
      apply (f_equal length) in Eg'. rewrite length_app in Eg'. simpl in Eg'. lia.
    - rewrite Forall_forall in Hall. specialize (Hall _ Hin). unfold longer in Hall.
      rewrite Eg, Eg' in Hall. lia. }
  case_bool_decide as He.
  { apply abs_path_inj in He as ->; [|done|done].
    exists m, gs, hs, []. rewrite !app_nil_r. split_and!; [by left|done|done|done|].
    eapply (Hlongest []). by rewrite app_nil_r. }
  destruct (HasPrefix _ _) eqn:Epre.
  { apply prefix_guest in Epre as (r & rest & ->); [|done|done|done].
    exists m, gs, hs, (r :: rest). apply Forall_app in Hc as [_ Hr].
    split_and!; [by left|done|done| |by eapply Hlongest].
    rewrite abs_path_app, TrimPrefix_app by done. unfold abs_path at 2.
    by apply Clean_append_good. }
  assert (Hno : ∀ rest, cs ≠ gs ++ rest).
  { intros [|r rest] ->; [by rewrite app_nil_r in He|].
    by rewrite (proj2 (prefix_guest gs _ Hg Hne Hc)) in Epre by eauto. }
  destruct (rewrite_mounts mounts (abs_path cs)) as [p|].
  - destruct IH as (m' & gs' & hs' & rest & Hin & Hp' & -> & -> & Hl).
    exists m', gs', hs', rest. split_and!; [by right|done|done|done|].
    intros m'' gs'' hs'' rest'' [->|Hin'']%elem_of_cons Hp'' E; [|by eapply Hl].
    destruct Hp'' as (Hg'' & _ & _ & Eg'' & _). rewrite Eg in Eg''.
    apply abs_path_inj in Eg''; [|done|done]. subst gs''. by destruct (Hno rest'').
  - intros m' gs' hs' rest [->|Hin]%elem_of_cons Hp' E; [|by eapply IH].
    destruct Hp' as (Hg' & _ & _ & Eg' & _). rewrite Eg in Eg'.
    apply abs_path_inj in Eg'; [|done|done]. subst gs'. by destruct (Hno rest).
Qed.
