(* ===== verification/HostMounts.v ===== *)
(** * The mounts of the host backend: read-only mounts are copies

    [buildMounts] of [daemon/vm.go] writes only below the backend's directory and
    gives each request its mount ([buildMounts_copies]). *)
From Stdlib Require Import Ascii Sorting.Sorted.
From S2P Require Export HostBackendProps.

(** ** Sorting *)
Lemma insert_mount_perm m l : insert_mount m l ≡ₚ m :: l.
Proof.
  induction l as [|x l IH]; [done|]. simpl. destruct (_ <? _)%nat; [done|].
  rewrite IH. constructor.
Qed.

Lemma insert_mount_sorted m l : StronglySorted longer l → StronglySorted longer (insert_mount m l).
Proof.
  intros H. induction H as [|x l Hs IH Hall]; [by repeat constructor|]. simpl.
  destruct (_ <? _)%nat eqn:E.
  - apply Nat.ltb_lt in E. constructor; [by constructor|]. constructor; [unfold longer; lia|].
    eapply Forall_impl; [exact Hall|]. unfold longer. simpl. intros. lia.
  - apply Nat.ltb_ge in E. constructor; [done|]. rewrite Forall_forall. intros y Hy.
    rewrite insert_mount_perm in Hy. apply elem_of_cons in Hy as [->|Hy]; [exact E|].
    rewrite Forall_forall in Hall. by apply Hall.
Qed.

Lemma sort_mounts_spec l : sort_mounts l ≡ₚ l ∧ StronglySorted longer (sort_mounts l).
Proof.
  unfold sort_mounts. assert (H : ∀ acc, StronglySorted longer acc →
    foldl (λ acc m, insert_mount m acc) acc l ≡ₚ acc ++ l
    ∧ StronglySorted longer (foldl (λ acc m, insert_mount m acc) acc l)).
  { induction l as [|m l IH]; intros acc Ha; simpl; [by rewrite app_nil_r|].
    destruct (IH _ (insert_mount_sorted m acc Ha)) as [H1 H2]. split; [|done].
    rewrite H1, insert_mount_perm. simpl. by rewrite Permutation_middle. }
  apply (H []). constructor.
Qed.

(** ** Relative paths *)
Lemma norm_elements rooted l :
  Forall (λ c, has_char slash c = false) l →
  Forall (λ c, c ≠ "" ∧ has_char slash c = false) (norm rooted l).
Proof.
  intros Hl. unfold norm. apply Forall_reverse.
  assert (H : ∀ st, Forall (λ c, c ≠ "" ∧ has_char slash c = false) st →
    Forall (λ c, c ≠ "" ∧ has_char slash c = false) (foldl (push rooted) st l)); [|by apply H].
  induction Hl as [|c l Hc _ IH]; intros st Hst; [done|]. simpl. apply IH. unfold push.
  case_bool_decide as H1; [done|]. case_bool_decide as H2; [|by constructor; [split; [tauto|]|]].
  destruct st as [|t st]; [destruct rooted; by repeat constructor|].
  case_bool_decide; [by constructor; [split; [tauto|]|]|]. by apply Forall_cons in Hst as [_ ?].
Qed.

Lemma IsAbs_Clean p : IsAbs (Clean p) = true → IsAbs p = true.
Proof.
  unfold Clean. case_bool_decide; [done|]. destruct (IsAbs p); [done|].
  pose proof (norm_elements false _ (Split_no_sep p slash)) as Hn.
  destruct (norm false _) as [|c cs]; [done|]. apply Forall_cons in Hn as [[Hne Hs] _].
  destruct c as [|x c]; [done|]. intros [s Hx]%IsAbs_inv.
  assert (x = slash) as -> by (destruct cs; [simpl in Hx|rewrite Join_cons, sapp_cons in Hx by done]; congruence).
  by vm_compute in Hs.
Qed.

Lemma Rel_abs ds cs :
  Forall good ds → Forall good cs →
  Rel (abs_path ds) (abs_path (ds ++ cs))
  = Some (match cs with [] => "." | _ => Join cs Separator end).
Proof.
  intros Hd Hc. assert (Hdc : Forall good (ds ++ cs)) by (by apply Forall_app).
  unfold Rel. rewrite !Clean_abs_path by done. destruct cs as [|c cs].
  { by rewrite app_nil_r, bool_decide_true. }
  rewrite bool_decide_false.
  2: { intros H. apply abs_path_inj in H; [|done|done].
       apply (f_equal length) in H. rewrite length_app in H. simpl in H. lia. }
  rewrite (bool_decide_false (abs_path ds = ".")) by done.
  rewrite bool_decide_false by (rewrite !IsAbs_abs_path; tauto).
  rewrite !words_abs_path by done.
  assert (strip_common ds (ds ++ c :: cs) = ([], c :: cs)) as ->; [|done].
  clear Hd Hdc. induction ds as [|d ds IH]; [done|]. simpl. by rewrite decide_True.
Qed.

Lemma PathJoin_rel ds cs :
  Forall good ds → Forall good cs →
  PathJoin [abs_path ds; match cs with [] => "." | _ => Join cs Separator end] = abs_path (ds ++ cs).
Proof.
  intros Hd Hc. rewrite PathJoin_two; [|done|].
  - destruct cs as [|c cs]; [|by apply Clean_append_good].
    rewrite Clean_append by done. change (Split "." slash) with ["."]. cbn [foldl].
    unfold push. rewrite bool_decide_true by auto. by rewrite reverse_involutive, app_nil_r.
  - destruct cs as [|c [|c' cs]]; [done| |by apply Forall_cons in Hc as [[? _] _]; simpl; destruct c].
    by apply Forall_cons in Hc as [[? _] _].
Qed.

Lemma copy_path_abs rs gs :
  Forall good rs → Forall good gs →
  PathJoin [abs_path rs; "mounts"; TrimPrefix (abs_path gs) Separator]
  = abs_path (rs ++ "mounts" :: gs).
Proof.
  intros Hr Hg. unfold abs_path at 2. rewrite TrimPrefix_app.
  change (PathJoin [abs_path rs; "mounts"; Join gs Separator])
    with (Clean (abs_path rs +:+ Separator +:+ ("mounts" +:+ Separator +:+ Join gs Separator))).
  rewrite Clean_append by done.
  change (Separator +:+ Join gs Separator) with (String slash (Join gs Separator)).
  rewrite Split_app_sep, Split_Join_good by done.
  assert (Hm : good "mounts") by (by compute).
  destruct gs as [|g gs]; cbn [foldl]; rewrite (push_good _ _ "mounts") by exact Hm.
  - by rewrite push_skip, reverse_cons, reverse_involutive.
  - inversion Hg; subst. rewrite (push_good _ _ g), foldl_push_good by done.
    by rewrite reverse_app, !reverse_cons, !reverse_involutive, <-!app_assoc.
Qed.

Section mounts.
Context `{HT : HostTree W} (rs : list string) (Hrs : Forall good rs).
Implicit Types s : tstate W.

(** [filepath.WalkDir] passes its argument and, below it, paths joined from
    it and names. *)
Definition walk_law : Prop := ∀ ds w p e, Forall good ds → (p, e) ∈ t_walk (abs_path ds) w →
  ∃ cs, Forall good cs ∧ p = abs_path (ds ++ cs).
Hypothesis Hwalk : walk_law.

(** Writes below the backend's directory. *)
Definition below (w : fs_write) : Prop :=
  ∃ cs, Forall good cs ∧ write_path w = abs_path (rs ++ cs).

Definition writes_below {A} (m : T W A) : Prop :=
  ∀ s, ∃ new, writes (m s).2 = writes s ++ new ∧ Forall below new.

Lemma wb_ret {A} (a : A) : writes_below (mret a).
Proof. intros s. exists []. by rewrite app_nil_r. Qed.
Lemma wb_bind {A B} (m : T W A) (f : A → T W B) :
  writes_below m → (∀ a, writes_below (f a)) → writes_below (m ≫= f).
Proof.
  intros Hm Hf s. unfold mbind, T_mbind. destruct (Hm s) as (n1 & H1 & H2).
  destruct (m s) as [a s1]. destruct (Hf a s1) as (n2 & H3 & H4). exists (n1 ++ n2).
  simpl in *. rewrite H3, H1, app_assoc. split; [done|by apply Forall_app].
Qed.
Lemma wb_tread {A} (f : W → A) : writes_below (tread f).
Proof. intros s. exists []. by rewrite app_nil_r. Qed.
Lemma wb_tdo {A} (f : W → A * W) : writes_below (tdo f).
Proof. intros s. exists []. unfold tdo. destruct (f (tree s)). by rewrite app_nil_r. Qed.
Lemma wb_twrite e f : below e → writes_below (twrite e f).
Proof.
  intros He s. exists [e]. unfold twrite. destruct (f (tree s)). split; [done|by constructor].
Qed.

(** A path below the copies' directory, and its parent. *)
Lemma below_target cs : Forall good cs →
  (∀ p, p = abs_path (rs ++ "mounts" :: cs) → below (WCreate p) ∧ below (WChmod p) ∧ below (WMkdirAll p))
  ∧ below (WMkdirAll (Dir (abs_path (rs ++ "mounts" :: cs)))).
Proof.
  intros Hc. assert (Hm : good "mounts") by (by compute).
  assert (Hg : Forall good ("mounts" :: cs)) by (by constructor). split.
  - intros p ->. split_and!; by exists ("mounts" :: cs).
  - destruct cs as [|c cs _] using rev_ind.
    + exists []. split; [constructor|]. simpl. rewrite app_nil_r. by apply Dir_snoc.
    + exists ("mounts" :: cs). apply Forall_app in Hc as [Hc Hc']. apply Forall_cons in Hc' as [Hc' _].
      split; [by constructor|]. simpl. rewrite app_comm_cons, app_assoc.
      apply Dir_snoc; [|done]. apply Forall_app. split; [done|by constructor].
Qed.

Lemma wb_copyFile src cs mode : Forall good cs →
  writes_below (copyFile src (abs_path (rs ++ "mounts" :: cs)) mode).
Proof.
  intros Hc. destruct (below_target cs Hc) as [H1 H2]. destruct (H1 _ eq_refl) as (Hcr & Hch & _).
  unfold copyFile. apply wb_bind; [by apply wb_twrite|]. intros [e|]; [apply wb_ret|].
  apply wb_bind; [apply wb_tdo|]. intros [e|]; [apply wb_ret|].
  apply wb_bind; [by apply wb_twrite|]. intros [e|]; [apply wb_ret|].
  apply wb_bind; [apply wb_tdo|]. intros [e|]; [apply wb_ret|]. by apply wb_twrite.
Qed.

Lemma wb_copy_entries hs gs entries :
  Forall good hs → Forall good gs →
  (∀ p e, (p, e) ∈ entries → ∃ cs, Forall good cs ∧ p = abs_path (hs ++ cs)) →
  writes_below (copy_entries (abs_path hs) (abs_path (rs ++ "mounts" :: gs)) entries).
Proof.
  intros Hh Hg. induction entries as [|[p e] entries IH]; intros He; [apply wb_ret|].
  cbn [copy_entries]. destruct e as [|isDir info]; [apply wb_ret|].
  destruct (He p (WalkInfo isDir info)) as (cs & Hc & ->); [by left|].
  rewrite Rel_abs by done. cbv zeta. destruct info as [mode|]; [|apply wb_ret].
  assert (Hm : good "mounts") by (by compute).
  assert (Hd : Forall good (rs ++ "mounts" :: gs)) by (apply Forall_app; split; [done|by constructor]).
  rewrite (PathJoin_rel _ _ Hd Hc).
  rewrite <-app_assoc, <-app_comm_cons.
  assert (Hgc : Forall good (gs ++ cs)) by (by apply Forall_app).
  apply wb_bind.
  - destruct isDir; [|by apply wb_copyFile]. apply wb_twrite.
    destruct (below_target _ Hgc) as [H1 _]. by destruct (H1 _ eq_refl) as (_ & _ & ?).
  - intros [err|]; [apply wb_ret|]. apply IH. intros q x Hq. apply (He q x). by right.
Qed.

Lemma wb_copyTree hs gs :
  Forall good hs → Forall good gs →
  writes_below (copyTree (abs_path hs) (abs_path (rs ++ "mounts" :: gs))).
Proof.
  intros Hh Hg. unfold copyTree. apply wb_bind; [apply wb_tread|]. intros [[isDir mode]|e]; [|apply wb_ret].
  destruct (negb isDir).
  - apply wb_bind; [by apply wb_copyFile|]. intros; apply wb_ret.
  - intros s. unfold mbind, T_mbind, tread. apply wb_copy_entries; [done|done|].
    intros p e. by apply Hwalk.
Qed.

Lemma wb_makeReadOnly gs :
  Forall good gs → writes_below (makeReadOnly (abs_path (rs ++ "mounts" :: gs))).
Proof.
  intros Hg s. unfold makeReadOnly, mbind, T_mbind, tread.
  assert (Hm : good "mounts") by (by compute).
  assert (Hall : ∀ p e, (p, e) ∈ t_walk (abs_path (rs ++ "mounts" :: gs)) (tree s) → below (WChmod p)).
  { intros p e Hin.
    assert (Hd : Forall good (rs ++ "mounts" :: gs)) by (apply Forall_app; split; [done|by constructor]).
    destruct (Hwalk _ _ _ _ Hd Hin) as (cs & Hc & ->). exists ("mounts" :: gs ++ cs). rewrite <-app_assoc.
    split; [by constructor; [|apply Forall_app]|done]. }
  revert s Hall. intros s. generalize (t_walk (abs_path (rs ++ "mounts" :: gs)) (tree s)).
  intros entries Hall. revert s.
  change (writes_below (readonly_entries entries)).
  induction entries as [|[p e] entries IH]; [apply wb_ret|].
  cbn [readonly_entries]. destruct e as [|isDir [mode|]]; [apply wb_ret| |apply wb_ret]. cbv zeta.
  apply wb_bind; [apply wb_twrite, (Hall p (WalkInfo isDir (Good mode))); by left|].
  intros [err|]; [apply wb_ret|]. apply IH. intros q x Hq. apply (Hall q x). by right.
Qed.

(** ** [buildMounts] *)
Definition mount_built (req : Mount) (m : HostMount) : Prop :=
  ∃ gs, Forall good gs ∧ hm_GuestPath m = abs_path gs ∧ abs_path gs = Clean (GuestPath req)
  ∧ if hm_Mode m =? MountMode.RO
    then (Mount_Mode req = MountMode.RO ∨ Mount_Mode req = MountMode.UNSPECIFIED)
         ∧ hm_HostPath m = abs_path (rs ++ "mounts" :: gs)
    else hm_Mode m = Mount_Mode req ∧ hm_HostPath m = Clean (HostPath req).

Lemma build_mount_spec req :
  IsAbs (HostPath req) = true →
  writes_below (build_mount (abs_path rs) req)
  ∧ ∀ s m, (build_mount (abs_path rs) req s).1 = Good m → mount_built req m.
Proof.
  intros Habs. unfold build_mount. cbv zeta.
  destruct (_ || _ || negb (IsAbs (Clean (GuestPath req)))) eqn:Eg; [split; [apply wb_ret|done]|].
  apply orb_false_iff in Eg as [_ Eg%negb_false_iff].
  destruct (_ || _); [split; [apply wb_ret|done]|].
  destruct (Clean_abs_good (GuestPath req) (IsAbs_Clean _ Eg)) as (gs & Hg & Eqg).
  destruct (Clean_abs_good (HostPath req) Habs) as (hs & Hh & Eqh). rewrite Eqg, Eqh.
  assert (Hfst : ∀ A B (m : T W A) (f : A → T W (osres mount_error B)) s b,
    ((m ≫= f) s).1 = Good b → ∃ a s', m s = (a, s') ∧ (f a s').1 = Good b).
  { intros A B m f s b. unfold mbind, T_mbind. destruct (m s) as [a s']. eauto. }
  rewrite copy_path_abs by done. split.
  - apply wb_bind; [apply wb_tread|]. intros [info|]; [|apply wb_ret].
    destruct (_ =? MountMode.RO); [|apply wb_ret].
    apply wb_bind; [by apply wb_copyTree|]. intros [e|]; [apply wb_ret|].
    apply wb_bind; [by apply wb_makeReadOnly|]. intros [e|]; apply wb_ret.
  - intros s m (info & s1 & _ & H)%Hfst. destruct info as [info|]; [|done].
    assert (Hmode : (if Mount_Mode req =? MountMode.UNSPECIFIED then MountMode.RO else Mount_Mode req)
                    = MountMode.RO → Mount_Mode req = MountMode.RO ∨ Mount_Mode req = MountMode.UNSPECIFIED).
    { destruct (Mount_Mode req =? MountMode.UNSPECIFIED) eqn:E; [apply Z.eqb_eq in E; auto|auto]. }
    set (mode := if Mount_Mode req =? MountMode.UNSPECIFIED then _ else _) in *.
    destruct (mode =? MountMode.RO) eqn:Em.
    + apply Hfst in H as (e & s2 & _ & H). destruct e; [done|].
      apply Hfst in H as (e & s3 & _ & H). destruct e; [done|]. injection H as <-.
      exists gs. cbn. rewrite Em. apply Z.eqb_eq in Em. split_and!; auto.
    + injection H as <-. exists gs. cbn. rewrite Em. split_and!; auto.
      unfold mode. destruct (Mount_Mode req =? MountMode.UNSPECIFIED) eqn:E; [|done].
      by unfold mode in Em.
Qed.

Lemma build_mounts_spec reqs :
  Forall (λ req, IsAbs (HostPath req) = true) reqs →
  writes_below (build_mounts (abs_path rs) reqs)
  ∧ ∀ s out, (build_mounts (abs_path rs) reqs s).1 = Good out → Forall2 mount_built reqs out.
Proof.
  induction 1 as [|req reqs Hr _ [IH1 IH2]]; cbn [build_mounts].
  { split; [apply wb_ret|]. intros s out [= <-]. constructor. }
  destruct (build_mount_spec req Hr) as [H1 H2]. split.
  - apply wb_bind; [done|]. intros [m|e]; [|apply wb_ret].
    apply wb_bind; [done|]. intros; apply wb_ret.
  - intros s out. unfold mbind, T_mbind. specialize (H2 s).
    destruct (build_mount _ req s) as [[m|e] s1]; [|done]. specialize (IH2 s1).
    destruct (build_mounts _ reqs s1) as [[out'|e] s2]; [|done]. cbn. intros [= <-].
    constructor; [by apply H2|by apply IH2].
Qed.

(** C34: the mounts of the host backend, for absolute host paths: whatever is
    written while they are prepared is below the backend's own directory; each
    request gives one mount with its clean guest path; a read-only mount (or one
    with no mode) is a copy below that directory, never the host path itself;
    and the mounts end up sorted by decreasing guest path. *)
Theorem buildMounts_copies reqs s :
  Forall (λ req, IsAbs (HostPath req) = true) reqs →
  (∃ new, writes (buildMounts (abs_path rs) reqs s).2 = writes s ++ new ∧ Forall below new)
  ∧ ∀ out, (buildMounts (abs_path rs) reqs s).1 = Good out →
      StronglySorted longer out ∧ ∃ out', out ≡ₚ out' ∧ Forall2 mount_built reqs out'.
Proof.
  intros Hr. destruct (build_mounts_spec reqs Hr) as [H1 H2]. specialize (H1 s). specialize (H2 s).
  unfold buildMounts, mbind, T_mbind. destruct (build_mounts _ reqs s) as [r s1]. split; [exact H1|].
  intros out. destruct r as [out'|e]; [|done]. cbn. intros [= <-].
  destruct (sort_mounts_spec out') as [H3 H4]. split; [done|]. exists out'. split; [done|]. by apply H2.
Qed.
End mounts.
