(* ===== verification/HostRewrite.v ===== *)
(** * Rewriting guest paths to host paths, and the host backend on an example

    [rewritePath] of [daemon/vm.go] follows the longest mount above a path
    ([rewritePath_follows_mounts]); paths that are not clean can leave it
    ([rewriting_leaves_mounts]). *)
From Stdlib Require Import Ascii Sorting.Sorted.
From S2P Require Export HostMounts.

Section rewrite.
Context `{HT : HostTree W}.

Lemma rootPath_abs backend rs cs (s : tstate W) :
  Forall good rs → Forall good cs → hb_Root backend = abs_path rs →
  (rootPath backend (abs_path cs) s).1 = abs_path (rs ++ cs).
Proof.
  intros Hr Hc Eroot. unfold rootPath. rewrite Eroot. case_bool_decide as Hs.
  { assert (cs = []) as ->; [|by rewrite app_nil_r]. by apply (abs_path_inj cs []) in Hs. }
  assert (Ht : TrimPrefix (abs_path cs) Separator = Join cs Separator) by apply TrimPrefix_app.
  cbv zeta. rewrite Ht.
  assert (Hj : PathJoin [abs_path rs; Join cs Separator] = abs_path (rs ++ cs)).
  { destruct cs as [|c cs]; [done|]. by apply (PathJoin_rel rs (c :: cs)). }
  rewrite Hj. destruct (_ && _); [|done]. unfold mbind, T_mbind.
  by destruct (MkdirAll _ _ s) as [e s'].
Qed.

(** a clean absolute argument is rewritten below the host path of the
    longest mount above it, keeping what follows the mount's guest path; with
    no mount above it, below the backend's root. *)
Theorem rewritePath_follows_mounts backend rs cs (s : tstate W) :
  Forall good rs → Forall good cs → hb_Root backend = abs_path rs →
  StronglySorted longer (hb_Mounts backend) →
  Forall (λ m, ∃ gs hs, mount_paths m gs hs) (hb_Mounts backend) →
  (∃ m gs hs rest, m ∈ hb_Mounts backend ∧ mount_paths m gs hs ∧ cs = gs ++ rest
     ∧ (rewritePath backend (abs_path cs) true s).1 = abs_path (hs ++ rest)
     ∧ ∀ m' gs' hs' rest', m' ∈ hb_Mounts backend → mount_paths m' gs' hs' →
         cs = gs' ++ rest' → (length gs' ≤ length gs)%nat)
  ∨ (∀ m gs hs rest, m ∈ hb_Mounts backend → mount_paths m gs hs → cs ≠ gs ++ rest)
    ∧ (rewritePath backend (abs_path cs) true s).1 = abs_path (rs ++ cs).
Proof.
  intros Hr Hc Eroot Hs Hm. pose proof (rewrite_mounts_longest _ _ Hc Hs Hm) as Hl.
  unfold rewritePath. rewrite (IsAbs_abs_path cs : HasPrefix (abs_path cs) Separator = true).
  cbn [negb]. destruct (rewrite_mounts _ _) as [p|].
  - left. destruct Hl as (m & gs & hs & rest & H1 & H2 & H3 & H4 & H5).
    exists m, gs, hs, rest. by split_and!.
  - right. split; [exact Hl|]. cbn [negb orb]. rewrite Eroot, bool_decide_false by done.
    by apply rootPath_abs.
Qed.
End rewrite.

(** ** An example *)
#[export] Instance demo_tree : HostTree () := {|
  t_stat _ _ := Good (true, 493);
  t_walk src _ := [(src, WalkInfo true (Good 493)); (PathJoin [src; "a.txt"], WalkInfo false (Good 420))];
  t_mkdirAll _ _ w := (None, w);
  t_open _ w := (None, w);
  t_create _ w := (None, w);
  t_copy _ _ w := (None, w);
  t_fchmod _ _ w := (None, w);
  t_chmod _ _ w := (None, w)
|}.

Lemma demo_walk_law : walk_law.
Proof.
  intros ds w p e Hd. cbn. intros [[= -> ->]|[[= -> ->]|[]%not_elem_of_nil]%elem_of_cons]%elem_of_cons.
  - exists []. by rewrite app_nil_r.
  - assert (Hg : good "a.txt") by (by compute). exists ["a.txt"]. split; [by constructor|].
    by apply PathJoin_good.
Qed.

Definition demo_requests : list Mount :=
  [ {| GuestPath := "/work"; HostPath := "/home/u/proj"; Mount_Mode := MountMode.RW |};
    {| GuestPath := "/work//data/"; HostPath := "/home/u/data"; Mount_Mode := MountMode.UNSPECIFIED |} ].
Definition demo_state : tstate () := {| tree := (); writes := [] |}.
Definition demo_host_mounts : list HostMount :=
  [ {| hm_GuestPath := "/work/data"; hm_HostPath := "/tmp/k/mounts/work/data"; hm_Mode := MountMode.RO |};
    {| hm_GuestPath := "/work"; hm_HostPath := "/home/u/proj"; hm_Mode := MountMode.RW |} ].

Example buildMounts_values :
  (buildMounts "/tmp/k" demo_requests demo_state).1 = Good demo_host_mounts
  ∧ writes (buildMounts "/tmp/k" demo_requests demo_state).2
    = [WMkdirAll "/tmp/k/mounts/work/data"; WMkdirAll "/tmp/k/mounts/work/data";
       WCreate "/tmp/k/mounts/work/data/a.txt"; WChmod "/tmp/k/mounts/work/data/a.txt";
       WChmod "/tmp/k/mounts/work/data"; WChmod "/tmp/k/mounts/work/data/a.txt"].
Proof. by vm_compute. Qed.

Lemma demo_rs_good : Forall good ["tmp"; "k"].
Proof. repeat constructor; by compute. Qed.

Lemma buildMounts_copies_witness :
  (∃ new, writes (buildMounts "/tmp/k" demo_requests demo_state).2 = [] ++ new
          ∧ Forall (below ["tmp"; "k"]) new)
  ∧ ∀ out, (buildMounts "/tmp/k" demo_requests demo_state).1 = Good out →
      StronglySorted longer out
      ∧ ∃ out', out ≡ₚ out' ∧ Forall2 (mount_built ["tmp"; "k"]) demo_requests out'.
Proof.
  refine (buildMounts_copies ["tmp"; "k"] demo_rs_good demo_walk_law demo_requests demo_state _).
  repeat constructor.
Defined.

Definition demo_backend : HostBackend :=
  {| hb_Root := "/tmp/k"; hb_Mounts := demo_host_mounts; hb_Env := [] |}.

Definition rewritten (input : string) : string := (rewritePath demo_backend input true demo_state).1.

Example rewritten_values :
  rewritten "/work/src/main.go" = "/home/u/proj/src/main.go"
  ∧ rewritten "/work/data/a.txt" = "/tmp/k/mounts/work/data/a.txt"
  ∧ rewritten "/workspace/x" = "/tmp/k/workspace/x" ∧ rewritten "ls" = "ls"
  ∧ (RewriteCommand demo_backend "/bin/cat" ["/work/x"; "-n"] demo_state).1
    = ("/bin/cat", ["/home/u/proj/x"; "-n"]).
Proof. by vm_compute. Qed.

Lemma demo_mounts_ok :
  StronglySorted longer demo_host_mounts
  ∧ Forall (λ m, ∃ gs hs, mount_paths m gs hs) demo_host_mounts.
Proof.
  split.
  - repeat constructor; unfold longer; simpl; lia.
  - constructor; [|constructor; [|constructor]].
    + exists ["work"; "data"], ["tmp"; "k"; "mounts"; "work"; "data"].
      split_and!; [repeat constructor; by compute|done|repeat constructor; by compute|done|done].
    + exists ["work"], ["home"; "u"; "proj"].
      split_and!; [repeat constructor; by compute|done|repeat constructor; by compute|done|done].
Qed.

Lemma rewritePath_follows_mounts_witness :
  (∃ m gs hs rest, m ∈ demo_host_mounts ∧ mount_paths m gs hs ∧ ["work"; "data"; "a.txt"] = gs ++ rest
     ∧ rewritten (abs_path ["work"; "data"; "a.txt"]) = abs_path (hs ++ rest)
     ∧ ∀ m' gs' hs' rest', m' ∈ demo_host_mounts → mount_paths m' gs' hs' →
         ["work"; "data"; "a.txt"] = gs' ++ rest' → (length gs' ≤ length gs)%nat)
  ∨ (∀ m gs hs rest, m ∈ demo_host_mounts → mount_paths m gs hs →
        ["work"; "data"; "a.txt"] ≠ gs ++ rest)
    ∧ rewritten (abs_path ["work"; "data"; "a.txt"])
      = abs_path (["tmp"; "k"] ++ ["work"; "data"; "a.txt"]).
Proof.
  refine (rewritePath_follows_mounts demo_backend ["tmp"; "k"] ["work"; "data"; "a.txt"] demo_state
            demo_rs_good _ eq_refl (proj1 demo_mounts_ok) (proj2 demo_mounts_ok)).
  repeat constructor; by compute.
Defined.

(** the rewriting joins before it cleans: a path with [..] after a mount's
    guest path leaves the mount's host path, and a mount at [/] is used for the
    path [/] only. *)
Theorem rewriting_leaves_mounts :
  rewritten "/work/../../secret" = "/home/secret"
  ∧ rewrite_mounts [{| hm_GuestPath := "/"; hm_HostPath := "/srv"; hm_Mode := MountMode.RW |}] "/etc"
    = None
  ∧ rewrite_mounts [{| hm_GuestPath := "/"; hm_HostPath := "/srv"; hm_Mode := MountMode.RW |}] "/"
    = Some "/srv".
Proof. by vm_compute. Qed.
