(* ===== verification/ExecIO.v ===== *)
(** * The messages of a streamed command, and its input

    The messages of ExecStream ([daemon.proto]), the helpers of
    [daemon/exec_helpers.go] that build and use them, and the goroutine of
    either backend that receives the client's messages: for a host command
    ([daemon/vm.go]) it writes to the command's stdin or terminal, for a guest
    command ([daemon/vm_backend.go]) it sends frames on the console.  The two
    do the same with the same messages ([input_agrees]). *)
From Stdlib Require Import Ascii.
From S2P Require Export VirtioExec HostBackend.

(** ** Messages *)
Inductive ExecStreamResponse :=
| RespOutput (stream : string) (data : list byte)
| RespExit (code : Z).
#[export] Instance byte_eq : EqDecision byte := Byte.byte_eq_dec.
#[export] Instance ExecStreamResponse_eq : EqDecision ExecStreamResponse.
Proof. solve_decision. Defined.

Definition execOutput (stream : string) (data : list byte) : ExecStreamResponse := RespOutput stream data.
Definition execExit (code : Z) : ExecStreamResponse := RespExit code.

(** The payload of a request: one of three, or none. *)
Inductive ExecStreamRequest :=
| ReqStart
| ReqInput (data : list byte) (eof : bool)
| ReqResize (rows cols : Z)
| ReqNone.

(** What [stream.Receive] answers. *)
Inductive received :=
| Received (msg : ExecStreamRequest)
| ReceivedEOF
| ReceiveFailed (text : string).

(** What a command that cannot be started is answered with. *)
Definition start_failure (text : string) : list ExecStreamResponse :=
  [execOutput "stderr" (text_bytes text); execExit 127].

(** ** The input of a host command *)
Inductive stdin_op :=
| OpWrite (data : list byte)
| OpClose
| OpSetsize (rows cols : Z).

Definition uint16_of (z : Z) : Z := z mod 65536.

(** [ptyFile != nil] is [pty]; stdin is then the terminal. *)
Definition sendEof (pty : bool) : list stdin_op := if pty then [OpWrite [Byte.x04]] else [OpClose].

(** How the goroutine stands when the messages end. *)
Inductive input_end := InputWaiting | InputDone | InputFailed (text : string).

(** The goroutine of [HostBackend.ExecStream]; [InputFailed]: it cancelled the
    context. *)
Fixpoint host_input (pty : bool) (msgs : list received) : list stdin_op * input_end :=
  match msgs with
  | [] => ([], InputWaiting)
  | ReceivedEOF :: _ => (sendEof pty, InputDone)
  | ReceiveFailed text :: _ => ([], InputFailed text)
  | Received msg :: msgs' =>
      match msg with
      | ReqInput data eof =>
          let w := if (length data =? 0)%nat then [] else [OpWrite data] in
          if eof then (w ++ sendEof pty, InputDone)
          else let '(ops, e) := host_input pty msgs' in (w ++ ops, e)
      | ReqResize rows cols =>
          let z := if pty then [OpSetsize (uint16_of rows) (uint16_of cols)] else [] in
          let '(ops, e) := host_input pty msgs' in (z ++ ops, e)
      | _ => host_input pty msgs'
      end
  end.

(** ** The input of a guest command *)
Section guest.
Context `{C : Codec} `{OS : ConnOS CS}.

(** The goroutine of [vmBackend.ExecStream]; what the sends answer is dropped. *)
Fixpoint vm_input (id : Z) (msgs : list received) : V CS input_end :=
  match msgs with
  | [] => mret InputWaiting
  | ReceivedEOF :: _ => _ ← sendStdin id None true; mret InputDone
  | ReceiveFailed text :: _ => mret (InputFailed text)
  | Received msg :: msgs' =>
      match msg with
      | ReqInput data eof =>
          _ ← (if (length data =? 0)%nat then mret None else sendStdin id (Some data) false);
          if eof then _ ← sendStdin id None true; mret InputDone else vm_input id msgs'
      | ReqResize rows cols => _ ← sendResize id rows cols; vm_input id msgs'
      | _ => vm_input id msgs'
      end
  end.
End guest.

(** ** What the client asked for, up to its end of input *)
Definition input_op (op : ExecStreamRequest) : list stdin_op :=
  match op with
  | ReqInput data eof =>
      (if (length data =? 0)%nat then [] else [OpWrite data]) ++ (if eof then [OpClose] else [])
  | ReqResize rows cols => [OpSetsize rows cols]
  | _ => []
  end.
Definition ends_input (op : ExecStreamRequest) : bool :=
  match op with ReqInput _ eof => eof | _ => false end.

Fixpoint input_ops (msgs : list received) : list stdin_op * input_end :=
  match msgs with
  | [] => ([], InputWaiting)
  | ReceivedEOF :: _ => ([OpClose], InputDone)
  | ReceiveFailed text :: _ => ([], InputFailed text)
  | Received msg :: msgs' =>
      if ends_input msg then (input_op msg, InputDone)
      else let '(ops, e) := input_ops msgs' in (input_op msg ++ ops, e)
  end.

(** A pipe has no size; a terminal's end of input is a control character, and
    its size has sixteen bits. *)
Definition pipe_op (op : stdin_op) : list stdin_op :=
  match op with OpSetsize _ _ => [] | _ => [op] end.
Definition terminal_op (op : stdin_op) : stdin_op :=
  match op with
  | OpWrite data => OpWrite data
  | OpClose => OpWrite [Byte.x04]
  | OpSetsize rows cols => OpSetsize (uint16_of rows) (uint16_of cols)
  end.

Lemma host_input_pipe msgs :
  host_input false msgs = (concat (map pipe_op (input_ops msgs).1), (input_ops msgs).2).
Proof.
  induction msgs as [|[[|data eof|rows cols|]| |] msgs IH]; try done; simpl; rewrite ?IH;
    try destruct eof; destruct (input_ops msgs) as [ops e]; try done; by destruct data.
Qed.

Lemma host_input_pty msgs :
  host_input true msgs = (map terminal_op (input_ops msgs).1, (input_ops msgs).2).
Proof.
  induction msgs as [|[[|data eof|rows cols|]| |] msgs IH]; try done; simpl; rewrite ?IH;
    try destruct eof; destruct (input_ops msgs) as [ops e]; try done; by destruct data.
Qed.

Section agree.
Context `{C : Codec} `{OS : ConnOS CS}.

Definition send_op (id : Z) (op : stdin_op) : V CS (option string) :=
  match op with
  | OpWrite data => sendStdin id (Some data) false
  | OpClose => sendStdin id None true
  | OpSetsize rows cols => sendResize id rows cols
  end.
Fixpoint send_ops (id : Z) (ops : list stdin_op) : V CS () :=
  match ops with [] => mret () | op :: ops' => _ ← send_op id op; send_ops id ops' end.

Lemma V_bind_assoc {A B D} (m : V CS A) (f : A → V CS B) (g : B → V CS D) c :
  (x ← (y ← m; f y); g x) c = (y ← m; x ← f y; g x) c.
Proof. unfold mbind, V_mbind. by destruct (m c) as [[]| |]. Qed.
Lemma V_bind_ext {A B} (m : V CS A) (f g : A → V CS B) c :
  (∀ a c', f a c' = g a c') → mbind f m c = mbind g m c.
Proof. intros H. unfold mbind, V_mbind. destruct (m c) as [[]| |]; auto. Qed.

Lemma send_ops_app id l1 l2 {A} (k : V CS A) c :
  (_ ← send_ops id (l1 ++ l2); k) c = (_ ← send_ops id l1; _ ← send_ops id l2; k) c.
Proof.
  revert c. induction l1 as [|op l1 IH]; intros c; [done|]. cbn [app send_ops].
  rewrite !V_bind_assoc. apply V_bind_ext. auto.
Qed.

Lemma vm_input_ops id msgs : ∀ c,
  vm_input id msgs c = (_ ← send_ops id (input_ops msgs).1; mret (input_ops msgs).2) c.
Proof.
  induction msgs as [|[msg| |text] msgs IH]; intros c; [done| |by cbn -[sendStdin]; rewrite V_bind_assoc|done].
  destruct msg as [|data eof|rows cols|]; cbn -[sendStdin sendResize];
    [by rewrite IH; destruct (input_ops msgs)| | |by rewrite IH; destruct (input_ops msgs)].
  - destruct eof; destruct data; cbn -[sendStdin]; rewrite ?V_bind_assoc; try done.
    + apply V_bind_ext. intros. by rewrite V_bind_assoc.
    + destruct (input_ops msgs) as [ops e]. apply IH.
    + destruct (input_ops msgs) as [ops e]. cbn -[sendStdin]. rewrite V_bind_assoc.
      apply V_bind_ext. auto.
  - destruct (input_ops msgs) as [ops e]. cbn -[sendResize]. rewrite V_bind_assoc.
    apply V_bind_ext. auto.
Qed.

(** The end of input is a message whose data is null, which the guest, that takes
    bytes only, refuses. *)
Lemma end_of_input_is_null id c :
  vm_input id [ReceivedEOF] c
  = (_ ← sendMessage [("v", VInt 1); ("t", VText "stdin_data"); ("id", VU32 id);
                      ("p", VObj [("data", VNil); ("eof", VBool true)])]; mret InputDone) c.
Proof. done. Qed.

(** C35: both backends do the same with a client's input: the host backend
    performs on the command's stdin, and the guest backend sends as frames of the
    command's request, the operations the messages ask for up to the end of input
    (non-empty data written in order, then one close), except that a pipe ignores
    resizes, and a terminal is sent the character 4 for the end of input and its
    sizes are cut to sixteen bits. *)
Theorem input_agrees id msgs c :
  let '(ops, e) := input_ops msgs in
  host_input false msgs = (concat (map pipe_op ops), e)
  ∧ host_input true msgs = (map terminal_op ops, e)
  ∧ vm_input id msgs c = (_ ← send_ops id ops; mret e) c.
Proof.
  pose proof (host_input_pipe msgs) as H1. pose proof (host_input_pty msgs) as H2.
  pose proof (vm_input_ops id msgs c) as H3. by destruct (input_ops msgs).
Qed.
End agree.
