(* ===== verification/HostStream.v ===== *)
(** * Commands on the host

    [HostBackend.Exec] and [HostBackend.ExecStream] of [daemon/vm.go], with
    [startCommand] and [readOutput] of [daemon/exec_helpers.go].

    A streamed command is five goroutines and a process that run at the same
    time: the process writes to its pipes (or its terminal), [readOutput] moves
    each pipe's bytes to the client, the input goroutine is [ExecIO.host_input],
    and the call itself waits for the process, for the readers, and sends the
    exit code.  [step] is one atomic action of one of them, and a run is a list of
    actions: every interleaving is one. *)
From Stdlib Require Import Ascii.
From stdpp Require Import functions.
From S2P Require Export ExecIO VMService.

(** ** Starting commands *)
Record command := { c_path : string; c_args : list string; c_env : list string }.

Class HostProc (W : Type) := {
  p_environ : W → list string;                              (* os.Environ *)
  p_ptyStart : command → W → option string * W;             (* pty.Start *)
  p_pipe : string → W → option string * W;                  (* StdoutPipe and its siblings *)
  p_start : command → W → option string * W;                (* Cmd.Start *)
  p_run : command → W → (list byte * list byte * option run_error) * W   (* Cmd.Run *)
}.

Definition bytes_text (b : list byte) : string :=
  String.string_of_list_ascii (map Ascii.ascii_of_byte b).

Lemma text_bytes_text b : text_bytes (bytes_text b) = b.
Proof.
  unfold text_bytes, bytes_text. rewrite String.list_ascii_of_string_of_list_ascii, map_map.
  induction b as [|x b IH]; [done|]. cbn. by rewrite Ascii.byte_of_ascii_of_byte, IH.
Qed.

(** ** The state of a streamed command *)
Inductive stream_name := Stdout | Stderr.
#[export] Instance stream_name_eq : EqDecision stream_name.
Proof. solve_decision. Defined.
Definition stream_text (s : stream_name) : string :=
  match s with Stdout => "stdout" | Stderr => "stderr" end.

(** What was written to a pipe and what of it was not read, whether a process
    still holds the other end, and whether our end was closed. *)
Record pipe := { p_written : list byte; p_buf : list byte; p_open : bool; p_cut : bool }.

Inductive pipe_error := PipeEOF | PipeClosed | PipeEIO | PipeError (text : string).

(** Where [readOutput] stands. *)
Inductive reader := RSelect | RRead | RSend (data : list byte) (err : option pipe_error) | RDone.

#[export] Instance pipe_error_eq : EqDecision pipe_error.
Proof. solve_decision. Defined.
#[export] Instance reader_eq : EqDecision reader.
Proof. solve_decision. Defined.

(** Where [ExecStream] stands, with what [Wait] returned. *)
Inductive main_pc :=
| MWait
| MClosePty (waitErr : option run_error)
| MJoin (waitErr : option run_error)
| MExit (waitErr : option run_error)
| MCheck
| MReturned (err : option string).

Record stream := {
  st_pty : bool;
  st_exited : option (option run_error);       (* the process: what [Wait] will return *)
  st_pipe : stream_name → pipe;
  st_reader : stream_name → reader;
  st_cancelled : bool;
  st_main : main_pc;
  st_outputErr : option string;                (* a channel of capacity one *)
  st_sent : list ExecStreamResponse
}.

Definition set_pipe (s : stream_name) (p : pipe) (st : stream) : stream :=
  {| st_pty := st_pty st; st_exited := st_exited st; st_pipe := <[s := p]> (st_pipe st);
     st_reader := st_reader st; st_cancelled := st_cancelled st; st_main := st_main st;
     st_outputErr := st_outputErr st; st_sent := st_sent st |}.
Definition set_reader (s : stream_name) (r : reader) (st : stream) : stream :=
  {| st_pty := st_pty st; st_exited := st_exited st; st_pipe := st_pipe st;
     st_reader := <[s := r]> (st_reader st); st_cancelled := st_cancelled st;
     st_main := st_main st; st_outputErr := st_outputErr st; st_sent := st_sent st |}.
Definition set_main (m : main_pc) (st : stream) : stream :=
  {| st_pty := st_pty st; st_exited := st_exited st; st_pipe := st_pipe st;
     st_reader := st_reader st; st_cancelled := st_cancelled st; st_main := m;
     st_outputErr := st_outputErr st; st_sent := st_sent st |}.
Definition set_exited (e : option run_error) (st : stream) : stream :=
  {| st_pty := st_pty st; st_exited := Some e; st_pipe := st_pipe st;
     st_reader := st_reader st; st_cancelled := st_cancelled st; st_main := st_main st;
     st_outputErr := st_outputErr st; st_sent := st_sent st |}.
Definition cancel (st : stream) : stream :=
  {| st_pty := st_pty st; st_exited := st_exited st; st_pipe := st_pipe st;
     st_reader := st_reader st; st_cancelled := true; st_main := st_main st;
     st_outputErr := st_outputErr st; st_sent := st_sent st |}.
(** [select { case errCh <- err: default: }] *)
Definition report (text : string) (st : stream) : stream :=
  {| st_pty := st_pty st; st_exited := st_exited st; st_pipe := st_pipe st;
     st_reader := st_reader st; st_cancelled := st_cancelled st; st_main := st_main st;
     st_outputErr := match st_outputErr st with Some t => Some t | None => Some text end;
     st_sent := st_sent st |}.

(** The function literal [send]: an error cancels the context. *)
Definition send (resp : ExecStreamResponse) (err : option string) (st : stream) : stream :=
  match err with
  | Some _ => cancel st
  | None =>
      {| st_pty := st_pty st; st_exited := st_exited st; st_pipe := st_pipe st;
         st_reader := st_reader st; st_cancelled := st_cancelled st; st_main := st_main st;
         st_outputErr := st_outputErr st; st_sent := st_sent st ++ [resp] |}
  end.

(** ** Pipes *)
Definition write_pipe (data : list byte) (p : pipe) : option pipe :=
  if p_open p && negb (p_cut p)
  then Some {| p_written := p_written p ++ data; p_buf := p_buf p ++ data; p_open := p_open p;
               p_cut := p_cut p |}
  else None.
Definition hangup (p : pipe) : pipe :=
  {| p_written := p_written p; p_buf := p_buf p; p_open := false; p_cut := p_cut p |}.
Definition cut (p : pipe) : pipe :=
  {| p_written := p_written p; p_buf := p_buf p; p_open := p_open p; p_cut := true |}.

Definition read_size : Z := 32768.      (* [32*1024] *)

(** [reader.Read(buf)]: [None] while it blocks.  It reads at least one byte and
    at most the buffer, [n] as the system decides. *)
Definition read_pipe (pty : bool) (n : nat) (p : pipe)
    : option ((list byte * option pipe_error) * pipe) :=
  if p_cut p then Some ([], Some PipeClosed, p)
  else if (length (p_buf p) =? 0)%nat then
    if p_open p then None else Some ([], Some (if pty then PipeEIO else PipeEOF), p)
  else
    let k := Z.to_nat (1 `max` (Z.of_nat n `min` read_size)) in
    Some (take k (p_buf p), None,
          {| p_written := p_written p; p_buf := drop k (p_buf p); p_open := p_open p;
             p_cut := p_cut p |}).

(** ** [readOutput] *)
Definition after_read (s : stream_name) (err : option pipe_error) (st : stream) : stream :=
  match err with
  | None => set_reader s RSelect st
  | Some (PipeError text) => set_reader s RDone (report text st)
  | Some _ => set_reader s RDone st
  end.
Definition got (s : stream_name) (data : list byte) (err : option pipe_error) (st : stream) : stream :=
  if (length data =? 0)%nat then after_read s err st else set_reader s (RSend data err) st.

Definition exit_code_of (waitErr : option run_error) : Z :=
  match waitErr with None => 0 | Some e => (exitCodeFromError e None).1 end.

(** ** One action *)
Inductive action :=
| AWrite (s : stream_name) (data : list byte)        (* the process, or a child of it, writes *)
| AHangup (s : stream_name)                          (* the last of them closes *)
| AExit (waitErr : option run_error)                 (* the process ends *)
| ACancel                                            (* the client is gone *)
| ASelect (s : stream_name)                          (* [select] on [ctx.Done()] *)
| ARead (s : stream_name) (n : nat)
| AReadFails (s : stream_name) (text : string)
| ASend (s : stream_name) (err : option string)
| AWait
| AClosePty
| AJoin
| ASendExit (err : option string)
| AReturn.

Definition step (a : action) (st : stream) : option stream :=
  match a with
  | AWrite s data => p ← write_pipe data (st_pipe st s); Some (set_pipe s p st)
  | AHangup s => Some (set_pipe s (hangup (st_pipe st s)) st)
  | AExit waitErr =>
      match st_exited st with None => Some (set_exited waitErr st) | Some _ => None end
  | ACancel => Some (cancel st)
  | ASelect s =>
      match st_reader st s with
      | RSelect => Some (set_reader s (if st_cancelled st then RDone else RRead) st)
      | _ => None
      end
  | ARead s n =>
      match st_reader st s with
      | RRead => '(data, err, p) ← read_pipe (st_pty st) n (st_pipe st s);
                 Some (got s data err (set_pipe s p st))
      | _ => None
      end
  | AReadFails s text =>
      match st_reader st s with
      | RRead => Some (got s [] (Some (PipeError text)) st)
      | _ => None
      end
  | ASend s err =>
      match st_reader st s with
      | RSend data readErr =>
          let st := send (execOutput (stream_text s) data) err st in
          Some (match err with
                | Some text => set_reader s RDone (report text st)
                | None => after_read s readErr st
                end)
      | _ => None
      end
  | AWait =>
      match st_main st, st_exited st with
      | MWait, Some waitErr =>
          let st := set_main (MClosePty waitErr) st in
          Some (if st_pty st then st
                else set_pipe Stdout (cut (st_pipe st Stdout)) (set_pipe Stderr (cut (st_pipe st Stderr)) st))
      | _, _ => None
      end
  | AClosePty =>
      match st_main st with
      | MClosePty waitErr =>
          let st := set_main (MJoin waitErr) st in
          Some (if st_pty st then set_pipe Stdout (cut (st_pipe st Stdout)) st else st)
      | _ => None
      end
  | AJoin =>
      match st_main st, st_reader st Stdout, st_reader st Stderr with
      | MJoin waitErr, RDone, RDone => Some (set_main (MExit waitErr) st)
      | _, _, _ => None
      end
  | ASendExit err =>
      match st_main st with
      | MExit waitErr =>
          let st := send (execExit (exit_code_of waitErr)) err st in
          Some (set_main (match err with Some t => MReturned (Some t) | None => MCheck end) st)
      | _ => None
      end
  | AReturn =>
      match st_main st with
      | MCheck => Some (set_main (MReturned (st_outputErr st)) st)
      | _ => None
      end
  end.

Fixpoint run (acts : list action) (st : stream) : option stream :=
  match acts with [] => Some st | a :: acts' => st' ← step a st; run acts' st' end.

(** After [startCommand]: a terminal carries both outputs, and has one reader. *)
Definition started (pty : bool) : stream :=
  {| st_pty := pty; st_exited := None;
     st_pipe s := {| p_written := []; p_buf := [];
                     p_open := match s with Stdout => true | Stderr => negb pty end; p_cut := false |};
     st_reader s := match s with Stdout => RSelect | Stderr => if pty then RDone else RSelect end;
     st_cancelled := false; st_main := MWait; st_outputErr := None; st_sent := [] |}.

(** ** The two calls *)
Section calls.
Context `{HT : HostTree W} `{HP : HostProc W}.

Definition host_command (backend : HostBackend) (name : string) (args : list string) : T W command :=
  '(name, args) ← RewriteCommand backend name args;
  environ ← tread p_environ;
  mret {| c_path := name; c_args := args; c_env := mergeEnv environ (hb_Env backend) |}.

Definition host_Exec (backend : HostBackend) (name : string) (args : list string) : T W exec_response :=
  cmd ← host_command backend name args;
  r ← tdo (p_run cmd);
  let '(stdout, stderr, err) := r in
  mret (match err with
        | None => {| ex_ExitCode := 0; ex_Stdout := stdout; ex_Stderr := stderr |}
        | Some e =>
            let '(code, buf) := exitCodeFromError e (Some (bytes_text stderr)) in
            {| ex_ExitCode := code; ex_Stdout := stdout;
               ex_Stderr := match buf with Some b => text_bytes b | None => [] end |}
        end).

(** [startCommand]: the error, or nil with the pipes or the terminal open. *)
Definition startCommand (cmd : command) (usePty : bool) : T W (option string) :=
  if usePty then tdo (p_ptyStart cmd)
  else
    e ← tdo (p_pipe "stdout"); match e with Some t => mret (Some t) | None =>
    e ← tdo (p_pipe "stderr"); match e with Some t => mret (Some t) | None =>
    e ← tdo (p_pipe "stdin"); match e with Some t => mret (Some t) | None =>
    tdo (p_start cmd) end end end.

(** ExecStream: a command that does not start is answered at once; one that
    does goes on as a [stream]. *)
Definition host_ExecStream (backend : HostBackend) (start : exec_start)
    : T W (list ExecStreamResponse + stream) :=
  cmd ← host_command backend (st_Command start) (st_Args start);
  e ← startCommand cmd (st_Pty start);
  mret (match e with
        | Some text => inl (start_failure text)
        | None => inr (started (st_Pty start))
        end).
End calls.
