(* ===== verification/HostStreamProps.v ===== *)
(** * What a streamed host command reports

    In every interleaving the client gets, of each output, a prefix of what the
    process wrote, in pieces of at most 32 KiB, and the exit code of the process
    last ([host_stream_faithful]). *)
From Stdlib Require Import Ascii.
From stdpp Require Import functions.
From S2P Require Export HostStream.

(** ** What was sent of an output *)
Definition is_output (r : ExecStreamResponse) : bool :=
  match r with RespOutput _ _ => true | RespExit _ => false end.
Definition piece (s : stream_name) (r : ExecStreamResponse) : list byte :=
  match r with
  | RespOutput n data => if bool_decide (n = stream_text s) then data else []
  | RespExit _ => []
  end.
Definition data_of (s : stream_name) (sent : list ExecStreamResponse) : list byte :=
  concat (map (piece s) sent).
#[global] Arguments data_of : simpl never.

Lemma data_of_snoc s sent r : data_of s (sent ++ [r]) = data_of s sent ++ piece s r.
Proof.
  unfold data_of. rewrite map_app, concat_app. cbn. by rewrite app_nil_r.
Qed.

(** A piece of an output, as the client gets it. *)
Definition piece_ok (r : ExecStreamResponse) : Prop :=
  match r with
  | RespOutput n data => (n = "stdout" ∨ n = "stderr") ∧ data ≠ [] ∧ Z.of_nat (length data) ≤ read_size
  | RespExit _ => True
  end.

(** ** Invariants *)
Definition flow (s : stream_name) (p : pipe) (r : reader) (sent : list ExecStreamResponse) : Prop :=
  match r with
  | RDone => data_of s sent `prefix_of` p_written p
  | RSend data err =>
      err = None ∧ piece_ok (RespOutput (stream_text s) data)
      ∧ p_written p = data_of s sent ++ data ++ p_buf p
  | _ => p_written p = data_of s sent ++ p_buf p
  end.

Definition flows (st : stream) : Prop :=
  Forall piece_ok (st_sent st) ∧ ∀ s, flow s (st_pipe st s) (st_reader st s) (st_sent st).

Lemma prefix_of_eq {A} (a b l : list A) : l = a ++ b → a `prefix_of` l.
Proof. intros ->. by apply prefix_app_r. Qed.

Lemma read_pipe_spec pty n p data err p' :
  read_pipe pty n p = Some (data, err, p') →
  p_written p' = p_written p ∧ p_cut p' = p_cut p ∧ p_open p' = p_open p ∧ p_buf p = data ++ p_buf p'
  ∧ ((data ≠ [] ∧ Z.of_nat (length data) ≤ read_size ∧ err = None)
     ∨ (data = [] ∧ p_buf p' = p_buf p
        ∧ ((p_cut p = true ∧ err = Some PipeClosed)
           ∨ (p_buf p = [] ∧ p_open p = false ∧ (err = Some PipeEOF ∨ err = Some PipeEIO))))).
Proof.
  unfold read_pipe. destruct (p_cut p) eqn:Ec; [intros [= <- <- <-]; naive_solver|].
  destruct (p_buf p) as [|b buf] eqn:Eb; cbn [length Nat.eqb].
  - destruct (p_open p) eqn:Eo; [done|]. intros [= <- <- <-]. rewrite Eb. destruct pty; naive_solver.
  - intros [= <- <- <-]. cbn. split_and!; try done; [by rewrite take_drop|]. left.
    unfold read_size. split_and!; [|rewrite length_take; lia|done].
    destruct (Z.to_nat _) eqn:E; [lia|done].
Qed.

(** Writing and hanging up leave what was sent a prefix of what was written. *)
Lemma flow_write s p p' data r sent :
  write_pipe data p = Some p' → flow s p r sent → flow s p' r sent.
Proof.
  unfold write_pipe. destruct (_ && _); [|done]. intros [= <-]. destruct r; cbn.
  - intros ->. by rewrite app_assoc.
  - intros ->. by rewrite app_assoc.
  - intros (-> & [??] & ->). split; [done|]. split; [done|]. by rewrite !app_assoc.
  - intros H. by apply prefix_app_r.
Qed.
Lemma flow_hangup s p r sent : flow s p r sent → flow s (hangup p) r sent.
Proof. by destruct r. Qed.
Lemma flow_cut s p r sent : flow s p r sent → flow s (cut p) r sent.
Proof. by destruct r. Qed.
Lemma flow_done s p r sent : flow s p r sent → flow s p RDone sent.
Proof.
  destruct r; cbn; [apply prefix_of_eq|apply prefix_of_eq| |done].
  intros (_ & _ & H). by eapply prefix_of_eq.
Qed.

(** A piece of another output changes nothing. *)
Lemma flow_other s p r sent resp : piece s resp = [] → flow s p r sent → flow s p r (sent ++ [resp]).
Proof. intros H. destruct r; cbn; by rewrite data_of_snoc, H, app_nil_r. Qed.

#[export] Hint Resolve flow_write flow_hangup flow_cut flow_done flow_other : klitka.

(** Moving data: a read takes from the pipe, a send gives to the client. *)
Lemma flow_got s p p' data err pty n sent :
  read_pipe pty n p = Some (data, err, p') → flow s p RRead sent →
  flow s p' (match data with [] => RDone | _ => RSend data err end) sent.
Proof.
  intros (Hw & _ & _ & Hb & Hd)%read_pipe_spec Hf. cbn in Hf. rewrite Hb in Hf.
  destruct Hd as [(Hne & Hlen & ->)|(-> & _)].
  - destruct data as [|b data]; [done|]. cbn. rewrite Hw.
    split_and!; [done|by destruct s; [left|right]|done|done|done].
  - cbn. rewrite Hw. by eapply prefix_of_eq.
Qed.

Lemma flow_sent s p data err sent :
  flow s p (RSend data err) sent → flow s p RSelect (sent ++ [execOutput (stream_text s) data]).
Proof.
  cbn. rewrite data_of_snoc. cbn. rewrite bool_decide_true by done.
  intros (_ & _ & ->). by rewrite app_assoc.
Qed.

Lemma piece_other s s' data : s ≠ s' → piece s (execOutput (stream_text s') data) = [].
Proof. by destruct s, s'. Qed.

(** The state after an action at one output, or at the others. *)
Ltac at_output s s' :=
  destruct (decide (s = s')) as [<-|?];
  [rewrite ?fn_lookup_insert in *|rewrite ?fn_lookup_insert_ne in * by done].

Lemma flows_after_read s err st :
  flows st → flow s (st_pipe st s) RSelect (st_sent st) → flows (after_read s err st).
Proof.
  intros [Hok Hf] Hs.
  assert (Hd : flow s (st_pipe st s) RDone (st_sent st)) by (by eapply flow_done).
  destruct err as [[| | |text]|]; split; try done; intros s'; cbn; by at_output s s'.
Qed.

Lemma flows_set_pipe s p st :
  flows st → flow s p (st_reader st s) (st_sent st) → flows (set_pipe s p st).
Proof. intros [Hok Hf] Hs. split; [done|]. intros s'. cbn. by at_output s s'. Qed.
Lemma flows_set_reader s r st :
  flows st → flow s (st_pipe st s) r (st_sent st) → flows (set_reader s r st).
Proof. intros [Hok Hf] Hs. split; [done|]. intros s'. cbn. by at_output s s'. Qed.

Lemma flows_read s data err p n st :
  flows st → st_reader st s = RRead → read_pipe (st_pty st) n (st_pipe st s) = Some (data, err, p) →
  flows (got s data err (set_pipe s p st)).
Proof.
  intros Hfl Hr Hp. pose proof Hfl as [Hok Hf]. specialize (Hf s) as Hs. rewrite Hr in Hs.
  pose proof (flow_got _ _ _ _ _ _ _ _ Hp Hs) as Hg. apply read_pipe_spec in Hp as (Hw & _ & _ & Hb & _).
  unfold got. destruct data as [|b data]; cbn [length Nat.eqb].
  - apply flows_after_read.
    + apply flows_set_pipe; [done|]. rewrite Hr. cbn in *. by rewrite Hw, Hs, Hb.
    + cbn in *. rewrite fn_lookup_insert, Hw, Hs, Hb. done.
  - split; [done|]. intros s'. cbn. at_output s s'; [done|]. apply Hf.
Qed.

Lemma flows_send s data err e st :
  flows st → st_reader st s = RSend data err →
  flows (let st := send (execOutput (stream_text s) data) e st in
         match e with Some text => set_reader s RDone (report text st) | None => after_read s err st end).
Proof.
  intros [Hok Hf] Hr. specialize (Hf s) as Hs. rewrite Hr in Hs. destruct e as [text|]; cbn zeta.
  - split; [done|]. intros s'. cbn. at_output s s'; [by eapply flow_done|apply Hf].
  - pose proof (flow_sent _ _ _ _ _ Hs) as Hn. destruct Hs as (-> & Hp & _). cbn [after_read].
    split; [cbn; apply Forall_app; by split; [|apply Forall_singleton]|]. intros s'. cbn. at_output s s'; [done|].
    apply flow_other; [by apply piece_other|apply Hf].
Qed.

Lemma flows_step a st st' : step a st = Some st' → flows st → flows st'.
Proof.
  intros Hst Hfl. pose proof Hfl as [Hok Hf]. destruct a as [s data|s|w| |s|s n|s text|s e| | | |e|]; cbn in Hst.
  - destruct (write_pipe _ _) as [p|] eqn:E; [|done]. injection Hst as <-.
    apply flows_set_pipe; eauto with klitka.
  - injection Hst as <-. apply flows_set_pipe; eauto with klitka.
  - destruct (st_exited st); [done|]. by injection Hst as <-.
  - by injection Hst as <-.
  - specialize (Hf s). destruct (st_reader st s); [|done..]. injection Hst as <-.
    apply flows_set_reader; [done|]. destruct (st_cancelled st); [by eapply flow_done|done].
  - destruct (st_reader st s) eqn:Er; try done.
    destruct (read_pipe _ _ _) as [[[data err] p]|] eqn:E; [|done]. injection Hst as <-.
    by eapply flows_read.
  - specialize (Hf s). destruct (st_reader st s); try done. injection Hst as <-.
    by apply (flows_after_read s (Some (PipeError text))).
  - destruct (st_reader st s) as [| |data err|] eqn:Er; try done. injection Hst as <-.
    by eapply flows_send.
  - destruct (st_main st); try done. destruct (st_exited st); [|done]. injection Hst as <-.
    destruct (st_pty st); [done|].
    apply flows_set_pipe; [apply flows_set_pipe; [done|]|]; apply flow_cut; apply Hf.
  - destruct (st_main st); try done. injection Hst as <-.
    destruct (st_pty st); [|done]. apply flows_set_pipe; [done|]. apply flow_cut, Hf.
  - destruct (st_main st), (st_reader st Stdout), (st_reader st Stderr); try done.
    by injection Hst as <-.
  - destruct (st_main st) as [| | |w| |]; try done. injection Hst as <-. destruct e; [done|].
    split; [cbn; apply Forall_app; by split; [|apply Forall_singleton]|]. intros s. apply flow_other; [done|apply Hf].
  - destruct (st_main st); try done. by injection Hst as <-.
Qed.

(** ** The exit code *)

(** How far the call is, with what it sent. *)
Definition ending (st : stream) : Prop :=
  let outputs l := Forall (λ r, is_output r = true) l in
  let joined := ∀ s, st_reader st s = RDone in
  match st_main st with
  | MWait => outputs (st_sent st)
  | MClosePty w | MJoin w => outputs (st_sent st) ∧ st_exited st = Some w
  | MExit w => outputs (st_sent st) ∧ st_exited st = Some w ∧ joined
  | MCheck => (∃ l w, st_sent st = l ++ [execExit (exit_code_of w)] ∧ outputs l
                      ∧ st_exited st = Some w) ∧ joined
  | MReturned e =>
      ((∃ l w, st_sent st = l ++ [execExit (exit_code_of w)] ∧ outputs l ∧ st_exited st = Some w)
       ∨ (outputs (st_sent st) ∧ e ≠ None)) ∧ joined
  end.

Lemma set_reader_done s st : (∀ s', st_reader st s' = RDone) → ∀ s', (<[s := RDone]> (st_reader st)) s' = RDone.
Proof. intros H s'. at_output s s'; auto. Qed.

(** A reader that acts is not done, so the call is not past [wg.Wait]. *)
Definition same_call (st st' : stream) : Prop :=
  st_main st' = st_main st ∧ st_exited st' = st_exited st
  ∧ ∃ l, st_sent st' = st_sent st ++ l ∧ Forall (λ r, is_output r = true) l.

Lemma ending_reader s st st' :
  ending st → st_reader st s ≠ RDone → same_call st st' → ending st'.
Proof.
  unfold ending. intros He Hr (Hm & Hx & l & Hs & Hl). rewrite Hm, Hx, Hs.
  destruct (st_main st) as [|w|w|w| |e]; try (exfalso; naive_solver).
  - by apply Forall_app.
  - destruct He. split; [by apply Forall_app|done].
  - destruct He. split; [by apply Forall_app|done].
Qed.

Lemma same_call_after_read s err st0 st :
  same_call st0 st → same_call st0 (after_read s err st).
Proof. by destruct err as [[]|]. Qed.
Lemma same_call_nil st st' :
  st_main st' = st_main st → st_exited st' = st_exited st → st_sent st' = st_sent st → same_call st st'.
Proof. intros Hm Hx Hs. split_and!; [done|done|]. exists []. by rewrite Hs, app_nil_r. Qed.

Lemma reader_acts_same_call a s st st' :
  step a st = Some st' →
  match a with ASelect s' | ARead s' _ | AReadFails s' _ | ASend s' _ => s' = s | _ => False end →
  same_call st st' ∧ st_reader st s ≠ RDone.
Proof.
  intros Hst Ha. destruct a as [s' data|s'|w| |s'|s' n|s' text|s' e| | | |e|]; try done; subst s';
    cbn in Hst; destruct (st_reader st s) as [| |data err|] eqn:Er; try done; (split; [|done]).
  - injection Hst as <-. by apply same_call_nil.
  - destruct (read_pipe _ _ _) as [[[data err] p]|]; [|done]. injection Hst as <-.
    unfold got. destruct (_ =? _)%nat; [apply same_call_after_read|]; by apply same_call_nil.
  - injection Hst as <-. by apply same_call_nil.
  - injection Hst as <-. destruct e as [text|]; [by apply same_call_nil|].
    apply same_call_after_read. split_and!; [done|done|]. eexists. split; [done|].
    by apply Forall_singleton.
Qed.

Lemma ending_step a st st' : step a st = Some st' → ending st → ending st'.
Proof.
  intros Hst He.
  destruct a as [s data|s|w| |s|s n|s text|s e| | | |e|];
    try (destruct (reader_acts_same_call _ s _ _ Hst eq_refl); by eapply ending_reader).
  - cbn in Hst. destruct (write_pipe _ _); [|done]. by injection Hst as <-.
  - by injection Hst as <-.
  - cbn in Hst. destruct (st_exited st) eqn:Ex; [done|]. injection Hst as <-. unfold ending in *.
    cbn. rewrite Ex in He. destruct (st_main st); naive_solver.
  - by injection Hst as <-.
  - cbn in Hst. unfold ending in *. destruct (st_main st); try done.
    destruct (st_exited st) as [w|] eqn:Ex; [|done]. injection Hst as <-.
    destruct (st_pty st); cbn; by rewrite Ex.
  - cbn in Hst. unfold ending in *. destruct (st_main st); try done. injection Hst as <-.
    by destruct (st_pty st).
  - cbn in Hst. unfold ending in *. destruct (st_main st); try done.
    destruct (st_reader st Stdout) eqn:E1, (st_reader st Stderr) eqn:E2; try done.
    injection Hst as <-. cbn. destruct He as [H1 H2]. split_and!; [done|done|by intros []].
  - cbn in Hst. unfold ending in *. destruct (st_main st) as [| | |w| |]; try done.
    injection Hst as <-. destruct He as (H1 & H2 & H3). destruct e; cbn; (split; [|done]).
    + by right.
    + by exists (st_sent st), w.
  - cbn in Hst. unfold ending in *. destruct (st_main st); try done. injection Hst as <-.
    cbn. destruct He as [H1 H2]. split; [by left|done].
Qed.

(** ** Runs *)
Lemma run_invariant (I : stream → Prop) :
  (∀ a st st', step a st = Some st' → I st → I st') →
  ∀ acts st st', run acts st = Some st' → I st → I st'.
Proof.
  intros Hstep acts. induction acts as [|a acts IH]; intros st st' Hr HI; [by injection Hr as <-|].
  cbn in Hr. destruct (step a st) as [st1|] eqn:E; [|done]. eauto.
Qed.

Lemma run_app l1 l2 st : run (l1 ++ l2) st = st' ← run l1 st; run l2 st'.
Proof.
  revert st. induction l1 as [|a l1 IH]; intros st; [done|]. cbn. destruct (step a st); [apply IH|done].
Qed.

Lemma flows_started pty : flows (started pty).
Proof. split; [done|]. intros []; destruct pty; (done || by exists []). Qed.
Lemma ending_started pty : ending (started pty).
Proof. apply Forall_nil_2. Qed.

Definition reached (pty : bool) (acts : list action) (st : stream) : Prop :=
  run acts (started pty) = Some st.

Lemma reached_flows pty acts st : reached pty acts st → flows st.
Proof. intros H. eapply run_invariant; [apply flows_step|exact H|apply flows_started]. Qed.
Lemma reached_ending pty acts st : reached pty acts st → ending st.
Proof. intros H. eapply run_invariant; [apply ending_step|exact H|apply ending_started]. Qed.

Lemma ending_exit st code :
  ending st → RespExit code ∈ st_sent st →
  ∃ l w, st_sent st = l ++ [execExit (exit_code_of w)] ∧ Forall (λ r, is_output r = true) l
         ∧ st_exited st = Some w ∧ code = exit_code_of w ∧ ∀ s, st_reader st s = RDone.
Proof.
  intros He Hin.
  assert (Hno : ¬ Forall (λ r, is_output r = true) (st_sent st)).
  { rewrite Forall_forall. intros H. by apply H in Hin. }
  assert (Hyes : ∀ l w, st_sent st = l ++ [execExit (exit_code_of w)] →
                 Forall (λ r, is_output r = true) l → code = exit_code_of w).
  { intros l w Hs Hl. rewrite Hs in Hin. apply elem_of_app in Hin as [Hin|Hin].
    - rewrite Forall_forall in Hl. by apply Hl in Hin.
    - apply list_elem_of_singleton in Hin. by injection Hin. }
  unfold ending in He. destruct (st_main st); naive_solver.
Qed.

(** C10: a streamed host command is reported faithfully in every interleaving of
    the process, the readers, the call and the client: what was sent of each
    output is a prefix of what the process wrote to it, in order, in non-empty
    pieces of at most 32 KiB named stdout or stderr; and if an exit code was sent
    it is the process's, it is the last message and the only one of its kind, and
    both readers had ended. *)
Theorem host_stream_faithful pty acts st :
  reached pty acts st →
  (∀ s, data_of s (st_sent st) `prefix_of` p_written (st_pipe st s))
  ∧ Forall piece_ok (st_sent st)
  ∧ (∀ code, RespExit code ∈ st_sent st →
     ∃ l w, st_sent st = l ++ [execExit (exit_code_of w)] ∧ Forall (λ r, is_output r = true) l
       ∧ st_exited st = Some w ∧ code = exit_code_of w ∧ ∀ s, st_reader st s = RDone).
Proof.
  intros Hr. destruct (reached_flows _ _ _ Hr) as [Hok Hf]. split_and!; [|done|].
  - intros s. by eapply (flow_done s _ _ _ (Hf s)).
  - intros code. apply ending_exit. by eapply reached_ending.
Qed.
