(* ===== verification/HostStreamEnds.v ===== *)
(** * When a streamed host command delivers everything, and that it ends

    The client gets everything when the readers end before [Wait] returns
    ([host_stream_complete]), which [Wait] itself does not ensure
    ([wait_discards_output]); and once the process has ended the call returns
    ([host_stream_returns]). *)
From Stdlib Require Import Ascii.
From stdpp Require Import functions.
From S2P Require Export HostStreamProps.

(** ** Everything arrives, when the readers end first *)

(** Why a reader may end before it has sent everything. *)
Definition excuse (s : stream_name) (st : stream) : Prop :=
  st_cancelled st = true ∨ st_outputErr st ≠ None ∨ p_cut (st_pipe st s) = true.
Definition delivered_all (s : stream_name) (st : stream) : Prop :=
  st_reader st s = RDone ∧ p_open (st_pipe st s) = false
  ∧ data_of s (st_sent st) = p_written (st_pipe st s).
Definition settled (st : stream) : Prop :=
  flows st ∧ ∀ s, st_reader st s = RDone → delivered_all s st ∨ excuse s st.

Lemma sent_after_read s err st : st_sent (after_read s err st) = st_sent st.
Proof. by destruct err as [[]|]. Qed.
Lemma pipe_after_read s err st : st_pipe (after_read s err st) = st_pipe st.
Proof. by destruct err as [[]|]. Qed.
Lemma cancelled_after_read s err st : st_cancelled (after_read s err st) = st_cancelled st.
Proof. by destruct err as [[]|]. Qed.
Lemma reader_after_read s s' err st :
  s ≠ s' → st_reader (after_read s err st) s' = st_reader st s'.
Proof. intros. destruct err as [[]|]; cbn; by rewrite fn_lookup_insert_ne. Qed.

(** What was delivered stays so. *)
Lemma delivered_step s a st st' : step a st = Some st' → delivered_all s st → delivered_all s st'.
Proof.
  intros Hst (Hr & Ho & Hd).
  destruct a as [s' data|s'|w| |s'|s' n|s' text|s' e| | | |e|]; cbn in Hst.
  - unfold write_pipe in Hst. destruct (p_open (st_pipe st s')) eqn:Eo; [|done].
    destruct (negb _); [|done]. injection Hst as <-. unfold delivered_all. cbn.
    at_output s' s; [congruence|done].
  - injection Hst as <-. unfold delivered_all. cbn. by at_output s' s.
  - destruct (st_exited st); [done|]. by injection Hst as <-.
  - by injection Hst as <-.
  - destruct (st_reader st s') eqn:Er; try done. injection Hst as <-. unfold delivered_all. cbn.
    at_output s' s; [congruence|done].
  - destruct (st_reader st s') eqn:Er; try done.
    destruct (read_pipe _ _ _) as [[[data err] p]|] eqn:E; [|done]. injection Hst as <-.
    assert (s' ≠ s) by congruence. unfold got, delivered_all.
    destruct (_ =? _)%nat; [destruct err as [[]|]|]; cbn; by rewrite !fn_lookup_insert_ne.
  - destruct (st_reader st s') eqn:Er; try done. injection Hst as <-.
    assert (s' ≠ s) by congruence. unfold delivered_all. cbn. by rewrite fn_lookup_insert_ne.
  - destruct (st_reader st s') as [| |data err|] eqn:Er; try done. injection Hst as <-.
    assert (Hne : s' ≠ s) by congruence. unfold delivered_all.
    destruct e as [text|]; [cbn; by rewrite fn_lookup_insert_ne|].
    rewrite sent_after_read, pipe_after_read, reader_after_read by done. cbn [send st_sent st_pipe st_reader].
    by rewrite data_of_snoc, piece_other, app_nil_r.
  - destruct (st_main st), (st_exited st); try done. injection Hst as <-. unfold delivered_all.
    destruct (st_pty st); [done|]. cbn. destruct s; cbn; auto.
  - destruct (st_main st); try done. injection Hst as <-. unfold delivered_all.
    destruct (st_pty st); [|done]. cbn. destruct s; cbn; auto.
  - destruct (st_main st), (st_reader st Stdout), (st_reader st Stderr); try done. by injection Hst as <-.
  - destruct (st_main st) as [| | |w| |]; try done. injection Hst as <-. unfold delivered_all.
    destruct e; [done|]. cbn. rewrite data_of_snoc. cbn. by rewrite app_nil_r.
  - destruct (st_main st); try done. by injection Hst as <-.
Qed.

Lemma cut_stays s a st st' :
  step a st = Some st' → p_cut (st_pipe st s) = true → p_cut (st_pipe st' s) = true.
Proof.
  intros Hst Hc. destruct a as [s' data|s'|w| |s'|s' n|s' text|s' e| | | |e|]; cbn in Hst.
  - unfold write_pipe in Hst. destruct (_ && _); [|done]. injection Hst as <-. cbn. by at_output s' s.
  - injection Hst as <-. cbn. by at_output s' s.
  - destruct (st_exited st); [done|]. by injection Hst as <-.
  - by injection Hst as <-.
  - destruct (st_reader st s'); try done. by injection Hst as <-.
  - destruct (st_reader st s'); try done.
    destruct (read_pipe _ _ _) as [[[data err] p]|] eqn:E; [|done]. injection Hst as <-.
    apply read_pipe_spec in E as (_ & Hcut & _). unfold got.
    destruct (_ =? _)%nat; rewrite ?pipe_after_read; cbn; at_output s' s; congruence.
  - destruct (st_reader st s'); try done. by injection Hst as <-.
  - destruct (st_reader st s') as [| |data err|]; try done. injection Hst as <-.
    destruct e; [done|]. by rewrite pipe_after_read.
  - destruct (st_main st), (st_exited st); try done. injection Hst as <-.
    destruct (st_pty st); [done|]. by destruct s.
  - destruct (st_main st); try done. injection Hst as <-. destruct (st_pty st); [by destruct s|done].
  - destruct (st_main st), (st_reader st Stdout), (st_reader st Stderr); try done. by injection Hst as <-.
  - destruct (st_main st); try done. injection Hst as <-. by destruct e.
  - destruct (st_main st); try done. by injection Hst as <-.
Qed.

(** Every case of a step whose effect is plain. *)
Ltac step_simpl H :=
  cbn in H; unfold got, after_read, send in H;
  repeat (case_match; simplify_eq/=);
  try (apply bind_Some in H as ([[??]?] & ? & H)); try (apply bind_Some in H as (? & ? & H));
  simplify_eq/=; repeat (case_match; simplify_eq/=).

Ltac step_inv a H := destruct a; step_simpl H.

Lemma excuse_step s a st st' : step a st = Some st' → excuse s st → excuse s st'.
Proof.
  intros Hst [H|[H|H]]; [left|right; left|right; right; by eapply cut_stays].
  all: by step_inv a Hst.
Qed.

(** Which action ends a reader, and why. *)
Lemma reader_ends s a st st' :
  step a st = Some st' → flows st → st_reader st s ≠ RDone → st_reader st' s = RDone →
  delivered_all s st' ∨ excuse s st'.
Proof.
  intros Hst [_ Hf] Hn Hd. specialize (Hf s).
  destruct a as [s' data|s'|w| |s'|s' n|s' text|s' e| | | |e|]; 
    try (exfalso; apply Hn; clear -Hst Hd; by step_simpl Hst).
  - cbn in Hst. destruct (st_reader st s') eqn:Er; try done. injection Hst as <-. cbn in *.
    at_output s' s; [|done]. right. left. by destruct (st_cancelled st) eqn:Ec.
  - cbn in Hst. destruct (st_reader st s') eqn:Er; try done.
    destruct (read_pipe _ _ _) as [[[data err] p]|] eqn:E; [|done]. injection Hst as <-.
    apply read_pipe_spec in E as (Hw & Hcut & Ho & Hb & Hcase). unfold got in *.
    destruct data as [|b data]; cbn [length Nat.eqb] in *.
    2: { cbn in Hd. at_output s' s; [done|]. done. }
    destruct (decide (s' = s)) as [->|Hne]; [|by rewrite reader_after_read in Hd by done].
    rewrite Er in Hf. cbn in Hf.
    destruct Hcase as [(? & _)|(_ & Hbuf & [[Hc ->]|(He & Hop & Herr)])]; [done| |].
    + right. right. right. cbn. rewrite fn_lookup_insert. congruence.
    + left. assert (Hp : p_written p = data_of s (st_sent st)) by (by rewrite Hw, Hf, He, app_nil_r).
      destruct Herr as [-> | ->]; (split_and!; cbn; rewrite fn_lookup_insert; congruence).
  - cbn in Hst. destruct (st_reader st s') eqn:Er; try done. injection Hst as <-. cbn in *.
    at_output s' s; [|done]. right. right. left. cbn. by destruct (st_outputErr st).
  - cbn in Hst. destruct (st_reader st s') as [| |data err|] eqn:Er; try done. injection Hst as <-.
    destruct e as [text|]; [by right; left|].
    destruct (decide (s' = s)) as [->|Hne]; [|by rewrite reader_after_read in Hd by done].
    rewrite Er in Hf. destruct Hf as (-> & _). cbn in Hd. by rewrite fn_lookup_insert in Hd.
Qed.

Lemma settled_step a st st' : step a st = Some st' → settled st → settled st'.
Proof.
  intros Hst [Hfl Hs]. split; [by eapply flows_step|]. intros s Hd.
  destruct (decide (st_reader st s = RDone)) as [Hr|Hr].
  - destruct (Hs s Hr) as [H|H]; [left; by eapply delivered_step|right; by eapply excuse_step].
  - by eapply reader_ends.
Qed.

Lemma settled_started pty : settled (started pty).
Proof. split; [apply flows_started|]. intros []; destruct pty; cbn; intros Hd; try done. by left. Qed.

Lemma write_pipe_cut data p p' : write_pipe data p = Some p' → p_cut p' = p_cut p.
Proof. unfold write_pipe. destruct (_ && _); [|done]. by intros [= <-]. Qed.

(** [Wait] is what cuts the pipes. *)
Definition uncut (st : stream) : Prop :=
  st_main st = MWait → ∀ s, p_cut (st_pipe st s) = false.
Lemma uncut_step a st st' : step a st = Some st' → uncut st → uncut st'.
Proof.
  intros Hst Hu. unfold uncut in *. step_inv a Hst; try done; intros Hm s';
    specialize (Hu Hm s'); cbn; try done; at_output s s'; try done.
  all: repeat match goal with
       | H : write_pipe _ _ = Some _ |- _ => apply write_pipe_cut in H
       | H : read_pipe _ _ _ = Some _ |- _ => apply read_pipe_spec in H as (_ & H & _)
       end; congruence.
Qed.

(** a streamed host command's output is complete when the readers win the
    race with Wait: in every run, if both readers have ended while the call still
    waits for the process, the client has not gone and no read failed, then every
    byte the process wrote has been sent, and whatever happens afterwards the
    client has exactly what was written. *)
Theorem host_stream_complete pty acts1 acts2 st1 st2 :
  reached pty acts1 st1 →
  (∀ s, st_reader st1 s = RDone) → st_main st1 = MWait →
  st_cancelled st1 = false → st_outputErr st1 = None →
  run acts2 st1 = Some st2 →
  ∀ s, data_of s (st_sent st2) = p_written (st_pipe st2 s).
Proof.
  intros Hr1 Hd Hm Hc He Hr2 s.
  assert (Hs : settled st1) by (eapply run_invariant; [apply settled_step|exact Hr1|apply settled_started]).
  assert (Hu : uncut st1).
  { eapply run_invariant; [apply uncut_step|exact Hr1|]. by intros _ []; destruct pty. }
  assert (Hdel : delivered_all s st1).
  { destruct (proj2 Hs s (Hd s)) as [|[H|[H|H]]]; [done|congruence..|]. by rewrite (Hu Hm s) in H. }
  by eapply (run_invariant (delivered_all s)); [apply delivered_step|exact Hr2|].
Qed.

(** Where a run ends. *)
Definition end_of (pty : bool) (acts : list action) : stream :=
  default (started pty) (run acts (started pty)).
Definition runs (pty : bool) (acts : list action) : bool :=
  match run acts (started pty) with Some _ => true | None => false end.
Lemma reached_end pty acts : runs pty acts = true → reached pty acts (end_of pty acts).
Proof. unfold runs, reached, end_of. by destruct (run _ _). Qed.

(** Wait closes the pipes as soon as the process ends, whether or not they were
    read: the client is told that the command succeeded and gets no output. *)
Definition unread : list action :=
  [AWrite Stdout (text_bytes "hi"); AHangup Stdout; AHangup Stderr; AExit None; AWait;
   ASelect Stdout; ARead Stdout 5; ASelect Stderr; ARead Stderr 5; AClosePty; AJoin;
   ASendExit None; AReturn].
Theorem wait_discards_output :
  ∃ acts st, reached false acts st ∧ st_main st = MReturned None ∧ st_cancelled st = false
    ∧ p_written (st_pipe st Stdout) = text_bytes "hi" ∧ st_sent st = [execExit 0].
Proof.
  exists unread, (end_of false unread). split; [apply reached_end|]; by vm_compute.
Qed.

Definition half_read : list action :=
  [ASelect Stdout; AWrite Stdout (text_bytes "hi"); ARead Stdout 1; ASend Stdout None;
   AExit (Some (ExitError 3)); AWait; ASelect Stderr; ARead Stderr 5; ASelect Stdout;
   ARead Stdout 5; AClosePty; AJoin; ASendExit None; AReturn].

Lemma host_stream_faithful_witness :
  let st := end_of false half_read in
  st_sent st = [execOutput "stdout" (text_bytes "h"); execExit 3]
  ∧ data_of Stdout (st_sent st) `prefix_of` p_written (st_pipe st Stdout).
Proof.
  split; [by vm_compute|].
  apply (host_stream_faithful false half_read (end_of false half_read)).
  apply reached_end. by vm_compute.
Defined.

Definition read_all : list action :=
  [AWrite Stdout (text_bytes "hi"); AHangup Stdout; AHangup Stderr; ASelect Stdout; ARead Stdout 9;
   ASend Stdout None; ASelect Stdout; ARead Stdout 9; ASelect Stderr; ARead Stderr 9].

Lemma host_stream_complete_witness :
  data_of Stdout (st_sent (end_of false read_all)) = p_written (st_pipe (end_of false read_all) Stdout).
Proof.
  apply (host_stream_complete false read_all [] (end_of false read_all));
    [apply reached_end; by vm_compute|intros []; by vm_compute|by vm_compute..].
Defined.

(** ** The call returns *)

(** The actions of ExecStream's own goroutines, which nothing but the scheduler
    holds up. *)
Definition internal (a : action) : bool :=
  match a with AWrite _ _ | AHangup _ | AExit _ | ACancel => false | _ => true end.

Definition reader_weight (r : reader) (unread : nat) : nat :=
  match r with
  | RDone => 0 | RRead => 3 * unread + 2 | RSelect => 3 * unread + 3 | RSend _ _ => 3 * unread + 4
  end.
Definition main_weight (m : main_pc) : nat :=
  match m with
  | MWait => 5 | MClosePty _ => 4 | MJoin _ => 3 | MExit _ => 2 | MCheck => 1 | MReturned _ => 0
  end.
Definition weight_of (s : stream_name) (st : stream) : nat :=
  reader_weight (st_reader st s) (length (p_buf (st_pipe st s))).
Definition weight (st : stream) : nat :=
  weight_of Stdout st + weight_of Stderr st + main_weight (st_main st).

(** A reader never holds an error together with data. *)
Definition plain_sends (st : stream) : Prop :=
  ∀ s data err, st_reader st s = RSend data err → err = None.
Lemma plain_sends_flows st : flows st → plain_sends st.
Proof. intros [_ Hf] s data err Hr. specialize (Hf s). rewrite Hr in Hf. by destruct Hf. Qed.

Ltac weigh Er :=
  cbn; repeat (rewrite fn_lookup_insert || rewrite fn_lookup_insert_ne by done); rewrite ?Er; cbn; lia.

Lemma weight_step a st st' :
  step a st = Some st' → flows st → internal a = true → (weight st' < weight st)%nat.
Proof.
  intros Hst Hfl%plain_sends_flows Ha. unfold weight, weight_of.
  destruct a as [s data|s|w| |s|s n|s text|s e| | | |e|]; try done; cbn in Hst.
  - destruct (st_reader st s) eqn:Er; try done. injection Hst as <-.
    destruct s, (st_cancelled st); weigh Er.
  - destruct (st_reader st s) eqn:Er; try done.
    destruct (read_pipe _ _ _) as [[[data err] p]|] eqn:E; [|done]. injection Hst as <-.
    apply read_pipe_spec in E as (_ & _ & _ & Hb & Hc). apply (f_equal length) in Hb.
    rewrite length_app in Hb. unfold got. destruct data as [|b data]; cbn [length Nat.eqb] in *.
    + destruct Hc as [(? & _)|(_ & _ & [[_ ->]|(_ & _ & [-> | ->])])]; [done|..];
        destruct s; weigh Er.
    + destruct s; weigh Er.
  - destruct (st_reader st s) eqn:Er; try done. injection Hst as <-.
    destruct s; weigh Er.
  - destruct (st_reader st s) as [| |data err|] eqn:Er; try done. injection Hst as <-.
    rewrite (Hfl _ _ _ Er). destruct s, e; weigh Er.
  - destruct (st_main st) eqn:Em, (st_exited st); try done. injection Hst as <-.
    destruct (st_pty st); weigh Em.
  - destruct (st_main st) eqn:Em; try done. injection Hst as <-. destruct (st_pty st); weigh Em.
  - destruct (st_main st) eqn:Em, (st_reader st Stdout) eqn:E1, (st_reader st Stderr) eqn:E2; try done.
    injection Hst as <-. cbn. rewrite E1, E2. cbn. lia.
  - destruct (st_main st) eqn:Em; try done. injection Hst as <-. destruct e; weigh Em.
  - destruct (st_main st) eqn:Em; try done. injection Hst as <-. weigh Em.
Qed.

(** Past Wait the pipes are closed, so nothing blocks a reader. *)
Definition unblocked (st : stream) : Prop :=
  ∀ s, st_reader st s = RDone ∨ p_cut (st_pipe st s) = true.
Definition past_wait (st : stream) : Prop :=
  (st_pty st = true → st_reader st Stderr = RDone)
  ∧ match st_main st with
    | MWait => True
    | MClosePty _ => st_pty st = false → unblocked st
    | _ => unblocked st
    end.

Lemma done_stays s a st st' : step a st = Some st' → st_reader st s = RDone → st_reader st' s = RDone.
Proof.
  intros Hst Hr. step_inv a Hst; try done; at_output s0 s; congruence.
Qed.

Lemma pty_stays a st st' : step a st = Some st' → st_pty st' = st_pty st.
Proof. intros Hst. by step_inv a Hst. Qed.

Lemma unblocked_step a st st' : step a st = Some st' → unblocked st → unblocked st'.
Proof.
  intros Hst H s. destruct (H s) as [?|?]; [left; by eapply done_stays|right; by eapply cut_stays].
Qed.

Lemma past_wait_step a st st' : step a st = Some st' → past_wait st → past_wait st'.
Proof.
  intros Hst [Hp Hm]. split.
  { rewrite (pty_stays _ _ _ Hst). intros H. by eapply done_stays, Hp. }
  assert (Hkeep : st_main st' = st_main st → match st_main st' with
    | MWait => True | MClosePty _ => st_pty st' = false → unblocked st' | _ => unblocked st' end).
  { intros ->. destruct (st_main st); try (by eapply unblocked_step); [done|].
    rewrite (pty_stays _ _ _ Hst). intros H. eapply unblocked_step; [done|auto]. }
  destruct a as [s data|s|w| |s|s n|s text|s e| | | |e|]; try (apply Hkeep; clear -Hst; by step_simpl Hst);
    cbn in Hst.
  - destruct (st_main st), (st_exited st); try done. injection Hst as <-.
    destruct (st_pty st) eqn:Ey; cbn; [congruence|]. intros _ []; right; done.
  - destruct (st_main st) eqn:Em; try done. injection Hst as <-.
    destruct (st_pty st) eqn:Ey; cbn; [|by apply Hm]. intros []; [by right|left]. by apply Hp.
  - destruct (st_main st) eqn:Em, (st_reader st Stdout), (st_reader st Stderr); try done.
    by injection Hst as <-.
  - destruct (st_main st) eqn:Em; try done. injection Hst as <-. by destruct e.
  - destruct (st_main st) eqn:Em; try done. by injection Hst as <-.
Qed.

Lemma past_wait_started pty : past_wait (started pty).
Proof. split; [|done]. cbn. by intros ->. Qed.

(** A reader that stands still when its pipe is closed has ended. *)
Lemma reader_progress s st :
  unblocked st → (∀ a, internal a = true → step a st = None) → st_reader st s = RDone.
Proof.
  intros Hu Hn. destruct (Hu s) as [?|Hc]; [done|].
  pose proof (Hn (ASelect s) eq_refl) as H1. pose proof (Hn (ARead s 0) eq_refl) as H2.
  pose proof (Hn (ASend s None) eq_refl) as H3. cbn in H1, H2, H3.
  destruct (st_reader st s) as [| |data err|]; try done.
  unfold read_pipe in H2. by rewrite Hc in H2.
Qed.

Lemma main_progress st :
  past_wait st → st_exited st ≠ None → (∀ a, internal a = true → step a st = None) →
  ∃ e, st_main st = MReturned e.
Proof.
  intros [_ Hm] Hx Hn.
  pose proof (Hn AWait eq_refl) as H1. pose proof (Hn AClosePty eq_refl) as H2.
  pose proof (Hn AJoin eq_refl) as H3. pose proof (Hn (ASendExit None) eq_refl) as H4.
  pose proof (Hn AReturn eq_refl) as H5. cbn in H1, H2, H3, H4, H5.
  destruct (st_main st) as [|w|w|w| |e]; [by destruct (st_exited st)|done| |done|done|by exists e].
  by rewrite (reader_progress Stdout st Hm Hn), (reader_progress Stderr st Hm Hn) in H3.
Qed.

Lemma exited_stays a st st' : step a st = Some st' → st_exited st ≠ None → st_exited st' ≠ None.
Proof. intros Hst H. step_inv a Hst; congruence. Qed.

(** C24: once the process has ended a streamed host command returns, even if
    something else still holds its pipes open and nobody reads them: in any state
    reached with the process ended, whatever the order, ExecStream's own
    goroutines can take at most [weight st] actions, a bound that is computed from
    the bytes still unread, and where none of them can take one the call has
    returned. *)
Theorem host_stream_returns pty acts st acts' st' :
  reached pty acts st → st_exited st ≠ None →
  run acts' st = Some st' → forallb internal acts' = true →
  (length acts' ≤ weight st)%nat
  ∧ ((∀ a, internal a = true → step a st' = None) → ∃ e, st_main st' = MReturned e).
Proof.
  intros Hr Hx Hrun Hi.
  assert (Hinv : flows st ∧ past_wait st).
  { split; [by eapply reached_flows|].
    eapply run_invariant; [apply past_wait_step|exact Hr|apply past_wait_started]. }
  clear Hr. revert st Hx Hrun Hinv. induction acts' as [|a acts' IH]; intros st Hx Hrun [Hf Hp].
  { injection Hrun as <-. split; [cbn; lia|]. by apply main_progress. }
  cbn in Hrun. destruct (step a st) as [st1|] eqn:E; [|done].
  apply andb_true_iff in Hi as [Ha Hi].
  destruct (IH Hi st1) as [Hlen Hend]; [by eapply exited_stays|done|split; [by eapply flows_step|by eapply past_wait_step]|].
  split; [|done]. apply (weight_step a st st1 E Hf) in Ha. cbn. lia.
Qed.

(** A process that ended while a child of it keeps the pipes. *)
Definition orphaned : list action := [AWrite Stdout (text_bytes "hi"); AExit None; ASelect Stdout].
Definition finishing : list action :=
  [AWait; AClosePty; ARead Stdout 9; ASelect Stderr; ARead Stderr 9; AJoin; ASendExit None; AReturn].

Lemma host_stream_returns_witness :
  (length finishing ≤ weight (end_of false orphaned))%nat
  ∧ st_main (end_of false (orphaned ++ finishing)) = MReturned None.
Proof.
  split; [|by vm_compute].
  apply (host_stream_returns false orphaned (end_of false orphaned) finishing
           (end_of false (orphaned ++ finishing))); [apply reached_end| | |]; by vm_compute.
Defined.
