(* ===== verification/VMStream.v ===== *)
(** * Commands in the guest

    [vmBackend.Exec] and [vmBackend.ExecStream] of [daemon/vm_backend.go], over
    the console client: both start a request and then receive from its channels,
    one into two buffers and the other straight to the client.  Whatever cases
    [select] picks, the two see the same command ([stream_equals_exec]). *)
From Stdlib Require Import Ascii.
From S2P Require Export ExecIO VMService.

(** ** [Exec] *)
Section calls.
Context `{C : Codec} `{OS : ConnOS CS}.

(** How the errors of the client read. *)
Context (text_of : virtio_error → string).

Definition exec_answer (r : exec_result) : osres rpc_error exec_response :=
  match er_err r with
  | Some e => Bad (Internal (text_of e))
  | None => Good {| ex_ExitCode := er_exit r; ex_Stdout := er_stdout r; ex_Stderr := er_stderr r |}
  end.

Definition with_request {A} (p : nat) (f : virtioRequest → A) : V CS A := λ c,
  match heap c !! p with Some req => Ret (f req, c) | None => Panic end.

(** [meanwhile]: what the reader did with the request's channels before they are
    received from.  [None]: still receiving when the choices end. *)
Definition vm_Exec (meanwhile : V CS ()) (choices : list select_case)
    (command : string) (args env : list string) : V CS (option (osres rpc_error exec_response)) :=
  r ← startExec command args false false env;
  match r with
  | Bad text => mret (Some (Bad (Internal text)))
  | Good p =>
      _ ← meanwhile;
      r ← with_request p (collectExecOutput choices [] []);
      mret (exec_answer <$> r)
  end.

(** ** [ExecStream] *)

(** The answer to a command that does not start, or the request. *)
Definition vm_ExecStream (start : exec_start) (env : list string)
    : V CS (list ExecStreamResponse + nat) :=
  r ← startExec (st_Command start) (st_Args start) true (st_Pty start) env;
  mret (match r with Bad text => inl (start_failure text) | Good p => inr p end).
End calls.

(** The cases of the loop's [select], with what the send of the first two answers,
    and what was received by the last two: the input goroutine's error, and the
    context's. *)
Inductive loop_case :=
| LoopOutput (err : option string)
| LoopExit (err : option string)
| LoopErr
| LoopInput (text : string)
| LoopDone (text : string).

Inductive stream_fail := FailText (text : string) | FailRequest (err : virtio_error).

(** What was sent, and how the loop ended: [None] is still running. *)
Fixpoint vm_stream_loop (choices : list loop_case) (req : virtioRequest)
    : list ExecStreamResponse * option (option stream_fail) :=
  match choices with
  | [] => ([], None)
  | LoopOutput err :: choices' =>
      match chan_recv (rq_output req) with
      | Ret (v, ch) =>
          let req := {| rq_id := rq_id req; rq_output := ch; rq_exit := rq_exit req;
                        rq_err := rq_err req |} in
          match v with
          | Some output =>
              match err with
              | Some text => ([], Some (Some (FailText text)))
              | None =>
                  let '(sent, e) := vm_stream_loop choices' req in
                  (execOutput (out_stream output) (out_data output) :: sent, e)
              end
          | None => vm_stream_loop choices' req
          end
      | _ => vm_stream_loop choices' req
      end
  | LoopExit err :: choices' =>
      match chan_recv (rq_exit req) with
      | Ret (Some exitMsg, _) =>
          match err with
          | Some text => ([], Some (Some (FailText text)))
          | None => ([execExit (exit_code exitMsg)], Some None)
          end
      | _ => vm_stream_loop choices' req
      end
  | LoopErr :: choices' =>
      match chan_recv (rq_err req) with
      | Ret (Some reqErr, _) => ([], Some (Some (FailRequest reqErr)))
      | _ => vm_stream_loop choices' req
      end
  | (LoopInput text | LoopDone text) :: _ => ([], Some (Some (FailText text)))
  end.

(** ** The two are one *)

(** The choices of [Exec], as choices of [ExecStream] whose sends succeed. *)
Definition loop_of (c : select_case) : loop_case :=
  match c with SelOutput => LoopOutput None | SelExit => LoopExit None | SelErr => LoopErr end.

(** What a client that keeps the pieces has of standard error, and of the rest. *)
Definition kept (err : bool) (sent : list ExecStreamResponse) : list byte :=
  concat (map (λ r, match r with
                    | RespOutput n data => if Bool.eqb (bool_decide (n = "stderr")) err then data else []
                    | RespExit _ => []
                    end) sent).
Definition exit_of (sent : list ExecStreamResponse) : option Z :=
  match last sent with Some (RespExit code) => Some code | _ => None end.

(** The result of Exec in terms of what ExecStream sent. *)
Definition as_result (o e : list byte) (sent : list ExecStreamResponse)
    (ended : option (option stream_fail)) : option exec_result :=
  match ended with
  | None => None
  | Some None =>
      Some {| er_stdout := o ++ kept false sent; er_stderr := e ++ kept true sent;
              er_exit := default 0 (exit_of sent); er_err := None |}
  | Some (Some (FailRequest err)) =>
      Some {| er_stdout := o ++ kept false sent; er_stderr := e ++ kept true sent;
              er_exit := 1; er_err := Some err |}
  | Some (Some (FailText _)) => None
  end.

Lemma as_result_cons o e n data sent ended :
  (ended = Some None → sent ≠ []) →
  as_result o e (execOutput n data :: sent) ended
  = if bool_decide (n = "stderr") then as_result o (e ++ data) sent ended
    else as_result (o ++ data) e sent ended.
Proof.
  intros Hne.
  assert (Hx : ended = Some None → exit_of (execOutput n data :: sent) = exit_of sent).
  { intros H. specialize (Hne H). by destruct sent. }
  destruct ended as [[[t|err]|]|]; cbn; case_bool_decide; cbn; rewrite ?app_assoc, ?Hx by done; done.
Qed.

Lemma loop_sends choices : ∀ req sent,
  vm_stream_loop choices req = (sent, Some None) → sent ≠ [].
Proof.
  induction choices as [|c choices IH]; intros req sent; [done|].
  destruct c; cbn; repeat case_match; naive_solver.
Qed.

Lemma stream_equals_collect choices : ∀ o e req,
  collectExecOutput choices o e req
  = (let '(sent, ended) := vm_stream_loop (map loop_of choices) req in as_result o e sent ended).
Proof.
  induction choices as [|c choices IH]; intros o e req; [done|]. destruct c; cbn.
  - destruct (chan_recv (rq_output req)) as [[[out|] ch]| |]; [|by apply IH..].
    set (req' := {| rq_id := _; rq_output := _; rq_exit := _; rq_err := _ |}).
    pose proof (loop_sends (map loop_of choices) req') as Hs. rewrite !IH.
    destruct (vm_stream_loop _ _) as [sent ended].
    rewrite as_result_cons by (intros ->; by apply Hs). done.
  - destruct (chan_recv (rq_exit req)) as [[[x|] ch]| |]; [|by apply IH..].
    cbn. by rewrite !app_nil_r.
  - destruct (chan_recv (rq_err req)) as [[[x|] ch]| |]; [|by apply IH..].
    cbn. by rewrite !app_nil_r.
Qed.

(** C19: for every state of a request's channels and every choice of the two
    select statements, Exec collects exactly what ExecStream sends a client that
    listens: Exec returns just when ExecStream ends, its standard error is the
    pieces sent as stderr and its standard output the others, in order, its exit
    code is the one ExecStream sent last, and it fails with the request's error
    just when ExecStream does. *)
Theorem stream_equals_exec choices req :
  let '(sent, ended) := vm_stream_loop (map loop_of choices) req in
  collectExecOutput choices [] [] req
  = match ended with
    | None => None
    | Some None =>
        Some {| er_stdout := kept false sent; er_stderr := kept true sent;
                er_exit := default 0 (exit_of sent); er_err := None |}
    | Some (Some (FailRequest err)) =>
        Some {| er_stdout := kept false sent; er_stderr := kept true sent; er_exit := 1;
                er_err := Some err |}
    | Some (Some (FailText _)) => None
    end.
Proof.
  pose proof (stream_equals_collect choices [] [] req) as H.
  by destruct (vm_stream_loop _ _) as [sent [[[]|]|]].
Qed.
