(* ===== verification/StrictTransport.v ===== *)
(** * Strict transport on macOS ([daemon/strict_transport_darwin.go])

    With strict egress the daemon loads packet filter rules into an anchor of its
    own per VM, and flushes it when the VM's network is closed.  Every [pfctl]
    command is recorded with its answer, which is the host's ([PFHost]).  Elsewhere
    ([strict_transport_other.go]) there is no enforcer. *)
From Stdlib Require Import Ascii.
From S2P Require Export VMService NetPolicyProps.

Definition nl : ascii := ascii_of_nat 10.

Class PFHost (W : Type) := {
  pf_run : list string → string → W → option string * W;          (* pfctl, with its stdin *)
  pf_output : list string → W → osres string string * W;
  pf_getenv : string → W → string
}.

Definition pfAnchorPrefix : string := "com.klitka.vm".

(** ** Texts *)

(** The [strings.Replacer] of [buildPFAnchorID]: each of six bytes by [_]. *)
Definition unsafe_byte (c : ascii) : bool :=
  existsb (λ x, bool_decide (c = x)) ["/"; "\"; " "; ":"; "@"; "."]%char.
#[global] Arguments unsafe_byte : simpl never.
Fixpoint sanitize (s : string) : string :=
  match s with
  | "" => ""
  | String c s' => String (if unsafe_byte c then "_"%char else c) (sanitize s')
  end.

Definition buildPFAnchorID (vmID : string) : string :=
  let sanitized := sanitize (TrimSpace vmID) in
  pfAnchorPrefix +:+ "/" +:+ (if bool_decide (sanitized = "") then "unknown" else sanitized).

Definition parsePFAnchors (output prefix : string) : list string :=
  if bool_decide (TrimSpace output = "") then []
  else dedup_seen [] (filter (λ a, negb (bool_decide (a = "")) && HasPrefix a prefix)
                        (map TrimSpace (Split output nl))).

(** [extra]: the value of KLITKA_STRICT_PF_EXTRA_RULES. *)
Definition buildPFAnchorRules (extra : string) (proxyPort : Z) : string :=
  let proxyPortText := Itoa proxyPort in
  let lines :=
    [ "# strict transport baseline anchor";
      "block drop out quick proto { tcp udp } from any to any";
      "pass out quick on lo0 inet proto tcp from any to 127.0.0.1 port = " +:+ proxyPortText;
      "pass out quick on lo0 inet6 proto tcp from any to ::1 port = " +:+ proxyPortText ] in
  let value := TrimSpace extra in
  Join (if bool_decide (value = "") then lines else lines ++ [value]) (String nl "") +:+ String nl "".

(** ** State *)

(** A command, its arguments and its stdin; with what was answered: the output,
    empty for [Run], or an error. *)
Definition pf_command : Type := list string * string.
Definition pf_entry : Type := pf_command * osres string string.
Definition flush (anchor : string) : pf_command := (["-a"; anchor; "-F"; "all"], "").
Definition load (anchor rules : string) : pf_command := (["-a"; anchor; "-f"; "-"], rules).

(** An enforcer, with its closeOnce and closeErr. *)
Record pfTransportEnforcer := { anchorID : string; en_closed : option (option string) }.
(** [AnchorID]; [None] is the nil enforcer. *)
Definition AnchorID (enforcer : option pfTransportEnforcer) : string :=
  match enforcer with None => "" | Some enforcer => anchorID enforcer end.

Record pfstate (W : Type) := {
  pf_world : W;
  pf_prepared : option (option string);        (* strictPFPrepareOnce and its error *)
  pf_log : list pf_entry;
  pf_enforcers : list pfTransportEnforcer
}.
Arguments pf_world {W}. Arguments pf_prepared {W}. Arguments pf_log {W}. Arguments pf_enforcers {W}.
Arguments Build_pfstate {W}.
Definition pf_commands {W} (s : pfstate W) : list pf_command := (pf_log s).*1.
Definition answer_of (e : option string) : osres string string :=
  match e with None => Good "" | Some text => Bad text end.

Definition P (W A : Type) : Type := pfstate W → A * pfstate W.
#[export] Instance P_mret {W} : MRet (P W) := λ A a s, (a, s).
#[export] Instance P_mbind {W} : MBind (P W) := λ A B f m s, let '(a, s') := m s in f a s'.

Section code.
Context `{PF : PFHost W}.

Definition Run (args : list string) (stdin : string) : P W (option string) := λ s,
  let '(e, w) := pf_run args stdin (pf_world s) in
  (e, Build_pfstate w (pf_prepared s) (pf_log s ++ [((args, stdin), answer_of e)]) (pf_enforcers s)).
Definition Output (args : list string) : P W (osres string string) := λ s,
  let '(r, w) := pf_output args (pf_world s) in
  (r, Build_pfstate w (pf_prepared s) (pf_log s ++ [((args, ""), r)]) (pf_enforcers s)).
Definition getenv (k : string) : P W string := λ s, (pf_getenv k (pf_world s), s).

(** ** Cleaning up *)
Fixpoint flush_all (anchors : list string) (cleanupErr : option string) : P W (option string) :=
  match anchors with
  | [] => mret cleanupErr
  | anchor :: anchors' =>
      e ← Run ["-a"; anchor; "-F"; "all"] ""; flush_all anchors' (errors_Join cleanupErr e)
  end.

Definition cleanupStalePFAnchors : P W (option string) :=
  e ← Run ["-E"] "";
  match e with Some err => mret (Some err) | None =>
  o ← Output ["-s"; "Anchors"];
  match o with
  | Bad err => mret (Some err)
  | Good output => flush_all (parsePFAnchors output (pfAnchorPrefix +:+ "/")) None
  end end.

Definition prepareStrictTransportDarwin : P W (option string) := λ s,
  match pf_prepared s with
  | Some e => (e, s)
  | None =>
      let '(e, s) := cleanupStalePFAnchors s in
      (e, Build_pfstate (pf_world s) (Some e) (pf_log s) (pf_enforcers s))
  end.

(** ** Enforcers *)
Definition enforcer_Close (en : pfTransportEnforcer) : P W (option string * pfTransportEnforcer) :=
  match en_closed en with
  | Some e => mret (e, en)
  | None =>
      e ← Run ["-a"; anchorID en; "-F"; "all"] "";
      mret (e, {| anchorID := anchorID en; en_closed := Some e |})
  end.

Definition apply_rules (en : pfTransportEnforcer) (proxyPort : Z) : P W (option string) :=
  e ← Run ["-E"] "";
  match e with Some err => mret (Some err) | None =>
  extra ← getenv "KLITKA_STRICT_PF_EXTRA_RULES";
  Run ["-a"; anchorID en; "-f"; "-"] (buildPFAnchorRules extra proxyPort)
  end.

Inductive strict_error := StrictNoVM | StrictBadPort (port : Z) | StrictPF (text : string).

Definition newStrictTransportEnforcer (vmID : string) (proxyPort : Z)
    : P W (osres strict_error pfTransportEnforcer) :=
  if bool_decide (TrimSpace vmID = "") then mret (Bad StrictNoVM)
  else if (proxyPort <=? 0) || (65535 <? proxyPort) then mret (Bad (StrictBadPort proxyPort))
  else
    let enforcer := {| anchorID := buildPFAnchorID vmID; en_closed := None |} in
    e ← apply_rules enforcer proxyPort;
    match e with
    | Some err => _ ← enforcer_Close enforcer; mret (Bad (StrictPF err))
    | None => mret (Good enforcer)
    end.

(** What a process does with all of it: the enforcers are kept in the order they
    were made. *)
Inductive strict_op := OpPrepare | OpNew (vmID : string) (port : Z) | OpCloseEnforcer (i : nat).

Definition keep_enforcers (f : list pfTransportEnforcer → list pfTransportEnforcer) : P W () := λ s,
  ((), Build_pfstate (pf_world s) (pf_prepared s) (pf_log s) (f (pf_enforcers s))).

Definition strict_do (op : strict_op) : P W () :=
  match op with
  | OpPrepare => _ ← prepareStrictTransportDarwin; mret ()
  | OpNew vmID port =>
      r ← newStrictTransportEnforcer vmID port;
      match r with Good en => keep_enforcers (λ l, l ++ [en]) | Bad _ => mret () end
  | OpCloseEnforcer i => λ s,
      match pf_enforcers s !! i with
      | Some en => ('(_, en') ← enforcer_Close en; keep_enforcers (λ l, <[i := en']> l)) s
      | None => ((), s)
      end
  end.
Fixpoint strict_run (ops : list strict_op) : P W () :=
  match ops with [] => mret () | op :: ops' => _ ← strict_do op; strict_run ops' end.
End code.

(** [strict_transport_other.go]: no enforcer, and no error. *)
Definition newStrictTransportEnforcer_other (vmID : string) (proxyPort : Z)
    : osres strict_error (option pfTransportEnforcer) := Good None.
