(* ===== verification/StrictTransportProps.v ===== *)
(** * What the strict transport does to the host's packet filter

    It names only anchors of its own ([strict_anchors_own]); every anchor it loads
    is flushed again or belongs to an enforcer that is still open
    ([strict_rules_released]); and VM ids give distinct anchors
    ([buildPFAnchorID_inj]). *)
From Stdlib Require Import Ascii.
From S2P Require Export StrictTransport.

(** ** Texts *)
Lemma sanitize_safe s c : unsafe_byte c = true → has_char c (sanitize s) = false.
Proof.
  intros Hc. induction s as [|a s IH]; [done|]. cbn. rewrite IH, orb_false_r.
  apply bool_decide_eq_false. destruct (unsafe_byte a) eqn:Ea; intros <-; [|congruence].
  by vm_compute in Hc.
Qed.

Definition plain (s : string) : Prop := TrimSpace s = s ∧ s ≠ "" ∧ sanitize s = s.

Lemma buildPFAnchorID_plain s : plain s → buildPFAnchorID s = pfAnchorPrefix +:+ "/" +:+ s.
Proof.
  intros (Ht & Hne & Hs). unfold buildPFAnchorID. by rewrite Ht, Hs, bool_decide_false.
Qed.

Lemma buildPFAnchorID_inj s t : plain s → plain t → buildPFAnchorID s = buildPFAnchorID t → s = t.
Proof.
  intros Hs Ht. rewrite !buildPFAnchorID_plain by done. by intros ?%sapp_inj_l%sapp_inj_l.
Qed.

(** An anchor of the daemon: something under its prefix. *)
Definition own_anchor (a : string) : Prop := ∃ x, a = pfAnchorPrefix +:+ "/" +:+ x.

Lemma buildPFAnchorID_own vmID :
  ∃ x, buildPFAnchorID vmID = pfAnchorPrefix +:+ "/" +:+ x ∧ x ≠ ""
       ∧ ∀ c, unsafe_byte c = true → has_char c x = false.
Proof.
  unfold buildPFAnchorID. eexists. split; [done|]. case_bool_decide as Hs.
  - split; [done|]. intros c Hc. cbn. rewrite !orb_false_iff.
    split_and!; try done; apply bool_decide_eq_false; intros <-; by vm_compute in Hc.
  - split; [done|]. intros c. apply sanitize_safe.
Qed.

(** The anchors of [pfctl -s Anchors] that are flushed at the start: each line
    under the prefix, once. *)
Lemma parsePFAnchors_spec output prefix :
  NoDup (parsePFAnchors output prefix)
  ∧ (∀ a, a ∈ parsePFAnchors output prefix →
      a ≠ "" ∧ HasPrefix a prefix = true ∧ ∃ line, line ∈ Split output nl ∧ TrimSpace line = a)
  ∧ (TrimSpace output ≠ "" → ∀ line, line ∈ Split output nl → TrimSpace line ≠ "" →
      HasPrefix (TrimSpace line) prefix = true → TrimSpace line ∈ parsePFAnchors output prefix).
Proof.
  unfold parsePFAnchors.
  destruct (dedup_seen_spec (filter (λ a, negb (bool_decide (a = "")) && HasPrefix a prefix)
    (map TrimSpace (Split output nl))) []) as [H1 H2].
  case_bool_decide as Ho.
  { split; [constructor|]. split; [by intros a ?%not_elem_of_nil|done]. }
  assert (Hin : ∀ a, a ∈ dedup_seen [] (filter (λ a, negb (bool_decide (a = "")) && HasPrefix a prefix)
                       (map TrimSpace (Split output nl)))
    ↔ (a ≠ "" ∧ HasPrefix a prefix = true) ∧ ∃ line, a = TrimSpace line ∧ line ∈ Split output nl).
  { intros a. rewrite H2, list_elem_of_filter, Is_true_true, andb_true_iff, negb_true_iff.
    change (map TrimSpace (Split output nl)) with (TrimSpace <$> Split output nl).
    rewrite list_elem_of_fmap, bool_decide_eq_false. pose proof (not_elem_of_nil a). tauto. }
  split; [done|]. split.
  - intros a ((? & ?) & line & -> & ?)%Hin. eauto.
  - intros _ line Hl Hne Hp. apply Hin. eauto.
Qed.

(** ** Commands *)

(** The commands the daemon may give: switch the filter on, list the anchors,
    flush an anchor of its own, load one VM's rules into that VM's anchor. *)
Definition own_command (c : pf_command) : Prop :=
  c = (["-E"], "") ∨ c = (["-s"; "Anchors"], "")
  ∨ (∃ a, own_anchor a ∧ c = flush a)
  ∨ (∃ vmID extra port, TrimSpace vmID ≠ "" ∧ 0 < port ≤ 65535
       ∧ c = load (buildPFAnchorID vmID) (buildPFAnchorRules extra port)).

(** Rules that were loaded were flushed since, or an open enforcer has them. *)
Definition open_at (a : string) (es : list pfTransportEnforcer) : Prop :=
  ∃ en, en ∈ es ∧ anchorID en = a ∧ en_closed en = None.
Definition covered (log : list pf_command) (es : list pfTransportEnforcer) : Prop :=
  ∀ l1 a rules l2, log = l1 ++ load a rules :: l2 → flush a ∈ l2 ∨ open_at a es.

Definition is_load (c : pf_command) : Prop := ∃ a rules, c = load a rules.

Lemma covered_snoc log es c : ¬ is_load c → covered log es → covered (log ++ [c]) es.
Proof.
  intros Hc Hcov l1 a rules l2. destruct l2 as [|x l2 _] using rev_ind.
  - intros [_ ->]%app_inj_tail. destruct Hc. by exists a, rules.
  - rewrite app_comm_cons, app_assoc. intros [Hl ->]%app_inj_tail.
    destruct (Hcov _ _ _ _ Hl); [left; by apply elem_of_app; left|by right].
Qed.

Lemma covered_mono log es es' :
  (∀ a, open_at a es → open_at a es') → covered log es → covered log es'.
Proof. intros H Hc l1 a rules l2 Hl. destruct (Hc _ _ _ _ Hl); auto. Qed.

Lemma covered_load log es a rules : covered log es → open_at a es → covered (log ++ [load a rules]) es.
Proof.
  intros Hc Ho l1 b rules' l2. destruct l2 as [|x l2 _] using rev_ind.
  - intros [_ [= -> _]]%app_inj_tail. by right.
  - rewrite app_comm_cons, app_assoc. intros [Hl <-]%app_inj_tail.
    destruct (Hc _ _ _ _ Hl); [left; by apply elem_of_app; left|by right].
Qed.

(** Flushing an anchor stands for its open enforcers. *)
Lemma covered_flush log es es' a :
  covered log es → (∀ b, b ≠ a → open_at b es → open_at b es') → covered (log ++ [flush a]) es'.
Proof.
  intros Hc Ho l1 b rules l2. destruct l2 as [|x l2 _] using rev_ind.
  - by intros [_ ?]%app_inj_tail.
  - rewrite app_comm_cons, app_assoc. intros [Hl <-]%app_inj_tail.
    destruct (decide (b = a)) as [->|Hne]; [left; apply elem_of_app; right; by left|].
    destruct (Hc _ _ _ _ Hl); [left; by apply elem_of_app; left|right; auto].
Qed.

#[local] Arguments pf_commands : simpl never.

Section props.
Context `{PF : PFHost W}.
Implicit Types s : pfstate W.

(** What the log and the enforcers of a reachable state are. *)
Definition pf_inv s : Prop :=
  Forall own_command (pf_commands s) ∧ Forall (λ en, own_anchor (anchorID en)) (pf_enforcers s)
  ∧ covered (pf_commands s) (pf_enforcers s).

Lemma keep_inv f s :
  Forall own_command (pf_commands s) ∧ Forall (λ en, own_anchor (anchorID en)) (f (pf_enforcers s))
  ∧ covered (pf_commands s) (f (pf_enforcers s)) → pf_inv (keep_enforcers f s).2.
Proof. done. Qed.

Definition steady {A} (m : P W A) : Prop := ∀ s, pf_inv s → pf_inv (m s).2.

Lemma steady_bind {A B} (m : P W A) (k : A → P W B) : steady m → (∀ a, steady (k a)) → steady (x ← m; k x).
Proof.
  intros Hm Hk s Hs. unfold mbind, P_mbind. specialize (Hm s Hs). destruct (m s) as [a s']. by apply Hk.
Qed.
Lemma steady_ret {A} (a : A) : steady (mret a).
Proof. by intros s. Qed.

Lemma run_log args stdin s :
  pf_commands (Run args stdin s).2 = pf_commands s ++ [(args, stdin)]
  ∧ pf_enforcers (Run args stdin s).2 = pf_enforcers s.
Proof. unfold Run, pf_commands. destruct (pf_run _ _ _). cbn. by rewrite fmap_app. Qed.

Lemma output_log args s :
  pf_commands (Output args s).2 = pf_commands s ++ [(args, "")]
  ∧ pf_enforcers (Output args s).2 = pf_enforcers s.
Proof. unfold Output, pf_commands. destruct (pf_output _ _). cbn. by rewrite fmap_app. Qed.

Lemma steady_Run args stdin :
  own_command (args, stdin) → ¬ is_load (args, stdin) → steady (Run args stdin).
Proof.
  intros Ho Hl s (H1 & H2 & H3). unfold pf_inv. destruct (run_log args stdin s) as [-> ->].
  split_and!; [by apply Forall_app; split; [|apply Forall_singleton]|done|by apply covered_snoc].
Qed.

Lemma steady_flush a : own_anchor a → steady (Run ["-a"; a; "-F"; "all"] "").
Proof.
  intros Ha. apply steady_Run; [right; right; left; by exists a|]. intros (b & rules & H). done.
Qed.

Lemma steady_enable : steady (Run ["-E"] "").
Proof. apply steady_Run; [by left|]. by intros (b & rules & H). Qed.

Lemma steady_flush_all anchors err : Forall own_anchor anchors → steady (flush_all anchors err).
Proof.
  intros Ha. revert err. induction Ha as [|a anchors Ha _ IH]; intros err; [apply steady_ret|].
  apply steady_bind; [by apply steady_flush|]. intros e. apply IH.
Qed.

Lemma parsed_own output : Forall own_anchor (parsePFAnchors output (pfAnchorPrefix +:+ "/")).
Proof.
  apply Forall_forall. intros a Ha. apply (parsePFAnchors_spec output) in Ha as (_ & Hp & _).
  apply HasPrefix_true in Hp as [x ->]. exists x. by rewrite sapp_assoc.
Qed.

Lemma steady_prepare : steady prepareStrictTransportDarwin.
Proof.
  intros s Hs. unfold prepareStrictTransportDarwin. destruct (pf_prepared s); [done|].
  assert (Hc : steady cleanupStalePFAnchors).
  { apply steady_bind; [apply steady_enable|]. intros [e|]; [apply steady_ret|].
    apply steady_bind; [|intros [output|e]; [apply steady_flush_all, parsed_own|apply steady_ret]].
    intros s' (H1 & H2 & H3). unfold pf_inv. destruct (output_log ["-s"; "Anchors"] s') as [-> ->]. split_and!.
    - apply Forall_app. split; [done|]. apply Forall_singleton. by right; left.
    - done.
    - apply covered_snoc; [by intros (b & rules & H)|done]. }
  specialize (Hc s Hs). by destruct (cleanupStalePFAnchors s).
Qed.

(** Loading leaves the state good once the enforcer is kept, or flushed. *)
Lemma new_enforcer_inv vmID port s :
  pf_inv s → pf_inv (strict_do (OpNew vmID port) s).2.
Proof.
  intros Hs. cbn. unfold newStrictTransportEnforcer. case_bool_decide as Hv; [done|].
  destruct ((port <=? 0) || (65535 <? port)) eqn:Ep; [done|].
  apply orb_false_iff in Ep as [Ep1%Z.leb_gt Ep2%Z.ltb_ge].
  set (a := buildPFAnchorID vmID).
  assert (Ha : own_anchor a) by (destruct (buildPFAnchorID_own vmID) as (x & H & _); by exists x).
  pose proof (steady_enable s Hs) as H1.
  unfold apply_rules, enforcer_Close, mbind, P_mbind, mret, P_mret.
  destruct (Run ["-E"] "" s) as [[err|] s1]; cbn -[Run] in *.
  { pose proof (steady_flush a Ha s1 H1) as H2. by destruct (Run _ _ s1) as [e s2]. }
  set (rules := buildPFAnchorRules _ port).
  destruct (run_log ["-a"; a; "-f"; "-"] rules s1) as [Hl He]. destruct H1 as (I1 & I2 & I3).
  assert (Hown : own_command (load a rules)) by (right; right; right; by exists vmID, (pf_getenv "KLITKA_STRICT_PF_EXTRA_RULES" (pf_world s1)), port).
  destruct (Run ["-a"; a; "-f"; "-"] rules s1) as [[err|] s2]; cbn -[Run] in *.
  - destruct (run_log ["-a"; a; "-F"; "all"] "" s2) as [Hl' He'].
    destruct (Run ["-a"; a; "-F"; "all"] "" s2) as [e s3]. cbn in *.
    unfold pf_inv. rewrite Hl', He', Hl, He. split_and!; [|done|].
    + rewrite !Forall_app. split_and!; [done|by apply Forall_singleton|].
      apply Forall_singleton. right; right; left. by exists a.
    + apply (covered_flush _ (pf_enforcers s1 ++ [{| anchorID := a; en_closed := None |}])).
      * apply covered_load; [|eexists; split; [by apply elem_of_app; right; left|done]].
        eapply covered_mono; [|done]. intros b (en & ? & ?). exists en. split; [|done].
        by apply elem_of_app; left.
      * intros b Hb (en & [Hin|Hin]%elem_of_app & Hen & Ho); [by exists en|].
        apply list_elem_of_singleton in Hin as ->. cbn in Hen. congruence.
  - apply (keep_inv (λ l, l ++ [{| anchorID := a; en_closed := None |}])). rewrite Hl, He. split_and!.
    + apply Forall_app. split; [done|by apply Forall_singleton].
    + apply Forall_app. split; [done|by apply Forall_singleton].
    + apply covered_load; [|eexists; split; [by apply elem_of_app; right; left|done]].
      eapply covered_mono; [|done]. intros b (en & ? & ?). exists en. split; [|done].
      by apply elem_of_app; left.
Qed.

Lemma close_enforcer_inv i s : pf_inv s → pf_inv (strict_do (OpCloseEnforcer i) s).2.
Proof.
  intros (I1 & I2 & I3). cbn. destruct (pf_enforcers s !! i) as [en|] eqn:Ei; [|done].
  unfold mbind, P_mbind, enforcer_Close. pose proof (Forall_lookup_1 _ _ _ _ I2 Ei) as Ha.
  destruct (en_closed en) as [e|] eqn:Ec; cbn -[Run].
  { apply (keep_inv (λ l, <[i := en]> l)). by rewrite list_insert_id. }
  unfold mbind, P_mbind. destruct (run_log ["-a"; anchorID en; "-F"; "all"] "" s) as [Hl He].
  destruct (Run _ _ s) as [e s1]. cbn in *.
  apply (keep_inv (λ l, <[i := {| anchorID := anchorID en; en_closed := Some e |}]> l)).
  rewrite Hl, He. split_and!.
  - apply Forall_app. split; [done|]. apply Forall_singleton. right; right; left. by eexists.
  - by apply Forall_insert.
  - eapply covered_flush; [done|]. intros b Hb (en' & [j Hj]%list_elem_of_lookup & Hen & Ho).
    exists en'. split; [|done]. apply list_elem_of_lookup. exists j.
    rewrite list_lookup_insert_ne; [done|]. intros ->. congruence.
Qed.

Lemma strict_run_inv ops s : pf_inv s → pf_inv (strict_run ops s).2.
Proof.
  revert s. induction ops as [|op ops IH]; intros s Hs; [done|]. cbn [strict_run].
  assert (H : pf_inv (strict_do op s).2).
  { destruct op; [|by apply new_enforcer_inv|by apply close_enforcer_inv].
    pose proof (steady_prepare s Hs) as H. cbn. unfold mbind, P_mbind.
    by destruct (prepareStrictTransportDarwin s). }
  unfold mbind, P_mbind. destruct (strict_do op s) as [[] s1]. by apply IH.
Qed.

Definition fresh_daemon (w : W) : pfstate W := Build_pfstate w None [] [].
Lemma fresh_inv w : pf_inv (fresh_daemon w).
Proof.
  split_and!; [constructor|constructor|]. intros l1 a rules l2 H. by destruct l1.
Qed.

(** whatever strict-egress VMs a daemon starts and stops, in any order, and
    whatever pfctl answers (errors included), the daemon keeps to its own part of
    the host's packet filter: each command it gives switches the filter on, lists
    the anchors, flushes an anchor under com.klitka.vm/, or loads the rules for a
    port between 1 and 65535 into the anchor of a VM's id. *)
Theorem strict_anchors_own ops w :
  Forall own_command (pf_commands (strict_run ops (fresh_daemon w)).2).
Proof. apply strict_run_inv, fresh_inv. Qed.

(** no rules outlive their VM: after any sequence of preparations, starts and
    closes, with any answers of pfctl, every load of rules is followed by a flush
    of the same anchor unless an enforcer that is not closed has that anchor; with
    every enforcer closed, every load has its flush. *)
Theorem strict_rules_released ops w l1 a rules l2 :
  let s := (strict_run ops (fresh_daemon w)).2 in
  pf_commands s = l1 ++ load a rules :: l2 →
  flush a ∈ l2 ∨ ∃ en, en ∈ pf_enforcers s ∧ anchorID en = a ∧ en_closed en = None.
Proof. intros s Hl. destruct (strict_run_inv ops _ (fresh_inv w)) as (_ & _ & H). by eapply H. Qed.
End props.

(** ** A run *)
#[local] Instance demo_pf : PFHost () := {|
  pf_run args stdin w := (None, w);
  pf_output args w := (Good ("com.apple" +:+ String nl " com.klitka.vm/old "), w);
  pf_getenv _ _ := ""
|}.
Definition demo_strict : list strict_op := [OpPrepare; OpNew "vm.1" 8080; OpCloseEnforcer 0].

Example demo_strict_log :
  map fst (pf_commands (strict_run demo_strict (fresh_daemon ())).2)
  = [["-E"]; ["-s"; "Anchors"]; ["-a"; "com.klitka.vm/old"; "-F"; "all"]; ["-E"];
     ["-a"; "com.klitka.vm/vm_1"; "-f"; "-"]; ["-a"; "com.klitka.vm/vm_1"; "-F"; "all"]].
Proof. by vm_compute. Qed.

Lemma strict_rules_released_witness :
  let s := (strict_run demo_strict (fresh_daemon ())).2 in
  flush "com.klitka.vm/vm_1" ∈ [flush "com.klitka.vm/vm_1"]
  ∨ ∃ en, en ∈ pf_enforcers s ∧ anchorID en = "com.klitka.vm/vm_1" ∧ en_closed en = None.
Proof.
  apply (strict_rules_released demo_strict () (take 4 (pf_commands (strict_run demo_strict (fresh_daemon ())).2))
           "com.klitka.vm/vm_1" (buildPFAnchorRules "" 8080)).
  by vm_compute.
Defined.
