(* ===== verification/DaemonStrict.v ===== *)
(** * The service over the strict transport of macOS

    The strict-transport hooks of [VMHost] ([strictTransportPrepare] and
    [strictTransportFactory], package variables of [daemon/network.go])
    implemented by [StrictTransport], which is what
    [strict_transport_darwin.go] assigns to them, and what the daemon's anchors then
    hold ([pf_held]), read from the commands and pfctl's answers.  What the service
    promises of its VMs becomes a theorem about the host's packet filter
    ([calls_rules_follow] of [DaemonStrictProps]). *)
From Stdlib Require Import Ascii.
From S2P Require Export VMConcurrent StrictTransportProps.

(** ** Open enforcers *)
Definition open_anchor (en : pfTransportEnforcer) : option string :=
  match en_closed en with None => Some (anchorID en) | Some _ => None end.
Definition open_anchors (es : list pfTransportEnforcer) : list string := omap open_anchor es.

Lemma open_at_anchors a es : open_at a es → a ∈ open_anchors es.
Proof.
  intros (en & Hin & Ha & Hc). apply list_elem_of_omap. exists en. split; [done|].
  unfold open_anchor. by rewrite Hc, Ha.
Qed.

Definition find_open (anchor : string) (es : list pfTransportEnforcer) : option nat :=
  fst <$> list_find (λ en, open_anchor en = Some anchor) es.

Lemma find_open_Some a es :
  a ∈ open_anchors es → ∃ i en, find_open a es = Some i ∧ es !! i = Some en ∧ open_anchor en = Some a.
Proof.
  intros (en & Hin & Ho)%list_elem_of_omap. unfold find_open.
  destruct (list_find_elem_of (λ en, open_anchor en = Some a) es en Hin Ho) as [[i en'] Hf].
  rewrite Hf. apply list_find_Some in Hf as (? & ? & _). by exists i, en'.
Qed.

(** Closing an enforcer takes its anchor from the open ones. *)
Lemma open_anchors_close es i en en' :
  es !! i = Some en → open_anchor en' = None → ∀ a, open_anchor en = Some a →
  open_anchors es ≡ₚ a :: open_anchors (<[i := en']> es).
Proof.
  intros Hi Hen' a Ha. pose proof (lookup_lt_Some _ _ _ Hi) as Hlt.
  rewrite <-(take_drop_middle es i en Hi) at 1. rewrite insert_take_drop by done.
  unfold open_anchors. rewrite !omap_app. cbn. rewrite Ha, Hen'. symmetry. apply Permutation_middle.
Qed.

Lemma errors_Join_None a b : errors_Join a b = None → a = None ∧ b = None.
Proof. by destruct a, b. Qed.

(** ** What the filter holds

    Reading the log with pfctl's answers, from the anchors that earlier daemons left
    rules in, which may be any: a command that pfctl answered without an error did
    what it says; after one that it refused the anchor may hold rules.  An anchor
    that is not in the map holds none. *)
Inductive anchor_state :=
| Stale                      (* an earlier daemon's rules *)
| Loaded (rules : string)
| LoadRefused
| FlushRefused.

Definition pf_step (held : gmap string anchor_state) (e : pf_entry) : gmap string anchor_state :=
  match e.1.1 with
  | [_; a; _; _] =>
      if bool_decide (e.1 = flush a) then
        match e.2 with Good _ => delete a held | Bad _ => alter (λ _, FlushRefused) a held end
      else if bool_decide (e.1 = load a e.1.2) then
        match e.2 with Good _ => <[a := Loaded e.1.2]> held | Bad _ => <[a := LoadRefused]> held end
      else held
  | _ => held
  end.
Definition pf_held (stale : gset string) (log : list pf_entry) : gmap string anchor_state :=
  foldl pf_step (gset_to_gmap Stale stale) log.
#[local] Arguments pf_held : simpl never.

Lemma pf_held_snoc stale log e : pf_held stale (log ++ [e]) = pf_step (pf_held stale log) e.
Proof. unfold pf_held. by rewrite foldl_app. Qed.
Lemma pf_step_flush held a r :
  pf_step held (flush a, r)
  = match r with Good _ => delete a held | Bad _ => alter (λ _, FlushRefused) a held end.
Proof. unfold pf_step. cbn [flush fst]. by rewrite bool_decide_true. Qed.
Lemma pf_step_load held a rules r :
  pf_step held (load a rules, r) = <[a := match r with Good _ => Loaded rules | Bad _ => LoadRefused end]> held.
Proof.
  unfold pf_step. cbn [load fst snd]. rewrite bool_decide_false, bool_decide_true by done. by destruct r.
Qed.

(** A command changes the anchor that it names; it never makes one stale, and only a
    flush that is refused leaves [FlushRefused]. *)
Lemma pf_step_lookup held e a st :
  pf_step held e !! a = Some st →
  held !! a = Some st ∨ (∃ rules, st = Loaded rules) ∨ st = LoadRefused
  ∨ (st = FlushRefused ∧ ∃ text, e = (flush a, Bad text)).
Proof.
  destruct e as [c r]. unfold pf_step. cbn [fst snd].
  destruct c as [[|? [|b [|? [|? [|]]]]] stdin]; cbn [fst snd]; auto.
  case_bool_decide as Hf.
  - rewrite Hf. destruct r as [out|text].
    + intros [_ H]%lookup_delete_Some. auto.
    + destruct (decide (a = b)) as [->|Hne]; [|rewrite lookup_alter_ne by done; auto].
      rewrite lookup_alter_eq. destruct (held !! b); [|done]. cbn. intros [= <-]. eauto 8.
  - case_bool_decide; [|auto].
    destruct r; intros [[_ <-]|[_ H']]%lookup_insert_Some; eauto.
Qed.

Lemma pf_held_stale stale log a : pf_held stale log !! a = Some Stale → a ∈ stale.
Proof.
  induction log as [|e log IH] using rev_ind; [by intros [? _]%lookup_gset_to_gmap_Some|].
  rewrite pf_held_snoc. intros [H|[[? H]|[H|[H _]]]]%pf_step_lookup; [by apply IH|done..].
Qed.
Lemma pf_held_refused stale log a :
  pf_held stale log !! a = Some FlushRefused → ∃ text, (flush a, Bad text) ∈ log.
Proof.
  induction log as [|e log IH] using rev_ind; [by intros [_ ?]%lookup_gset_to_gmap_Some|].
  rewrite pf_held_snoc. intros [H|[[? H]|[H|[_ [text ->]]]]]%pf_step_lookup; try done.
  - destruct (IH H) as [text Ht]. exists text. apply elem_of_app. by left.
  - exists text. apply elem_of_app. right. by left.
Qed.
Lemma pf_held_prefix stale log log' a :
  log `prefix_of` log' → pf_held stale log' !! a = Some Stale → pf_held stale log !! a = Some Stale.
Proof.
  intros [es ->]. induction es as [|e es IH] using rev_ind; [by rewrite app_nil_r|].
  rewrite app_assoc, pf_held_snoc. intros [H|[[? H]|[H|[H _]]]]%pf_step_lookup; [by apply IH|done..].
Qed.

(** What was listed when the anchors of earlier daemons were cleaned up. *)
Definition listing : pf_command := (["-s"; "Anchors"], "").
Definition stale_flushed (stale : gset string) (log : list pf_entry) : Prop :=
  ∃ output, (listing, Good output) ∈ log
  ∧ ∀ a, a ∈ parsePFAnchors output (pfAnchorPrefix +:+ "/") → pf_held stale log !! a ≠ Some Stale.

Lemma stale_flushed_prefix stale log log' :
  log `prefix_of` log' → stale_flushed stale log → stale_flushed stale log'.
Proof.
  intros Hp (output & Ho & Ha). exists output. split.
  - destruct Hp as [es ->]. apply elem_of_app. by left.
  - intros a Hin Hs. apply (Ha a Hin). by eapply pf_held_prefix.
Qed.

(** Rules that no VM of this daemon asked for. *)
Definition leftover (st : anchor_state) : Prop := st = Stale ∨ st = FlushRefused.
Definition gone_at (a : string) (held : gmap string anchor_state) : Prop :=
  held !! a = None ∨ held !! a = Some FlushRefused.
Definition same_but (a : string) (held held' : gmap string anchor_state) : Prop :=
  ∀ k, k ≠ a → held' !! k = held !! k.

(** ** The hooks *)
Section impl.
Context `{UT : UnicodeTables} `{base : VMHost W} `{PF : PFHost Pw} (text : strict_error → string).

(** The manager keeps the anchor of its enforcer; the enforcers are kept here. *)
Definition strict_factory (id : string) (port : Z) (p : pfstate Pw)
    : osres string (option string) * pfstate Pw :=
  let '(r, p') := newStrictTransportEnforcer id port p in
  match r with
  | Good en => (Good (Some (AnchorID (Some en))), (keep_enforcers (λ l, l ++ [en]) p').2)
  | Bad e => (Bad (text e), p')
  end.

Definition strict_close (anchor : string) (p : pfstate Pw) : option string * pfstate Pw :=
  match (i ← find_open anchor (pf_enforcers p); en ← pf_enforcers p !! i; Some (i, en)) with
  | Some (i, en) =>
      let '(e, en', p') := enforcer_Close en p in (e, (keep_enforcers (λ l, <[i := en']> l) p').2)
  | None => (None, p)
  end.

Definition on_host {A} (f : W → A * W) (d : W * pfstate Pw) : A * (W * pfstate Pw) :=
  let '(a, w) := f d.1 in (a, (w, d.2)).
Definition on_pf {A} (m : pfstate Pw → A * pfstate Pw) (d : W * pfstate Pw) : A * (W * pfstate Pw) :=
  let '(a, p) := m d.2 in (a, (d.1, p)).

#[local] Instance darwin_host : VMHost (W * pfstate Pw) := {|
  h_listen := on_host h_listen;
  h_listen_close := on_host h_listen_close;
  h_loadOrCreateCA := on_host h_loadOrCreateCA;
  h_random := on_host h_random;
  h_strictPrepare := on_pf prepareStrictTransportDarwin;
  h_strictFactory id port := on_pf (strict_factory id port);
  h_strictClose anchor := on_pf (strict_close anchor);
  h_getenv k d := h_getenv k d.1;
  h_vmBackend id req env n := on_host (h_vmBackend id req env n);
  h_hostBackend id req env := on_host (h_hostBackend id req env);
  h_backendClose id := on_host (h_backendClose id);
  h_backendExec id c args := on_host (h_backendExec id c args);
  h_backendExecStream id st := on_host (h_backendExecStream id st)
|}.

(** *** What they do to the filter *)
Context (stale : gset string).
Implicit Types p : pfstate Pw.
Definition anchor_map p : gmap string anchor_state := pf_held stale (pf_log p).

Definition logs p p' : Prop := pf_log p `prefix_of` pf_log p'.
Lemma logs_refl p : logs p p.
Proof. unfold logs. done. Qed.
Lemma logs_trans p1 p2 p3 : logs p1 p2 → logs p2 p3 → logs p1 p3.
Proof. unfold logs. by etransitivity. Qed.

(** A command: its answer is recorded, and the rest stays. *)
Lemma run_spec args stdin p :
  let '(e, p') := Run args stdin p in
  anchor_map p' = pf_step (anchor_map p) ((args, stdin), answer_of e)
  ∧ pf_enforcers p' = pf_enforcers p ∧ pf_prepared p' = pf_prepared p ∧ logs p p'.
Proof.
  unfold Run, anchor_map, logs. destruct (pf_run _ _ _). cbn. rewrite pf_held_snoc. split_and!; try done.
  by apply prefix_app_r.
Qed.
Lemma run_enable p :
  let '(e, p') := Run ["-E"] "" p in
  anchor_map p' = anchor_map p ∧ pf_enforcers p' = pf_enforcers p ∧ pf_prepared p' = pf_prepared p ∧ logs p p'.
Proof. apply run_spec. Qed.
Lemma run_flush a p :
  let '(e, p') := Run ["-a"; a; "-F"; "all"] "" p in
  anchor_map p' = match e with None => delete a (anchor_map p) | Some _ => alter (λ _, FlushRefused) a (anchor_map p) end
  ∧ pf_enforcers p' = pf_enforcers p ∧ pf_prepared p' = pf_prepared p ∧ logs p p'.
Proof.
  pose proof (run_spec ["-a"; a; "-F"; "all"] "" p) as H. destruct (Run _ _ p) as [e p'].
  destruct H as (H & ?). split; [|done]. rewrite H. fold (flush a). rewrite pf_step_flush. by destruct e.
Qed.
Lemma run_load a rules p :
  let '(e, p') := Run ["-a"; a; "-f"; "-"] rules p in
  anchor_map p' = <[a := match e with None => Loaded rules | Some _ => LoadRefused end]> (anchor_map p)
  ∧ pf_enforcers p' = pf_enforcers p ∧ pf_prepared p' = pf_prepared p ∧ logs p p'.
Proof.
  pose proof (run_spec ["-a"; a; "-f"; "-"] rules p) as H. destruct (Run _ _ p) as [e p'].
  destruct H as (H & ?). split; [|done]. rewrite H. fold (load a rules). rewrite pf_step_load. by destruct e.
Qed.

(** After a flush the anchor is empty, or its flush was refused. *)
Lemma flush_gone a p :
  let '(e, p') := Run ["-a"; a; "-F"; "all"] "" p in gone_at a (anchor_map p') ∧ same_but a (anchor_map p) (anchor_map p').
Proof.
  pose proof (run_flush a p) as H. destruct (Run _ _ p) as [e p']. destruct H as (-> & _).
  destruct e as [t|]; split.
  - unfold gone_at. rewrite lookup_alter_eq. destruct (anchor_map p !! a); [by right|by left].
  - intros k Hk. by rewrite lookup_alter_ne.
  - left. apply lookup_delete_eq.
  - intros k Hk. by rewrite lookup_delete_ne.
Qed.

Lemma same_but_trans a h1 h2 h3 : same_but a h1 h2 → same_but a h2 h3 → same_but a h1 h3.
Proof. intros H1 H2 k Hk. by rewrite H2, H1. Qed.

(** *** Cleaning up *)
Definition leftovers p : Prop := map_Forall (λ _ st, leftover st) (anchor_map p).

Lemma flush_leftovers a p :
  leftovers p → let '(e, p') := Run ["-a"; a; "-F"; "all"] "" p in leftovers p'.
Proof.
  intros Hp. pose proof (flush_gone a p) as H. destruct (Run _ _ p) as [e p']. destruct H as [Hg Hs].
  intros k st Hk. destruct (decide (k = a)) as [->|Hne]; [|apply (Hp k); by rewrite <-Hs].
  destruct Hg as [Hg|Hg]; rewrite Hg in Hk; [done|]. injection Hk as <-. by right.
Qed.

Lemma flush_all_spec anchors err p :
  let '(e, p') := flush_all anchors err p in
  pf_enforcers p' = pf_enforcers p ∧ logs p p' ∧ (leftovers p → leftovers p')
  ∧ (e = None → err = None ∧ ∀ a, a ∈ anchors → anchor_map p' !! a ≠ Some Stale).
Proof.
  revert err p. induction anchors as [|a anchors IH]; intros err p; cbn [flush_all].
  { split_and!; [done|apply logs_refl|done|]. intros ->. split; [done|]. by intros a ?%not_elem_of_nil. }
  unfold mbind, P_mbind. pose proof (run_flush a p) as H. pose proof (flush_leftovers a p) as HL.
  destruct (Run _ _ p) as [e p1]. destruct H as (Hh & He & _ & Hl).
  specialize (IH (errors_Join err e) p1). destruct (flush_all _ _ p1) as [e2 p2].
  destruct IH as (I1 & I2 & I3 & I4). split_and!; [congruence|by eapply logs_trans|tauto|].
  intros H2. destruct (I4 H2) as [Hj Hs]. apply errors_Join_None in Hj as [-> ->]. split; [done|].
  intros b [->|Hb]%elem_of_cons; [|by apply Hs]. intros Hst.
  apply (pf_held_prefix stale _ _ a I2) in Hst. fold (anchor_map p1) in Hst. by rewrite Hh, lookup_delete_eq in Hst.
Qed.

Lemma cleanup_spec p :
  let '(e, p') := cleanupStalePFAnchors p in
  pf_enforcers p' = pf_enforcers p ∧ logs p p' ∧ (leftovers p → leftovers p')
  ∧ (e = None → stale_flushed stale (pf_log p')).
Proof.
  unfold cleanupStalePFAnchors, mbind, P_mbind. pose proof (run_enable p) as H.
  destruct (Run ["-E"] "" p) as [[e|] p1]; destruct H as (Hh & He & _ & Hl).
  { cbn. unfold leftovers. rewrite Hh. split_and!; try done. }
  set (p2 := (Output ["-s"; "Anchors"] p1).2).
  assert (H2 : anchor_map p2 = anchor_map p1 ∧ pf_enforcers p2 = pf_enforcers p1 ∧ logs p1 p2
    ∧ (listing, (Output ["-s"; "Anchors"] p1).1) ∈ pf_log p2).
  { subst p2. unfold Output, anchor_map, logs. destruct (pf_output _ _) as [r w]. cbn. rewrite pf_held_snoc.
    split_and!; try done; [by apply prefix_app_r|]. apply elem_of_app. right. by left. }
  subst p2. destruct (Output ["-s"; "Anchors"] p1) as [[output|e] p2]; cbn [fst snd] in H2;
    destruct H2 as (Hh2 & He2 & Hl2 & Hin).
  - pose proof (flush_all_spec (parsePFAnchors output (pfAnchorPrefix +:+ "/")) None p2) as H.
    destruct (flush_all _ _ p2) as [e p3]. destruct H as (I1 & I2 & I3 & I4).
    split_and!; [congruence|by do 2 (eapply logs_trans; [done|])|..].
    + intros Hp. apply I3. unfold leftovers. by rewrite Hh2, Hh.
    + intros Hn. destruct (I4 Hn) as [_ Hs]. exists output. split; [|done].
      destruct I2 as [es ->]. apply elem_of_app. by left.
  - cbn. unfold leftovers. rewrite Hh2, Hh. split_and!; [congruence|by eapply logs_trans|done|done].
Qed.

(** What a success of the preparation says, then and later. *)
Definition prepared_ok p : Prop := pf_prepared p = Some None → stale_flushed stale (pf_log p).

Lemma prepared_keep p p' : pf_prepared p' = pf_prepared p → logs p p' → prepared_ok p → prepared_ok p'.
Proof. intros He Hl Hp. unfold prepared_ok. rewrite He. intros H. by eapply stale_flushed_prefix, Hp. Qed.

(** Preparing happens once; it loads nothing. *)
Lemma prepare_spec p :
  pf_inv p → prepared_ok p → let '(e, p') := prepareStrictTransportDarwin p in
  pf_inv p' ∧ pf_enforcers p' = pf_enforcers p ∧ prepared_ok p' ∧ (e = None → pf_prepared p' = Some None)
  ∧ (is_Some (pf_prepared p) → p' = p) ∧ (leftovers p → leftovers p').
Proof.
  intros Hp Hok. pose proof (steady_prepare p Hp) as Hi. revert Hi.
  unfold prepareStrictTransportDarwin. destruct (pf_prepared p) as [e0|] eqn:Epp.
  { intros Hi. split_and!; try done. by intros ->. }
  pose proof (cleanup_spec p) as H. destruct (cleanupStalePFAnchors p) as [e p1].
  destruct H as (I1 & I2 & I3 & I4). intros Hi. split_and!; try done.
  - intros [= ->]. by apply I4.
  - by intros ->.
Qed.

(** A VM's enforcer: its rules are in its anchor, or nothing of it is left but what
    pfctl refused to flush. *)
Lemma factory_spec id port p :
  pf_inv p → let '(r, p') := strict_factory id port p in
  pf_inv p' ∧ pf_prepared p' = pf_prepared p ∧ logs p p'
  ∧ match r with
    | Good a => a = Some (buildPFAnchorID id)
        ∧ open_anchors (pf_enforcers p') = open_anchors (pf_enforcers p) ++ [buildPFAnchorID id]
        ∧ ∃ extra, anchor_map p' = <[buildPFAnchorID id := Loaded (buildPFAnchorRules extra port)]> (anchor_map p)
    | Bad _ => pf_enforcers p' = pf_enforcers p
        ∧ (anchor_map p' = anchor_map p
           ∨ gone_at (buildPFAnchorID id) (anchor_map p') ∧ same_but (buildPFAnchorID id) (anchor_map p) (anchor_map p'))
    end.
Proof.
  intros Hp. assert (Hi : pf_inv (strict_factory id port p).2).
  { pose proof (new_enforcer_inv id port p Hp) as H. revert H. cbn. unfold strict_factory, mbind, P_mbind.
    destruct (newStrictTransportEnforcer id port p) as [[en|e] p']; by cbn. }
  revert Hi. unfold strict_factory, newStrictTransportEnforcer. case_bool_decide;
    [cbn; intros; split_and!; auto using logs_refl|].
  destruct (_ || _); [cbn; intros; split_and!; auto using logs_refl|].
  unfold apply_rules, enforcer_Close, mbind, P_mbind, mret, P_mret.
  set (a := buildPFAnchorID id). pose proof (run_enable p) as H1.
  destruct (Run ["-E"] "" p) as [[err|] p1]; destruct H1 as (T1 & E1 & P1 & L1); cbn -[Run] in *.
  { pose proof (run_flush a p1) as H2. pose proof (flush_gone a p1) as H3. destruct (Run _ _ p1) as [e p2].
    destruct H2 as (_ & E2 & P2 & L2), H3 as [G S]. rewrite T1 in S. cbn.
    intros Hi. split_and!; [done|congruence|by eapply logs_trans|congruence|by right]. }
  set (extra := pf_getenv _ _). set (rules := buildPFAnchorRules extra port).
  pose proof (run_load a rules p1) as H2. destruct (Run _ rules p1) as [[err|] p2];
    destruct H2 as (T2 & E2 & P2 & L2); cbn -[Run] in *.
  - pose proof (run_flush a p2) as H3. pose proof (flush_gone a p2) as H4. destruct (Run _ _ p2) as [e p3].
    destruct H3 as (_ & E3 & P3 & L3), H4 as [G S]. cbn. rewrite T2, T1 in S.
    intros Hi. split_and!; [done|congruence|by do 2 (eapply logs_trans; [done|])|congruence|]. right. split; [done|].
    intros k Hk. by rewrite S, lookup_insert_ne.
  - intros Hi. split_and!; [done|congruence|by eapply logs_trans|done| |].
    + unfold open_anchors. by rewrite omap_app, <-E1, <-E2.
    + exists extra. rewrite <-T1. exact T2.
Qed.

Lemma close_spec a p :
  pf_inv p → a ∈ open_anchors (pf_enforcers p) → let '(_, p') := strict_close a p in
  pf_inv p' ∧ pf_prepared p' = pf_prepared p ∧ logs p p'
  ∧ open_anchors (pf_enforcers p) ≡ₚ a :: open_anchors (pf_enforcers p')
  ∧ gone_at a (anchor_map p') ∧ same_but a (anchor_map p) (anchor_map p').
Proof.
  intros Hp Ha. destruct (find_open_Some _ _ Ha) as (i & en & Hf & Hi & Ho).
  pose proof (close_enforcer_inv i p Hp) as Hinv. revert Hinv. unfold strict_close. cbn.
  rewrite Hf. cbn. rewrite Hi. cbn. unfold mbind, P_mbind.
  assert (Hc : en_closed en = None ∧ anchorID en = a).
  { unfold open_anchor in Ho. destruct (en_closed en); [done|]. by injection Ho. }
  destruct Hc as [Hc Han]. unfold enforcer_Close. rewrite Hc. unfold mbind, P_mbind. rewrite Han.
  pose proof (run_flush a p) as H. pose proof (flush_gone a p) as Hg. destruct (Run _ _ p) as [e p1].
  destruct H as (_ & E & P' & L), Hg as [G S]. cbn in *.
  intros Hinv. split_and!; [done|done|done| |done|done]. rewrite E. by eapply open_anchors_close.
Qed.

(** ** The filter and the VMs

    [V]: the VMs whose strict transport is open, with their proxies' ports. *)
Implicit Types V : gmap string Z.

Record filters V (p : pfstate Pw) : Prop := {
  fi_inv : pf_inv p;
  fi_plain : ∀ id, is_Some (V !! id) → plain id;
  fi_open : open_anchors (pf_enforcers p) ≡ₚ (λ kv, buildPFAnchorID kv.1) <$> map_to_list V;
  fi_flushed : prepared_ok p;
  fi_prepared : V ≠ ∅ → pf_prepared p = Some None;
  fi_told : ∀ id port, V !! id = Some port →
    ∃ extra, anchor_map p !! buildPFAnchorID id = Some (Loaded (buildPFAnchorRules extra port));
  fi_only : ∀ a st, anchor_map p !! a = Some st →
    leftover st ∨ ∃ id, is_Some (V !! id) ∧ a = buildPFAnchorID id
}.

Lemma anchor_ne V p id id' :
  filters V p → is_Some (V !! id) → plain id' → id ≠ id' → buildPFAnchorID id ≠ buildPFAnchorID id'.
Proof. intros Hf Hid Hp Hne He. apply Hne. eapply buildPFAnchorID_inj; [by eapply fi_plain|done..]. Qed.

Lemma filters_fresh w : filters ∅ (fresh_daemon w).
Proof.
  split; try done; [apply fresh_inv|..].
  - by intros id [? ?].
  - intros a st [_ <-]%lookup_gset_to_gmap_Some. by left; left.
Qed.

Lemma filters_prepare V p :
  filters V p → let '(e, p') := prepareStrictTransportDarwin p in
  filters V p' ∧ (e = None → pf_prepared p' = Some None) ∧ (pf_prepared p = Some None → pf_prepared p' = Some None).
Proof.
  intros [H1 H2 H3 H4 H5 H6 H7]. pose proof (prepare_spec p H1 H4) as H.
  destruct (prepareStrictTransportDarwin p) as [e p']. destruct H as (G1 & G2 & G3 & G4 & G5 & G6).
  split; [|split; [done|intros Hs; by rewrite G5]].
  destruct (decide (V = ∅)) as [->|HV].
  - split; [done|done|by rewrite G2|done|done|by intros|].
    assert (Hl : leftovers p').
    { apply G6. intros a st Ha. destruct (H7 a st Ha) as [|(id & [? Hid] & _)]; [done|].
      by rewrite lookup_empty in Hid. }
    intros a st Ha. left. by apply (Hl a).
  - rewrite (G5 ltac:(by rewrite H5)). by split.
Qed.

(** What is held but for one anchor, which no VM has and which is flushed. *)
Lemma only_gone V p p' id :
  (∀ a st, anchor_map p !! a = Some st → leftover st ∨ ∃ k, is_Some (V !! k) ∧ a = buildPFAnchorID k) →
  gone_at (buildPFAnchorID id) (anchor_map p') → same_but (buildPFAnchorID id) (anchor_map p) (anchor_map p') →
  ∀ a st, anchor_map p' !! a = Some st → leftover st ∨ ∃ k, is_Some (delete id V !! k) ∧ a = buildPFAnchorID k.
Proof.
  intros H Hg Hs a st Ha. destruct (decide (a = buildPFAnchorID id)) as [->|Hne].
  - left. destruct Hg as [Hg|Hg]; rewrite Hg in Ha; [done|]. injection Ha as <-. by right.
  - rewrite Hs in Ha by done. destruct (H a st Ha) as [|(k & Hk & ->)]; [by left|right].
    exists k. split; [|done]. apply lookup_delete_is_Some. split; [congruence|done].
Qed.

Lemma filters_factory V id port p :
  filters V p → V !! id = None → plain id → pf_prepared p = Some None →
  let '(r, p') := strict_factory id port p in
  match r with
  | Good a => a = Some (buildPFAnchorID id) ∧ filters (<[id := port]> V) p'
  | Bad _ => filters V p'
  end.
Proof.
  intros Hf Hid Hpl Hprep. pose proof Hf as [H1 H2 H3 H4 H5 H6 H7].
  pose proof (factory_spec id port p H1) as H. destruct (strict_factory id port p) as [r p'].
  destruct H as (G1 & G2 & GL & G). destruct r as [a|e].
  - destruct G as (-> & Ho & extra & Ht). split; [done|].
    split; [done| | |by eapply prepared_keep|by rewrite G2| |].
    + intros k [<-|[_ Hk]]%lookup_insert_is_Some; [done|by apply H2].
    + rewrite map_to_list_insert by done. cbn. rewrite Ho, H3. by rewrite Permutation_app_comm.
    + intros k q [[<- <-]|[Hne Hk]]%lookup_insert_Some.
      { exists extra. by rewrite Ht, lookup_insert_eq. }
      rewrite Ht, lookup_insert_ne; [by apply H6|].
      intros He. by apply (anchor_ne V p k id Hf); [eexists|..].
    + intros a st. rewrite Ht. intros [[<- _]|[_ Ha]]%lookup_insert_Some.
      { right. exists id. by rewrite lookup_insert_eq. }
      destruct (H7 _ _ Ha) as [|(k & Hk & ->)]; [by left|right]. exists k. split; [|done].
      apply lookup_insert_is_Some. destruct (decide (id = k)); [by left|by right].
  - destruct G as [He Ht].
    split; [done|done|by rewrite He|by eapply prepared_keep|by rewrite G2|..].
    + intros k q Hk. destruct (H6 k q Hk) as [extra Hx]. exists extra. rewrite <-Hx.
      destruct Ht as [->|[_ Hs]]; [done|]. apply Hs. apply (anchor_ne V p k id Hf); [by eexists|done|congruence].
    + destruct Ht as [->|[Hg Hs]]; [done|]. intros a st Ha.
      destruct (only_gone V p p' id H7 Hg Hs a st Ha) as [|(k & Hk & ->)]; [by left|right].
      exists k. split; [|done]. by apply lookup_delete_is_Some in Hk as [_ ?].
Qed.

Lemma filters_close V id p :
  filters V p → is_Some (V !! id) → filters (delete id V) (strict_close (buildPFAnchorID id) p).2.
Proof.
  intros Hf [port Hid]. pose proof Hf as [H1 H2 H3 H4 H5 H6 H7].
  rewrite <-(map_to_list_delete V id port Hid) in H3. cbn in H3.
  pose proof (close_spec (buildPFAnchorID id) p H1) as G. destruct (strict_close _ p) as [e p'].
  destruct G as (G1 & G2 & GL & G3 & Hg & Hs); [rewrite H3; by left|]. cbn [snd].
  split; [done| | |by eapply prepared_keep| | |by eapply only_gone].
  - intros k [_ Hk]%lookup_delete_is_Some. by apply H2.
  - rewrite H3 in G3. by apply Permutation_cons_inv in G3.
  - intros _. rewrite G2. apply H5. by intros ->.
  - intros k q [Hne Hk]%lookup_delete_Some. rewrite Hs; [by apply H6|].
    apply (anchor_ne V p k id Hf); [by eexists| |done]. apply H2. by eexists.
Qed.
End impl.
