(* ===== verification/CertAuthority.v ===== *)
(** * The certificate authority ([daemon/mitm.go])

    The daemon intercepts TLS with certificates of an authority of its own, whose
    certificate and key are two files: [loadOrCreateCA] reads them, or makes them
    when one is missing, and [certificateForHost] issues certificates by host name
    and keeps them.  The cryptography, PEM and the file system are the host's
    ([CAHost]); what the code relies on of them is in [CertAuthorityProps]. *)
From Stdlib Require Import Ascii.
From S2P Require Export GoPath GoNet NetworkPolicy HostBackend.

(** The fields of a certificate the code sets. *)
Record template := {
  t_serial : Z;
  t_commonName : string;
  t_notBefore : Z;
  t_notAfter : Z;
  t_isCA : bool;
  t_keyUsage : Z;
  t_extKeyUsage : list Z;
  t_dnsNames : list string;
  t_ips : list IP
}.

Definition KeyUsageDigitalSignature : Z := 1.
Definition KeyUsageKeyEncipherment : Z := 4.
Definition KeyUsageCertSign : Z := 32.
Definition KeyUsageCRLSign : Z := 64.
Definition ExtKeyUsageServerAuth : Z := 1.

(** Who signs: the certificate itself, or the authority's. *)
Class CAHost (W K C : Type) := {
  ca_generateKey : W → osres string K * W;               (* rsa.GenerateKey *)
  ca_serial : W → osres string Z * W;                    (* rand.Int *)
  ca_now : W → Z;                                        (* in nanoseconds *)
  ca_create : template → option C → K → K → W → osres string (list Byte.byte) * W;
                                                         (* x509.CreateCertificate: nil is self-signed *)
  ca_parseCert : list Byte.byte → osres string C;
  ca_raw : C → list Byte.byte;                                (* [cert.Raw] *)
  ca_pemEncode : string → list Byte.byte → list Byte.byte;
  ca_pemDecode : list Byte.byte → option (string * list Byte.byte);
  ca_marshalPKCS1 : K → list Byte.byte;
  ca_parsePKCS1 : list Byte.byte → osres string K;
  ca_parsePKCS8 : list Byte.byte → osres string (option K);   (* [None]: not an RSA key *)
  ca_userConfigDir : W → osres string string;
  ca_tempDir : W → string;
  ca_mkdirAll : string → Z → W → option string * W;
  ca_exists : string → W → bool;                         (* fileExists *)
  ca_readFile : string → W → osres string (list Byte.byte);
  ca_writeFile : string → list Byte.byte → Z → W → option string * W
}.

Record tlsCertificate (K : Type) := { tc_chain : list (list Byte.byte); tc_key : K }.
Arguments tc_chain {K}. Arguments tc_key {K}.

Record mitmCA (K C : Type) := {
  certPath : string;
  keyPath : string;
  ca_cert : C;
  ca_key : K;
  ca_cache : gmap string (tlsCertificate K)
}.
Arguments certPath {K C}. Arguments keyPath {K C}. Arguments ca_cert {K C}. Arguments ca_key {K C}.
Arguments ca_cache {K C}.

Inductive ca_error := CAFailed (text : string) | CABadCertPEM | CABadKeyPEM | CAKeyType | CANil.

(** State passing over the host. *)
Definition CAM (W A : Type) : Type := W → A * W.
#[export] Instance CAM_mret {W} : MRet (CAM W) := λ A a w, (a, w).
#[export] Instance CAM_mbind {W} : MBind (CAM W) := λ A B f m w, let '(a, w') := m w in f a w'.

Section code.
Context `{UT : UnicodeTables} `{CA : CAHost W K C}.

Definition hread {A} (f : W → A) : CAM W A := λ w, (f w, w).

Definition mitmDir : CAM W string := λ w,
  (match ca_userConfigDir w with
   | Good configDir =>
       if bool_decide (TrimSpace configDir = "") then PathJoin [ca_tempDir w; "klitka-mitm"]
       else PathJoin [configDir; "klitka"; "mitm"]
   | Bad _ => PathJoin [ca_tempDir w; "klitka-mitm"]
   end, w).

Definition io {A} (r : osres string A) : osres ca_error A :=
  match r with Good a => Good a | Bad t => Bad (CAFailed t) end.

Definition readCertificate (path : string) : CAM W (osres ca_error C) := λ w,
  (match ca_readFile path w with
   | Bad t => Bad (CAFailed t)
   | Good data =>
       match ca_pemDecode data with
       | None => Bad CABadCertPEM
       | Some (typ, bytes) =>
           if bool_decide (typ = "CERTIFICATE") then io (ca_parseCert bytes) else Bad CABadCertPEM
       end
   end, w).

Definition readPrivateKey (path : string) : CAM W (osres ca_error K) := λ w,
  (match ca_readFile path w with
   | Bad t => Bad (CAFailed t)
   | Good data =>
       match ca_pemDecode data with
       | None => Bad CABadKeyPEM
       | Some (typ, bytes) =>
           if bool_decide (typ = "RSA PRIVATE KEY") then io (ca_parsePKCS1 bytes)
           else if bool_decide (typ = "PRIVATE KEY") then
             match ca_parsePKCS8 bytes with
             | Bad t => Bad (CAFailed t)
             | Good None => Bad CAKeyType
             | Good (Some key) => Good key
             end
           else Bad CAKeyType
       end
   end, w).

Definition hour : Z := 3600 * 1000000000.

Definition ca_template (serial now : Z) : template :=
  {| t_serial := serial; t_commonName := "klitka-mitm-ca"; t_notBefore := now - hour;
     t_notAfter := now - hour + 10 * 365 * 24 * hour; t_isCA := true;
     t_keyUsage := Z.lor KeyUsageCertSign KeyUsageCRLSign; t_extKeyUsage := [];
     t_dnsNames := []; t_ips := [] |}.

(** The part of [loadOrCreateCA] that makes the authority. *)
Definition createCA (certPath keyPath : string) : CAM W (osres ca_error (mitmCA K C)) :=
  k ← ca_generateKey;
  try key := k catch t => mret (Bad (CAFailed t)) in
  n ← ca_serial;
  try serial := n catch t => mret (Bad (CAFailed t)) in
  now ← hread ca_now;
  d ← ca_create (ca_template serial now) None key key;
  try der := d catch t => mret (Bad (CAFailed t)) in
  let certPEM := ca_pemEncode "CERTIFICATE" der in
  let keyPEM := ca_pemEncode "RSA PRIVATE KEY" (ca_marshalPKCS1 key) in
  e ← ca_writeFile certPath certPEM 420;
  match e with Some t => mret (Bad (CAFailed t)) | None =>
  e ← ca_writeFile keyPath keyPEM 384;
  match e with Some t => mret (Bad (CAFailed t)) | None =>
  try cert := ca_parseCert der catch t => mret (Bad (CAFailed t)) in
  mret (Good {| certPath := certPath; keyPath := keyPath; ca_cert := cert; ca_key := key;
                ca_cache := ∅ |})
  end end.

(** ... and the part that loads it. *)
Definition loadCA (certPath keyPath : string) : CAM W (osres ca_error (mitmCA K C)) :=
  c ← readCertificate certPath;
  try cert := c catch e => mret (Bad e) in
  k ← readPrivateKey keyPath;
  try key := k catch e => mret (Bad e) in
  mret (Good {| certPath := certPath; keyPath := keyPath; ca_cert := cert; ca_key := key;
                ca_cache := ∅ |}).

Definition loadOrCreateCA : CAM W (osres ca_error (mitmCA K C)) :=
  dir ← mitmDir;
  e ← ca_mkdirAll dir 448;
  match e with Some t => mret (Bad (CAFailed t)) | None =>
  let certPath := PathJoin [dir; "ca.crt"] in
  let keyPath := PathJoin [dir; "ca.key"] in
  both ← hread (λ w, ca_exists certPath w && ca_exists keyPath w);
  if (both : bool) then loadCA certPath keyPath else createCA certPath keyPath
  end.

(** A nil authority has no path. *)
Definition CertPath (ca : option (mitmCA K C)) : string :=
  match ca with None => "" | Some ca => certPath ca end.

(** ** Certificates for hosts *)
Definition normalizeHost (host : string) : string := TrimSuffix (ToLower (TrimSpace host)) ".".

Definition host_template (serial now : Z) (normalized : string) : template :=
  {| t_serial := serial; t_commonName := normalized; t_notBefore := now - hour;
     t_notAfter := now - hour + 825 * 24 * hour; t_isCA := false;
     t_keyUsage := Z.lor KeyUsageDigitalSignature KeyUsageKeyEncipherment;
     t_extKeyUsage := [ExtKeyUsageServerAuth];
     t_dnsNames := match ParseIP normalized with Some _ => [] | None => [normalized] end;
     t_ips := match ParseIP normalized with Some ip => [ip] | None => [] end |}.

(** Issuing, between the two critical sections. *)
Definition issue (ca : mitmCA K C) (normalized : string) : CAM W (osres ca_error (tlsCertificate K)) :=
  n ← ca_serial;
  try serial := n catch t => mret (Bad (CAFailed t)) in
  now ← hread ca_now;
  k ← ca_generateKey;
  try key := k catch t => mret (Bad (CAFailed t)) in
  d ← ca_create (host_template serial now normalized) (Some (ca_cert ca)) key (ca_key ca);
  try der := d catch t => mret (Bad (CAFailed t)) in
  mret (Good {| tc_chain := [der; ca_raw (ca_cert ca)]; tc_key := key |}).

Definition set_cache (cache : gmap string (tlsCertificate K)) (ca : mitmCA K C) : mitmCA K C :=
  {| certPath := certPath ca; keyPath := keyPath ca; ca_cert := ca_cert ca; ca_key := ca_key ca;
     ca_cache := cache |}.

Definition certificateForHost (ca : option (mitmCA K C)) (host : string)
    : CAM W (osres ca_error (tlsCertificate K) * option (mitmCA K C)) :=
  match ca with
  | None => mret (Bad CANil, None)
  | Some ca =>
      let normalized := normalizeHost host in
      match ca_cache ca !! normalized with
      | Some cert => mret (Good cert, Some ca)
      | None =>
          r ← issue ca normalized;
          match r with
          | Bad e => mret (Bad e, Some ca)
          | Good cert => mret (Good cert, Some (set_cache (<[normalized := cert]> (ca_cache ca)) ca))
          end
      end
  end.
End code.
#[global] Arguments normalizeHost : simpl never.
