(* ===== verification/CertAuthorityProps.v ===== *)
(** * What the certificate authority keeps

    A daemon that starts again has the authority it made ([ca_survives_restart]),
    so guests that trust its certificate go on trusting it; and the certificates it
    issues are for the host that was asked for, one per host
    ([certificates_for_hosts]). *)
From Stdlib Require Import Ascii.
From S2P Require Export CertAuthority.

(** ** What the code relies on *)
Class CALaws (W K C : Type) `{CA : CAHost W K C} := {
  is_dir : string → W → Prop;
  same_files (w w' : W) : Prop :=
    (∀ p, ca_readFile p w' = ca_readFile p w) ∧ (∀ p, ca_exists p w' = ca_exists p w)
    ∧ ca_userConfigDir w' = ca_userConfigDir w ∧ ca_tempDir w' = ca_tempDir w
    ∧ ∀ d, is_dir d w → is_dir d w';
  law_pem typ b : typ = "CERTIFICATE" ∨ typ = "RSA PRIVATE KEY" →
    ca_pemDecode (ca_pemEncode typ b) = Some (typ, b);
  law_pkcs1 k : ca_parsePKCS1 (ca_marshalPKCS1 k) = Good k;
  law_generateKey w : same_files w (ca_generateKey w).2;
  law_serial w : same_files w (ca_serial w).2;
  law_create t p k1 k2 w : same_files w (ca_create t p k1 k2 w).2;
  law_mkdir_makes d m w : (ca_mkdirAll d m w).1 = None → is_dir d (ca_mkdirAll d m w).2;
  law_mkdir_again d m w : is_dir d w →
    (ca_mkdirAll d m w).1 = None ∧ same_files w (ca_mkdirAll d m w).2;
  law_mkdir_config d m w :
    ca_userConfigDir (ca_mkdirAll d m w).2 = ca_userConfigDir w
    ∧ ca_tempDir (ca_mkdirAll d m w).2 = ca_tempDir w;
  law_write p b m w w' : ca_writeFile p b m w = (None, w') →
    ca_readFile p w' = Good b ∧ ca_exists p w' = true
    ∧ (∀ q, q ≠ p → ca_readFile q w' = ca_readFile q w ∧ ca_exists q w' = ca_exists q w)
    ∧ ca_userConfigDir w' = ca_userConfigDir w ∧ ca_tempDir w' = ca_tempDir w
    ∧ ∀ d, is_dir d w → is_dir d w'
}.

Section props.
Context `{UT : UnicodeTables} `{CL : CALaws W K C}.

Lemma same_files_refl w : same_files w w.
Proof. by split_and!. Qed.
Lemma same_files_trans w1 w2 w3 : same_files w1 w2 → same_files w2 w3 → same_files w1 w3.
Proof.
  intros (A1 & A2 & A3 & A4 & A5) (B1 & B2 & B3 & B4 & B5).
  split_and!; [intros p; by rewrite B1|intros p; by rewrite B2|congruence|congruence|auto].
Qed.

#[local] Arguments mitmDir : simpl never.

Lemma mitmDir_same w w' : same_files w w' → (mitmDir w').1 = (mitmDir w).1.
Proof. intros (_ & _ & H1 & H2 & _). unfold mitmDir. by rewrite H1, H2. Qed.

Lemma ca_paths_differ d : PathJoin [d; "ca.crt"] ≠ PathJoin [d; "ca.key"].
Proof.
  rewrite !PathJoin_name by (split_and!; by vm_compute). by intros ?%sapp_inj_l.
Qed.

(** The two files hold this authority. *)
Definition stored (ca : mitmCA K C) (w : W) : Prop :=
  ca_exists (certPath ca) w = true ∧ ca_exists (keyPath ca) w = true
  ∧ readCertificate (certPath ca) w = (Good (ca_cert ca), w)
  ∧ readPrivateKey (keyPath ca) w = (Good (ca_key ca), w).

Lemma stored_same ca w w' : same_files w w' → stored ca w → stored ca w'.
Proof.
  intros (H1 & H2 & _) (S1 & S2 & S3 & S4). unfold stored, readCertificate, readPrivateKey in *.
  rewrite !H1, !H2. split_and!; [done|done|by injection S3 as ->|by injection S4 as ->].
Qed.

Lemma loadCA_spec cp kp ca w w' :
  loadCA cp kp w = (Good ca, w') →
  w' = w ∧ certPath ca = cp ∧ keyPath ca = kp ∧ ca_cache ca = ∅
  ∧ readCertificate cp w = (Good (ca_cert ca), w) ∧ readPrivateKey kp w = (Good (ca_key ca), w).
Proof.
  unfold loadCA, mbind, CAM_mbind.
  assert (Hc : (readCertificate cp w).2 = w) by done.
  destruct (readCertificate cp w) as [[cert|e] w1]; cbn in Hc; subst w1; [|done].
  assert (Hk : (readPrivateKey kp w).2 = w) by done.
  destruct (readPrivateKey kp w) as [[key|e] w1]; cbn in Hk; subst w1; [|done].
  by intros [= <- <-].
Qed.

Lemma loadCA_stored ca w :
  ca_cache ca = ∅ → stored ca w → loadCA (certPath ca) (keyPath ca) w = (Good ca, w).
Proof.
  intros Hcache (_ & _ & Hc & Hk). unfold loadCA, mbind, CAM_mbind. rewrite Hc, Hk.
  destruct ca. cbn in *. by subst.
Qed.

Lemma createCA_spec cp kp ca w w' :
  cp ≠ kp → createCA cp kp w = (Good ca, w') →
  certPath ca = cp ∧ keyPath ca = kp ∧ ca_cache ca = ∅ ∧ stored ca w'
  ∧ ca_userConfigDir w' = ca_userConfigDir w ∧ ca_tempDir w' = ca_tempDir w
  ∧ ∀ d, is_dir d w → is_dir d w'.
Proof.
  intros Hne. unfold createCA, mbind, CAM_mbind, hread, mret, CAM_mret.
  pose proof (law_generateKey w) as G1. destruct (ca_generateKey w) as [[key|e] w1]; [|done].
  pose proof (law_serial w1) as G2. destruct (ca_serial w1) as [[serial|e] w2]; [|done].
  pose proof (law_create (ca_template serial (ca_now w2)) None key key w2) as G3.
  destruct (ca_create _ _ _ _ _) as [[der|e] w3]; [|done]. cbn [snd] in *.
  pose proof (same_files_trans _ _ _ (same_files_trans _ _ _ G1 G2) G3) as (_ & _ & E1 & E2 & E3).
  destruct (ca_writeFile cp _ _ w3) as [[t|] w4] eqn:Ew; [done|].
  destruct (ca_writeFile kp _ _ w4) as [[t|] w5] eqn:Ek; [done|].
  destruct (ca_parseCert der) as [cert|e] eqn:Ep; [|done]. intros [= <- <-].
  apply law_write in Ew as (A1 & A2 & _ & A4 & A5 & A6).
  apply law_write in Ek as (B1 & B2 & B3 & B4 & B5 & B6). destruct (B3 cp Hne) as [B7 B8].
  cbn. split_and!; try done; [|congruence|congruence|auto].
  unfold stored, readCertificate, readPrivateKey. cbn.
  rewrite B1, B2, B7, B8, A1, A2, !law_pem, law_pkcs1 by auto.
  rewrite !bool_decide_true by done. by rewrite Ep.
Qed.

(** The files of [dir] hold this authority. *)
Record settled (dir : string) ca w : Prop := {
  se_dir : (mitmDir w).1 = dir;
  se_isdir : is_dir dir w;
  se_stored : stored ca w;
  se_cert : certPath ca = PathJoin [dir; "ca.crt"];
  se_key : keyPath ca = PathJoin [dir; "ca.key"]
}.

Lemma settled_same dir ca w w' : same_files w w' → settled dir ca w → settled dir ca w'.
Proof.
  intros H [H1 H2 H3 H4 H5]. split; try done.
  - by rewrite (mitmDir_same _ _ H).
  - by apply H.
  - by eapply stored_same.
Qed.

(** Where [loadOrCreateCA] leaves the files. *)
Lemma load_settled ca w w1 :
  loadOrCreateCA w = (Good ca, w1) → ca_cache ca = ∅ ∧ settled (mitmDir w).1 ca w1.
Proof.
  intros Hload. unfold loadOrCreateCA, mbind, CAM_mbind in Hload. destruct (mitmDir w) as [dir w'] eqn:Ed.
  assert (w' = w) as -> by (by injection Ed as _ ->).
  pose proof (law_mkdir_makes dir 448 w) as Hmk. pose proof (law_mkdir_config dir 448 w) as [C1 C2].
  destruct (ca_mkdirAll dir 448 w) as [[t|] wd]; [done|]. cbn in *. specialize (Hmk eq_refl).
  assert (Hdir : ∀ w', ca_userConfigDir w' = ca_userConfigDir wd → ca_tempDir w' = ca_tempDir wd →
                  (mitmDir w').1 = dir).
  { intros w' E1 E2. unfold mitmDir in *. rewrite E1, E2, C1, C2. by injection Ed as <-. }
  destruct (ca_exists _ wd && _) eqn:Ex.
  - apply loadCA_spec in Hload as (-> & Hcp & Hkp & Hca & Hc & Hk).
    apply andb_true_iff in Ex as [Ex1 Ex2]. split; [done|]. split; auto. unfold stored. by rewrite Hcp, Hkp.
  - apply createCA_spec in Hload as (Hcp & Hkp & Hca & Hs & E1 & E2 & E3); [|apply ca_paths_differ].
    split; [done|]. split; auto.
Qed.

(** a daemon that starts again has the same certificate authority: when
    loadOrCreateCA made or loaded one, then on any later state of the machine
    with those files it returns the same certificate, the same key and the same
    paths, and makes nothing new; so a guest's trust in the certificate lasts.
    (PEM and PKCS #1 decode what they encoded, and the file system keeps what it
    is given.) *)
Theorem ca_survives_restart w w1 w2 ca :
  loadOrCreateCA w = (Good ca, w1) → same_files w1 w2 → (loadOrCreateCA w2).1 = Good ca.
Proof.
  intros Hload Hsame. destruct (load_settled _ _ _ Hload) as [Hcache Hset].
  apply (settled_same _ _ _ _ Hsame) in Hset as Hset2. destruct Hset2 as [Hd Hisdir _ Hcp Hkp].
  unfold loadOrCreateCA, mbind, CAM_mbind. destruct (mitmDir w2) as [dir w2'] eqn:Ed.
  assert (w2' = w2) as -> by (by injection Ed as _ ->). cbn in Hd. rewrite <-Hd in *. clear Hd.
  destruct (law_mkdir_again dir 448 w2) as [Hn Hs]; [done|].
  destruct (ca_mkdirAll _ _ w2) as [e wd]. cbn in Hn, Hs. subst e. cbn [hread].
  pose proof (se_stored _ _ _ (settled_same _ _ _ _ (same_files_trans _ _ _ Hsame Hs) Hset)) as Hst2.
  rewrite <-Hcp, <-Hkp. destruct (Hst2) as (-> & -> & _). cbn [andb].
  by rewrite (loadCA_stored ca wd Hcache Hst2).
Qed.
End props.

(** ** Certificates for hosts *)
Section hosts.
Context `{UT : UnicodeTables} `{CA : CAHost W K C}.
Implicit Types ca : mitmCA K C.

(** A server's certificate for [host], made at [now]: it names the host, or its
    address if it is one, and nothing else; it is not an authority's (bit 5 of the key
    usage allows signing certificates), may authenticate a server (1), sign (bit 0) and
    encipher keys (bit 2); and it is valid from an hour ago, for 825 days. *)
Record leaf_for (host : string) (now : Z) (t : template) : Prop := {
  lf_common : t_commonName t = host;
  lf_name : ParseIP host = None → t_dnsNames t = [host] ∧ t_ips t = [];
  lf_address ip : ParseIP host = Some ip → t_ips t = [ip] ∧ t_dnsNames t = [];
  lf_leaf : t_isCA t = false ∧ Z.testbit (t_keyUsage t) 5 = false;
  lf_server : t_extKeyUsage t = [1]
    ∧ Z.testbit (t_keyUsage t) 0 = true ∧ Z.testbit (t_keyUsage t) 2 = true;
  lf_valid : t_notBefore t = now - 3600 * 10 ^ 9 ∧ t_notAfter t = t_notBefore t + 825 * 86400 * 10 ^ 9
}.

Lemma host_template_leaf serial now host : leaf_for host now (host_template serial now host).
Proof.
  unfold host_template.
  split; cbn; [done|by intros ->|by intros ip ->|done|done|unfold hour; lia].
Qed.

(** A certificate that the authority signed for a host, at some moment: the leaf
    certificate [der] and the authority's are its chain. *)
Definition issued_for (cert : C) (key : K) (host : string) (c : tlsCertificate K) : Prop :=
  ∃ t der w w', leaf_for host (ca_now w) t
    ∧ (ca_create t (Some cert) (tc_key c) key w').1 = Good der
    ∧ tc_chain c = [der; ca_raw cert].

Definition cache_ok ca : Prop :=
  map_Forall (issued_for (ca_cert ca) (ca_key ca)) (ca_cache ca).

(** The requests of a run, with their answers. *)
Fixpoint serve_hosts (hosts : list string) ca : CAM W (list (osres ca_error (tlsCertificate K)) * mitmCA K C) :=
  match hosts with
  | [] => mret ([], ca)
  | host :: hosts' =>
      '(r, ca') ← certificateForHost (Some ca) host;
      '(rs, ca'') ← serve_hosts hosts' (default ca ca');
      mret (r :: rs, ca'')
  end.

Lemma issue_spec ca host w c w' :
  issue ca host w = (Good c, w') → issued_for (ca_cert ca) (ca_key ca) host c.
Proof.
  unfold issue, mbind, CAM_mbind, hread, mret, CAM_mret.
  destruct (ca_serial w) as [[serial|e] w1]; [|done].
  destruct (ca_generateKey w1) as [[key|e] w2]; [|done].
  destruct (ca_create _ _ _ _ _) as [[der|e] w3] eqn:E; [|done]. intros [= <- _].
  exists (host_template serial (ca_now w1) host), der, w1, w2. cbn. rewrite E.
  by split; [apply host_template_leaf|].
Qed.

(** One request: the answer is for the host, and what is cached stays. *)
Lemma certificateForHost_spec ca host w :
  cache_ok ca →
  ∃ r ca' w', certificateForHost (Some ca) host w = ((r, Some ca'), w')
  ∧ cache_ok ca' ∧ ca_cert ca' = ca_cert ca ∧ ca_key ca' = ca_key ca ∧ ca_cache ca ⊆ ca_cache ca'
  ∧ ∀ c, r = Good c → ca_cache ca' !! normalizeHost host = Some c.
Proof.
  intros Hok. unfold certificateForHost.
  destruct (ca_cache ca !! normalizeHost host) as [c|] eqn:E.
  { exists (Good c), ca, w. split_and!; try done. naive_solver. }
  unfold mbind, CAM_mbind. destruct (issue ca (normalizeHost host) w) as [[c|e] w'] eqn:Ei.
  - exists (Good c), (set_cache (<[normalizeHost host := c]> (ca_cache ca)) ca), w'.
    split_and!; try done; cbn.
    + apply map_Forall_insert_2; [by eapply issue_spec|done].
    + by apply insert_subseteq.
    + intros c' [= ->]. by rewrite lookup_insert_eq.
  - exists (Bad e), ca, w'. by split_and!.
Qed.

Lemma serve_hosts_spec hosts : ∀ ca w, cache_ok ca →
  ∃ rs ca' w', serve_hosts hosts ca w = ((rs, ca'), w')
  ∧ cache_ok ca' ∧ ca_cert ca' = ca_cert ca ∧ ca_key ca' = ca_key ca ∧ ca_cache ca ⊆ ca_cache ca'
  ∧ Forall2 (λ host r, ∀ c, r = Good c → ca_cache ca' !! normalizeHost host = Some c) hosts rs.
Proof.
  induction hosts as [|host hosts IH]; intros ca w Hok.
  { exists [], ca, w. by split_and!. }
  destruct (certificateForHost_spec ca host w Hok) as (r & ca1 & w1 & Hc & Hok1 & Hcert & Hkey & Hsub & Hr).
  destruct (IH ca1 w1 Hok1) as (rs & ca2 & w2 & Hs & Hok2 & Hcert2 & Hkey2 & Hsub2 & Hrs).
  exists (r :: rs), ca2, w2. cbn [serve_hosts]. unfold mbind, CAM_mbind. rewrite Hc. cbn [from_option id].
  rewrite Hs. split_and!; [done|done|congruence|congruence|by etrans|].
  constructor; [|done]. intros c Hg. by eapply lookup_weaken; [apply Hr|].
Qed.

(** the certificates of a run of intercepted connections: starting with
    nothing cached, each certificate certificateForHost returns was signed with
    the authority's key for exactly the host that was asked for (lowered, without
    surrounding space and a final dot; by name, or by address if it is one), its
    chain ends in the authority's certificate, and two requests for the same host
    get the same certificate. *)
Theorem certificates_for_hosts hosts ca w :
  ca_cache ca = ∅ →
  let rs := (serve_hosts hosts ca w).1.1 in
  length rs = length hosts
  ∧ (∀ i host c, hosts !! i = Some host → rs !! i = Some (Good c) →
       issued_for (ca_cert ca) (ca_key ca) (TrimSuffix (ToLower (TrimSpace host)) ".") c)
  ∧ (∀ i j h1 h2 c1 c2, hosts !! i = Some h1 → hosts !! j = Some h2 →
       TrimSuffix (ToLower (TrimSpace h1)) "." = TrimSuffix (ToLower (TrimSpace h2)) "." →
       rs !! i = Some (Good c1) → rs !! j = Some (Good c2) → c1 = c2).
Proof.
  intros Hempty.
  assert (Hok : cache_ok ca) by (unfold cache_ok; rewrite Hempty; apply map_Forall_empty).
  destruct (serve_hosts_spec hosts ca w Hok) as (rs & ca' & w' & Hs & Hok' & Hcert & Hkey & _ & Hrs).
  rewrite Hs. cbn. rewrite <-Hcert, <-Hkey.
  assert (Hat : ∀ i host c, hosts !! i = Some host → rs !! i = Some (Good c) →
                  ca_cache ca' !! normalizeHost host = Some c).
  { intros i host c H1 H2. by eapply (Forall2_lookup_lr _ _ _ i host _ Hrs H1 H2). }
  split_and!; [by rewrite (Forall2_length _ _ _ Hrs)| |].
  - intros i host c H1 H2. change (issued_for (ca_cert ca') (ca_key ca') (normalizeHost host) c). by eapply Hok', Hat.
  - intros i j h1 h2 c1 c2 H1 H2 Hn R1 R2. change (normalizeHost h1 = normalizeHost h2) in Hn. pose proof (Hat _ _ _ H1 R1) as L1. pose proof (Hat _ _ _ H2 R2) as L2.
    rewrite Hn, L2 in L1. by injection L1.
Qed.
End hosts.

(** ** A machine with files in memory *)
Module MemCA.
Abbreviation bytes := (list Byte.byte).
Definition files : Type := gmap string bytes.

#[export] Instance mem_ca : CAHost files bytes bytes := {|
  ca_generateKey w := (Good [Byte.x07], w);
  ca_serial w := (Good 5, w);
  ca_now w := 0;
  ca_create t p k1 k2 w := (Good (text_bytes (t_commonName t)), w);
  ca_parseCert b := Good b;
  ca_raw c := c;
  ca_pemEncode typ b := (if bool_decide (typ = "CERTIFICATE") then Byte.x01 else Byte.x02) :: b;
  ca_pemDecode b := match b with
                    | Byte.x01 :: b => Some ("CERTIFICATE", b)
                    | Byte.x02 :: b => Some ("RSA PRIVATE KEY", b)
                    | _ => None
                    end;
  ca_marshalPKCS1 k := k;
  ca_parsePKCS1 b := Good b;
  ca_parsePKCS8 b := Good None;
  ca_userConfigDir w := Good "/home/u/.config";
  ca_tempDir w := "/tmp";
  ca_mkdirAll d m w := (None, w);
  ca_exists p w := bool_decide (is_Some (w !! p));
  ca_readFile p w := match w !! p with Some b => Good b | None => Bad "no such file" end;
  ca_writeFile p b m w := (None, <[p := b]> w)
|}.

#[export] Instance mem_ca_laws : CALaws files bytes bytes.
Proof.
  refine {| is_dir := λ _ _, True |}; try done.
  - by intros typ b [-> | ->].
  - intros p b m w w' [= <-]. cbn [ca_readFile ca_exists mem_ca]. unfold files in *.
    rewrite (lookup_insert_eq w p b). split_and!; try done.
    intros q Hq. by rewrite (lookup_insert_ne w p q b).
Defined.
End MemCA.

Section demo.
Import MemCA.
#[local] Existing Instance ascii_tables.

Definition first_ca : mitmCA bytes bytes :=
  {| certPath := "/home/u/.config/klitka/mitm/ca.crt"; keyPath := "/home/u/.config/klitka/mitm/ca.key";
     ca_cert := text_bytes "klitka-mitm-ca"; ca_key := [Byte.x07]; ca_cache := ∅ |}.
Definition first_files : files :=
  <["/home/u/.config/klitka/mitm/ca.key" := [Byte.x02; Byte.x07]]>
    {["/home/u/.config/klitka/mitm/ca.crt" := Byte.x01 :: text_bytes "klitka-mitm-ca"]}.

Lemma ca_survives_restart_witness : (loadOrCreateCA first_files).1 = Good first_ca.
Proof.
  apply (ca_survives_restart (∅ : files) first_files first_files first_ca).
  - vm_compute. reflexivity.
  - apply same_files_refl.
Defined.

Definition demo_ca : mitmCA bytes bytes :=
  {| certPath := "/ca.crt"; keyPath := "/ca.key"; ca_cert := [Byte.x01]; ca_key := [Byte.x02];
     ca_cache := ∅ |}.

Lemma certificates_for_hosts_witness :
  length (serve_hosts ["Example.com."; "example.com"] demo_ca (∅ : files)).1.1 = 2%nat.
Proof. apply (certificates_for_hosts ["Example.com."; "example.com"] demo_ca). reflexivity. Defined.
End demo.
