(* ===== verification/CAConcurrent.v ===== *)
(** * The certificate authority under concurrent calls

    Every VM with secrets calls [loadOrCreateCA] in its own StartVM, and every
    intercepted connection of a VM calls [certificateForHost] in a goroutine of its
    own: here each call to the operating system and each critical section is an
    action of its own ([Goroutines]).  Run alone the calls are those of
    [CertAuthority].  Once there is an authority all later calls share it
    ([authority_shared]), and the managers of a daemon's VMs with secrets all have it
    ([managers_share_authority]); certificates are for their hosts however the connections
    interleave ([certificates_shared]); the first calls of all may make two
    authorities ([first_authorities_race]). *)
From Stdlib Require Import Ascii.
From S2P Require Export Goroutines SecretsProps ServiceCalls CertAuthorityProps MemVM.
From stdpp Require Import relations.

Section code.
Context `{UT : UnicodeTables} `{CA : CAHost W K C}.

(** ** The authority *)
Definition createCA_calls (certPath keyPath : string) : acts W (osres ca_error (mitmCA K C)) :=
  k ← atomic ca_generateKey;
  try key := k catch t => mret (Bad (CAFailed t)) in
  n ← atomic ca_serial;
  try serial := n catch t => mret (Bad (CAFailed t)) in
  now ← atomic (hread ca_now);
  d ← atomic (ca_create (ca_template serial now) None key key);
  try der := d catch t => mret (Bad (CAFailed t)) in
  let certPEM := ca_pemEncode "CERTIFICATE" der in
  let keyPEM := ca_pemEncode "RSA PRIVATE KEY" (ca_marshalPKCS1 key) in
  e ← atomic (ca_writeFile certPath certPEM 420);
  match e with Some t => mret (Bad (CAFailed t)) | None =>
  e ← atomic (ca_writeFile keyPath keyPEM 384);
  match e with Some t => mret (Bad (CAFailed t)) | None =>
  try cert := ca_parseCert der catch t => mret (Bad (CAFailed t)) in
  mret (Good {| certPath := certPath; keyPath := keyPath; ca_cert := cert; ca_key := key;
                ca_cache := ∅ |})
  end end.

Definition loadCA_calls (certPath keyPath : string) : acts W (osres ca_error (mitmCA K C)) :=
  c ← atomic (readCertificate certPath);
  try cert := c catch e => mret (Bad e) in
  k ← atomic (readPrivateKey keyPath);
  try key := k catch e => mret (Bad e) in
  mret (Good {| certPath := certPath; keyPath := keyPath; ca_cert := cert; ca_key := key;
                ca_cache := ∅ |}).

Definition loadOrCreateCA_calls : acts W (osres ca_error (mitmCA K C)) :=
  dir ← atomic mitmDir;
  e ← atomic (ca_mkdirAll dir 448);
  match e with Some t => mret (Bad (CAFailed t)) | None =>
  let certPath := PathJoin [dir; "ca.crt"] in
  let keyPath := PathJoin [dir; "ca.key"] in
  c ← atomic (hread (ca_exists certPath));
  both ← (if c : bool then atomic (hread (ca_exists keyPath)) else mret false);
  if (both : bool) then loadCA_calls certPath keyPath else createCA_calls certPath keyPath
  end.

(** ** Certificates: the authority's cache is shared *)
Definition on_world {A} (m : CAM W A) : acts (W * gmap string (tlsCertificate K)) A :=
  atomic (λ s, let '(a, w) := m s.1 in (a, (w, s.2))).

Definition issue_calls (ca : mitmCA K C) (normalized : string)
    : acts (W * gmap string (tlsCertificate K)) (osres ca_error (tlsCertificate K)) :=
  n ← on_world ca_serial;
  try serial := n catch t => mret (Bad (CAFailed t)) in
  now ← on_world (hread ca_now);
  k ← on_world ca_generateKey;
  try key := k catch t => mret (Bad (CAFailed t)) in
  d ← on_world (ca_create (host_template serial now normalized) (Some (ca_cert ca)) key (ca_key ca));
  try der := d catch t => mret (Bad (CAFailed t)) in
  mret (Good {| tc_chain := [der; ca_raw (ca_cert ca)]; tc_key := key |}).

Definition certificateForHost_calls (ca : option (mitmCA K C)) (host : string)
    : acts (W * gmap string (tlsCertificate K)) (osres ca_error (tlsCertificate K)) :=
  match ca with
  | None => mret (Bad CANil)
  | Some ca =>
      let normalized := normalizeHost host in
      cached ← atomic (λ s, (s.2 !! normalized, s));
      match cached with
      | Some cert => mret (Good cert)
      | None =>
          r ← issue_calls ca normalized;
          match r with
          | Bad e => mret (Bad e)
          | Good cert =>
              _ ← atomic (λ s, ((), (s.1, <[normalized := cert]> s.2)));
              mret (Good cert)
          end
      end
  end.

(** ** Run alone *)
#[local] Arguments readCertificate : simpl never.
#[local] Arguments readPrivateKey : simpl never.
#[local] Arguments mitmDir : simpl never.
Ltac alone := repeat (cbn; match goal with
  | |- context [ca_generateKey ?w] => destruct (ca_generateKey w) as [[?|?] ?]
  | |- context [ca_serial ?w] => destruct (ca_serial w) as [[?|?] ?]
  | |- context [ca_create ?t ?p ?a ?b ?w] => destruct (ca_create t p a b w) as [[?|?] ?]
  | |- context [ca_writeFile ?p ?b ?m ?w] => destruct (ca_writeFile p b m w) as [[?|] ?]
  | |- context [ca_mkdirAll ?d ?m ?w] => destruct (ca_mkdirAll d m w) as [[?|] ?]
  end); cbn; try done.

Lemma createCA_alone cp kp w : run_alone (createCA_calls cp kp) w = createCA cp kp w.
Proof.
  unfold createCA_calls, createCA, mbind, CAM_mbind, hread, mret, CAM_mret. alone.
  all: destruct (ca_parseCert _); reflexivity.
Qed.
Lemma loadCA_alone cp kp w : run_alone (loadCA_calls cp kp) w = loadCA cp kp w.
Proof.
  unfold loadCA_calls, loadCA, mbind, CAM_mbind. cbn.
  destruct (readCertificate cp w) as [[cert|e] w1]; [|done]. cbn.
  destruct (readPrivateKey kp w1) as [[key|e] w2]; reflexivity.
Qed.
Lemma CAM_bind_run {A B} (m : CAM W A) (k : A → CAM W B) w : (m ≫= k) w = k (m w).1 (m w).2.
Proof. unfold mbind, CAM_mbind. by destruct (m w). Qed.

Lemma loadOrCreateCA_alone w : run_alone loadOrCreateCA_calls w = loadOrCreateCA w.
Proof.
  unfold loadOrCreateCA_calls, loadOrCreateCA. rewrite run_alone_bind, run_alone_atomic, CAM_bind_run.
  rewrite run_alone_bind, run_alone_atomic, CAM_bind_run.
  destruct (ca_mkdirAll _ _ _) as [[t|] w2]; [done|]. cbn [fst snd].
  rewrite run_alone_bind, run_alone_atomic, CAM_bind_run, run_alone_bind. unfold hread. cbn [fst snd].
  destruct (ca_exists _ w2); [|apply createCA_alone].
  rewrite run_alone_atomic. cbn [fst snd andb].
  destruct (ca_exists _ w2); [apply loadCA_alone|apply createCA_alone].
Qed.

Lemma certificate_alone ca host w :
  run_alone (certificateForHost_calls (Some ca) host) (w, ca_cache ca)
  = let '((r, ca'), w') := certificateForHost (Some ca) host w in
    (r, (w', from_option ca_cache ∅ ca')).
Proof.
  unfold certificateForHost_calls, certificateForHost. rewrite run_alone_bind, run_alone_atomic. cbn [fst snd].
  destruct (ca_cache ca !! normalizeHost host); [done|].
  unfold issue_calls, issue, on_world, mbind, CAM_mbind, hread, mret, CAM_mret. alone.
Qed.
End code.

(** ** One authority *)
Section authority.
Context `{UT : UnicodeTables} `{CL : CALaws W K C}.
#[local] Arguments readCertificate : simpl never.
#[local] Arguments readPrivateKey : simpl never.

Lemma loadOrCreateCA_keeps dir ca :
  ca_cache ca = ∅ → keeps (settled dir ca) (eq (Good ca)) loadOrCreateCA_calls.
Proof.
  intros Hcache. unfold loadOrCreateCA_calls.
  apply (keeps_bind _ (eq dir)).
  { apply keeps_atomic. intros w Hw. split; [exact Hw|]. symmetry. apply Hw. }
  intros ? <-. apply (keeps_bind _ (eq None)).
  { apply keeps_atomic. intros w Hw. destruct (law_mkdir_again dir 448 w) as [H1 H2]; [apply Hw|].
    split; [by eapply settled_same|done]. }
  intros ? <-. cbv zeta. apply (keeps_bind _ (eq true)).
  { apply keeps_atomic. intros w Hw. split; [done|]. unfold hread. cbn [fst]. rewrite <-(se_cert _ _ _ Hw).
    symmetry. apply (se_stored _ _ _ Hw). }
  intros ? <-. apply (keeps_bind _ (eq true)).
  { apply keeps_atomic. intros w Hw. split; [done|]. unfold hread. cbn [fst]. rewrite <-(se_key _ _ _ Hw).
    symmetry. apply (se_stored _ _ _ Hw). }
  intros ? <-. unfold loadCA_calls. apply (keeps_bind _ (eq (Good (ca_cert ca)))).
  { apply keeps_atomic. intros w Hw. destruct (se_stored _ _ _ Hw) as (_ & _ & H & _).
    rewrite <-(se_cert _ _ _ Hw), H. by split. }
  intros ? <-. apply (keeps_bind _ (λ r, r = Good (ca_key ca) ∧ certPath ca = PathJoin [dir; "ca.crt"]
                                         ∧ keyPath ca = PathJoin [dir; "ca.key"])).
  { apply keeps_atomic. intros w Hw. destruct (se_stored _ _ _ Hw) as (_ & _ & _ & H).
    rewrite <-(se_cert _ _ _ Hw), <-(se_key _ _ _ Hw), H. by split. }
  intros ? (-> & <- & <-). destruct ca. cbn in *. by subst.
Qed.

Lemma keeps_alone {St A} (I : St → Prop) (Q : A → Prop) (m : acts St A) s :
  keeps I Q m → I s → I (run_alone m s).2 ∧ Q (run_alone m s).1.
Proof.
  revert s. induction m as [a|f k IH]; intros s Hm Hs; [by split|].
  destruct (Hm s Hs) as [H1 H2]. by apply (IH s).
Qed.
Lemma loadOrCreateCA_settled dir ca w :
  ca_cache ca = ∅ → settled dir ca w →
  (loadOrCreateCA w).1 = Good ca ∧ settled dir ca (loadOrCreateCA w).2.
Proof.
  intros Hc Hw. rewrite <-loadOrCreateCA_alone.
  by destruct (keeps_alone _ _ _ w (loadOrCreateCA_keeps dir ca Hc) Hw).
Qed.

(** At most ten actions. *)
Lemma loadOrCreateCA_within : within 10 loadOrCreateCA_calls.
Proof.
  unfold loadOrCreateCA_calls, createCA_calls, loadCA_calls.
  repeat first
    [ progress intros
    | progress cbv zeta
    | match goal with
      | |- within _ (match ?x with _ => _ end) => destruct x
      | |- within (S ?n) (_ ≫= _) => apply (within_bind 1 n); [first [apply within_atomic|by case_match]|]
      end
    | exact I ].
Qed.
(** C20: when its first call ran alone, all VMs of a daemon, and of the daemons after
    it, intercept with one certificate authority: take a call of loadOrCreateCA that
    ran from its start to its end while no other call did, and returned an authority,
    and after it any number of calls, running at the same time, each of their calls to the
    operating system at any moment, with any steps of others that leave the files
    alone. Every call that returns returns that certificate, that key and those
    paths, the two files go on holding them, and a call that is given ten turns
    returns. First calls that run at the same time are not covered: they may return
    different authorities (finding first_authorities_race). (PEM and PKCS #1 decode what they encoded, and the file system keeps
    what it is given.) *)
Theorem authority_shared n w w1 ca ts w2 :
  loadOrCreateCA w = (Good ca, w1) →
  rtc (gstep same_files) (replicate n loadOrCreateCA_calls, w1) (ts, w2) →
  stored ca w2
  ∧ (∀ i r, ts !! i = Some (Finished r) → r = Good ca)
  ∧ ∀ i js, (i < n)%nat → (10 ≤ length (filter (eq i) js))%nat →
      (turns js (replicate n loadOrCreateCA_calls, w1)).1 !! i = Some (Finished (Good ca)).
Proof.
  intros Hload Hrun. destruct (load_settled _ _ _ Hload) as [Hcache Hset].
  set (dir := (mitmDir w).1) in *.
  assert (Hall : ∀ ts' w', rtc (gstep same_files) (replicate n loadOrCreateCA_calls, w1) (ts', w') →
    settled dir ca w' ∧ ∀ i r, ts' !! i = Some (Finished r) → r = Good ca).
  { intros ts' w' H. destruct (keeps_run _ (settled dir ca) (replicate n (eq (Good ca))) _ _ _ _
      (settled_same dir ca) Hset (Forall2_replicate _ n _ _ (loadOrCreateCA_keeps dir ca Hcache)) H) as [H1 H2].
    split; [done|]. intros i r Hi. destruct (keeps_finished _ _ _ _ _ H2 Hi) as (Q & HQ & Hr).
    by apply lookup_replicate in HQ as [-> _]. }
  destruct (Hall _ _ Hrun) as [H1 H2]. split; [apply H1|]. split; [done|]. intros i js Hi Hn.
  destruct (turns_finish i 10 js (replicate n loadOrCreateCA_calls) w1 loadOrCreateCA_calls) as [r Hr];
    [by apply lookup_replicate|apply loadOrCreateCA_within|done|].
  pose proof (turns_run same_files js (replicate n loadOrCreateCA_calls, w1)) as Hjs.
  destruct (turns js _) as [ts' w']. destruct (Hall _ _ Hjs) as [_ H3]. by rewrite Hr, (H3 _ _ Hr).
Qed.
End authority.

(** ** Certificates *)
Section certificates.
Context `{UT : UnicodeTables} `{CA : CAHost W K C}.
Implicit Types ca : mitmCA K C.

(** The steps of others: they leave the cache alone. *)
Definition same_cache (s s' : W * gmap string (tlsCertificate K)) : Prop := s'.2 = s.2.

(** A kept certificate is for the host it is kept under, which was asked for. *)
Definition kept_for ca (hosts : list string) (host : string) (c : tlsCertificate K) : Prop :=
  issued_for (ca_cert ca) (ca_key ca) host c
  ∧ ∃ asked, asked ∈ hosts ∧ host = TrimSuffix (ToLower (TrimSpace asked)) ".".
Definition cache_for ca hosts (s : W * gmap string (tlsCertificate K)) : Prop :=
  map_Forall (kept_for ca hosts) s.2.

Lemma keeps_on_world {A} ca hosts (Q : A → Prop) (m : CAM W A) :
  (∀ w, Q (m w).1) → keeps (cache_for ca hosts) Q (on_world m).
Proof.
  intros H. apply keeps_atomic. intros [w cache] Hs. cbn. specialize (H w). by destruct (m w).
Qed.

Lemma issue_keeps ca hosts host :
  keeps (cache_for ca hosts) (λ r, ∀ c, r = Good c → issued_for (ca_cert ca) (ca_key ca) host c) (issue_calls ca host).
Proof.
  unfold issue_calls. apply (keeps_bind _ (λ _, True)); [by apply keeps_on_world|]. intros [serial|e] _; [|done].
  apply (keeps_bind _ (λ now, ∃ w, now = ca_now w)); [apply keeps_on_world; intros w; by exists w|]. intros now [w ->].
  apply (keeps_bind _ (λ _, True)); [by apply keeps_on_world|]. intros [key|e] _; [|done].
  set (t := host_template serial (ca_now w) host).
  apply (keeps_bind _ (λ d, ∃ w', d = (ca_create t (Some (ca_cert ca)) key (ca_key ca) w').1)).
  { apply keeps_on_world. intros w'. by exists w'. }
  intros [der|e] [w' Hw]; [|done]. intros c [= <-]. exists t, der, w, w'. split; [apply host_template_leaf|].
  by split; [symmetry|].
Qed.

Lemma certificateForHost_keeps ca hosts host :
  host ∈ hosts →
  keeps (cache_for ca hosts) (λ r, ∀ c, r = Good c → issued_for (ca_cert ca) (ca_key ca) (normalizeHost host) c)
    (certificateForHost_calls (Some ca) host).
Proof.
  intros Hin. unfold certificateForHost_calls. cbv zeta.
  apply (keeps_bind _ (λ r, ∀ c, r = Some c → issued_for (ca_cert ca) (ca_key ca) (normalizeHost host) c)).
  { apply keeps_atomic. intros [w cache] Hs. split; [done|]. intros c Hc. by apply (Hs _ _ Hc). }
  intros [c|] Hc; [intros c' [= <-]; by apply Hc|].
  eapply keeps_bind; [apply issue_keeps|]. intros [c|e] Hr; [|done].
  apply (keeps_bind _ (λ _, True)); [|intros _ _ c' [= <-]; by apply Hr].
  apply keeps_atomic. intros [w cache] Hs. split; [|done].
  apply map_Forall_insert_2; [|done]. split; [by apply Hr|]. by exists host.
Qed.

Lemma certificateForHost_within ca host : within 6 (certificateForHost_calls (Some ca) host).
Proof.
  unfold certificateForHost_calls, issue_calls, on_world. cbv zeta.
  apply (within_bind 1 5); [apply within_atomic|]. intros [c|]; [done|].
  apply (within_bind 4 1); [|intros []; [apply (within_bind 1 0); [apply within_atomic|done]|done]].
  repeat first
    [ progress intros
    | match goal with
      | |- within _ (match ?x with _ => _ end) => destruct x
      | |- within (S ?n) (_ ≫= _) => apply (within_bind 1 n); [apply within_atomic|]
      end
    | exact I ].
Qed.

(** C36: the certificates of intercepted connections: however the goroutines of the
    connections of a proxy interleave, each call to the operating system and each
    critical section at any moment, a certificate that certificateForHost returns was
    signed with the authority's key for exactly the host that was asked for, lowered
    and without surrounding space and a final dot: it names that host, or that address
    if it is one, and nothing else, is a server's and not an authority's, and is valid
    from an hour before it was made, for 825 days; its chain ends in the authority's
    certificate. Every certificate that is kept is one of the host it is kept under,
    in that form, and that host was asked for. And a call that is given six turns
    returns. *)
Theorem certificates_shared ca hosts w ts w' cache :
  rtc (gstep same_cache) (certificateForHost_calls (Some ca) <$> hosts, (w, ∅)) (ts, (w', cache)) →
  (∀ i host c, hosts !! i = Some host → ts !! i = Some (Finished (Good c)) →
     issued_for (ca_cert ca) (ca_key ca) (TrimSuffix (ToLower (TrimSpace host)) ".") c)
  ∧ (∀ host c, cache !! host = Some c →
       issued_for (ca_cert ca) (ca_key ca) host c
       ∧ ∃ asked, asked ∈ hosts ∧ host = TrimSuffix (ToLower (TrimSpace asked)) ".")
  ∧ ∀ i js, (i < length hosts)%nat → (6 ≤ length (filter (eq i) js))%nat →
      ∃ r, (turns js (certificateForHost_calls (Some ca) <$> hosts, (w, ∅))).1 !! i = Some (Finished r).
Proof.
  intros Hrun.
  set (Qs := (λ host (r : osres ca_error (tlsCertificate K)), ∀ c, r = Good c → issued_for (ca_cert ca) (ca_key ca) (normalizeHost host) c) <$> hosts).
  assert (HQs : Forall2 (keeps (cache_for ca hosts)) Qs (certificateForHost_calls (Some ca) <$> hosts)).
  { apply Forall2_fmap_2, Forall_Forall2_diag, Forall_forall. intros host. apply certificateForHost_keeps. }
  assert (Henv : ∀ s1 s2, same_cache s1 s2 → cache_for ca hosts s1 → cache_for ca hosts s2).
  { unfold same_cache, cache_for. by intros s1 s2 ->. }
  destruct (keeps_run same_cache (cache_for ca hosts) Qs _ _ _ _ Henv (map_Forall_empty _) HQs Hrun) as [H1 H2].
  split_and!; [|exact H1|].
  - intros i host c Hi Hf. destruct (keeps_finished _ _ _ _ _ H2 Hf) as (Q & HQ & Hr).
    unfold Qs in HQ. rewrite list_lookup_fmap, Hi in HQ. injection HQ as <-. by apply Hr.
  - intros i js [host Hi]%lookup_lt_is_Some Hn.
    eapply turns_finish; [by rewrite list_lookup_fmap, Hi|apply certificateForHost_within|done].
Qed.
End certificates.

(** ** The daemon's network managers

    The service with this authority behind its proxies: [loadOrCreateCA] is the
    function that [newProxyServer] calls. *)
Section daemon.
Context `{UT : UnicodeTables} `{base : VMHost W} `{CL : CALaws Cw K C} (text : ca_error → string).

Definition beside_ca {A} (f : W → A * W) (d : W * Cw) : A * (W * Cw) :=
  let '(a, w) := f d.1 in (a, (w, d.2)).
Definition ca_hook (d : W * Cw) : osres string string * (W * Cw) :=
  let '(r, c) := loadOrCreateCA d.2 in
  (match r with Good ca => Good (CertPath (Some ca)) | Bad e => Bad (text e) end, (d.1, c)).

#[local] Instance mitm_host : VMHost (W * Cw) := {|
  h_listen := beside_ca h_listen;
  h_listen_close := beside_ca h_listen_close;
  h_loadOrCreateCA := ca_hook;
  h_random := beside_ca h_random;
  h_strictPrepare := beside_ca h_strictPrepare;
  h_strictFactory id port := beside_ca (h_strictFactory id port);
  h_strictClose anchor := beside_ca (h_strictClose anchor);
  h_getenv k d := h_getenv k d.1;
  h_vmBackend id req env n := beside_ca (h_vmBackend id req env n);
  h_hostBackend id req env := beside_ca (h_hostBackend id req env);
  h_backendClose id := beside_ca (h_backendClose id);
  h_backendExec id c args := beside_ca (h_backendExec id c args);
  h_backendExecStream id st := beside_ca (h_backendExecStream id st)
|}.

Implicit Types (s : service (W * Cw)) (ca : mitmCA K C).

(** A VM started for [req] trusts [ca] if the request has secrets. *)
Definition trusts ca (req : StartVMRequest) (network : option networkManager) : Prop :=
  match network with
  | Some m => nm_caCertPath m = if bool_decide (Secrets req = []) then "" else certPath ca
  | None => Secrets req = []
  end.
Definition vm_trusts ca (calls : list svc_call) (id : string) (vm : VM) : Prop :=
  ∃ req, SvcStart id req ∈ calls ∧ trusts ca req (vm_Network vm).
Definition daemon_trusts (dir : string) ca calls s : Prop :=
  settled dir ca (host s).2 ∧ map_Forall (vm_trusts ca calls) (vms s).

(** What leaves the table and the files of the authority alone. *)
Definition same_ca s s' : Prop := vms s' = vms s ∧ same_files (host s).2 (host s').2.

Lemma daemon_trusts_same dir ca calls s s' :
  same_ca s s' → daemon_trusts dir ca calls s → daemon_trusts dir ca calls s'.
Proof. intros [Hv Hf] [H1 H2]. split; [by eapply settled_same|]. by rewrite Hv. Qed.

Definition ca_quiet {A} (m : M (W * Cw) A) : Prop := ∀ s, same_ca s (m s).2.
Lemma ca_quiet_bind {A B} (m : M (W * Cw) A) (g : A → M (W * Cw) B) :
  ca_quiet m → (∀ a, ca_quiet (g a)) → ca_quiet (@mbind (M (W * Cw)) M_mbind A B g m).
Proof.
  intros Hm Hg s. unfold mbind, M_mbind. destruct (m s) as [a s1] eqn:E.
  pose proof (Hm s) as [H1 H2]. pose proof (Hg a s1) as [H3 H4]. rewrite E in *. cbn [snd] in *.
  split; [exact (eq_trans H3 H1)|exact (same_files_trans _ _ _ H2 H4)].
Qed.
Lemma ca_quiet_ret {A} (a : A) : ca_quiet (@mret (M (W * Cw)) M_mret A a).
Proof. intros s. split; [done|apply same_files_refl]. Qed.
Lemma ca_quiet_ev e : ca_quiet (ev e).
Proof. intros s. split; [done|apply same_files_refl]. Qed.
Lemma ca_quiet_set_closed id e : ca_quiet (set_closed id e).
Proof. intros s. split; [done|apply same_files_refl]. Qed.
Lemma ca_quiet_read {A} (f : service (W * Cw) → A) : ca_quiet (λ s, (f s, s)).
Proof. intros s. split; [done|apply same_files_refl]. Qed.
Lemma ca_quiet_beside {A} (f : W → A * W) : ca_quiet (act (beside_ca f)).
Proof.
  intros s. unfold act, beside_ca. destruct (host s) as [w c] eqn:E. cbn [fst snd].
  destruct (f w) as [a w']. split; [done|]. cbn. rewrite E. apply same_files_refl.
Qed.
#[local] Hint Resolve ca_quiet_bind ca_quiet_ret ca_quiet_ev ca_quiet_set_closed ca_quiet_read ca_quiet_beside : klitka.

Lemma ca_quiet_listen id : ca_quiet (listen_proxy id).
Proof. apply ca_quiet_bind; [apply ca_quiet_beside|]. intros []; eauto with klitka. Qed.
Lemma ca_quiet_proxy_Close id : ca_quiet (proxy_Close id).
Proof. apply ca_quiet_bind; [apply ca_quiet_ev|]. intros. apply ca_quiet_beside. Qed.
Lemma ca_quiet_open_strict id port : ca_quiet (open_strict id port).
Proof. apply ca_quiet_bind; [apply ca_quiet_beside|]. intros [[]|]; eauto with klitka. Qed.
Lemma ca_quiet_close_strict id a : ca_quiet (close_strict id a).
Proof. apply ca_quiet_bind; [apply ca_quiet_ev|]. intros. apply ca_quiet_beside. Qed.
Lemma ca_quiet_start_backend id (f : W → osres backend_error () * W) : ca_quiet (start_backend id (beside_ca f)).
Proof. apply ca_quiet_bind; [apply ca_quiet_beside|]. intros []; eauto with klitka. Qed.
Lemma ca_quiet_close_backend id : ca_quiet (close_backend_of id).
Proof. apply ca_quiet_bind; [apply ca_quiet_ev|]. intros. apply ca_quiet_beside. Qed.
Lemma ca_quiet_mode : ca_quiet backendModeFromEnv.
Proof. apply ca_quiet_bind; [apply ca_quiet_read|]. intros. apply ca_quiet_ret. Qed.
#[local] Hint Resolve ca_quiet_listen ca_quiet_proxy_Close ca_quiet_open_strict ca_quiet_close_strict
  ca_quiet_start_backend ca_quiet_close_backend ca_quiet_mode : klitka.

(** *** The handlers *)
Section keep.
Context (dir : string) (ca : mitmCA K C) (calls : list svc_call) (Hcache : ca_cache ca = ∅).
Abbreviation I := (daemon_trusts dir ca calls).

Lemma keeps_quiet {A B} (m : M (W * Cw) A) (g : A → acts (service (W * Cw)) B) Q :
  ca_quiet m → (∀ a, keeps I Q (g a)) → keeps I Q (atomic m ≫= g).
Proof.
  intros Hm Hg. apply (keeps_bind _ (λ _, True)); [|by intros a _].
  apply keeps_atomic. intros s Hs. split; [|done]. by eapply daemon_trusts_same.
Qed.
Lemma keeps_any {A} (m : M (W * Cw) A) : ca_quiet m → keeps I (λ _, True) (atomic m).
Proof. intros Hm. apply keeps_atomic. intros s Hs. split; [|done]. by eapply daemon_trusts_same. Qed.

(** Each call of the hook returns the authority there is. *)
Lemma keeps_hook : keeps I (eq (Good (certPath ca))) (atomic (act h_loadOrCreateCA)).
Proof.
  apply keeps_atomic. intros s [Hs Hv]. unfold act. cbn [h_loadOrCreateCA mitm_host]. unfold ca_hook.
  pose proof (loadOrCreateCA_settled dir ca (host s).2 Hcache Hs) as [H1 H2].
  destruct (loadOrCreateCA (host s).2) as [r c]. cbn in *. subst r. by split.
Qed.

Definition answers_ok {A B} (P : A → Prop) (r : osres B A) : Prop :=
  match r with Good a => P a | Bad _ => True end.

Lemma keeps_newProxyServer id policy secrets :
  keeps I (answers_ok (λ p, default "" p.2 = if bool_decide (secrets = []) then "" else certPath ca))
    (newProxyServer_calls id policy secrets).
Proof.
  apply keeps_quiet; [eauto with klitka|]. intros [port|e]; [|done]. case_bool_decide; [done|].
  eapply keeps_bind; [apply keeps_hook|]. by intros ? <-.
Qed.

Lemma keeps_start_strict id policy port : keeps I (λ _, True) (start_strict_calls id policy port).
Proof.
  unfold start_strict_calls. destruct (_ =? _)%Z; [|done].
  apply keeps_quiet; [apply ca_quiet_beside|]. intros [e|].
  - apply keeps_quiet; [eauto with klitka|done].
  - apply keeps_quiet; [eauto with klitka|]. intros [|e]; [done|].
    apply keeps_quiet; [eauto with klitka|done].
Qed.

Lemma buildSecrets_empty secrets rands specs env :
  buildSecrets secrets rands = Good (specs, env) → (specs = [] ↔ secrets = []).
Proof.
  intros H. apply buildSecrets_loop_spec in H as [H _].
  by destruct specs, secrets.
Qed.

Lemma keeps_newNetworkManager id req :
  keeps I (answers_ok (trusts ca req)) (newNetworkManager_calls id req).
Proof.
  unfold newNetworkManager_calls. destruct (buildNetworkPolicy _) as [policy|e]; [|done].
  destruct (validateNetworkPolicy policy); [done|].
  apply keeps_quiet; [apply ca_quiet_beside|]. intros rands.
  destruct (buildSecrets _ rands) as [[secrets senv]|e] eqn:Es; [|done].
  apply buildSecrets_empty in Es. destruct (negb _ && _) eqn:Ep.
  { apply andb_true_iff in Ep as [_ Hl%Nat.eqb_eq]. apply Es. by destruct secrets. }
  eapply keeps_bind; [apply keeps_newProxyServer|]. intros [[port path]|e] Hp; [|done].
  eapply keeps_bind; [apply keeps_start_strict|]. intros [strict|e] _; [|done].
  cbn in *. rewrite Hp. by rewrite (bool_decide_ext _ _ Es).
Qed.

Lemma keeps_manager_Close m : keeps I (λ _, True) (manager_Close_calls m).
Proof.
  apply keeps_quiet; [apply ca_quiet_read|]. intros [e|]; [done|].
  apply (keeps_bind _ (λ _, True)).
  { destruct (nm_strictTransport m); [apply keeps_any; eauto with klitka|done]. }
  intros e1 _. apply keeps_quiet; [eauto with klitka|]. intros e2.
  by apply keeps_quiet; [eauto with klitka|].
Qed.
Lemma keeps_abandon {Q} n e : Q (Bad e) → keeps I Q (abandon_calls n e).
Proof.
  intros HQ. apply (keeps_bind _ (λ _, True)); [|done]. destruct n; [apply keeps_manager_Close|done].
Qed.

Definition new_trusts id req (vm : VM) : Prop := vm_ID vm = id ∧ trusts ca req (vm_Network vm).
Lemma keeps_newVM_host id req env n :
  trusts ca req n → keeps I (answers_ok (new_trusts id req)) (newVM_host_calls id req env n).
Proof.
  intros Hn. apply keeps_quiet; [apply ca_quiet_start_backend|]. intros [[]|e]; [done|by apply keeps_abandon].
Qed.
Lemma keeps_newVM id req : keeps I (answers_ok (new_trusts id req)) (newVM_calls id req).
Proof.
  eapply keeps_bind; [apply keeps_newNetworkManager|]. intros [n|e] Hn; [|done]. cbv zeta.
  apply keeps_quiet; [eauto with klitka|]. intros mode. case_match; [by apply keeps_abandon|].
  case_match; [|by apply keeps_newVM_host].
  apply keeps_quiet; [apply ca_quiet_start_backend|]. intros [[]|e]; [done|].
  repeat case_match; first [by apply keeps_abandon|by apply keeps_newVM_host].
Qed.

Lemma keeps_serve c : c ∈ calls → keeps I (λ _, True) (serve_call c).
Proof.
  intros Hc. destruct c as [id req|id command args|[first|]|id]; cbn [serve_call].
  - apply (keeps_bind _ (λ _, True)); [|done].
    eapply keeps_bind; [apply keeps_newVM|]. intros [vm|e] Hvm; [|done].
    apply (keeps_bind _ (λ _, True)); [|done]. apply keeps_atomic. intros s [Hs Hv]. split; [|done].
    split; [done|]. destruct Hvm as [<- Ht]. apply map_Forall_insert_2; [by exists req|done].
  - unfold Exec_calls. case_bool_decide; [done|]. apply (keeps_bind _ (λ _, True)); [|done].
    apply keeps_quiet; [apply ca_quiet_read|]. intros [vm|]; [|done]. case_bool_decide; [done|].
    apply keeps_any, ca_quiet_beside.
  - destruct first as [start|]; [|done]. cbn [ExecStream_calls]. case_bool_decide; [done|].
    apply (keeps_bind _ (λ _, True)); [|done].
    apply keeps_quiet; [apply ca_quiet_read|]. intros [vm|]; [|done]. case_bool_decide; [done|].
    apply keeps_any, ca_quiet_beside.
  - done.
  - apply (keeps_bind _ (λ _, True)); [|done]. unfold StopVM_calls. case_bool_decide; [done|].
    apply (keeps_bind _ (λ _, True)).
    { apply keeps_atomic. intros s [Hs Hv]. split; [|done]. unfold take_vm.
      destruct (vms s !! id); [|done]. split; [done|]. by apply map_Forall_delete. }
    intros [vm|] _; [|done]. apply (keeps_bind _ (λ _, True)); [|done].
    apply keeps_quiet; [eauto with klitka|]. intros e. destruct (vm_Network vm); [|done].
    apply (keeps_bind _ (λ _, True)); [apply keeps_manager_Close|done].
Qed.
End keep.

(** All VMs of a daemon intercept with one authority: once there is one, whatever
    calls a daemon serves, interleaved action by action with each other and with
    steps of others that leave its table and the authority's files alone, each VM
    that it has was started by one of the calls; if that call asked for secrets the
    VM has a network manager, whose certificate path, which its guest is told, is the
    authority's; if not, no certificate; and the files go on holding the
    authority. *)
Lemma managers_share_authority c0 c1 ca w calls others ts s :
  loadOrCreateCA c0 = (Good ca, c1) →
  (∀ s1 s2, others s1 s2 → same_ca s1 s2) →
  rtc (gstep others) (serve_call <$> calls, NewService (w, c1)) (ts, s) →
  stored ca (host s).2
  ∧ ∀ id vm, vms s !! id = Some vm →
      ∃ req, SvcStart id req ∈ calls ∧
        if bool_decide (Secrets req = []) then ∀ m, vm_Network vm = Some m → nm_caCertPath m = ""
        else ∃ m, vm_Network vm = Some m ∧ nm_caCertPath m = certPath ca.
Proof.
  intros Hload Hothers Hrun. destruct (load_settled _ _ _ Hload) as [Hcache Hset].
  set (dir := (mitmDir c0).1) in *.
  assert (Hstart : daemon_trusts dir ca calls (NewService (w, c1))).
  { split; [exact Hset|apply map_Forall_empty]. }
  assert (Hcalls : Forall2 (keeps (daemon_trusts dir ca calls)) (replicate (length calls) (λ _, True))
                     (serve_call <$> calls)).
  { apply Forall2_same_length_lookup_2; [by rewrite length_replicate, length_fmap|].
    intros i Q m [-> _]%lookup_replicate (c & -> & Hc%list_elem_of_lookup_2)%list_lookup_fmap_Some.
    by apply keeps_serve. }
  destruct (keeps_run others _ _ _ _ _ _
    (λ s1 s2 H, daemon_trusts_same dir ca calls s1 s2 (Hothers s1 s2 H)) Hstart Hcalls Hrun) as [[Hs Hv] _].
  split; [apply Hs|]. intros id vm Hvm. destruct (Hv id vm Hvm) as (req & Hin & Ht).
  exists req. split; [done|]. unfold trusts in Ht. destruct (vm_Network vm) as [m|].
  - case_bool_decide; [by intros ? [= <-]|by exists m].
  - rewrite bool_decide_true by done. done.
Qed.
End daemon.

(** ** Runs *)
Section demo.
Import MemCA.
#[local] Existing Instance ascii_tables.

(** The machine after the first call. *)
Definition settled_files : files := (loadOrCreateCA (∅ : files)).2.

Lemma authority_shared_witness :
  loadOrCreateCA (∅ : files) = (Good first_ca, settled_files)
  ∧ (turns (replicate 10 0%nat ++ replicate 10 1%nat) (replicate 2 loadOrCreateCA_calls, settled_files)).1 !! 1%nat
    = Some (Finished (Good first_ca)).
Proof.
  assert (H1 : (loadOrCreateCA (∅ : files)).1 = Good first_ca) by (vm_compute; reflexivity).
  assert (H : loadOrCreateCA (∅ : files) = (Good first_ca, settled_files)).
  { unfold settled_files. rewrite <-H1. apply surjective_pairing. }
  split; [exact H|].
  destruct (authority_shared 2 (∅ : files) settled_files first_ca (replicate 2 loadOrCreateCA_calls) settled_files H
              (rtc_refl _ _)) as (_ & _ & Hturns).
  apply (Hturns 1%nat (replicate 10 0%nat ++ replicate 10 1%nat)); [lia|].
  by vm_compute.
Defined.

(** Two VMs of a daemon with that authority, their calls in turns: the first with
    secrets, the second without. *)
#[local] Instance demo_mitm : VMHost (machine * files) := mitm_host (λ _, "no authority").
Definition demo_starts : list svc_call :=
  [SvcStart "a" {| Mounts := []; Secrets := demo_request; Network := None |}; SvcStart "b" strict_request].
Definition demo_vms :=
  turns [0; 1; 0; 1; 0; 1; 0; 1; 0; 1; 0; 1; 0; 1]%nat
    (serve_call <$> demo_starts, NewService (("", true), settled_files)).

Example demo_vms_values :
  (λ vm, nm_caCertPath <$> vm_Network vm) <$> vms demo_vms.2
  = {["a" := Some "/home/u/.config/klitka/mitm/ca.crt"; "b" := Some ""]}.
Proof. by vm_compute. Qed.

Lemma managers_share_authority_demo :
  stored first_ca (host demo_vms.2).2
  ∧ ∃ vm m, vms demo_vms.2 !! "a" = Some vm ∧ vm_Network vm = Some m
      ∧ nm_caCertPath m = "/home/u/.config/klitka/mitm/ca.crt".
Proof.
  assert (H : loadOrCreateCA (∅ : files) = (Good first_ca, settled_files)).
  { apply injective_projections; [by vm_compute|done]. }
  destruct (managers_share_authority (λ _, "no authority") _ _ _ ("", true) demo_starts same_ca demo_vms.1 demo_vms.2
              H (λ _ _ h, h)) as [Hs Hv].
  { rewrite <-surjective_pairing. apply turns_run. }
  split; [done|].
  destruct (vms demo_vms.2 !! "a") as [vm|] eqn:Ev; [|by vm_compute in Ev]. exists vm.
  destruct (Hv _ _ Ev) as (req & [[= ->]|[[=]|[]%not_elem_of_nil]%elem_of_cons]%elem_of_cons & Hm).
  destruct Hm as (m & H1 & H2). exists m. split; [exact eq_refl|]. split; [exact H1|exact H2].
Qed.

(** Two connections to one host, both before its certificate is kept. *)
Definition two_connections :=
  turns [0; 1; 0; 1; 0; 1; 0; 1; 0; 1; 1; 0]%nat
    (certificateForHost_calls (Some demo_ca) <$> ["Example.com."; "example.com"], (∅ : files, ∅)).
Definition demo_certificate : tlsCertificate bytes :=
  {| tc_chain := [text_bytes "example.com"; [Byte.x01]]; tc_key := [Byte.x07] |}.

Lemma certificates_shared_witness :
  two_connections.1 !! 1%nat = Some (Finished (Good demo_certificate))
  ∧ issued_for (ca_cert demo_ca) (ca_key demo_ca) "example.com" demo_certificate.
Proof.
  assert (Hc : two_connections.1 !! 1%nat = Some (Finished (Good demo_certificate)))
    by (vm_compute; reflexivity).
  split; [exact Hc|].
  assert (Hrun : rtc (gstep same_cache)
    (certificateForHost_calls (Some demo_ca) <$> ["Example.com."; "example.com"], (∅ : files, ∅))
    (two_connections.1, (two_connections.2.1, two_connections.2.2))).
  { rewrite <-!surjective_pairing. apply turns_run. }
  destruct (certificates_shared demo_ca ["Example.com."; "example.com"] (∅ : files) _ _ _ Hrun) as [H _].
  pose proof (H 1%nat "example.com" demo_certificate eq_refl Hc) as Hi. by vm_compute (TrimSuffix _ _) in Hi.
Defined.

(** *** The first calls of all

    A machine whose keys are all different; a certificate holds the key it was made
    for. *)
#[local] Instance keys_ca : CAHost (files * list Byte.byte) bytes bytes := {|
  ca_generateKey w := match w.2 with
                      | b :: bs => (Good [b], (w.1, bs))
                      | [] => (Bad "no entropy", w)
                      end;
  ca_serial w := (Good 5%Z, w);
  ca_now w := 0%Z;
  ca_create t p k1 k2 w := (Good k1, w);
  ca_parseCert := ca_parseCert (CAHost := mem_ca);
  ca_raw := ca_raw (CAHost := mem_ca);
  ca_pemEncode := ca_pemEncode (CAHost := mem_ca);
  ca_pemDecode := ca_pemDecode (CAHost := mem_ca);
  ca_marshalPKCS1 := ca_marshalPKCS1 (CAHost := mem_ca);
  ca_parsePKCS1 := ca_parsePKCS1 (CAHost := mem_ca);
  ca_parsePKCS8 := ca_parsePKCS8 (CAHost := mem_ca);
  ca_userConfigDir w := ca_userConfigDir w.1;
  ca_tempDir w := ca_tempDir w.1;
  ca_mkdirAll d m w := (None, w);
  ca_exists p w := ca_exists p w.1;
  ca_readFile p w := ca_readFile p w.1;
  ca_writeFile p b m w := let '(e, f) := ca_writeFile p b m w.1 in (e, (f, w.2))
|}.

(** Call 0 writes the certificate, call 1 both files, call 0 the key. *)
Definition race : list nat := [0; 0; 0; 1; 1; 1; 0; 0; 0; 0; 1; 1; 1; 1; 0; 1; 1; 0]%nat.
Definition race_ends : list (acts _ (osres ca_error (mitmCA bytes bytes))) * (files * list Byte.byte) :=
  turns race (replicate 2 loadOrCreateCA_calls, (∅, [Byte.x0a; Byte.x0b])).
Definition made (r : option (acts (files * list Byte.byte) (osres ca_error (mitmCA bytes bytes))))
    : option (bytes * bytes) :=
  match r with Some (Finished (Good ca)) => Some (ca_cert ca, ca_key ca) | _ => None end.

(** Two VMs with secrets that are started at the same time on a machine without an
    authority: both calls succeed with an authority of their own, and the files
    hold the certificate of one and the key of the other, which every later call
    takes. *)
Lemma first_authorities_race :
  made (race_ends.1 !! 0%nat) = Some ([Byte.x0a], [Byte.x0a])
  ∧ made (race_ends.1 !! 1%nat) = Some ([Byte.x0b], [Byte.x0b])
  ∧ made (Some (Finished (loadOrCreateCA race_ends.2).1)) = Some ([Byte.x0b], [Byte.x0a]).
Proof. by vm_compute. Qed.
End demo.
