(* ===== verification/VMArgs.v ===== *)
(** * Starting a VM: file system backends, mounts and the command line

    [daemon/fs_backend.go] and the argument-building part of
    [daemon/vm_backend.go]; and, from [guest/image/init], how the guest reads
    the mounts back from its kernel command line.  The machine (environment,
    platform, files, programs) is a parameter. *)
From Stdlib Require Import Ascii.
From S2P Require Export GoPath Proto.

(** ** The machine *)
Class VMEnv := {
  e_getenv : string → string;
  e_goos : string;                           (* runtime.GOOS *)
  e_goarch : string;                         (* runtime.GOARCH *)
  e_open_kvm : bool;                         (* /dev/kvm opens for reading and writing *)
  e_geteuid : Z;
  e_stat : string → option bool;             (* os.Stat: whether a directory *)
  e_lookpath : string → bool;                (* exec.LookPath succeeds *)
  e_getwd : option string;
  e_executable : option string;
  e_start : string → list string → option string  (* cmd.Start: the error *)
}.

(** ** The file system backend *)
Inductive fsBackend := fsBackendAuto | fsBackendFSRPC | fsBackendVirtioFS.
#[export] Instance fsBackend_eq : EqDecision fsBackend.
Proof. solve_decision. Defined.

Inductive vm_setup_error :=
| InvalidFSBackend (raw : string)
| InvalidGuest (path : string)
| InvalidHost (path : string)
| HostNotFound (path : string)
| SetupUnavailable (message : string)   (* wraps ErrVMUnavailable *)
| StartVirtiofsd (text : string).

Section code.
Context `{UT : UnicodeTables} `{VE : VMEnv}.

Definition parseFSBackend (raw : string) : osres vm_setup_error fsBackend :=
  let value := TrimSpace (ToLower raw) in
  if bool_decide (value = "") then Good fsBackendAuto
  else if bool_decide (value = "auto") then Good fsBackendAuto
  else if bool_decide (value = "fsrpc") then Good fsBackendFSRPC
  else if bool_decide (value = "virtiofs") then Good fsBackendVirtioFS
  else Bad (InvalidFSBackend raw).

Definition fsBackendFromEnv : osres vm_setup_error fsBackend :=
  parseFSBackend (e_getenv "KLITKA_FS_BACKEND").

Definition resolveAutoFSBackend (goos : string) (ci virtiofsAvailable : bool) : fsBackend :=
  if ci then fsBackendFSRPC
  else if bool_decide (goos = "darwin") then fsBackendFSRPC
  else if bool_decide (goos = "linux") && virtiofsAvailable then fsBackendVirtioFS
  else fsBackendFSRPC.

Definition runningInCI : bool := negb (bool_decide (TrimSpace (e_getenv "CI") = "")).

Definition virtiofsdAvailable : bool :=
  let candidate := TrimSpace (e_getenv "KLITKA_VIRTIOFSD") in
  e_lookpath (if bool_decide (candidate = "") then "virtiofsd" else candidate).

Definition effectiveFSBackend (configured : fsBackend) : fsBackend :=
  if negb (bool_decide (configured = fsBackendAuto)) then configured
  else resolveAutoFSBackend e_goos runningInCI virtiofsdAvailable.

Definition fsrpcPortName (index : nat) : string := "virtio-fs-" +:+ Itoa (Z.of_nat index).

(** ** The machine type *)
Definition kvmAvailable : bool := bool_decide (e_goos = "linux") && e_open_kvm.

Definition selectMachineType : string :=
  let override := TrimSpace (e_getenv "KLITKA_QEMU_MACHINE") in
  if negb (bool_decide (override = "")) then override
  else if bool_decide (e_goarch = "arm64") then "virt"
  else if bool_decide (e_goos = "linux") && bool_decide (e_goarch = "amd64")
  then if kvmAvailable then "microvm" else "q35"
  else "q35".

Definition selectAccel : string :=
  if bool_decide (e_goos = "linux") then if kvmAvailable then "kvm" else "tcg"
  else if bool_decide (e_goos = "darwin") then "hvf" else "tcg".

Definition selectCPU : string :=
  if bool_decide (e_goos = "linux") then if kvmAvailable then "host" else "qemu64"
  else if bool_decide (e_goos = "darwin") then "host" else "max".

Definition isMmioMachine (machineType : string) : bool :=
  bool_decide (machineType = "microvm") || bool_decide (machineType = "virt").

Definition buildQemuNetdevArg : string := "user,id=net0".

Definition netDeviceArg (machineType : string) : string :=
  if isMmioMachine machineType then "virtio-net-device,netdev=net0" else "virtio-net-pci,netdev=net0".

Definition virtioSerialArgs (machineType : string) : string * string :=
  if isMmioMachine machineType
  then ("virtio-serial-device,id=virtio-serial0", "virtserialport,chardev=virtiocon0,name=virtio-port")
  else ("virtio-serial-pci,id=virtio-serial0",
        "virtserialport,chardev=virtiocon0,name=virtio-port,bus=virtio-serial0.0").

Definition virtioSerialPortArg (machineType chardevID name : string) : string :=
  if isMmioMachine machineType
  then "virtserialport,chardev=" +:+ chardevID +:+ ",name=" +:+ name
  else "virtserialport,chardev=" +:+ chardevID +:+ ",name=" +:+ name +:+ ",bus=virtio-serial0.0".

(** ** Mounts *)
Record vmMount := {
  v_tag : string;
  v_hostPath : string;
  v_guestPath : string;
  v_socketPath : string;
  v_mode : Z;
  v_rpc : bool;
  v_process : option (string * list string)   (* the program and its arguments *)
}.

Definition normalizeMountSpec (mount : Mount) : osres vm_setup_error (string * string * Z) :=
  let guestPath := Clean (GuestPath mount) in
  if bool_decide (guestPath = ".") || bool_decide (guestPath = "") || negb (IsAbs guestPath)
  then Bad (InvalidGuest (GuestPath mount)) else
  let hostPath := Clean (HostPath mount) in
  if bool_decide (hostPath = ".") || bool_decide (hostPath = "")
  then Bad (InvalidHost (HostPath mount)) else
  match e_stat hostPath with
  | None => Bad (HostNotFound hostPath)
  | Some _ =>
      Good (guestPath, hostPath,
            if Mount_Mode mount =? MountMode.UNSPECIFIED then MountMode.RO else Mount_Mode mount)
  end.

Definition mountModeString (mode : Z) : string := if mode =? MountMode.RO then "ro" else "rw".

(** The mounts, the QEMU arguments and the kernel arguments. *)
Definition prepared : Type := list vmMount * list string * list string.

(** The loop of [prepareFSRPCMounts], from index [idx]. *)
Fixpoint prepare_fsrpc (tempDir machineType : string) (idx : nat) (mounts : list Mount)
    : osres vm_setup_error prepared :=
  match mounts with
  | [] => Good ([], [], [])
  | mount :: mounts' =>
      match normalizeMountSpec mount with
      | Bad e => Bad e
      | Good (guestPath, hostPath, mode) =>
          let portName := fsrpcPortName idx in
          let socketPath := PathJoin [tempDir; "fsrpc-" +:+ Itoa (Z.of_nat idx) +:+ ".sock"] in
          let charDevID := "fsrpc" +:+ Itoa (Z.of_nat idx) in
          match prepare_fsrpc tempDir machineType (S idx) mounts' with
          | Bad e => Bad e
          | Good (out, qemuArgs, appendArgs) =>
              Good ({| v_tag := portName; v_hostPath := hostPath; v_guestPath := guestPath;
                       v_socketPath := socketPath; v_mode := mode; v_rpc := true;
                       v_process := None |} :: out,
                    ["-chardev"; "socket,id=" +:+ charDevID +:+ ",path=" +:+ socketPath
                                 +:+ ",server=on,wait=off";
                     "-device"; virtioSerialPortArg machineType charDevID portName] ++ qemuArgs,
                    ("klitka.fsrpc=" +:+ portName +:+ ":" +:+ guestPath +:+ ":"
                     +:+ mountModeString mode) :: appendArgs)
          end
      end
  end.
Definition prepareFSRPCMounts (mounts : list Mount) (tempDir machineType : string)
    : osres vm_setup_error prepared :=
  prepare_fsrpc tempDir machineType 0 mounts.

(** Processes started and killed while the mounts are prepared. *)
Inductive proc_event :=
| PStart (program : string) (args : list string)
| PKill (program : string) (args : list string).

Definition resolveVirtiofsdPath : osres vm_setup_error string :=
  let override := TrimSpace (e_getenv "KLITKA_VIRTIOFSD") in
  if negb (bool_decide (override = "")) then
    if e_lookpath override then Good override
    else Bad (SetupUnavailable ("virtiofsd not found: " +:+ override))
  else if e_lookpath "virtiofsd" then Good "virtiofsd"
  else Bad (SetupUnavailable "virtiofsd not found").

Definition virtiofsd_args (socketPath hostPath : string) (mode : Z) : list string :=
  ["--socket-path"; socketPath; "--shared-dir"; hostPath]
  ++ (if negb (e_geteuid =? 0) then ["--sandbox=none"] else [])
  ++ (if mode =? MountMode.RO then ["--readonly"] else []).

(** The loop of [prepareVirtioFSMounts]; [started] are the arguments of the
    processes started so far, for [cleanup]. *)
Fixpoint prepare_virtiofs (program tempDir machineType : string) (idx : nat)
    (started : list (list string)) (mounts : list Mount)
    : osres vm_setup_error prepared * list proc_event :=
  match mounts with
  | [] => (Good ([], [], []), [])
  | mount :: mounts' =>
      let cleanup := map (PKill program) started in
      match normalizeMountSpec mount with
      | Bad e => (Bad e, cleanup)
      | Good (guestPath, hostPath, mode) =>
          let n := Itoa (Z.of_nat idx) in
          let tag := "klitka" +:+ n in
          let socketPath := PathJoin [tempDir; "virtiofs-" +:+ n +:+ ".sock"] in
          let args := virtiofsd_args socketPath hostPath mode in
          match e_start program args with
          | Some text => (Bad (StartVirtiofsd text), cleanup)
          | None =>
              let fsDevice := if isMmioMachine machineType then "vhost-user-fs-device"
                              else "vhost-user-fs-pci" in
              let '(rest, evs) :=
                prepare_virtiofs program tempDir machineType (S idx) (started ++ [args]) mounts' in
              (match rest with
               | Bad e => Bad e
               | Good (out, qemuArgs, appendArgs) =>
                   Good ({| v_tag := tag; v_hostPath := hostPath; v_guestPath := guestPath;
                            v_socketPath := socketPath; v_mode := mode; v_rpc := false;
                            v_process := Some (program, args) |} :: out,
                         ["-chardev"; "socket,id=fs" +:+ n +:+ ",path=" +:+ socketPath;
                          "-device"; fsDevice +:+ ",chardev=fs" +:+ n +:+ ",tag=" +:+ tag] ++ qemuArgs,
                         ("klitka.mount=" +:+ tag +:+ ":" +:+ guestPath +:+ ":"
                          +:+ mountModeString mode) :: appendArgs)
               end, PStart program args :: evs)
          end
      end
  end.

Definition prepareVirtioFSMounts (mounts : list Mount) (tempDir machineType : string)
    : osres vm_setup_error prepared * list proc_event :=
  match resolveVirtiofsdPath with
  | Bad e => (Bad e, [])
  | Good program => prepare_virtiofs program tempDir machineType 0 [] mounts
  end.

Definition prepareVmMounts (mounts : list Mount) (tempDir machineType : string) (backend : fsBackend)
    : osres vm_setup_error prepared * list proc_event :=
  if (length mounts =? 0)%nat then (Good ([], [], []), [])
  else
    match effectiveFSBackend backend with
    | fsBackendVirtioFS => prepareVirtioFSMounts mounts tempDir machineType
    | fsBackendFSRPC => (prepareFSRPCMounts mounts tempDir machineType, [])
    | fsBackendAuto => (Bad (InvalidFSBackend "auto"), [])
    end.

(** ** The command line *)
Record guestAssets := { ga_kernel : string; ga_initrd : string; ga_append : string }.

Definition fileExists (path : string) : bool :=
  if bool_decide (path = "") then false
  else match e_stat path with Some isDir => negb isDir | None => false end.

Definition firstExistingPath (primary fallback : string) : string :=
  if fileExists primary then primary else if fileExists fallback then fallback else "".

Definition guest_candidates : list string :=
  match e_getwd with Some cwd => [PathJoin [cwd; "guest"; "image"; "out"]] | None => [] end
  ++ match e_executable with
     | Some exe =>
         let exeDir := Dir exe in
         [PathJoin [exeDir; ".."; "guest"; "image"; "out"];
          PathJoin [exeDir; ".."; "share"; "klitka"; "guest"];
          PathJoin [exeDir; "share"; "klitka"; "guest"]]
     | None => []
     end
  ++ [PathJoin ["/"; "usr"; "share"; "klitka"; "guest"]].

Fixpoint first_guest (candidates : list string) : string * string :=
  match candidates with
  | [] => ("", "")
  | base :: candidates' =>
      let kernel := PathJoin [base; "vmlinuz"] in
      let initrd := PathJoin [base; "initramfs.cpio.gz"] in
      if fileExists kernel && fileExists initrd then (kernel, initrd) else first_guest candidates'
  end.
Definition defaultGuestPaths : string * string := first_guest guest_candidates.

Definition defaultKernelAppend : string :=
  "console=" +:+ (if bool_decide (e_goarch = "arm64") then "ttyAMA0" else "ttyS0").

Definition resolveGuestAssets : osres vm_setup_error guestAssets :=
  let kernel := TrimSpace (e_getenv "KLITKA_GUEST_KERNEL") in
  let initrd := TrimSpace (e_getenv "KLITKA_GUEST_INITRD") in
  let append := TrimSpace (e_getenv "KLITKA_GUEST_APPEND") in
  let '(kernel, initrd) :=
    if bool_decide (kernel = "") || bool_decide (initrd = "")
    then let '(fallbackKernel, fallbackInitrd) := defaultGuestPaths in
         (firstExistingPath kernel fallbackKernel, firstExistingPath initrd fallbackInitrd)
    else (kernel, initrd) in
  if bool_decide (kernel = "") || bool_decide (initrd = "")
  then Bad (SetupUnavailable "set KLITKA_GUEST_KERNEL and KLITKA_GUEST_INITRD")
  else
    match e_stat kernel with
    | None => Bad (SetupUnavailable ("kernel not found: " +:+ kernel))
    | Some _ =>
        match e_stat initrd with
        | None => Bad (SetupUnavailable ("initrd not found: " +:+ initrd))
        | Some _ =>
            Good {| ga_kernel := kernel; ga_initrd := initrd;
                    ga_append := if bool_decide (append = "") then defaultKernelAppend else append |}
        end
    end.

(** Where what QEMU and virtiofsd write goes: [os.Stdout] or nowhere. *)
Inductive output_writer := ToStdout | Discard.
Definition qemuOutputWriter : output_writer :=
  if negb (bool_decide (TrimSpace (e_getenv "KLITKA_DEBUG_QEMU") = "")) then ToStdout else Discard.

Definition resolveQemuPath : osres vm_setup_error string :=
  let override := TrimSpace (e_getenv "KLITKA_QEMU") in
  if negb (bool_decide (override = "")) then
    if e_lookpath override then Good override
    else Bad (SetupUnavailable ("qemu not found: " +:+ override))
  else
    let candidate := if bool_decide (e_goarch = "arm64") then "qemu-system-aarch64"
                     else "qemu-system-x86_64" in
    if e_lookpath candidate then Good candidate
    else Bad (SetupUnavailable ("qemu not found: " +:+ candidate)).

Definition buildKernelAppend (base : string) (extras : list string) : string :=
  if (length extras =? 0)%nat then base
  else if bool_decide (base = "") then Join extras " "
  else TrimSpace (base +:+ " " +:+ Join extras " ").

Definition buildQemuArgs (assets : guestAssets) (socketPath appendArg : string)
    (mountArgs : list string) (machineType : string) : list string :=
  let '(serialDevice, serialPort) := virtioSerialArgs machineType in
  ["-nodefaults"; "-no-reboot"; "-m"; "1024M"; "-smp"; "2"; "-kernel"; ga_kernel assets;
   "-initrd"; ga_initrd assets; "-append"; appendArg; "-nographic"; "-serial"; "stdio"]
  ++ (if negb (bool_decide (machineType = "")) then ["-machine"; machineType] else [])
  ++ (if negb (bool_decide (selectAccel = "")) then ["-accel"; selectAccel] else [])
  ++ (if negb (bool_decide (selectCPU = "")) then ["-cpu"; selectCPU] else [])
  ++ ["-netdev"; buildQemuNetdevArg; "-device"; netDeviceArg machineType;
      "-chardev"; "socket,id=virtiocon0,path=" +:+ socketPath +:+ ",server=off";
      "-device"; serialDevice; "-device"; serialPort]
  ++ mountArgs.
End code.

(** ** The guest's reading of its command line ([guest/image/init]) *)

(** [for arg in $(cat /proc/cmdline)]: the words between spaces, tabs and
    newlines (globbing is not modelled). *)
Definition is_ifs (c : ascii) : bool :=
  let n := nat_of_ascii c in (n =? 32)%nat || (n =? 9)%nat || (n =? 10)%nat.

Fixpoint fields_go (word : string) (s : string) : list string :=
  match s with
  | "" => if bool_decide (word = "") then [] else [word]
  | String c s' =>
      if is_ifs c then (if bool_decide (word = "") then [] else [word]) ++ fields_go "" s'
      else fields_go (word +:+ String c "") s'
  end.
Definition shell_fields (s : string) : list string := fields_go "" s.

(** [${x%%:*}] and [${x#*:}] *)
Definition before_colon (s : string) : string :=
  match cut_first ":"%char s with Some (l, _) => l | None => s end.
Definition after_colon (s : string) : string :=
  match cut_first ":"%char s with Some (_, r) => r | None => s end.

(** The tag, the path and the mode of a mount spec. *)
Definition parse_mount_spec (spec : string) : option (string * string * string) :=
  let tag := before_colon spec in
  let rest := after_colon spec in
  let path := before_colon rest in
  let mode := if bool_decide (rest = path) then "rw" else after_colon rest in
  if bool_decide (tag = "") || bool_decide (path = "") then None else Some (tag, path, mode).

Definition specs_with (prefix cmdline : string) : list string :=
  omap (strip_prefix prefix) (shell_fields cmdline).

Definition guest_mounts (prefix cmdline : string) : list (string * string * string) :=
  omap parse_mount_spec (specs_with prefix cmdline).
