(* ===== verification/VMArgsProps.v ===== *)
(** * The guest mounts what the daemon prepared

    From the mounts of a request through the words [daemon/vm_backend.go] puts on
    the kernel command line to what [guest/image/init] reads back
    ([mounts_reach_guest]); and on an example machine, guest paths with a colon or a
    space, which the guest's init reads as something else. *)
From Stdlib Require Import Ascii.
From S2P Require Export VMArgs.

Definition sp : ascii := ascii_of_nat 32.
Definition tab : ascii := ascii_of_nat 9.
Definition nl : ascii := ascii_of_nat 10.

(** No character the shell splits at. *)
Definition no_ifs (s : string) : Prop :=
  has_char sp s = false ∧ has_char tab s = false ∧ has_char nl s = false.

Lemma no_ifs_app s t : no_ifs (s +:+ t) ↔ no_ifs s ∧ no_ifs t.
Proof. unfold no_ifs. rewrite !has_char_app, !orb_false_iff. tauto. Qed.

Lemma is_ifs_false c : c ≠ sp → c ≠ tab → c ≠ nl → is_ifs c = false.
Proof.
  intros H1 H2 H3. unfold is_ifs. rewrite !orb_false_iff, !Nat.eqb_neq.
  assert (H : ∀ n, nat_of_ascii c = n → c = ascii_of_nat n)
    by (intros n <-; by rewrite ascii_nat_embedding).
  split; [split|]; intros E%H; done.
Qed.

Lemma no_ifs_cons c s : no_ifs (String c s) → is_ifs c = false ∧ no_ifs s.
Proof.
  unfold no_ifs. simpl. rewrite !orb_false_iff, !bool_decide_eq_false.
  intros ([] & [] & []). split; [by apply is_ifs_false|done].
Qed.

(** ** Word splitting *)
Lemma fields_go_word s : ∀ w, no_ifs s → w +:+ s ≠ "" → fields_go w s = [w +:+ s].
Proof.
  induction s as [|c s IH]; intros w Hs Hw; simpl.
  - rewrite sapp_nil_r in *. by rewrite bool_decide_false.
  - apply no_ifs_cons in Hs as [Hc Hs]. rewrite Hc.
    rewrite IH; [by rewrite <-sapp_assoc|done|by rewrite <-sapp_assoc].
Qed.

Lemma fields_go_space s t : ∀ w,
  fields_go w (s +:+ String sp t) = fields_go w s ++ shell_fields t.
Proof.
  induction s as [|c s IH]; intros w; [done|]. rewrite sapp_cons. simpl.
  destruct (is_ifs c); [|apply IH]. by rewrite IH, app_assoc.
Qed.

Lemma shell_fields_Join l :
  Forall (λ w, no_ifs w ∧ w ≠ "") l → shell_fields (Join l " ") = l.
Proof.
  induction l as [|w l IH]; [done|]. intros [[Hw Hne] Hl]%Forall_cons.
  destruct l as [|w' l]; [by apply fields_go_word|].
  rewrite Join_cons by done. change (" " +:+ Join (w' :: l) " ") with (String sp (Join (w' :: l) " ")).
  unfold shell_fields. rewrite fields_go_space. rewrite IH by done. by rewrite fields_go_word.
Qed.

(** ** Trimming *)
Lemma strip_prefix_space p s t :
  has_char sp p = false → strip_prefix p s = None → strip_prefix p (s +:+ String sp t) = None.
Proof.
  revert s. induction p as [|c p IH]; intros s Hp Hs; [by destruct s|].
  simpl in Hp. apply orb_false_iff in Hp as [Hc Hp]. apply bool_decide_eq_false in Hc.
  destruct s as [|a s]; rewrite ?sapp_nil_l, ?sapp_cons; simpl in *.
  - by rewrite decide_False by congruence.
  - destruct (decide _); [by apply IH|done].
Qed.

Lemma strip_any_space s t :
  s ≠ "" → strip_any space_seqs s = None → strip_any space_seqs (s +:+ String sp t) = None.
Proof.
  intros Hne. rewrite !strip_any_None, !Forall_forall. intros H p Hp. specialize (H p Hp).
  assert (Htail : Forall (λ p, match p with String _ p' => has_char sp p' = false | "" => True end)
                    space_seqs) by (repeat constructor; by vm_compute).
  rewrite Forall_forall in Htail. specialize (Htail p Hp).
  destruct p as [|c p]; [by destruct s|]. destruct s as [|a s]; [done|].
  rewrite sapp_cons. simpl in *. destruct (decide _); [by apply strip_prefix_space|done].
Qed.

(** A text that ends in [o] or [w] has no white space at its end. *)
Lemma trimmed_app s t c u :
  s ≠ "" → trimmed s → srev t = String c u → c = "o"%char ∨ c = "w"%char →
  TrimSpace (s +:+ " " +:+ t) = s +:+ " " +:+ t.
Proof.
  intros Hs [H1 _] Ht Hc. apply TrimSpace_id. split; [by apply strip_any_space|].
  rewrite srev_app. change (" " +:+ t) with (String sp t).
  change (srev (String sp t)) with (srev t +:+ String sp ""). rewrite Ht, <-sapp_assoc, sapp_cons.
  by destruct Hc as [-> | ->].
Qed.

Lemma Join_last l w : ∃ p, Join (l ++ [w]) " " = p +:+ w.
Proof.
  induction l as [|x l [p IH]]; [by exists ""|]. simpl app. rewrite Join_cons by by destruct l.
  rewrite IH. exists (x +:+ " " +:+ p). by rewrite !sapp_assoc.
Qed.

(** ** Specs *)
Definition spec_of (m : vmMount) : string :=
  v_tag m +:+ ":" +:+ v_guestPath m +:+ ":" +:+ mountModeString (v_mode m).

(** A mount whose guest path the guest can read back. *)
Definition readable (m : vmMount) : Prop :=
  v_tag m ≠ "" ∧ no_ifs (v_tag m) ∧ has_char ":" (v_tag m) = false
  ∧ v_guestPath m ≠ "" ∧ no_ifs (v_guestPath m) ∧ has_char ":" (v_guestPath m) = false.

Lemma cut_colon l r : has_char ":" l = false → cut_first ":" (l +:+ ":" +:+ r) = Some (l, r).
Proof. intros H. by apply cut_first_Some. Qed.

Lemma parse_spec_of m :
  readable m → parse_mount_spec (spec_of m) = Some (v_tag m, v_guestPath m, mountModeString (v_mode m)).
Proof.
  intros (H1 & _ & H2 & H3 & _ & H4). unfold parse_mount_spec, spec_of, before_colon, after_colon.
  rewrite !cut_colon by done. cbv zeta.
  assert (Hm : mountModeString (v_mode m) ≠ "") by (unfold mountModeString; by destruct (_ =? _)).
  rewrite (bool_decide_false (v_guestPath m +:+ _ = _)).
  2: { intros H. apply (f_equal slen) in H. rewrite !slen_app in H. simpl in H. lia. }
  by rewrite !bool_decide_false.
Qed.

Lemma no_ifs_spec m prefix : readable m → no_ifs prefix → no_ifs (prefix +:+ spec_of m).
Proof.
  intros (_ & H1 & _ & _ & H2 & _) Hp. unfold spec_of. rewrite !no_ifs_app.
  split_and!; try done. unfold mountModeString. by destruct (_ =? _).
Qed.

(** What the guest is to find of a mount: it is read-only if the mount is. *)
Definition guest_view (m : vmMount) : string * string * string :=
  (v_tag m, v_guestPath m, if bool_decide (v_mode m = MountMode.RO) then "ro" else "rw").

Lemma mountModeString_spec md :
  mountModeString md = if bool_decide (md = MountMode.RO) then "ro" else "rw".
Proof. unfold mountModeString. case_bool_decide; destruct (Z.eqb_spec md MountMode.RO); done. Qed.

(** What the guest finds is what stands in the kernel arguments. *)
Lemma guest_mounts_append prefix base out :
  no_ifs prefix → Forall readable out → trimmed base → specs_with prefix base = [] →
  guest_mounts prefix (buildKernelAppend base (map (λ m, prefix +:+ spec_of m) out))
  = map guest_view out.
Proof.
  intros Hp Hout Hb Hbase. unfold guest_mounts, buildKernelAppend. rewrite length_map.
  destruct out as [|m0 out0] eqn:Eout; [simpl; by rewrite Hbase|]. rewrite <-Eout in *.
  replace (length out =? 0)%nat with false by (by rewrite Eout).
  set (extras := map (λ m, prefix +:+ spec_of m) out).
  assert (Hwords : Forall (λ w, no_ifs w ∧ w ≠ "") extras).
  { unfold extras. apply Forall_map. eapply Forall_impl; [exact Hout|]. intros m Hm. split.
    - by apply no_ifs_spec.
    - intros H. apply (f_equal slen) in H. unfold spec_of in H. rewrite !slen_app in H. simpl in H. lia. }
  assert (Hspecs : omap (strip_prefix prefix) extras = map spec_of out).
  { unfold extras. clear. induction out as [|m out IH]; [done|]. simpl.
    rewrite strip_prefix_app. f_equal. exact IH. }
  assert (Hparse : omap parse_mount_spec (map spec_of out)
                   = map guest_view out).
  { clear -Hout. induction Hout as [|m out Hm _ IH]; [done|]. simpl.
    rewrite parse_spec_of, mountModeString_spec by done. f_equal. exact IH. }
  unfold specs_with in *. case_bool_decide as Hempty.
  { by rewrite shell_fields_Join, Hspecs. }
  assert (Hend : ∃ c u, srev (Join extras " ") = String c u ∧ (c = "o"%char ∨ c = "w"%char)).
  { clear Hparse Hspecs Hwords. assert (extras ≠ []) by (unfold extras; by rewrite Eout).
    destruct extras as [|x xs _] eqn:Ex using rev_ind; [done|].
    assert (Hx : x ∈ extras) by (rewrite Ex; set_solver).
    unfold extras in Hx. apply list_elem_of_fmap in Hx as (m & -> & _).
    destruct (Join_last xs (prefix +:+ spec_of m)) as [p ->].
    unfold spec_of. rewrite !srev_app. unfold mountModeString.
    destruct (_ =? _); simpl; eauto 8. }
  destruct Hend as (c & u & Hrev & Hc). rewrite (trimmed_app base _ c u) by done.
  change (" " +:+ Join extras " ") with (String sp (Join extras " ")).
  unfold shell_fields at 1. rewrite fields_go_space. fold (shell_fields base).
  rewrite shell_fields_Join, omap_app, Hbase by done. by rewrite Hspecs.
Qed.

(** ** What is prepared *)
Section prepare.
Context `{UT : UnicodeTables} `{VE : VMEnv}.

(** The mount made of a request. *)
Definition prepared_as (req : Mount) (m : vmMount) : Prop :=
  v_guestPath m = Clean (GuestPath req) ∧ IsAbs (v_guestPath m) = true
  ∧ v_hostPath m = Clean (HostPath req) ∧ is_Some (e_stat (v_hostPath m))
  ∧ v_mode m = if Mount_Mode req =? MountMode.UNSPECIFIED then MountMode.RO else Mount_Mode req.

Lemma normalizeMountSpec_Good req g h md :
  normalizeMountSpec req = Good (g, h, md) →
  g = Clean (GuestPath req) ∧ IsAbs g = true ∧ h = Clean (HostPath req) ∧ is_Some (e_stat h)
  ∧ md = if Mount_Mode req =? MountMode.UNSPECIFIED then MountMode.RO else Mount_Mode req.
Proof.
  unfold normalizeMountSpec. cbv zeta. destruct (_ || _ || _) eqn:E1; [done|].
  destruct (_ || bool_decide (Clean (HostPath req) = "")); [done|].
  destruct (e_stat _) eqn:E; [|done]. intros [= <- <- <-].
  apply orb_false_iff in E1 as [_ E1%negb_false_iff]. split_and!; eauto.
Qed.

(** The sockets of the two backends. *)
Definition fsrpc_socket (dir : string) (i : nat) : string :=
  PathJoin [dir; "fsrpc-" +:+ Itoa (Z.of_nat i) +:+ ".sock"].
Definition virtiofs_socket (dir : string) (i : nat) : string :=
  PathJoin [dir; "virtiofs-" +:+ Itoa (Z.of_nat i) +:+ ".sock"].

Definition virtiofs_tag (i : nat) : string := "klitka" +:+ Itoa (Z.of_nat i).

Lemma prepare_fsrpc_spec dir mt mounts : ∀ idx out q app,
  prepare_fsrpc dir mt idx mounts = Good (out, q, app) →
  Forall2 prepared_as mounts out
  ∧ app = map (λ m, "klitka.fsrpc=" +:+ spec_of m) out
  ∧ map v_tag out = map fsrpcPortName (seq idx (length out))
  ∧ map v_socketPath out = map (fsrpc_socket dir) (seq idx (length out))
  ∧ Forall (λ m, v_rpc m = true ∧ v_process m = None) out.
Proof.
  induction mounts as [|req mounts IH]; intros idx out q app; cbn [prepare_fsrpc].
  { intros [= <- <- <-]. by split_and!. }
  destruct (normalizeMountSpec req) as [[[g h] md]|] eqn:En; [|done]. cbv zeta.
  destruct (prepare_fsrpc dir mt (S idx) mounts) as [[[out' q'] app']|] eqn:Ep; [|done].
  intros [= <- <- <-]. destruct (IH _ _ _ _ Ep) as (H1 & H2 & H3 & H4 & H5).
  apply normalizeMountSpec_Good in En. split_and!.
  - constructor; [exact En|done].
  - rewrite H2. done.
  - cbn. by rewrite H3.
  - cbn. by rewrite H4.
  - by constructor.
Qed.

(** What the processes are asked to do. *)
Definition virtiofsd_cmd (program : string) (m : vmMount) : string * list string :=
  (program, virtiofsd_args (v_socketPath m) (v_hostPath m) (v_mode m)).
Definition virtiofsd_of (program : string) (m : vmMount) : proc_event :=
  PStart program (virtiofsd_args (v_socketPath m) (v_hostPath m) (v_mode m)).

(** The socket among a process's arguments. *)
Definition socket_arg (args : list string) : string := nth 1 args "".

Lemma prepare_virtiofs_spec program dir mt mounts : ∀ idx started r evs,
  prepare_virtiofs program dir mt idx started mounts = (r, evs) →
  match r with
  | Good (out, q, app) =>
      Forall2 prepared_as mounts out
      ∧ app = map (λ m, "klitka.mount=" +:+ spec_of m) out
      ∧ map v_tag out = map virtiofs_tag (seq idx (length out))
      ∧ evs = map (virtiofsd_of program) out
      ∧ map v_socketPath out = map (virtiofs_socket dir) (seq idx (length out))
      ∧ Forall (λ m, v_rpc m = false ∧ v_process m = Some (virtiofsd_cmd program m)) out
  | Bad _ => ∃ l, evs = map (PStart program) l ++ map (PKill program) (started ++ l)
                  ∧ map socket_arg l = map (virtiofs_socket dir) (seq idx (length l))
  end.
Proof.
  induction mounts as [|req mounts IH]; intros idx started r evs; cbn [prepare_virtiofs].
  { intros [= <- <-]. by split_and!. }
  destruct (normalizeMountSpec req) as [[[g h] md]|] eqn:En; cbv zeta.
  2: { intros [= <- <-]. exists []. by rewrite app_nil_r. }
  destruct (e_start _ _); [intros [= <- <-]; exists []; by rewrite app_nil_r|].
  destruct (prepare_virtiofs _ _ _ (S idx) _ mounts) as [r' evs'] eqn:Ep.
  apply IH in Ep. destruct r' as [[[out' q'] app']|e]; intros [= <- <-].
  - destruct Ep as (H1 & H2 & H3 & H4 & H5 & H6). apply normalizeMountSpec_Good in En. split_and!.
    + constructor; [exact En|done].
    + rewrite H2. done.
    + cbn. by rewrite H3.
    + cbn. by rewrite H4.
    + cbn. by rewrite H5.
    + by constructor.
  - destruct Ep as (l & -> & Hl). eexists (_ :: l). cbn. rewrite <-app_assoc, Hl. done.
Qed.

(** *** Sockets are distinct, and how long they are *)
Lemma sock_name_good c pre i :
  c ≠ "."%char → has_char slash (String c pre) = false →
  good (String c pre +:+ Itoa (Z.of_nat i) +:+ ".sock").
Proof.
  intros Hc Hs. rewrite sapp_cons. split_and!; [done|by intros [= -> ?]|by intros [= -> ?]|].
  rewrite <-sapp_cons, !has_char_app, Hs, has_char_Itoa by (lia || done). done.
Qed.

Lemma fsrpc_socket_eq dir i :
  fsrpc_socket dir i = dir_prefix dir +:+ ("fsrpc-" +:+ Itoa (Z.of_nat i) +:+ ".sock").
Proof. unfold fsrpc_socket. rewrite PathJoin_name; [done|]. by apply sock_name_good. Qed.
Lemma virtiofs_socket_eq dir i :
  virtiofs_socket dir i = dir_prefix dir +:+ ("virtiofs-" +:+ Itoa (Z.of_nat i) +:+ ".sock").
Proof. unfold virtiofs_socket. rewrite PathJoin_name; [done|]. by apply sock_name_good. Qed.

Lemma sapp_inj_r s t u : s +:+ u = t +:+ u → s = t.
Proof.
  revert t. induction s as [|a s IH]; intros [|b t]; try done; rewrite ?sapp_cons, ?sapp_nil_l.
  - intros E. apply (f_equal slen) in E. simpl in E. rewrite slen_app in E. lia.
  - intros E. apply (f_equal slen) in E. simpl in E. rewrite slen_app in E. lia.
  - intros [= -> E]. f_equal. by apply IH.
Qed.

Lemma Itoa_inj i j : Itoa (Z.of_nat i) = Itoa (Z.of_nat j) → i = j.
Proof. intros H. apply (inj pretty) in H. lia. Qed.

Lemma fsrpc_socket_inj dir i j : fsrpc_socket dir i = fsrpc_socket dir j → i = j.
Proof.
  rewrite !fsrpc_socket_eq. intros H%sapp_inj_l%sapp_inj_l%sapp_inj_r. by apply Itoa_inj.
Qed.
Lemma virtiofs_socket_inj dir i j : virtiofs_socket dir i = virtiofs_socket dir j → i = j.
Proof.
  rewrite !virtiofs_socket_eq. intros H%sapp_inj_l%sapp_inj_l%sapp_inj_r. by apply Itoa_inj.
Qed.

(** What [prepareVmMounts] leaves: mounts on distinct sockets whose processes
    are the ones started; or nothing that still runs. *)
Lemma prepareVmMounts_procs mounts dir mt backend r procs :
  prepareVmMounts mounts dir mt backend = (r, procs) →
  match r with
  | Good (out, _, _) =>
      NoDup (map v_socketPath out) ∧ procs = map (λ c, PStart c.1 c.2) (omap v_process out)
      ∧ NoDup (omap v_process out)
  | Bad _ => ∃ program l, NoDup l
                          ∧ procs = map (PStart program) l ++ map (PKill program) l
  end.
Proof.
  unfold prepareVmMounts. destruct (_ =? _)%nat; [intros [= <- <-]; by repeat constructor|].
  destruct (effectiveFSBackend backend).
  - intros [= <- <-]. exists "", []. split; [constructor|done].
  - intros [= <- <-]. unfold prepareFSRPCMounts.
    destruct (prepare_fsrpc _ _ _ _) as [[[out q] app]|] eqn:E; [|exists "", []; split; [constructor|done]].
    apply prepare_fsrpc_spec in E as (_ & _ & _ & Hs & Hp). rewrite Hs.
    assert (omap v_process out = []) as ->.
    { clear Hs. induction Hp as [|m out [_ Hm] _ IH]; [done|]. cbn. by rewrite Hm. }
    split_and!; [|done|constructor].
    apply NoDup_fmap_2_strong; [|apply NoDup_seq]. intros i j _ _. apply fsrpc_socket_inj.
  - unfold prepareVirtioFSMounts. destruct resolveVirtiofsdPath as [program|e];
      [|intros [= <- <-]; exists "", []; split; [constructor|done]].
    intros H%prepare_virtiofs_spec. destruct r as [[[out q] app]|e].
    + destruct H as (_ & _ & _ & -> & Hs & Hp).
      assert (omap v_process out = map (virtiofsd_cmd program) out) as ->.
      { clear Hs. induction Hp as [|m out [_ Hm] _ IH]; [done|]. cbn. rewrite Hm. by f_equal. }
      assert (Hn : NoDup (map v_socketPath out)).
      { rewrite Hs. apply NoDup_fmap_2_strong; [|apply NoDup_seq]. intros i j _ _. apply virtiofs_socket_inj. }
      split_and!; [done|by rewrite map_map|].
      apply (NoDup_fmap_1 (λ c : string * list string, socket_arg c.2)).
      replace (_ <$> _) with (map v_socketPath out); [done|]. clear. induction out as [|m out IH]; [done|].
      simpl. f_equal. exact IH.
    + destruct H as (l & -> & Hl). exists program, l. split; [|done].
      apply (NoDup_fmap_1 socket_arg). change (socket_arg <$> l) with (map socket_arg l). rewrite Hl.
      apply NoDup_fmap_2_strong; [|apply NoDup_seq]. intros i j _ _. apply virtiofs_socket_inj.
Qed.

(** The mounts prepared, whatever the backend: those asked for, all served by
    the daemon itself or none, on numbered sockets. *)
Definition mounts_shape (dir : string) (inputs : list Mount) (out : list vmMount) : Prop :=
  Forall2 prepared_as inputs out
  ∧ (Forall (λ m, v_rpc m = true) out
     ∧ map v_socketPath out = map (fsrpc_socket dir) (seq 0 (length out))
     ∨ Forall (λ m, v_rpc m = false) out
     ∧ map v_socketPath out = map (virtiofs_socket dir) (seq 0 (length out))).

Lemma prepareVmMounts_shape mounts dir mt backend out q app procs :
  prepareVmMounts mounts dir mt backend = (Good (out, q, app), procs) → mounts_shape dir mounts out.
Proof.
  unfold prepareVmMounts. destruct (_ =? _)%nat eqn:El.
  { intros [= <- <- <- <-]. apply Nat.eqb_eq, length_zero_iff_nil in El as ->.
    split; [constructor|]. left. by repeat constructor. }
  destruct (effectiveFSBackend backend); [done| |].
  - intros [= Hp <-]. apply prepare_fsrpc_spec in Hp as (H1 & _ & _ & H4 & H5).
    split; [done|]. left. split; [|done]. eapply Forall_impl; [exact H5|]. by intros m [? _].
  - unfold prepareVirtioFSMounts. destruct resolveVirtiofsdPath as [program|]; [|done].
    intros (H1 & _ & _ & _ & H5 & H6)%prepare_virtiofs_spec.
    split; [done|]. right. split; [|done]. eapply Forall_impl; [exact H6|]. by intros m [? _].
Qed.

Lemma tag_ok prefix i :
  no_ifs prefix → has_char ":" prefix = false →
  no_ifs (prefix +:+ Itoa (Z.of_nat i)) ∧ has_char ":" (prefix +:+ Itoa (Z.of_nat i)) = false.
Proof.
  intros Hp Hc. rewrite no_ifs_app, has_char_app, Hc.
  split; [split; [done|]|]; [split_and!|]; apply has_char_Itoa; (lia || done).
Qed.

Lemma tags_NoDup f (out : list vmMount) idx :
  (∀ i j, f i = f j → i = j) → map v_tag out = map f (seq idx (length out)) → NoDup (map v_tag out).
Proof.
  intros Hf ->. apply NoDup_fmap_2_strong; [|apply NoDup_seq]. intros i j _ _. apply Hf.
Qed.

(** What the guest can read back of a guest path. *)
Definition plain_path (m : vmMount) : Prop :=
  no_ifs (v_guestPath m) ∧ has_char ":" (v_guestPath m) = false.

Lemma out_readable prefix (mounts : list Mount) out idx :
  no_ifs prefix → prefix ≠ "" → has_char ":" prefix = false →
  Forall2 prepared_as mounts out →
  map v_tag out = map (λ i, prefix +:+ Itoa (Z.of_nat i)) (seq idx (length out)) →
  Forall plain_path out → Forall readable out.
Proof.
  intros Hp Hne Hc Hprep Htags Hplain. rewrite Forall_forall in *. intros m Hm.
  destruct (Hplain m Hm) as [H1 H2].
  assert (Ht : v_tag m ∈ map v_tag out) by (by apply list_elem_of_fmap_2).
  rewrite Htags in Ht. apply list_elem_of_fmap in Ht as (i & Hi & _).
  destruct (tag_ok prefix i Hp Hc) as [T1 T2]. unfold readable. rewrite Hi. split_and!; try done.
  - intros [? _]%sapp_nil_inv. done.
  - apply list_elem_of_lookup in Hm as [k Hk].
    destruct (Forall2_lookup_r _ _ _ _ _ Hprep Hk) as (req & _ & _ & Ha & _).
    intros He. by rewrite He in Ha.
Qed.

Definition mount_prefix (backend : fsBackend) : string :=
  match backend with fsBackendVirtioFS => "klitka.mount=" | _ => "klitka.fsrpc=" end.

(** C25: the mounts reach the guest: whatever the file system backend, what is
    prepared are the requested mounts in order, read-only unless the request
    says otherwise, under distinct tags; and the guest's init reads from the
    kernel command line exactly their tags, guest paths and modes, if the guest
    paths hold no white space and no colon and the rest of the command line has
    no mount words of its own. *)
Theorem mounts_reach_guest mounts dir mt backend out q app evs base :
  prepareVmMounts mounts dir mt backend = (Good (out, q, app), evs) →
  let prefix := mount_prefix (effectiveFSBackend backend) in
  trimmed base → specs_with prefix base = [] → Forall plain_path out →
  Forall2 prepared_as mounts out ∧ NoDup (map v_tag out)
  ∧ guest_mounts prefix (buildKernelAppend base app)
    = map guest_view out.
Proof.
  intros Hprep prefix Hb Hbase Hplain. unfold prefix in *. clear prefix. unfold prepareVmMounts in Hprep.
  destruct (decide (mounts = [])) as [->|Hne].
  { injection Hprep as <- <- <- <-. split_and!; [done|constructor|].
    unfold guest_mounts. change (buildKernelAppend base []) with base. by rewrite Hbase. }
  replace (length mounts =? 0)%nat with false in Hprep by (by destruct mounts).
  destruct (effectiveFSBackend backend); [done| |].
  - injection Hprep as Hp _. unfold prepareFSRPCMounts in Hp.
    destruct (prepare_fsrpc_spec _ _ _ _ _ _ _ Hp) as (H1 & -> & H3 & _).
    split; [done|]. split; [eapply tags_NoDup, H3; intros i j Hij%sapp_inj_l; by apply Itoa_inj|].
    apply guest_mounts_append; [by vm_compute| |done|done].
    eapply (out_readable "virtio-fs-"); [by vm_compute|done|by vm_compute|exact H1|exact H3|done].
  - unfold prepareVirtioFSMounts in Hprep. destruct resolveVirtiofsdPath as [program|]; [|done].
    apply prepare_virtiofs_spec in Hprep as (H1 & -> & H3 & _).
    split; [done|]. split; [eapply tags_NoDup, H3; intros i j Hij%sapp_inj_l; by apply Itoa_inj|].
    apply guest_mounts_append; [by vm_compute| |done|done].
    eapply (out_readable "klitka"); [by vm_compute|done|by vm_compute|exact H1|exact H3|done].
Qed.

(** the virtiofs processes: when the preparation succeeds, one process per
    mount was started, sharing the mount's host path on its socket and
    read-only exactly if the mount is; when it fails, every process that was
    started is killed. *)
Theorem virtiofsd_processes mounts dir mt r evs :
  prepareVirtioFSMounts mounts dir mt = (r, evs) →
  match r with
  | Good (out, _, _) =>
      ∃ program, resolveVirtiofsdPath = Good program ∧ evs = map (virtiofsd_of program) out
      ∧ Forall (λ m, "--readonly" ∈ drop 4 (virtiofsd_args (v_socketPath m) (v_hostPath m) (v_mode m))
                     ↔ v_mode m = MountMode.RO) out
  | Bad _ => ∃ program l, evs = map (PStart program) l ++ map (PKill program) l
  end.
Proof.
  unfold prepareVirtioFSMounts. destruct resolveVirtiofsdPath as [program|e].
  2: { intros [= <- <-]. by exists "", []. }
  intros H%prepare_virtiofs_spec. destruct r as [[[out q] app]|e].
  - destruct H as (_ & _ & _ & -> & _). exists program. split; [done|]. split; [done|].
    apply Forall_forall. intros m _. unfold virtiofsd_args. simpl drop.
    destruct (v_mode m =? MountMode.RO) eqn:E, (negb _); simpl;
      rewrite ?(proj1 (Z.eqb_eq _ _) E); try apply Z.eqb_neq in E; set_solver.
  - destruct H as (l & -> & _). by exists program, l.
Qed.
End prepare.

(** * An example machine *)
#[local] Existing Instance ascii_tables.

(** A Linux machine with KVM and virtiofsd, outside CI. *)
#[local] Instance linux_env : VMEnv := {|
  e_getenv k := "";
  e_goos := "linux"; e_goarch := "amd64"; e_open_kvm := true; e_geteuid := 1000;
  e_stat p := Some true;
  e_lookpath p := true;
  e_getwd := Some "/srv"; e_executable := None;
  e_start _ _ := None
|}.

Definition vm_requests : list Mount :=
  [ {| GuestPath := "/work"; HostPath := "/home/u/proj"; Mount_Mode := MountMode.RW |};
    {| GuestPath := "/data/"; HostPath := "/home/u/data"; Mount_Mode := MountMode.UNSPECIFIED |} ].

Definition demo_out : list vmMount :=
  [ {| v_tag := "klitka0"; v_hostPath := "/home/u/proj"; v_guestPath := "/work";
       v_socketPath := "/tmp/v/virtiofs-0.sock"; v_mode := MountMode.RW; v_rpc := false;
       v_process := Some ("virtiofsd", ["--socket-path"; "/tmp/v/virtiofs-0.sock"; "--shared-dir";
                                        "/home/u/proj"; "--sandbox=none"]) |};
    {| v_tag := "klitka1"; v_hostPath := "/home/u/data"; v_guestPath := "/data";
       v_socketPath := "/tmp/v/virtiofs-1.sock"; v_mode := MountMode.RO; v_rpc := false;
       v_process := Some ("virtiofsd", ["--socket-path"; "/tmp/v/virtiofs-1.sock"; "--shared-dir";
                                        "/home/u/data"; "--sandbox=none"; "--readonly"]) |} ].
Definition demo_q : list string :=
  ["-chardev"; "socket,id=fs0,path=/tmp/v/virtiofs-0.sock"; "-device";
   "vhost-user-fs-device,chardev=fs0,tag=klitka0";
   "-chardev"; "socket,id=fs1,path=/tmp/v/virtiofs-1.sock"; "-device";
   "vhost-user-fs-device,chardev=fs1,tag=klitka1"].
Definition demo_app : list string := ["klitka.mount=klitka0:/work:rw"; "klitka.mount=klitka1:/data:ro"].
Definition demo_evs : list proc_event :=
  [PStart "virtiofsd" ["--socket-path"; "/tmp/v/virtiofs-0.sock"; "--shared-dir"; "/home/u/proj"; "--sandbox=none"];
   PStart "virtiofsd" ["--socket-path"; "/tmp/v/virtiofs-1.sock"; "--shared-dir"; "/home/u/data";
                       "--sandbox=none"; "--readonly"]].

Lemma demo_prepared :
  prepareVmMounts vm_requests "/tmp/v" selectMachineType fsBackendAuto
  = (Good (demo_out, demo_q, demo_app), demo_evs).
Proof. by vm_compute. Qed.

Lemma mounts_reach_guest_witness :
  Forall2 prepared_as vm_requests demo_out ∧ NoDup (map v_tag demo_out)
  ∧ guest_mounts "klitka.mount=" (buildKernelAppend "console=ttyS0" demo_app)
    = [("klitka0", "/work", "rw"); ("klitka1", "/data", "ro")].
Proof.
  refine (mounts_reach_guest vm_requests "/tmp/v" selectMachineType fsBackendAuto demo_out demo_q
            demo_app demo_evs "console=ttyS0" demo_prepared _ _ _).
  - by vm_compute.
  - by vm_compute.
  - repeat constructor; by vm_compute.
Defined.

Lemma virtiofsd_processes_witness :
  ∃ program, resolveVirtiofsdPath = Good program ∧ demo_evs = map (virtiofsd_of program) demo_out
  ∧ Forall (λ m, "--readonly" ∈ drop 4 (virtiofsd_args (v_socketPath m) (v_hostPath m) (v_mode m))
                 ↔ v_mode m = MountMode.RO) demo_out.
Proof.
  exact (virtiofsd_processes vm_requests "/tmp/v" "microvm"
           (Good (demo_out, demo_q, demo_app)) demo_evs demo_prepared).
Defined.

(** a guest path with a colon is cut by the guest's init: a read-only
    mount at [/a:b] is mounted at [/a] and not read-only there; and a guest
    path with a space adds a mount word of its own to the command line. *)
Theorem guest_path_misread :
  let line g := match prepareVmMounts
                  [{| GuestPath := g; HostPath := "/srv"; Mount_Mode := MountMode.RO |}]
                  "/tmp/v" selectMachineType fsBackendAuto with
                | (Good (_, _, app), _) => buildKernelAppend "console=ttyS0" app
                | _ => ""
                end in
  guest_mounts "klitka.mount=" (line "/a:b") = [("klitka0", "/a", "b:ro")]
  ∧ guest_mounts "klitka.mount=" (line "/a klitka.mount=klitka0:/etc")
    = [("klitka0", "/a", "rw"); ("klitka0", "/etc", "ro")].
Proof. by vm_compute. Qed.

Example values :
  effectiveFSBackend fsBackendAuto = fsBackendVirtioFS
  ∧ parseFSBackend " FsRpc" = Good fsBackendFSRPC ∧ parseFSBackend "nfs" = Bad (InvalidFSBackend "nfs")
  ∧ resolveGuestAssets = Bad (SetupUnavailable "set KLITKA_GUEST_KERNEL and KLITKA_GUEST_INITRD")
  ∧ selectMachineType = "microvm" ∧ selectAccel = "kvm" ∧ resolveQemuPath = Good "qemu-system-x86_64".
Proof. by vm_compute. Qed.
