(* ===== verification/VMBackend.v ===== *)
(** * The VM backend: starting a QEMU process and taking it down

    The life cycle of [daemon/vm_backend.go], with [startFSRPCServers] and
    [dialUnixSocket] of [daemon/fsrpc_server.go].  What is held (the temporary
    directory, the listening socket, processes, connections) is recorded in a
    trace of openings and closings; a process is closed once it is waited for
    or killed.  The machine (files, processes, sockets, the clock) is a
    parameter. *)
From Stdlib Require Import Ascii.
From S2P Require FsrpcMount.
From S2P Require Export Lifetimes VMArgs HostBackend VMService.

(** ** What is held *)
Inductive vm_resource :=
| RTempDir (path : string)
| RListener (socket : string)
| RVirtiofsd (cmd : string * list string)
| RQemu (cmd : string * list string)
| RPort (socket : string)        (* the connection of an FS-RPC server *)
| RConsole (socket : string).    (* the connection of the console client *)

#[export] Instance vm_resource_eq : EqDecision vm_resource.
Proof. solve_decision. Defined.
#[export] Instance vm_resource_countable : Countable vm_resource.
Proof.
  refine (inj_countable'
    (λ r, match r with
          | RTempDir p => inl (inl p) | RListener p => inl (inr (inl p))
          | RVirtiofsd c => inl (inr (inr c)) | RQemu c => inr (inl c)
          | RPort p => inr (inr (inl p)) | RConsole p => inr (inr (inr p))
          end)
    (λ s, match s with
          | inl (inl p) => RTempDir p | inl (inr (inl p)) => RListener p
          | inl (inr (inr c)) => RVirtiofsd c | inr (inl c) => RQemu c
          | inr (inr (inl p)) => RPort p | inr (inr (inr p)) => RConsole p
          end) _).
  by intros [].
Defined.

(** ** The machine *)

(** What [acceptWithTimeout] meets: when the timer fires, the goroutine in
    [Accept] may still take a connection before the listener is closed. *)
Inductive accept_result :=
| Accepted
| AcceptFailed (text : string)
| AcceptTimedOut (late : bool).

Class VMMachine (W : Type) := {
  m_env : W → VMEnv;
  #[global] m_tree :: HostTree W;
  m_tempDir : W → string;                                    (* os.TempDir *)
  m_mkdirTemp : string → string → W → osres string string * W;
  m_removeAll : string → W → option string * W;              (* os.RemoveAll *)
  m_listen : string → W → option string * W;
  m_spawned : list proc_event → W → W;                       (* the virtiofsd processes *)
  m_start : string * list string → W → option string * W;
  m_signal : string * list string → W → W;                   (* SIGTERM *)
  m_kill : string * list string → W → W;
  m_ends : string * list string → W → bool * W;              (* within two seconds *)
  m_dial : string → W → option string * W;
  m_now : W → Z;                                             (* in nanoseconds *)
  m_sleep : Z → W → W;
  m_accept : string → W → accept_result * W
}.

(** ** Data *)
Inductive vm_start_error :=
| SetupFailed (e : vm_setup_error)
| ReservedGuestPath                    (* a mount at /run/klitka *)
| TempDirFailed
| DialTimedOut (socket text : string)
| AcceptTimeout
| IOFailed (text : string).

(** [errors.Is(err, ErrVMUnavailable)] *)
Definition vm_unavailable (e : vm_start_error) : bool :=
  match e with SetupFailed (SetupUnavailable _) => true | _ => false end.

Record vmBackend := {
  vb_id : string;
  vb_assets : guestAssets;
  vb_qemu : option (string * list string);       (* [None]: the process did not start *)
  vb_waiter : bool;                              (* a goroutine waits for it *)
  vb_console : bool;                             (* [client] and [conn] are set *)
  vb_tempDir : string;
  vb_socketPath : string;
  vb_mounts : list vmMount;
  vb_servers : list (string * FsrpcMount.fsrpcMount);
  vb_env : list string
}.

(** [bs_refused]: the directories [os.RemoveAll] failed for; they are still there. *)
Record bstate (W : Type) := {
  machine : W;
  bs_closed : bool;
  btrace : list (life vm_resource);
  bs_refused : list string
}.
Arguments machine {W}. Arguments bs_closed {W}. Arguments btrace {W}. Arguments bs_refused {W}.

(** State passing: the machine, the backend's [closeOnce] and the trace. *)
Definition B (W A : Type) : Type := bstate W → A * bstate W.
#[export] Instance B_mret {W} : MRet (B W) := λ A a s, (a, s).
#[export] Instance B_mbind {W} : MBind (B W) := λ A B f m s, let '(a, s') := m s in f a s'.

Section ops.
Context {W : Type}.

Definition on_machine {A} (f : W → A * W) : B W A := λ s,
  let '(a, w) := f (machine s) in (a, {| machine := w; bs_closed := bs_closed s; btrace := btrace s; bs_refused := bs_refused s |}).
Definition effect (f : W → W) : B W () := on_machine (λ w, ((), f w)).
Definition look {A} (f : W → A) : B W A := λ s, (f (machine s), s).
Definition log (e : life vm_resource) : B W () := λ s,
  ((), {| machine := machine s; bs_closed := bs_closed s; btrace := btrace s ++ [e];
         bs_refused := bs_refused s |}).
Definition refuse (dir : string) : B W () := λ s,
  ((), {| machine := machine s; bs_closed := bs_closed s; btrace := btrace s;
          bs_refused := bs_refused s ++ [dir] |}).
Definition mark_closed : B W () := λ s,
  ((), {| machine := machine s; bs_closed := true; btrace := btrace s; bs_refused := bs_refused s |}).

(** A file operation of [HostBackend]. *)
Definition on_files {A} (m : T W A) : B W A := λ s,
  let '(a, t) := m {| tree := machine s; writes := [] |} in
  (a, {| machine := tree t; bs_closed := bs_closed s; btrace := btrace s; bs_refused := bs_refused s |}).

Fixpoint each {A} (f : A → B W ()) (l : list A) : B W () :=
  match l with [] => mret () | x :: l' => _ ← f x; each f l' end.
End ops.

Section code.
Context `{UT : UnicodeTables} `{VM : VMMachine W}.

Definition millisecond : Z := 1000000.
Definition second : Z := 1000000000.

(** *** [createTempDir] *)

(** Every caller of [os.RemoveAll] ignores what it answers.  The directory counts as
    closed, since nothing will come back to it; when the call failed it is [refuse]d. *)
Definition removeAll (dir : string) : B W () :=
  err ← on_machine (m_removeAll dir);
  _ ← log (EvClosed (RTempDir dir));
  match err with Some _ => refuse dir | None => mret () end.

Definition socket_in (tmp : string) : string := PathJoin [tmp; "virtio.sock"].

(** The function literal [create]. *)
Definition create_tmp (prefix dir : string) : B W (option string) :=
  r ← on_machine (m_mkdirTemp dir prefix);
  match r with
  | Bad _ => mret None
  | Good tmp =>
      _ ← log (EvOpened (RTempDir tmp));
      if (96 <? Z.of_nat (slen (socket_in tmp))) then _ ← removeAll tmp; mret None
      else mret (Some tmp)
  end.

Definition createTempDir (prefix : string) : B W (osres vm_start_error string) :=
  env ← look m_env;
  let base := TrimSpace (@e_getenv env "KLITKA_TMPDIR") in
  sys ← look m_tempDir;
  let base := if bool_decide (base = "") then sys else base in
  r ← create_tmp prefix base;
  match r with
  | Some tmp => mret (Good tmp)
  | None =>
      if bool_decide (base = "/tmp") then mret (Bad TempDirFailed)
      else
        r ← create_tmp prefix "/tmp";
        match r with
        | Some tmp => mret (Good tmp)
        | None => mret (Bad TempDirFailed)
        end
  end.

(** *** [createMitmMount] *)
Definition createMitmMount (tempDir : string) (mounts : list Mount) (caPath : string)
    : B W (osres vm_start_error (option Mount)) :=
  if bool_decide (caPath = "") then mret (Good None)
  else if existsb (λ mount, bool_decide (Clean (GuestPath mount) = "/run/klitka")) mounts
  then mret (Bad ReservedGuestPath)
  else
    let mountDir := PathJoin [tempDir; "mitm-ca"] in
    e ← on_files (MkdirAll mountDir 493);
    match e with Some err => mret (Bad (IOFailed err)) | None =>
    info ← look (t_stat caPath);
    match info with Bad err => mret (Bad (IOFailed err)) | Good (_, mode) =>
    e ← on_files (copyFile caPath (PathJoin [mountDir; "mitm-ca.crt"]) mode);
    match e with Some err => mret (Bad (IOFailed err)) | None =>
    mret (Good (Some {| GuestPath := "/run/klitka"; HostPath := mountDir;
                        Mount_Mode := MountMode.RO |}))
    end end end.

(** *** [dialUnixSocket]

    [None]: out of fuel.  Each turn sleeps 50 ms, so the timeout bounds the
    turns ([dialUnixSocket_returns]). *)
Fixpoint dial_loop (fuel : nat) (path : string) (deadline : Z) : B W (option (option string)) :=
  match fuel with
  | O => mret None
  | S k =>
      r ← on_machine (m_dial path);
      match r with
      | None => mret (Some None)
      | Some err =>
          now ← look m_now;
          if deadline <? now then mret (Some (Some err))
          else _ ← effect (m_sleep (50 * millisecond)); dial_loop k path deadline
      end
  end.
Definition dial_fuel (timeout : Z) : nat := S (S (Z.to_nat (timeout / (50 * millisecond)))).

Definition dialUnixSocket (path : string) (timeout : Z) : B W (option (option string)) :=
  now ← look m_now; dial_loop (dial_fuel timeout) path (now + timeout).

(** *** [startFSRPCServers] *)
Definition close_server (s : string * FsrpcMount.fsrpcMount) : B W () :=
  log (EvClosed (RPort s.1)).

Fixpoint start_servers (timeout : Z) (servers : list (string * FsrpcMount.fsrpcMount))
    (mounts : list vmMount) : B W (osres vm_start_error (list (string * FsrpcMount.fsrpcMount))) :=
  match mounts with
  | [] => mret (Good servers)
  | mount :: mounts' =>
      if negb (v_rpc mount) then start_servers timeout servers mounts'
      else
        let socket := v_socketPath mount in
        r ← dialUnixSocket socket timeout;
        match r with
        | Some None =>
            _ ← log (EvOpened (RPort socket));
            env ← look m_env;
            now ← look m_now;
            let m := FsrpcMount.newFSRPCMount (@e_getwd env) now (v_hostPath mount) (v_mode mount) in
            start_servers timeout (servers ++ [(socket, m)]) mounts'
        | Some (Some text) => _ ← each close_server servers; mret (Bad (DialTimedOut socket text))
        | None => _ ← each close_server servers; mret (Bad (IOFailed "dialUnixSocket: out of fuel"))
        end
  end.

Definition startFSRPCServers (mounts : list vmMount) (timeout : Z) :=
  start_servers timeout [] mounts.

(** *** [acceptWithTimeout] *)
Definition acceptWithTimeout (socket : string) : B W (osres vm_start_error ()) :=
  r ← on_machine (m_accept socket);
  match r with
  | Accepted => _ ← log (EvOpened (RConsole socket)); mret (Good ())
  | AcceptFailed text => mret (Bad (IOFailed text))
  | AcceptTimedOut late =>
      _ ← (if late then log (EvOpened (RConsole socket)) else mret ());
      mret (Bad AcceptTimeout)
  end.

(** *** [Close] *)

(** SIGTERM, two seconds, SIGKILL: QEMU is waited for by the goroutine
    newVMBackend starts after the FS-RPC servers, if it came that far, and for
    two more seconds after SIGKILL. *)
Definition wait_qemu (waiter : bool) (cmd : string * list string) : B W bool :=
  if waiter then on_machine (m_ends cmd)
  else _ ← effect (m_sleep (2 * second)); mret false.

Definition stop_qemu (waiter : bool) (cmd : string * list string) : B W () :=
  _ ← effect (m_signal cmd);
  ended ← wait_qemu waiter cmd;
  _ ← (if (ended : bool) then mret ()
       else _ ← effect (m_kill cmd); _ ← wait_qemu waiter cmd; mret ());
  log (EvClosed (RQemu cmd)).

Definition stop_mount (mount : vmMount) : B W () :=
  match v_process mount with
  | None => mret ()
  | Some cmd =>
      _ ← effect (m_signal cmd);
      ended ← on_machine (m_ends cmd);
      _ ← (if (ended : bool) then mret () else effect (m_kill cmd));
      log (EvClosed (RVirtiofsd cmd))
  end.

(** Closing the client closes the connection; its second Close has no effect. *)
Definition backend_Close (backend : vmBackend) : B W () := λ s,
  if bs_closed s then ((), s)
  else
    (_ ← mark_closed;
     _ ← (if vb_console backend then log (EvClosed (RConsole (vb_socketPath backend))) else mret ());
     _ ← each close_server (vb_servers backend);
     _ ← (match vb_qemu backend with
          | Some cmd => stop_qemu (vb_waiter backend) cmd
          | None => mret ()
          end);
     _ ← each stop_mount (vb_mounts backend);
     if bool_decide (vb_tempDir backend = "") then mret () else removeAll (vb_tempDir backend)) s.

(** *** [newVMBackend] *)
Definition close_listener (socket : string) : B W () := log (EvClosed (RListener socket)).

(** The process events of [prepareVmMounts] are what was started and killed. *)
Definition proc_life (e : proc_event) : life vm_resource :=
  match e with
  | PStart program args => EvOpened (RVirtiofsd (program, args))
  | PKill program args => EvClosed (RVirtiofsd (program, args))
  end.

(** The mounts the backend prepares: with a CA there is one more. *)
Definition mount_inputs (tempDir : string) (mounts : list Mount) (network : option networkManager)
    : B W (osres vm_start_error (list Mount)) :=
  match network with
  | Some m =>
      if bool_decide (nm_caCertPath m = "") then mret (Good mounts)
      else
        r ← createMitmMount tempDir mounts (nm_caCertPath m);
        mret (osres_map (λ o, mounts ++ match o with Some x => [x] | None => [] end) r)
  | None => mret (Good mounts)
  end.

(** An error return before the process is started. *)
Definition bail_out {A} (tempDir socket : string) (e : vm_start_error) : B W (osres vm_start_error A) :=
  _ ← close_listener socket; _ ← removeAll tempDir; mret (Bad e).

(** ... and after it. *)
Definition abort {A} (b : vmBackend) (e : vm_start_error) : B W (osres vm_start_error A) :=
  _ ← close_listener (vb_socketPath b); _ ← backend_Close b; mret (Bad e).

(** The fields set while the backend starts. *)
Definition with_process (b : vmBackend) (cmd : string * list string) (waiter console : bool)
    (servers : list (string * FsrpcMount.fsrpcMount)) : vmBackend :=
  {| vb_id := vb_id b; vb_assets := vb_assets b; vb_qemu := Some cmd; vb_waiter := waiter;
     vb_console := console; vb_tempDir := vb_tempDir b; vb_socketPath := vb_socketPath b;
     vb_mounts := vb_mounts b; vb_servers := servers; vb_env := vb_env b |}.

(** From [cmd.Start] on, with everything prepared. *)
Definition launch (b : vmBackend) (cmd : string * list string) : B W (osres vm_start_error vmBackend) :=
  started ← on_machine (m_start cmd);
  match started with
  | Some err => abort b (IOFailed err)
  | None =>
      _ ← log (EvOpened (RQemu cmd));
      r ← startFSRPCServers (vb_mounts b) (10 * second);
      match r with
      | Bad e => abort (with_process b cmd false false []) e
      | Good servers =>
          c ← acceptWithTimeout (vb_socketPath b);
          _ ← close_listener (vb_socketPath b);
          match c with
          | Bad e => _ ← backend_Close (with_process b cmd true false servers); mret (Bad e)
          | Good _ => mret (Good (with_process b cmd true true servers))
          end
      end
  end.

Definition newVMBackend (id : string) (req : StartVMRequest) (env : list string)
    (network : option networkManager) : B W (osres vm_start_error vmBackend) :=
  venv ← look m_env;
  try assets := @resolveGuestAssets venv catch e => mret (Bad (SetupFailed e)) in
  try qemuPath := @resolveQemuPath venv catch e => mret (Bad (SetupFailed e)) in
  t ← createTempDir ("klitka-vm-" +:+ id +:+ "-");
  try tempDir := t catch e => mret (Bad e) in
  let socketPath := socket_in tempDir in
  l ← on_machine (m_listen socketPath);
  match l with
  | Some err => _ ← removeAll tempDir; mret (Bad (IOFailed err))
  | None =>
      _ ← log (EvOpened (RListener socketPath));
      i ← mount_inputs tempDir (Mounts req) network;
      try mountInputs := i catch e => bail_out tempDir socketPath e in
      venv ← look m_env;
      let machineType := @selectMachineType venv in
      try backend := @fsBackendFromEnv _ venv catch e => bail_out tempDir socketPath (SetupFailed e) in
      let '(p, procs) := @prepareVmMounts venv mountInputs tempDir machineType backend in
      _ ← effect (m_spawned procs);
      _ ← each (λ e, log (proc_life e)) procs;
      match p with
      | Bad e => bail_out tempDir socketPath (SetupFailed e)
      | Good (mounts, mountArgs, appendArgs) =>
          let appendArg := buildKernelAppend (ga_append assets) appendArgs in
          let args := @buildQemuArgs venv assets socketPath appendArg mountArgs machineType in
          launch {| vb_id := id; vb_assets := assets; vb_qemu := None; vb_waiter := false;
                    vb_console := false; vb_tempDir := tempDir; vb_socketPath := socketPath;
                    vb_mounts := mounts; vb_servers := []; vb_env := env |} (qemuPath, args)
      end
  end.
End code.
