(* ===== verification/VMBackendProps.v ===== *)
(** * What the VM backend guarantees: everything it opens it closes

    A small program logic over the trace: [holding L] is a state whose clean
    trace ends with [L] open, before the backend is closed. *)
From Stdlib Require Import Ascii.
From S2P Require Export VMArgsProps VMBackend.

(** ** What a backend holds *)
Definition held_qemu (b : vmBackend) : list vm_resource :=
  match vb_qemu b with Some cmd => [RQemu cmd] | None => [] end.
Definition held_mounts (l : list vmMount) : list vm_resource := map RVirtiofsd (omap v_process l).
Definition backend_held (b : vmBackend) : list vm_resource :=
  (if vb_console b then [RConsole (vb_socketPath b)] else [])
  ++ map (λ p, RPort p.1) (vb_servers b) ++ held_qemu b ++ held_mounts (vb_mounts b)
  ++ [RTempDir (vb_tempDir b)].

Section props.
Context `{UT : UnicodeTables} `{VM : VMMachine W}.
Implicit Types (s : bstate W) (L : gset vm_resource).

(** The directories that could not be removed are some of those it was done with. *)
Definition refused_ok s : Prop := ∀ d, d ∈ bs_refused s → EvClosed (RTempDir d) ∈ btrace s.

Definition holding L s : Prop :=
  bs_closed s = false ∧ clean (btrace s) ∧ live_of (btrace s) = L ∧ refused_ok s.

(** Closed, with [L] still open. *)
Definition left_with L s : Prop := clean (btrace s) ∧ live_of (btrace s) = L ∧ refused_ok s.
Lemma holding_left L s : holding L s → left_with L s.
Proof. by intros (_ & ? & ? & ?). Qed.

Definition hoare {A} (P : bstate W → Prop) (m : B W A) (Q : A → bstate W → Prop) : Prop :=
  ∀ s, P s → Q (m s).1 (m s).2.

Lemma hoare_ret {A} (P : bstate W → Prop) (a : A) (Q : A → bstate W → Prop) :
  (∀ s, P s → Q a s) → hoare P (mret a) Q.
Proof. intros H s. apply H. Qed.

Lemma hoare_bind {A C} P (m : B W A) (f : A → B W C) R Q :
  hoare P m R → (∀ a, hoare (R a) (f a) Q) → hoare P (m ≫= f) Q.
Proof.
  intros Hm Hf s Hs. unfold mbind, B_mbind. pose proof (Hm s Hs) as H1.
  destruct (m s) as [a s1]. by apply Hf.
Qed.

Lemma hoare_mono {A} (P P' : bstate W → Prop) (m : B W A) (Q Q' : A → bstate W → Prop) :
  hoare P' m Q' → (∀ s, P s → P' s) → (∀ a s, Q' a s → Q a s) → hoare P m Q.
Proof. intros H HP HQ s Hs. apply HQ, H, HP, Hs. Qed.

Lemma hoare_pure {A} (φ : Prop) (P : bstate W → Prop) (m : B W A) Q :
  (φ → hoare P m Q) → hoare (λ s, φ ∧ P s) m Q.
Proof. intros H s [Hφ Hs]. by apply H. Qed.

(** Operations that leave the trace alone. *)
Definition quiet {A} (m : B W A) : Prop :=
  ∀ s, btrace (m s).2 = btrace s ∧ bs_closed (m s).2 = bs_closed s ∧ bs_refused (m s).2 = bs_refused s.

Lemma quiet_ret {A} (a : A) : quiet (mret a).
Proof. done. Qed.
Lemma quiet_bind {A C} (m : B W A) (f : A → B W C) :
  quiet m → (∀ a, quiet (f a)) → quiet (m ≫= f).
Proof.
  intros Hm Hf s. unfold mbind, B_mbind. destruct (Hm s) as (H1 & H2 & H3). destruct (m s) as [a s1].
  destruct (Hf a s1) as (H4 & H5 & H6). simpl in *. by rewrite H4, H5, H6.
Qed.
Lemma quiet_on_machine {A} (f : W → A * W) : quiet (on_machine f).
Proof. intros s. unfold on_machine. by destruct (f (machine s)). Qed.
Lemma quiet_effect f : quiet (effect f).
Proof. apply quiet_on_machine. Qed.
Lemma quiet_look {A} (f : W → A) : quiet (look f).
Proof. done. Qed.
Lemma quiet_on_files {A} (m : T W A) : quiet (on_files m).
Proof. intros s. unfold on_files. by destruct (m _). Qed.

Lemma quiet_holding {A} L (m : B W A) : quiet m → hoare (holding L) m (λ _, holding L).
Proof.
  intros Hm s (H1 & H2 & H3 & H4). destruct (Hm s) as (Ht & Hc & Hr). unfold holding, refused_ok.
  by rewrite Ht, Hc, Hr.
Qed.

(** A quiet operation first, with what it answered. *)
Lemma hoare_look {A C} L (f : W → A) (k : A → B W C) Q :
  (∀ w, hoare (holding L) (k (f w)) Q) → hoare (holding L) (a ← look f; k a) Q.
Proof. intros H s Hs. exact (H (machine s) s Hs). Qed.
Lemma hoare_quiet {A C} L (m : B W A) (f : A → B W C) Q :
  quiet m → (∀ a, hoare (holding L) (f a) Q) → hoare (holding L) (m ≫= f) Q.
Proof. intros Hm Hf. eapply hoare_bind; [by apply quiet_holding|done]. Qed.

Lemma refused_log e s : refused_ok s → refused_ok (log e s).2.
Proof. intros H d Hd. unfold log. cbn [snd btrace]. apply elem_of_app. left. by apply H. Qed.

Lemma hoare_open L r : r ∉ L → hoare (holding L) (log (EvOpened r)) (λ _, holding ({[r]} ∪ L)).
Proof.
  intros Hr s (H1 & H2 & H3 & H4). split; [done|]. split; [|split; [|by apply refused_log]];
    unfold log; cbn [fst snd btrace bs_closed].
  - apply clean_snoc; [done|]. by rewrite H3.
  - by rewrite live_of_snoc, H3.
Qed.
Lemma hoare_close L r : r ∈ L → hoare (holding L) (log (EvClosed r)) (λ _, holding (L ∖ {[r]})).
Proof.
  intros Hr s (H1 & H2 & H3 & H4). split; [done|]. split; [|split; [|by apply refused_log]];
    unfold log; cbn [fst snd btrace bs_closed].
  - apply clean_snoc; [done|]. by rewrite H3.
  - by rewrite live_of_snoc, H3.
Qed.

(** Lists of events. *)
Lemma each_app {A} (f : A → B W ()) l1 l2 s :
  (each f (l1 ++ l2) s).2 = (each f l2 (each f l1 s).2).2.
Proof.
  revert s. induction l1 as [|x l1 IH]; intros s; [done|]. cbn [app each].
  unfold mbind, B_mbind. destruct (f x s) as [[] s1]. apply IH.
Qed.

Lemma each_log {A} (f : A → life vm_resource) l s :
  btrace (each (λ x, log (f x)) l s).2 = btrace s ++ map f l
  ∧ bs_closed (each (λ x, log (f x)) l s).2 = bs_closed s
  ∧ (refused_ok s → refused_ok (each (λ x, log (f x)) l s).2).
Proof.
  revert s. induction l as [|x l IH]; intros s; [by rewrite app_nil_r|]. cbn [each map].
  destruct (IH (log (f x) s).2) as (H1 & H2 & H3). unfold mbind, B_mbind, log at 1 3 5.
  split_and!; [|done|].
  - etrans; [exact H1|]. unfold log. cbn [snd btrace]. by rewrite <-app_assoc.
  - intros Hr. by apply H3, refused_log.
Qed.

Lemma hoare_open_all {A} (f : A → vm_resource) l L :
  NoDup (map f l) → (∀ r, r ∈ map f l → r ∉ L) →
  hoare (holding L) (each (λ x, log (EvOpened (f x))) l) (λ _, holding (list_to_set (map f l) ∪ L)).
Proof.
  intros Hn Hl s (H1 & H2 & H3 & H4). destruct (each_log (λ x, EvOpened (f x)) l s) as (Ht & Hc & Hr).
  unfold holding. rewrite Ht, Hc, <-(map_map f EvOpened), live_open, H3.
  split; [done|]. split; [|split; [set_solver|by apply Hr]]. apply clean_open; [done|done|]. by rewrite H3.
Qed.
Lemma hoare_close_all {A} (f : A → vm_resource) l L :
  NoDup (map f l) → (∀ r, r ∈ map f l → r ∈ L) →
  hoare (holding L) (each (λ x, log (EvClosed (f x))) l) (λ _, holding (L ∖ list_to_set (map f l))).
Proof.
  intros Hn Hl s (H1 & H2 & H3 & H4). destruct (each_log (λ x, EvClosed (f x)) l s) as (Ht & Hc & Hr).
  unfold holding. rewrite Ht, Hc, <-(map_map f EvClosed), live_close, H3.
  split; [done|]. split; [|split; [done|by apply Hr]]. apply clean_close; [done|done|]. by rewrite H3.
Qed.

(** ** Close *)
Definition emits {A} (m : B W A) (evs : list (life vm_resource)) : Prop :=
  ∀ s, btrace (m s).2 = btrace s ++ evs ∧ bs_closed (m s).2 = bs_closed s
       ∧ (refused_ok s → refused_ok (m s).2).

Lemma emits_quiet {A} (m : B W A) : quiet m → emits m [].
Proof.
  intros H s. destruct (H s) as (H1 & H2 & H3). rewrite app_nil_r. split_and!; [done|done|].
  unfold refused_ok. by rewrite H1, H3.
Qed.
Lemma emits_log e : emits (log e) [e].
Proof. intros s. split; [done|]. split; [done|apply refused_log]. Qed.
Lemma emits_bind {A C} (m : B W A) (f : A → B W C) e1 e2 :
  emits m e1 → (∀ a, emits (f a) e2) → emits (m ≫= f) (e1 ++ e2).
Proof.
  intros Hm Hf s. unfold mbind, B_mbind. destruct (Hm s) as (H1 & H2 & H3). destruct (m s) as [a s1].
  destruct (Hf a s1) as (H4 & H5 & H6). simpl in *. rewrite H4, H5, H1, H2, app_assoc. auto.
Qed.

Lemma quiet_wait waiter cmd : quiet (wait_qemu waiter cmd).
Proof.
  destruct waiter; [apply quiet_on_machine|].
  apply quiet_bind; [apply quiet_effect|]. intros; apply quiet_ret.
Qed.

Lemma emits_stop_qemu waiter cmd : emits (stop_qemu waiter cmd) [EvClosed (RQemu cmd)].
Proof.
  unfold stop_qemu. apply (emits_bind _ _ [] [_]); [apply emits_quiet, quiet_effect|]. intros _.
  apply (emits_bind _ _ [] [_]); [apply emits_quiet, quiet_wait|]. intros ended.
  apply (emits_bind _ _ [] [_]); [|intros; apply emits_log]. apply emits_quiet.
  destruct ended; [apply quiet_ret|]. apply quiet_bind; [apply quiet_effect|]. intros _.
  apply quiet_bind; [apply quiet_wait|]. intros; apply quiet_ret.
Qed.

Lemma emits_stop_mounts l : emits (each stop_mount l) (map EvClosed (held_mounts l)).
Proof.
  induction l as [|m l IH]; [by apply emits_quiet, quiet_ret|]. cbn [each]. unfold held_mounts.
  cbn. unfold stop_mount. destruct (v_process m) as [cmd|].
  - apply (emits_bind _ _ [EvClosed (RVirtiofsd cmd)]); [|intros; apply IH].
    apply (emits_bind _ _ [] [_]); [apply emits_quiet, quiet_effect|]. intros _.
    apply (emits_bind _ _ [] [_]); [apply emits_quiet, quiet_on_machine|]. intros ended.
    apply (emits_bind _ _ [] [_]); [|intros; apply emits_log]. apply emits_quiet.
    destruct ended; [apply quiet_ret|apply quiet_effect].
  - apply (emits_bind _ _ []); [by apply emits_quiet, quiet_ret|intros; apply IH].
Qed.

Lemma emits_removeAll dir : emits (removeAll dir) [EvClosed (RTempDir dir)].
Proof.
  apply (emits_bind _ _ [] [_]); [apply emits_quiet, quiet_on_machine|]. intros [text|] s.
  - split; [done|]. split; [done|]. intros H d [Hd|Hd%list_elem_of_singleton]%elem_of_app.
    + by apply (refused_log (EvClosed (RTempDir dir)) s H).
    + subst d. apply elem_of_app. right. by left.
  - split; [done|]. split; [done|]. apply (refused_log (EvClosed (RTempDir dir))).
Qed.

Lemma emits_close_servers l : emits (each close_server l) (map EvClosed (map (λ p, RPort p.1) l)).
Proof.
  intros s. rewrite map_map. apply (each_log (λ p : string * FsrpcMount.fsrpcMount, EvClosed (RPort p.1))).
Qed.

(** Close closes exactly what the backend holds, once. *)
Lemma backend_Close_trace b s :
  vb_tempDir b ≠ "" → bs_closed s = false →
  btrace (backend_Close b s).2 = btrace s ++ map EvClosed (backend_held b)
  ∧ bs_closed (backend_Close b s).2 = true
  ∧ (refused_ok s → refused_ok (backend_Close b s).2).
Proof.
  intros Ht Hs. unfold backend_Close. rewrite Hs.
  unfold mbind at 1, B_mbind at 1. unfold mark_closed.
  set (s0 := {| machine := machine s; bs_closed := true; btrace := btrace s; bs_refused := bs_refused s |}).
  match goal with |- btrace (?m s0).2 = _ ∧ _ => cut (emits m (map EvClosed (backend_held b))) end.
  { intros H. apply (H s0). }
  unfold backend_held. rewrite !map_app. apply emits_bind.
  { destruct (vb_console b); [apply emits_log|by apply emits_quiet, quiet_ret]. }
  intros _. apply emits_bind; [apply emits_close_servers|]. intros _. apply emits_bind.
  { unfold held_qemu. destruct (vb_qemu b); [apply emits_stop_qemu|by apply emits_quiet, quiet_ret]. }
  intros _. apply emits_bind; [apply emits_stop_mounts|]. intros _.
  rewrite bool_decide_false by done. apply emits_removeAll.
Qed.

Lemma backend_Close_again b s : bs_closed s = true → backend_Close b s = ((), s).
Proof. unfold backend_Close. by intros ->. Qed.

(** ** Starting

    [os.MkdirTemp] returns the path of the directory it made. *)
Definition mkdir_law : Prop := ∀ dir prefix w t, (m_mkdirTemp dir prefix w).1 = Good t → t ≠ "".
Hypothesis Hmkdir : mkdir_law.

Definition released s : Prop := left_with ∅ s.

Lemma holding_released s : holding ∅ s → released s.
Proof. apply holding_left. Qed.

Lemma holding_emits {A} L L' (m : B W A) evs :
  emits m evs → (∀ tr, clean tr → live_of tr = L → clean (tr ++ evs) ∧ live_of (tr ++ evs) = L') →
  hoare (holding L) m (λ _, holding L').
Proof.
  intros Hm Hev s (H1 & H2 & H3 & H4). destruct (Hm s) as (Ht & Hc & Hr).
  destruct (Hev _ H2 H3) as [H5 H6]. unfold holding. rewrite Ht, Hc. auto.
Qed.

Lemma hoare_removeAll L dir :
  RTempDir dir ∈ L → hoare (holding L) (removeAll dir) (λ _, holding (L ∖ {[RTempDir dir]})).
Proof.
  intros H. eapply holding_emits; [apply emits_removeAll|]. intros tr Hc Hl.
  rewrite live_of_snoc, Hl. split; [|done]. apply clean_snoc; [done|]. by rewrite Hl.
Qed.

Lemma hoare_answer {A} (P : bstate W → Prop) (f : W → A * W) L Q :
  (∀ a s, (∃ w, (f w).1 = a) → holding L s → Q a s) → hoare (holding L) (on_machine f) Q.
Proof.
  intros HQ s Hs. apply HQ; [|by apply (quiet_holding _ _ (quiet_on_machine f))].
  exists (machine s). unfold on_machine. by destruct (f (machine s)).
Qed.

(** A temporary directory whose console socket fits. *)
Definition tmp_ok (t : string) : Prop := t ≠ "" ∧ Z.of_nat (slen (socket_in t)) ≤ 96.

Lemma hoare_create_tmp prefix dir :
  hoare (holding ∅) (create_tmp prefix dir)
    (λ r s, match r with Some t => tmp_ok t ∧ holding {[RTempDir t]} s | None => holding ∅ s end).
Proof.
  unfold create_tmp.
  eapply (hoare_bind _ _ _ (λ r s, (∀ t, r = Good t → t ≠ "") ∧ holding ∅ s)).
  { apply (hoare_answer (holding ∅)). intros a s [w <-] Hs. split; [|done]. intros t. apply Hmkdir. }
  intros [t|e]; [|by apply hoare_ret; intros s []].
  apply hoare_pure. intros Ht. specialize (Ht t eq_refl).
  eapply (hoare_bind _ _ _ (λ _, holding {[RTempDir t]})).
  { eapply hoare_mono; [by apply (hoare_open ∅)|done|]. cbn. intros _ s. by rewrite (right_id_L ∅ (∪)). }
  intros _. destruct (Z.ltb_spec 96 (Z.of_nat (slen (socket_in t)))).
  - eapply hoare_bind; [apply hoare_removeAll; set_solver|]. intros []; cbn beta. apply hoare_ret.
    intros s. by rewrite difference_diag_L.
  - apply hoare_ret. intros s Hs. split; [by split|done].
Qed.

Lemma hoare_createTempDir prefix :
  hoare (holding ∅) (createTempDir prefix)
    (λ r s, match r with Good t => tmp_ok t ∧ holding {[RTempDir t]} s | Bad _ => holding ∅ s end).
Proof.
  unfold createTempDir. apply hoare_quiet; [apply quiet_look|]. intros env.
  apply hoare_quiet; [apply quiet_look|]. intros sys.
  eapply hoare_bind; [apply hoare_create_tmp|]. intros [t|]; [by apply hoare_ret|].
  case_bool_decide; [by apply hoare_ret|].
  eapply hoare_bind; [apply hoare_create_tmp|]. by intros [t|]; apply hoare_ret.
Qed.

(** The servers made of the mounts: one for each mount with [rpc], serving its
    host path in its mode, a relative one from the working directory that
    [os.Getwd] then answered. *)
Definition server_of (m : vmMount) (s : string * FsrpcMount.fsrpcMount) : Prop :=
  s.1 = v_socketPath m
  ∧ ∃ (w : W) now, s.2 = FsrpcMount.newFSRPCMount (@e_getwd (m_env w)) now (v_hostPath m) (v_mode m).

Definition rpc_mounts (l : list vmMount) : list vmMount := filter (λ m, v_rpc m = true) l.

Lemma quiet_dial_loop fuel path deadline : quiet (dial_loop fuel path deadline).
Proof.
  induction fuel as [|k IH]; [done|]. cbn [dial_loop].
  apply quiet_bind; [apply quiet_on_machine|]. intros [err|]; [|done].
  apply quiet_bind; [apply quiet_look|]. intros now. destruct (_ <? _); [done|].
  apply quiet_bind; [apply quiet_effect|]. intros _. apply IH.
Qed.

Lemma quiet_dial path timeout : quiet (dialUnixSocket path timeout).
Proof. apply quiet_bind; [apply quiet_look|]. intros; apply quiet_dial_loop. Qed.

Definition ports (l : list (string * FsrpcMount.fsrpcMount)) : list vm_resource := map (λ p, RPort p.1) l.

Lemma elem_of_ports r l : r ∈ ports l ↔ ∃ p, r = RPort p ∧ p ∈ l.*1.
Proof.
  unfold ports. rewrite list_elem_of_fmap. split.
  - intros (x & -> & Hx). exists x.1. split; [done|]. by apply list_elem_of_fmap_2.
  - intros (p & -> & (x & -> & Hx)%list_elem_of_fmap). by exists x.
Qed.

Lemma NoDup_ports l : NoDup l.*1 → NoDup (ports l).
Proof.
  intros H. unfold ports. rewrite <-(map_map fst RPort).
  apply NoDup_fmap_2_strong; [|done]. by intros ?? _ _ [= ->].
Qed.

Lemma hoare_close_servers servers L :
  NoDup servers.*1 → (∀ p, RPort p ∉ L) →
  hoare (holding (list_to_set (ports servers) ∪ L)) (each close_server servers) (λ _, holding L).
Proof.
  intros Hn HL. eapply hoare_mono; [apply (hoare_close_all (λ p, RPort p.1))|done|].
  - by apply NoDup_ports.
  - intros r Hr. apply elem_of_union_l. by apply elem_of_list_to_set.
  - intros [] s Hs; cbn beta in Hs. eapply (eq_rect_r (λ X, holding X s)); [exact Hs|]. apply set_eq. intros r.
    fold (ports servers). rewrite elem_of_difference, elem_of_union, !elem_of_list_to_set.
    split; [|tauto].
    intros Hr. split; [by right|]. intros (p & -> & _)%elem_of_ports. by apply (HL p).
Qed.

Lemma hoare_start_servers timeout mounts : ∀ servers done L,
  NoDup (servers.*1 ++ map v_socketPath (rpc_mounts mounts)) → Forall2 server_of done servers →
  (∀ p, RPort p ∉ L) →
  hoare (holding (list_to_set (ports servers) ∪ L)) (start_servers timeout servers mounts)
    (λ r s, match r with
            | Good servers' => Forall2 server_of (done ++ rpc_mounts mounts) servers'
                               ∧ NoDup servers'.*1 ∧ holding (list_to_set (ports servers') ∪ L) s
            | Bad _ => holding L s
            end).
Proof.
  induction mounts as [|m mounts IH]; intros servers done L Hn Hd HL; cbn [start_servers].
  { apply hoare_ret. intros s Hs. rewrite !app_nil_r in *. done. }
  unfold rpc_mounts in *. destruct (v_rpc m) eqn:Em; cbn [negb].
  2: { rewrite filter_cons_False in Hn |- * by congruence. by apply IH. }
  rewrite filter_cons_True in Hn |- * by done. cbn [map] in Hn.
  assert (Hclose : NoDup servers.*1) by (by apply NoDup_app in Hn as [Hn _]).
  apply hoare_quiet; [apply quiet_dial|]. intros [[text|]|];
    [eapply hoare_bind; [by apply hoare_close_servers|]; intros []; cbn beta; by apply hoare_ret| |
     eapply hoare_bind; [by apply hoare_close_servers|]; intros []; cbn beta; by apply hoare_ret].
  eapply hoare_bind; [apply hoare_open|].
  { intros [(p & [= <-] & Hp)%elem_of_list_to_set%elem_of_ports|Hr]%elem_of_union; [|by eapply HL].
    apply NoDup_app in Hn as (_ & Hn & _). apply (Hn _ Hp). by left. }
  intros []; cbn beta. apply hoare_look. intros w. set (env := m_env w).
  apply hoare_look. intros w'. set (now := m_now w').
  set (fm := FsrpcMount.newFSRPCMount _ _ _ _).
  eapply hoare_mono; [apply (IH (servers ++ [(v_socketPath m, fm)]) (done ++ [m]) L)| |].
  - rewrite fmap_app, <-app_assoc. done.
  - apply Forall2_app; [done|]. constructor; [|constructor]. split; [done|]. by eexists _, _.
  - done.
  - intros s Hs. eapply (eq_rect_r (λ X, holding X s)); [exact Hs|].
    unfold ports. rewrite map_app, list_to_set_app_L. cbn. set_solver.
  - intros [servers'|e] s; [|done]. by rewrite <-app_assoc.
Qed.

(** ** From [cmd.Start] on *)
Lemma hoare_backend_Close b L :
  vb_tempDir b ≠ "" → NoDup (backend_held b) → (∀ r, r ∈ backend_held b → r ∈ L) →
  hoare (holding L) (backend_Close b)
    (λ _, left_with (L ∖ list_to_set (backend_held b))).
Proof.
  intros Ht Hn HL s (H1 & H2 & H3 & H4). destruct (backend_Close_trace b s Ht H1) as (Htr & _ & Hr).
  unfold left_with. rewrite Htr, live_close, H3. split; [|split; [done|by apply Hr]].
  apply clean_close; [done|done|]. by rewrite H3.
Qed.

(** What is prepared before the process is started. *)
Record unlaunched (b : vmBackend) : Prop := {
  un_tmp : tmp_ok (vb_tempDir b);
  un_socket : vb_socketPath b = socket_in (vb_tempDir b);
  un_fresh : vb_qemu b = None ∧ vb_console b = false ∧ vb_servers b = [];
  un_sockets : NoDup (map v_socketPath (vb_mounts b));
  un_procs : NoDup (omap v_process (vb_mounts b))
}.

Lemma held_mounts_kind r l : r ∈ held_mounts l → ∃ c, r = RVirtiofsd c.
Proof. unfold held_mounts. intros (c & -> & _)%list_elem_of_fmap. by exists c. Qed.

Lemma NoDup_held_mounts l : NoDup (omap v_process l) → NoDup (held_mounts l).
Proof. intros H. apply NoDup_fmap_2_strong; [|done]. by intros ?? _ _ [= ->]. Qed.

Lemma NoDup_backend_held b :
  NoDup (omap v_process (vb_mounts b)) → NoDup (vb_servers b).*1 → NoDup (backend_held b).
Proof.
  intros Hm Hs. unfold backend_held, held_qemu. repeat rewrite NoDup_app.
  split_and!; try (apply NoDup_singleton); try (by apply NoDup_ports); try (by apply NoDup_held_mounts).
  - destruct (vb_console b); [apply NoDup_singleton|constructor].
  - intros r Hr. destruct (vb_console b); [|by apply not_elem_of_nil in Hr].
    apply list_elem_of_singleton in Hr as ->. rewrite !elem_of_app, list_elem_of_singleton.
    fold (ports (vb_servers b)). rewrite elem_of_ports. intros [(?&?&_)|[H|[H|?]]]; try done.
    + destruct (vb_qemu b); [by apply list_elem_of_singleton in H|by apply not_elem_of_nil in H].
    + by apply held_mounts_kind in H as [? ?].
  - fold (ports (vb_servers b)). intros r (p & -> & _)%elem_of_ports.
    rewrite !elem_of_app, list_elem_of_singleton. intros [H|[H|?]]; try done.
    + destruct (vb_qemu b); [by apply list_elem_of_singleton in H|by apply not_elem_of_nil in H].
    + by apply held_mounts_kind in H as [? ?].
  - destruct (vb_qemu b); [apply NoDup_singleton|constructor].
  - intros r Hr. destruct (vb_qemu b); [|by apply not_elem_of_nil in Hr].
    apply list_elem_of_singleton in Hr as ->. rewrite elem_of_app, list_elem_of_singleton.
    intros [H|?]; [|done]. by apply held_mounts_kind in H as [? ?].
  - intros r (c & ->)%held_mounts_kind. by rewrite list_elem_of_singleton.
Qed.

(** No listener is among what a backend holds. *)
Lemma listener_not_held sock b : RListener sock ∉ backend_held b.
Proof.
  unfold backend_held, held_qemu. rewrite !elem_of_app, list_elem_of_singleton.
  fold (ports (vb_servers b)). rewrite elem_of_ports.
  intros [H|[(?&?&_)|[H|[H|?]]]]; try done.
  - destruct (vb_console b); [by apply list_elem_of_singleton in H|by apply not_elem_of_nil in H].
  - destruct (vb_qemu b); [by apply list_elem_of_singleton in H|by apply not_elem_of_nil in H].
  - by apply held_mounts_kind in H as [? ?].
Qed.

Definition held_set (b : vmBackend) : gset vm_resource := list_to_set (backend_held b).

Lemma listener_not_set sock b : RListener sock ∉ held_set b.
Proof. unfold held_set. rewrite elem_of_list_to_set. apply listener_not_held. Qed.

Lemma hoare_close_listener sock X :
  RListener sock ∉ X →
  hoare (holding ({[RListener sock]} ∪ X)) (close_listener sock) (λ _, holding X).
Proof.
  intros Hn. eapply hoare_mono; [apply (hoare_close ({[RListener sock]} ∪ X)); set_solver|done|].
  intros [] s Hs. cbn beta in Hs. eapply (eq_rect_r (λ X, holding X s)); [exact Hs|]. set_solver.
Qed.

(** How starting a backend ends: with a backend that holds what is open, or
    with nothing open but, perhaps, a connection that came as the timer fired. *)
Record backend_ok (inputs : string → list Mount) (b : vmBackend) : Prop := {
  ok_tmp : tmp_ok (vb_tempDir b);
  ok_socket : vb_socketPath b = socket_in (vb_tempDir b);
  ok_held : NoDup (backend_held b);
  ok_servers : Forall2 server_of (rpc_mounts (vb_mounts b)) (vb_servers b);
  ok_mounts : ∃ venv, @mounts_shape venv (vb_tempDir b) (inputs (vb_tempDir b)) (vb_mounts b)
}.

Definition start_post (inputs : string → list Mount) (r : osres vm_start_error vmBackend) s : Prop :=
  match r with
  | Good b => backend_ok inputs b ∧ holding (held_set b) s
  | Bad e => left_with ∅ s ∨ e = AcceptTimeout ∧ ∃ sock, left_with {[RConsole sock]} s
  end.

Lemma released_post inputs e s : released s → start_post inputs (Bad e) s.
Proof. by left. Qed.

Lemma hoare_abort inputs b e :
  vb_tempDir b ≠ "" → NoDup (backend_held b) →
  hoare (holding ({[RListener (vb_socketPath b)]} ∪ held_set b)) (abort b e) (start_post inputs).
Proof.
  intros Ht Hn. unfold abort. eapply hoare_bind; [apply hoare_close_listener, listener_not_set|]. intros []. cbn beta.
  eapply hoare_bind; [apply hoare_backend_Close; [done|done|]|].
  { intros r Hr. by apply elem_of_list_to_set. }
  intros []. cbn beta. apply hoare_ret. intros s Hs. apply released_post.
  unfold held_set in Hs. by rewrite difference_diag_L in Hs.
Qed.

(** The sets held while the backend starts. *)
Lemma held_process b cmd waiter console servers :
  vb_qemu b = None → vb_console b = false → vb_servers b = [] →
  held_set (with_process b cmd waiter console servers)
  = (if console then {[RConsole (vb_socketPath b)]} else ∅)
    ∪ (list_to_set (ports servers) ∪ ({[RQemu cmd]} ∪ held_set b)).
Proof.
  intros H1 H2 H3. unfold held_set, backend_held, held_qemu. rewrite H1, H2, H3. cbn [with_process vb_console
    vb_servers vb_qemu vb_mounts vb_tempDir vb_socketPath map app].
  fold (ports servers). destruct console; rewrite !list_to_set_app_L; cbn; set_solver.
Qed.

Lemma unlaunched_set b r : unlaunched b → r ∈ held_set b →
  (∃ c, r = RVirtiofsd c) ∨ r = RTempDir (vb_tempDir b).
Proof.
  intros [_ _ (H1 & H2 & H3) _ _]. unfold held_set, backend_held, held_qemu. rewrite H1, H2, H3. cbn.
  rewrite elem_of_list_to_set, elem_of_app, list_elem_of_singleton.
  intros [H|H]; [left; by apply held_mounts_kind in H|by right].
Qed.

Lemma hoare_accept sock L :
  RConsole sock ∉ L →
  hoare (holding L) (acceptWithTimeout sock)
    (λ r s, match r with
            | Good _ => holding ({[RConsole sock]} ∪ L) s
            | Bad e => holding L s ∨ e = AcceptTimeout ∧ holding ({[RConsole sock]} ∪ L) s
            end).
Proof.
  intros HL. apply hoare_quiet; [apply quiet_on_machine|]. intros [|text|late].
  - eapply hoare_bind; [by apply hoare_open|]. intros []. cbn beta. by apply hoare_ret.
  - apply hoare_ret. by left.
  - destruct late.
    + eapply hoare_bind; [by apply hoare_open|]. intros []. cbn beta. apply hoare_ret. by right.
    + apply (hoare_bind _ _ _ (λ _, holding L)); [by apply hoare_ret|]. intros _.
      apply hoare_ret. by left.
Qed.

(** Closing a backend of which [X] is open, and perhaps more. *)
Lemma hoare_close_running b X e :
  vb_tempDir b ≠ "" → NoDup (backend_held b) → held_set b ⊆ X →
  hoare (holding X) (_ ← backend_Close b; mret (Bad e))
    (λ (r : osres vm_start_error vmBackend) s,
       r = Bad e ∧ left_with (X ∖ held_set b) s).
Proof.
  intros Ht Hn HX. eapply hoare_bind; [apply hoare_backend_Close; [done|done|]|].
  { intros r Hr. apply HX. by apply elem_of_list_to_set. }
  intros []. cbn beta. by apply hoare_ret.
Qed.

Lemma hoare_launch inputs b cmd :
  unlaunched b → (∃ venv, @mounts_shape venv (vb_tempDir b) (inputs (vb_tempDir b)) (vb_mounts b)) →
  hoare (holding ({[RListener (vb_socketPath b)]} ∪ held_set b)) (launch b cmd) (start_post inputs).
Proof.
  intros Hu Hshape. pose proof (λ r, unlaunched_set b r Hu) as Hk. pose proof Hu as [[Ht Hlen] Hsock Hfresh Hns Hnp].
  pose proof Hfresh as (F1 & F2 & F3).
  assert (Hrpc : NoDup (map v_socketPath (rpc_mounts (vb_mounts b)))).
  { eapply sublist_NoDup; [exact Hns|]. apply fmap_sublist, sublist_filter. }
  assert (Hd : ∀ w c servers, NoDup servers.*1 → NoDup (backend_held (with_process b cmd w c servers))).
  { intros w c servers Hs. by apply NoDup_backend_held. }
  unfold launch. apply hoare_quiet; [apply quiet_on_machine|]. intros [err|].
  { apply hoare_abort; [done|]. apply NoDup_backend_held; [done|]. rewrite F3. constructor. }
  eapply hoare_bind; [apply hoare_open|].
  { rewrite elem_of_union, elem_of_singleton. intros [?|Hr]; [done|].
    by destruct (Hk _ Hr) as [[??]|?]. }
  intros []. cbn beta.
  set (L1 := {[RQemu cmd]} ∪ ({[RListener (vb_socketPath b)]} ∪ held_set b)).
  assert (Hport : ∀ p, RPort p ∉ L1).
  { intros p. unfold L1. rewrite !elem_of_union, !elem_of_singleton.
    intros [?|[?|Hr]]; try done. by destruct (Hk _ Hr) as [[??]|?]. }
  eapply hoare_bind.
  { eapply hoare_mono; [apply (hoare_start_servers _ _ [] [] L1); [done|constructor|done]| |].
    - intros s Hs. unfold ports. cbn. by rewrite (left_id_L ∅ (∪)).
    - intros r s Hr. exact Hr. }
  intros [servers|e].
  2: { eapply hoare_mono; [apply (hoare_abort inputs (with_process b cmd false false [])); [done|]| |done].
       - apply Hd. constructor.
       - intros s Hs. eapply (eq_rect_r (λ X, holding X s)); [exact Hs|].
         rewrite held_process by done. unfold L1, ports. cbn. clear. set_solver. }
  cbn [app]. apply hoare_pure. intros Hserv. apply hoare_pure. intros Hn.
  set (X := held_set (with_process b cmd true false servers)).
  assert (HX : list_to_set (ports servers) ∪ L1 = {[RListener (vb_socketPath b)]} ∪ X).
  { unfold X. rewrite held_process by done. unfold L1. clear. set_solver. }
  rewrite HX. assert (Hc : RConsole (vb_socketPath b) ∉ X).
  { unfold X. rewrite held_process by done. rewrite !elem_of_union, elem_of_list_to_set, elem_of_ports.
    intros [?%not_elem_of_empty|[(?&?&_)|[?%elem_of_singleton|Hr]]]; try done.
    by destruct (Hk _ Hr) as [[??]|?]. }
  assert (Hlst : ∀ c, RListener (vb_socketPath b) ∉ held_set (with_process b cmd true c servers))
    by (intros; apply listener_not_set).
  set (Y := held_set (with_process b cmd true true servers)).
  assert (HY : {[RConsole (vb_socketPath b)]} ∪ X = Y).
  { unfold X, Y. rewrite !held_process by done. by rewrite (left_id_L ∅ (∪)). }
  assert (Hpost : ∀ e Z, RListener (vb_socketPath b) ∉ Z → X ⊆ Z →
            (Z ∖ X = ∅ ∨ e = AcceptTimeout ∧ Z ∖ X = {[RConsole (vb_socketPath b)]}) →
            hoare (holding ({[RListener (vb_socketPath b)]} ∪ Z))
              (_ ← close_listener (vb_socketPath b);
               _ ← backend_Close (with_process b cmd true false servers); mret (Bad e)) (start_post inputs)).
  { intros e Z HZ HXZ Hend. eapply hoare_bind; [by apply hoare_close_listener|]. intros []. cbn beta.
    eapply hoare_mono; [apply hoare_close_running; [done|by apply Hd|exact HXZ]|done|].
    intros r s (-> & Hl). fold X in Hl.
    destruct Hend as [HZX|[-> HZX]]; rewrite HZX in Hl; [by left|right]. split; [done|by eexists]. }
  eapply hoare_bind; [apply (hoare_accept (vb_socketPath b)); clear -Hc; set_solver|].
  intros [[]|e].
  - eapply hoare_bind; [|intros []; cbn beta; apply hoare_ret; intros s Hs].
    + eapply hoare_mono; [apply (hoare_close_listener (vb_socketPath b) Y); apply Hlst| |done].
      intros s Hs. eapply (eq_rect_r (λ X, holding X s)); [exact Hs|]. rewrite <-HY. clear. set_solver.
    + split; [|exact Hs]. split; [done|done|by apply Hd|exact Hserv|exact Hshape].
  - intros s [Hs|[-> Hs]].
    + apply (Hpost e X); [apply Hlst|done| |done]. left. apply difference_diag_L.
    + apply (Hpost AcceptTimeout Y); [apply Hlst|rewrite <-HY; clear; set_solver| |].
      * right. split; [done|]. rewrite <-HY. clear -Hc. set_solver.
      * eapply (eq_rect_r (λ X, holding X s)); [exact Hs|]. rewrite <-HY. clear. set_solver.
Qed.

(** ** [newVMBackend] *)
Lemma quiet_createMitmMount dir mounts ca : quiet (createMitmMount dir mounts ca).
Proof.
  unfold createMitmMount. case_bool_decide; [done|]. destruct (existsb _ _); [done|].
  apply quiet_bind; [apply quiet_on_files|]. intros [err|]; [done|].
  apply quiet_bind; [apply quiet_look|]. intros [[d mode]|err]; [|done].
  apply quiet_bind; [apply quiet_on_files|]. by intros [err|].
Qed.

Lemma quiet_mount_inputs dir mounts network : quiet (mount_inputs dir mounts network).
Proof.
  unfold mount_inputs. destruct network as [m|]; [|done]. case_bool_decide; [done|].
  apply quiet_bind; [apply quiet_createMitmMount|done].
Qed.

Lemma hoare_bail_out inputs dir sock e :
  hoare (holding ({[RListener sock]} ∪ {[RTempDir dir]})) (bail_out dir sock e) (start_post inputs).
Proof.
  unfold bail_out. eapply hoare_bind; [apply hoare_close_listener; set_solver|]. intros []. cbn beta.
  eapply hoare_bind; [apply hoare_removeAll; set_solver|]. intros []. cbn beta.
  apply hoare_ret. intros s Hs. apply released_post, holding_released.
  by rewrite difference_diag_L in Hs.
Qed.

(** The processes of [prepareVmMounts], as events. *)
Lemma hoare_procs_failed program l L :
  NoDup l → (∀ c, RVirtiofsd c ∉ L) →
  hoare (holding L) (each (λ e, log (proc_life e)) (map (PStart program) l ++ map (PKill program) l))
    (λ _, holding L).
Proof.
  intros Hn HL s (H1 & H2 & H3 & H4).
  destruct (each_log proc_life (map (PStart program) l ++ map (PKill program) l) s) as (Ht & Hc & Hr).
  set (rs := map (λ a, RVirtiofsd (program, a)) l).
  assert (Hev : map proc_life (map (PStart program) l ++ map (PKill program) l)
                = map EvOpened rs ++ map EvClosed rs).
  { unfold rs. by rewrite map_app, !map_map. }
  rewrite Hev in Ht. unfold holding. rewrite Ht, Hc. split; [done|].
  destruct (balanced_clean (btrace s) rs rs) as [Hcl Hlive]; [done| |done| |].
  - unfold rs. apply NoDup_fmap_2_strong; [|done]. by intros ?? _ _ [= ->].
  - unfold rs. intros r (a & -> & _)%list_elem_of_fmap. rewrite H3. apply HL.
  - split; [done|]. split; [by rewrite Hlive|by apply Hr].
Qed.

Lemma hoare_procs_started mounts L :
  NoDup (omap v_process mounts) → (∀ c, RVirtiofsd c ∉ L) →
  hoare (holding L) (each (λ e, log (proc_life e))
                          (map (λ c : string * list string, PStart c.1 c.2) (omap v_process mounts)))
    (λ _, holding (list_to_set (held_mounts mounts) ∪ L)).
Proof.
  intros Hn HL s (H1 & H2 & H3 & H4). destruct (each_log proc_life
    (map (λ c : string * list string, PStart c.1 c.2) (omap v_process mounts)) s) as (Ht & Hc & Hr).
  assert (Hev : map proc_life (map (λ c : string * list string, PStart c.1 c.2) (omap v_process mounts))
                = map EvOpened (held_mounts mounts)).
  { unfold held_mounts. rewrite !map_map. apply map_ext. by intros []. }
  rewrite Hev in Ht. unfold holding. rewrite Ht, Hc, live_open, H3.
  split; [done|]. split; [|split; [set_solver|by apply Hr]]. apply clean_open; [done|by apply NoDup_held_mounts|].
  intros r (c & ->)%held_mounts_kind. rewrite H3. apply HL.
Qed.

(** The mounts a backend serves: those of the request and, with a CA, its. *)
Definition ca_mount (dir : string) : Mount :=
  {| GuestPath := "/run/klitka"; HostPath := PathJoin [dir; "mitm-ca"]; Mount_Mode := MountMode.RO |}.
Definition has_ca (network : option networkManager) : bool :=
  match network with Some m => negb (bool_decide (nm_caCertPath m = "")) | None => false end.
Definition all_mounts (req : StartVMRequest) (network : option networkManager) (dir : string)
    : list Mount := Mounts req ++ if has_ca network then [ca_mount dir] else [].

Lemma mount_inputs_Good dir req network s inputs :
  (mount_inputs dir (Mounts req) network s).1 = Good inputs → inputs = all_mounts req network dir.
Proof.
  unfold mount_inputs, all_mounts, has_ca. destruct network as [m|].
  2: { intros [= <-]. by rewrite app_nil_r. }
  case_bool_decide as Hca; [intros [= <-]; by rewrite app_nil_r|]. cbn [negb].
  unfold mbind, B_mbind, createMitmMount. rewrite bool_decide_false by done.
  destruct (existsb _ _); [done|]. unfold mbind, B_mbind, look.
  destruct (on_files (MkdirAll _ _) s) as [[err|] s1]; [done|]. cbn.
  destruct (t_stat _ _) as [[d mode]|]; [|done].
  destruct (on_files (copyFile _ _ mode) s1) as [[err|] s2]; [done|]. by intros [= <-].
Qed.

Lemma hoare_quiet_answer {A C} L (m : B W A) (f : A → B W C) Q :
  quiet m → (∀ a, (∃ s, (m s).1 = a) → hoare (holding L) (f a) Q) →
  hoare (holding L) (m ≫= f) Q.
Proof.
  intros Hm Hf. apply (hoare_bind _ _ _ (λ a s, (∃ s, (m s).1 = a) ∧ holding L s)).
  - intros s Hs. split; [by exists s|]. by apply quiet_holding.
  - intros a. apply hoare_pure. apply Hf.
Qed.

Lemma hoare_newVMBackend id req env network :
  hoare (holding ∅) (newVMBackend id req env network) (start_post (all_mounts req network)).
Proof.
  set (inputs := all_mounts req network).
  assert (Hfail : ∀ e, hoare (holding ∅) (mret (Bad e)) (start_post inputs)).
  { intros e. apply hoare_ret. intros s Hs. by apply released_post, holding_released. }
  unfold newVMBackend. apply hoare_quiet; [apply quiet_look|]. intros venv.
  destruct resolveGuestAssets as [assets|e]; [|apply Hfail].
  destruct resolveQemuPath as [qemuPath|e]; [|apply Hfail].
  eapply hoare_bind; [apply hoare_createTempDir|]. intros [dir|e].
  2: { apply hoare_ret. intros s Hs. by apply released_post, holding_released. }
  apply hoare_pure. intros Htmp. cbv zeta. set (sock := socket_in dir).
  apply hoare_quiet; [apply quiet_on_machine|]. intros [err|].
  { eapply hoare_bind; [apply hoare_removeAll; set_solver|]. intros []. cbn beta.
    apply hoare_ret. intros s Hs. apply released_post, holding_released.
    by rewrite difference_diag_L in Hs. }
  eapply hoare_bind; [apply hoare_open; set_solver|]. intros []. cbn beta.
  set (L := {[RListener sock]} ∪ {[RTempDir dir]}).
  assert (HL : ∀ c, RVirtiofsd c ∉ L) by (intros c; unfold L; set_solver).
  apply hoare_quiet_answer; [apply quiet_mount_inputs|].
  intros [ins|e] [s0 Hins]; [|apply hoare_bail_out]. apply mount_inputs_Good in Hins as ->.
  apply hoare_quiet; [apply quiet_look|]. intros venv2.
  destruct fsBackendFromEnv as [backend|e]; [|apply hoare_bail_out].
  destruct (prepareVmMounts _ _ _ _) as [p procs] eqn:Ep. pose proof Ep as Eshape.
  apply prepareVmMounts_procs in Ep.
  apply hoare_quiet; [apply quiet_effect|]. intros _.
  destruct p as [[[mounts mountArgs] appendArgs]|e].
  - apply prepareVmMounts_shape in Eshape.
    destruct Ep as (Hs & -> & Hn). eapply hoare_bind; [by apply hoare_procs_started|].
    intros []. cbn beta. set (b := {| vb_id := id; vb_mounts := mounts |}).
    eapply hoare_mono; [apply (hoare_launch inputs b); [by split|by exists venv2]| |done].
    intros s' Hs'. eapply (eq_rect_r (λ X, holding X s')); [exact Hs'|].
    unfold held_set, backend_held, b, L. cbn. rewrite list_to_set_app_L. cbn. clear. set_solver.
  - destruct Ep as (program & l & Hn & ->).
    eapply hoare_bind; [by apply hoare_procs_failed|]. intros []. cbn beta. apply hoare_bail_out.
Qed.
End props.
