(* ===== verification/VMBackendLife.v ===== *)
(** * The life of a VM backend: theorems, and a small machine

    What [newVMBackend] and [Close] promise together, how long sockets' paths
    get, which mounts the daemon serves, and that dialling ends. *)
From Stdlib Require Import Ascii.
From S2P Require Export VMBackendProps.

Definition unused {W} (w : W) : bstate W := {| machine := w; bs_closed := false; btrace := []; bs_refused := [] |}.

Lemma holding_unused {W} (w : W) : holding ∅ (unused w).
Proof. split; [done|]. split; [apply clean_nil|]. split; [done|]. by intros d ?%not_elem_of_nil. Qed.

(** ** Lengths *)
Lemma Itoa_4_digits i : Z.of_nat i < 10000 → (slen (Itoa (Z.of_nat i)) ≤ 4)%nat.
Proof.
  intros Hi. assert (H : forallb (λ i, slen (Itoa (Z.of_nat i)) <=? 4)%nat (seq 0 (Z.to_nat 10000)) = true)
    by (by vm_compute).
  rewrite forallb_forall in H. apply Nat.leb_le, H, in_seq. lia.
Qed.

Lemma socket_prefix_fits dir :
  tmp_ok dir → (slen (dir_prefix dir) ≤ 85)%nat.
Proof.
  intros [_ H]. unfold socket_in in H. rewrite PathJoin_name, slen_app in H by (by compute).
  change (slen "virtio.sock") with 11%nat in H. lia.
Qed.

Lemma numbered_sockets_fit (f : string → nat → string) pre dir n :
  (∀ i, f dir i = dir_prefix dir +:+ (pre +:+ Itoa (Z.of_nat i) +:+ ".sock")) →
  (slen pre ≤ 9)%nat → tmp_ok dir → Z.of_nat n < 10000 →
  ∀ sock, sock ∈ map (f dir) (seq 0 n) → (slen sock ≤ 103)%nat.
Proof.
  intros Hf Hpre Hdir Hn sock (i & -> & Hi%elem_of_seq)%list_elem_of_fmap.
  pose proof (socket_prefix_fits dir Hdir). pose proof (Itoa_4_digits i ltac:(lia)).
  rewrite Hf, !slen_app. change (slen ".sock") with 5%nat. lia.
Qed.

Lemma filter_all {A} (P : A → Prop) `{!∀ x, Decision (P x)} l : Forall P l → filter P l = l.
Proof. induction 1; [done|]. rewrite filter_cons_True by done. by f_equal. Qed.
Lemma filter_none {A} (P : A → Prop) `{!∀ x, Decision (P x)} l : Forall (λ x, ¬ P x) l → filter P l = [].
Proof. induction 1; [done|]. by rewrite filter_cons_False. Qed.

Section life.
Context `{UT : UnicodeTables} `{VM : VMMachine W}.

(** C8: starting and stopping a VM backend leaves nothing behind: whatever the
    machine answers, [newVMBackend] opens nothing twice and closes nothing that
    is not open; when it fails, nothing stays open but, if the accept timer
    fired, the console connection that may arrive at that moment; when it
    succeeds, what is open is what the backend holds, [Close] closes all of it,
    and a second [Close] does nothing. (A process counts as closed once it was waited
    for or killed, a directory once [os.RemoveAll] was called for it; the directories
    that call failed for are recorded, and were all given up in this way.) *)
Theorem vm_backend_cleans_up id req env network w r s :
  mkdir_law → newVMBackend id req env network (unused w) = (r, s) →
  clean (btrace s)
  ∧ match r with
    | Bad e => live_of (btrace s) = ∅
               ∨ e = AcceptTimeout ∧ ∃ sock, live_of (btrace s) = {[RConsole sock]}
    | Good b =>
        live_of (btrace s) = list_to_set (backend_held b) ∧
        let s' := (backend_Close b s).2 in
        clean (btrace s') ∧ live_of (btrace s') = ∅ ∧ backend_Close b s' = ((), s') ∧ refused_ok s'
    end
  ∧ refused_ok s.
Proof.
  intros Hm Hr. pose proof (hoare_newVMBackend Hm id req env network (unused w) (holding_unused w)) as H.
  rewrite Hr in H. cbn [fst snd] in H. destruct r as [b|e].
  2: { destruct H as [(?&?&?)|(-> & sock & ?&?&?)]; split_and!; try done; [by left|right; by eauto]. }
  destruct H as [[[Ht _] _ Hn _ _] Hh]. pose proof Hh as (Hc & Hcl & Hl & Hre).
  split; [done|]. split; [|done]. split; [done|]. cbv zeta.
  destruct (backend_Close_trace b s Ht Hc) as (_ & Hclosed & _).
  destruct (hoare_backend_Close b (held_set b) Ht Hn) with (s := s) as (H1 & H2 & H3); [|exact Hh|].
  { intros x Hx. by apply elem_of_list_to_set. }
  split; [done|]. split; [by rewrite H2; apply difference_diag_L|]. split; [by apply backend_Close_again|done].
Qed.

(** C38: every socket path of a backend fits in a Unix socket address (104 bytes
    with its terminator on macOS): [createTempDir] measures only the console
    socket's path, but up to 9998 mounts their sockets' paths have at most 103
    bytes. *)
Theorem backend_sockets_fit id req env network w b :
  mkdir_law → (newVMBackend id req env network (unused w)).1 = Good b →
  Z.of_nat (length (Mounts req)) < 9999 →
  ∀ sock, sock ∈ vb_socketPath b :: map v_socketPath (vb_mounts b) → (slen sock ≤ 103)%nat.
Proof.
  intros Hm Hr Hlen. pose proof (hoare_newVMBackend Hm id req env network (unused w) (holding_unused w)) as H.
  rewrite Hr in H. destruct H as [[Hdir Hsock _ _ (venv & Hprep & Hshape)] _].
  assert (Hn : Z.of_nat (length (vb_mounts b)) < 10000).
  { rewrite <-(Forall2_length _ _ _ Hprep). unfold all_mounts. rewrite length_app.
    destruct (has_ca network); simpl; lia. }
  intros sock [->|Hin]%elem_of_cons.
  - rewrite Hsock. destruct Hdir. lia.
  - destruct Hshape as [[_ Hs]|[_ Hs]]; rewrite Hs in Hin; revert sock Hin.
    + eapply numbered_sockets_fit; [intros i; apply (fsrpc_socket_eq (vb_tempDir b) i)|simpl; lia|done|done].
    + eapply numbered_sockets_fit; [intros i; apply (virtiofs_socket_eq (vb_tempDir b) i)|simpl; lia|done|done].
Qed.

(** The state of an FS-RPC mount that serves [req], when it starts; [wd]: what
    [os.Getwd] answered. *)
Definition serves (wd : option string) (req : Mount) (m : FsrpcMount.fsrpcMount) : Prop :=
  ∃ now md, m = FsrpcMount.newFSRPCMount wd now (Clean (HostPath req)) md
    ∧ (FsrpcMount.readOnly m = true ↔ Mount_Mode req = MountMode.RO ∨ Mount_Mode req = MountMode.UNSPECIFIED).

Lemma servers_serve id req env network w b :
  mkdir_law → (newVMBackend id req env network (unused w)).1 = Good b →
  (vb_servers b = [] ∧ Forall (λ m, v_rpc m = false) (vb_mounts b))
  ∨ Forall2 (λ q s, ∃ w, serves (@e_getwd (m_env w)) q s.2) (all_mounts req network (vb_tempDir b)) (vb_servers b).
Proof.
  intros Hm Hr. pose proof (hoare_newVMBackend Hm id req env network (unused w) (holding_unused w)) as H.
  rewrite Hr in H. destruct H as [[_ _ _ Hserv (venv & Hprep & Hshape)] _]. unfold rpc_mounts in Hserv.
  destruct Hshape as [[Hrpc _]|[Hrpc _]].
  - right. rewrite (filter_all _ (vb_mounts b)) in Hserv by done.
    revert Hserv. generalize (vb_servers b). clear -Hprep.
    induction Hprep as [|q m qs ms Hq _ IH]; intros servers Hs; inversion Hs as [|? x ? ? Hx Hxs]; subst;
      constructor; [|by apply IH].
    destruct x as [sock fm]. destruct Hx as (_ & wo & now & Hx). cbn in Hx. subst fm.
    destruct Hq as (_ & _ & Hh & _ & Hmode). unfold serves. cbn.
    rewrite Hh. exists wo, now, (v_mode m). split; [done|]. unfold FsrpcMount.readOnly. cbn. rewrite Hmode.
    unfold MountMode.UNSPECIFIED, MountMode.RO.
    destruct (Z.eqb_spec (Mount_Mode q) 0) as [->|Hu]; [simpl; split; auto|].
    destruct (Z.eqb_spec (Mount_Mode q) 0); [done|]. rewrite Z.eqb_eq. split; [by left|]. by intros [?|?].
  - left. rewrite filter_none in Hserv.
    + split; [by inversion Hserv|done].
    + eapply Forall_impl; [exact Hrpc|]. intros m H. by rewrite H.
Qed.

(** What the daemon serves of a mount. *)
Definition served_as (req : Mount) (s : string * FsrpcMount.fsrpcMount) : Prop :=
  (∃ wd, FsrpcMount.root s.2 = Clean (default (Clean (HostPath req)) (FsrpcMount.Abs wd (Clean (HostPath req)))))
  ∧ (FsrpcMount.readOnly s.2 = true
     ↔ Mount_Mode req = MountMode.RO ∨ Mount_Mode req = MountMode.UNSPECIFIED).

(** the mounts of a VM are served as the request says: with the FS-RPC
    backend there is one server for each mount of the request, in order, and
    one for the certificate of the intercepting proxy if it has a CA, rooted at
    the mount's host path, and read-only unless the request says otherwise;
    with virtiofs there is none. *)
Theorem mounts_served_as_asked id req env network w b :
  mkdir_law → (newVMBackend id req env network (unused w)).1 = Good b →
  let asked := Mounts req ++ if has_ca network then [ca_mount (vb_tempDir b)] else [] in
  (vb_servers b = [] ∧ Forall (λ m, v_rpc m = false) (vb_mounts b))
  ∨ Forall2 served_as asked (vb_servers b).
Proof.
  intros Hm Hr. destruct (servers_serve id req env network w b Hm Hr) as [H|H]; [by left|right].
  eapply Forall2_impl; [exact H|]. intros q [sock m] (wd & now & md & Hx & Hro). cbn in Hx. subst m.
  split; [by exists (@e_getwd (m_env wd))|exact Hro].
Qed.

(** ** Dialling *)

(** Sleeping takes at least its time, and dialling does not turn the clock
    back. *)
Definition clock_laws : Prop :=
  (∀ d w, 0 ≤ d → m_now w + d ≤ m_now (m_sleep d w))
  ∧ ∀ p w, m_now w ≤ m_now (m_dial p w).2.

Lemma dial_loop_returns path deadline fuel : clock_laws → ∀ s,
  deadline < m_now (machine s) + Z.of_nat fuel * (50 * millisecond) - 50 * millisecond →
  (1 ≤ fuel)%nat →
  ∃ r, (dial_loop fuel path deadline s).1 = Some r
    ∧ (r ≠ None → deadline < m_now (machine (dial_loop fuel path deadline s).2)).
Proof.
  intros [Hsleep Hdial]. induction fuel as [|k IH]; intros s Hd Hf; [lia|]. cbn [dial_loop].
  unfold mbind, B_mbind, on_machine. pose proof (Hdial path (machine s)) as Hw.
  destruct (m_dial path (machine s)) as [[err|] w]; cbn [fst snd] in *; [|by exists None].
  unfold look. cbn [machine]. destruct (Z.ltb_spec deadline (m_now w)); [by exists (Some err)|].
  assert (Hk : (1 ≤ k)%nat).
  { destruct k; [|lia]. unfold millisecond in *. lia. }
  unfold effect, on_machine. cbn [machine].
  pose proof (Hsleep (50 * millisecond) w ltac:(unfold millisecond; lia)).
  apply IH; [cbn [machine]; unfold millisecond in *; lia|done].
Qed.

(** [dialUnixSocket] returns: if the clock advances while it sleeps, the
    loop ends with a connection, or with the last dial's error once the
    timeout has passed. *)
Theorem dialUnixSocket_returns path timeout s :
  clock_laws → 0 ≤ timeout →
  ∃ r, (dialUnixSocket path timeout s).1 = Some r
    ∧ (r ≠ None → m_now (machine s) + timeout < m_now (machine (dialUnixSocket path timeout s).2)).
Proof.
  intros Hc Ht. unfold dialUnixSocket, mbind, B_mbind, look.
  apply dial_loop_returns; [done| |unfold dial_fuel; lia].
  unfold dial_fuel. pose proof (Z.div_pos timeout (50 * millisecond) ltac:(done) ltac:(done)).
  rewrite !Nat2Z.inj_succ, Z2Nat.id by done.
  pose proof (Z.mod_pos_bound timeout (50 * millisecond) ltac:(done)).
  pose proof (Z.div_mod timeout (50 * millisecond) ltac:(done)). lia.
Qed.
End life.

(** ** A small machine

    Its state is a clock in nanoseconds; a socket can be dialled after 120 ms,
    and the console connection is as the parameter says. *)
Section demo.
#[local] Existing Instance ascii_tables.

Definition demo_env : VMEnv := {|
  e_getenv k := if bool_decide (k = "KLITKA_GUEST_KERNEL") then "/g/vmlinuz"
                else if bool_decide (k = "KLITKA_GUEST_INITRD") then "/g/initrd"
                else if bool_decide (k = "KLITKA_FS_BACKEND") then "fsrpc" else "";
  e_goos := "linux"; e_goarch := "amd64"; e_open_kvm := true; e_geteuid := 1000;
  e_stat p := Some true; e_lookpath p := true;
  e_getwd := Some "/srv"; e_executable := None; e_start _ _ := None
|}.

#[local] Instance demo_tree : HostTree Z := {|
  t_stat p w := Good (false, 420); t_walk p w := [];
  t_mkdirAll p m w := (None, w); t_open p w := (None, w); t_create p w := (None, w);
  t_copy a b w := (None, w); t_fchmod p m w := (None, w); t_chmod p m w := (None, w)
|}.

Definition demo_machine (accept : accept_result) : VMMachine Z := {|
  m_env _ := demo_env; m_tree := demo_tree; m_tempDir _ := "/tmp";
  m_mkdirTemp dir prefix w := (Good (dir +:+ "/" +:+ prefix +:+ "1"), w);
  m_removeAll _ w := (None, w); m_listen _ w := (None, w); m_spawned _ w := w;
  m_start _ w := (None, w); m_signal _ w := w; m_kill _ w := w; m_ends _ w := (true, w);
  m_dial _ w := (if w <? 120 * millisecond then Some "refused" else None, w);
  m_now w := w; m_sleep d w := w + d; m_accept _ w := (accept, w)
|}.

Definition demo_req : StartVMRequest := {|
  Network := None; Secrets := [];
  Mounts := [ {| GuestPath := "/work"; HostPath := "/home/u/p"; Mount_Mode := MountMode.RW |};
              {| GuestPath := "/data"; HostPath := "/home/u/d"; Mount_Mode := MountMode.UNSPECIFIED |} ]
|}.
Definition demo_network : networkManager := {|
  nm_vmID := "v"; nm_policy := {| allowHosts := []; denyHosts := []; blockPrivateRange := false;
                                  egressMode := 1; dnsMode := 1; trustedDNSServers := [] |};
  nm_port := 4000; nm_env := []; nm_caCertPath := "/ca/ca.crt"; nm_strictTransport := None |}.
Definition demo_start (accept : accept_result) : osres vm_start_error vmBackend * bstate Z :=
  @newVMBackend _ _ (demo_machine accept) "v" demo_req [] (Some demo_network) (unused 0).

Definition demo_backend : vmBackend :=
  match (demo_start Accepted).1 with Good b => b
  | Bad _ => {| vb_id := ""; vb_assets := {| ga_kernel := ""; ga_initrd := ""; ga_append := "" |};
                vb_qemu := None; vb_waiter := false; vb_console := false; vb_tempDir := "";
                vb_socketPath := ""; vb_mounts := []; vb_servers := []; vb_env := [] |}
  end.

Lemma demo_mkdir accept : @mkdir_law Z (demo_machine accept).
Proof. intros dir prefix w t [= <-]. by destruct dir. Qed.

Lemma demo_network_good : (demo_start Accepted).1 = Good demo_backend.
Proof. by vm_compute. Qed.

Lemma demo_start_eq accept :
  @newVMBackend _ _ (demo_machine accept) "v" demo_req [] (Some demo_network) (unused 0)
  = demo_start accept.
Proof. unfold demo_start. reflexivity. Qed.

Lemma pair_with_fst {A B} (p : A * B) a : p.1 = a → p = (a, p.2).
Proof. destruct p. by intros <-. Qed.

Lemma demo_started : demo_start Accepted = (Good demo_backend, (demo_start Accepted).2).
Proof. exact (pair_with_fst _ _ demo_network_good). Qed.

Example backend_values :
  map v_socketPath (vb_mounts demo_backend)
  = ["/tmp/klitka-vm-v-1/fsrpc-0.sock"; "/tmp/klitka-vm-v-1/fsrpc-1.sock"; "/tmp/klitka-vm-v-1/fsrpc-2.sock"]
  ∧ length (btrace (demo_start Accepted).2) = 8%nat
  ∧ map (λ s, FsrpcMount.readOnly s.2) (vb_servers demo_backend) = [false; true; true].
Proof. by vm_compute. Qed.

Lemma vm_backend_cleans_up_witness :
  clean (btrace (demo_start Accepted).2)
  ∧ live_of (btrace (demo_start Accepted).2) = list_to_set (backend_held demo_backend)
  ∧ let s' := (@backend_Close _ (demo_machine Accepted) demo_backend (demo_start Accepted).2).2 in
    clean (btrace s') ∧ live_of (btrace s') = ∅
    ∧ @backend_Close _ (demo_machine Accepted) demo_backend s' = ((), s').
Proof.
  destruct (@vm_backend_cleans_up _ _ (demo_machine Accepted) "v" demo_req [] (Some demo_network) 0
           (Good demo_backend) (demo_start Accepted).2 (demo_mkdir Accepted)
           (eq_trans (demo_start_eq Accepted) demo_started)) as (H1 & (H2 & H3 & H4 & H5 & _) & _).
  exact (conj H1 (conj H2 (conj H3 (conj H4 H5)))).
Defined.

Lemma backend_sockets_fit_witness :
  (slen "/tmp/klitka-vm-v-1/fsrpc-2.sock" ≤ 103)%nat.
Proof.
  refine (@backend_sockets_fit _ _ (demo_machine Accepted) "v" demo_req [] (Some demo_network) 0
           demo_backend (demo_mkdir Accepted)
           (eq_trans (f_equal fst (demo_start_eq Accepted)) demo_network_good) ltac:(by vm_compute) _ _).
  apply elem_of_cons. right. change (map v_socketPath (vb_mounts demo_backend)) with
    ["/tmp/klitka-vm-v-1/fsrpc-0.sock"; "/tmp/klitka-vm-v-1/fsrpc-1.sock"; "/tmp/klitka-vm-v-1/fsrpc-2.sock"].
  right. right. left.
Defined.

Lemma mounts_served_as_asked_witness :
  (vb_servers demo_backend = [] ∧ Forall (λ m, v_rpc m = false) (vb_mounts demo_backend))
  ∨ Forall2 served_as (Mounts demo_req ++ [ca_mount "/tmp/klitka-vm-v-1"]) (vb_servers demo_backend).
Proof.
  exact (@mounts_served_as_asked _ _ (demo_machine Accepted) "v" demo_req [] (Some demo_network) 0
           demo_backend (demo_mkdir Accepted)
           (eq_trans (f_equal fst (demo_start_eq Accepted)) demo_network_good)).
Defined.

Lemma dialUnixSocket_returns_witness :
  ∃ r, (@dialUnixSocket _ (demo_machine Accepted) "/s" (1 * second) (unused 0)).1 = Some r
  ∧ (r ≠ None → 0 + 1 * second
       < @m_now _ (demo_machine Accepted) (machine (@dialUnixSocket _ (demo_machine Accepted) "/s" (1 * second) (unused 0)).2)).
Proof.
  exact (@dialUnixSocket_returns _ (demo_machine Accepted) "/s" (1 * second) (unused 0)
           (conj (λ d w _, Z.le_refl (w + d)) (λ p w, Z.le_refl w)) ltac:(done)).
Defined.

#[local] Instance life_eq : EqDecision (life vm_resource).
Proof. solve_decision. Defined.

(** A connection that arrives as the timer fires is never closed. *)
Theorem late_console_leaks :
  (demo_start (AcceptTimedOut true)).1 = Bad AcceptTimeout
  ∧ let console := RConsole "/tmp/klitka-vm-v-1/virtio.sock" in
    filter (λ e, e = EvOpened console ∨ e = EvClosed console)
           (btrace (demo_start (AcceptTimedOut true)).2) = [EvOpened console].
Proof. by vm_compute. Qed.
End demo.
