(* ===== verification/VMServiceHost.v ===== *)
(** * What the service promises of its backends, for every machine that keeps
      the interface's laws

    [VMHostLaws] states what the service relies on: starting a backend makes
    one more run, closing it makes it stop, and nothing else does either.  The
    service then keeps the backends that run and its own account of them in
    step, however its calls interleave. *)
From Stdlib Require Import Ascii.
From S2P Require Export VMConcurrent.

(** [h_running]: the backends that run; [h_ok]: an invariant of the machine. *)
Class VMHostLaws (W : Type) `{VMHost W} := {
  h_running : W → gset string;
  h_ok : W → Prop;
  law_listen w : h_ok w → h_ok (h_listen w).2 ∧ h_running (h_listen w).2 = h_running w;
  law_listen_close w :
    h_ok w → h_ok (h_listen_close w).2 ∧ h_running (h_listen_close w).2 = h_running w;
  law_ca w : h_ok w → h_ok (h_loadOrCreateCA w).2 ∧ h_running (h_loadOrCreateCA w).2 = h_running w;
  law_random w : h_ok w → h_ok (h_random w).2 ∧ h_running (h_random w).2 = h_running w;
  law_prepare w :
    h_ok w → h_ok (h_strictPrepare w).2 ∧ h_running (h_strictPrepare w).2 = h_running w;
  law_factory id port w :
    h_ok w → h_ok (h_strictFactory id port w).2 ∧ h_running (h_strictFactory id port w).2 = h_running w;
  law_strict_close a w :
    h_ok w → h_ok (h_strictClose a w).2 ∧ h_running (h_strictClose a w).2 = h_running w;
  law_vmBackend id req env n w :
    h_ok w → id ∉ h_running w →
    h_ok (h_vmBackend id req env n w).2
    ∧ h_running (h_vmBackend id req env n w).2
      = match (h_vmBackend id req env n w).1 with
        | Good _ => {[id]} ∪ h_running w
        | Bad _ => h_running w
        end;
  law_hostBackend id req env w :
    h_ok w → id ∉ h_running w →
    h_ok (h_hostBackend id req env w).2
    ∧ h_running (h_hostBackend id req env w).2
      = match (h_hostBackend id req env w).1 with
        | Good _ => {[id]} ∪ h_running w
        | Bad _ => h_running w
        end;
  law_close id w :
    h_ok w → h_ok (h_backendClose id w).2
             ∧ h_running (h_backendClose id w).2 = h_running w ∖ {[id]}
}.

Section props.
Context `{UT : UnicodeTables} `{VH : VMHost W} `{HL : !VMHostLaws W}.
Implicit Types s : service W.

Definition agree s : Prop :=
  h_ok (host s) ∧ ∀ id, id ∈ h_running (host s) ↔ RBackend id ∈ live_of (trace s).

(** Operations that concern no backend. *)
#[local] Abbreviation neutral := (neutral agree RBackend).

Lemma neutral_act {A} (f : W → A * W) :
  (∀ w, h_ok w → h_ok (f w).2 ∧ h_running (f w).2 = h_running w) → neutral (act f).
Proof.
  intros Hf s [Hok Hs]. unfold act. destruct (Hf (host s) Hok) as [H1 H2].
  destruct (f (host s)) as [a w]. cbn in *. split; [|done]. split; [done|]. cbn. by rewrite H2.
Qed.
Definition backend_event (e : vm_event) : bool :=
  match e with EvOpened (RBackend _) | EvClosed (RBackend _) => true | _ => false end.
Lemma neutral_ev e : backend_event e = false → neutral (ev e).
Proof.
  intros He s [Hok Hs]. unfold ev. cbn [snd trace host].
  assert (Hl : ∀ id, RBackend id ∈ live_of (trace s ++ [e]) ↔ RBackend id ∈ live_of (trace s)).
  { intros id. rewrite live_of_snoc. destruct e as [[]|[]]; try done; cbn [live_step]; set_solver. }
  split; [|done]. split; [done|]. intros id. cbn [trace host]. by rewrite Hl.
Qed.
Lemma neutral_set_closed id e : neutral (set_closed id e).
Proof. done. Qed.

Lemma neutral_proxy_Close id : neutral (proxy_Close id).
Proof. apply neutral_bind; [by apply neutral_ev|]. intros _. apply neutral_act, law_listen_close. Qed.

Lemma neutral_manager_Close m : neutral (manager_Close m).
Proof.
  intros s Hs. unfold manager_Close. destruct (closed_managers s !! _); [done|].
  apply neutral_bind; [| |exact Hs].
  - destruct (nm_strictTransport m); [|apply neutral_ret].
    apply neutral_bind; [by apply neutral_ev|]. intros _. apply neutral_act, law_strict_close.
  - intros e1. apply neutral_bind; [apply neutral_proxy_Close|]. intros e2.
    apply neutral_bind; [apply neutral_set_closed|]. intros; apply neutral_ret.
Qed.

Lemma neutral_network_Close n : neutral (network_Close n).
Proof. destruct n; [apply neutral_manager_Close|apply neutral_ret]. Qed.
Lemma neutral_abandon n e : neutral (abandon n e).
Proof. apply neutral_bind; [apply neutral_network_Close|]. intros; apply neutral_ret. Qed.

Lemma neutral_newProxyServer id p secrets : neutral (newProxyServer id p secrets).
Proof.
  apply neutral_bind; [apply neutral_act, law_listen|]. intros [port|e]; [|apply neutral_ret].
  apply neutral_bind; [by apply neutral_ev|]. intros _. case_bool_decide; [apply neutral_ret|].
  apply neutral_bind; [apply neutral_act, law_ca|]. intros [path|e]; [apply neutral_ret|].
  apply neutral_bind; [by apply neutral_ev|]. intros _.
  apply neutral_bind; [apply neutral_act, law_listen_close|]. intros; apply neutral_ret.
Qed.

Lemma neutral_start_strict id p port : neutral (start_strict id p port).
Proof.
  unfold start_strict. destruct (_ =? _); [|apply neutral_ret].
  apply neutral_bind; [apply neutral_act, law_prepare|]. intros [e|].
  { apply neutral_bind; [apply neutral_proxy_Close|]. intros; apply neutral_ret. }
  apply neutral_bind; [apply neutral_act, law_factory|]. intros [[a|]|e].
  - apply neutral_bind; [by apply neutral_ev|]. intros; apply neutral_ret.
  - apply neutral_ret.
  - apply neutral_bind; [apply neutral_proxy_Close|]. intros; apply neutral_ret.
Qed.

Lemma neutral_newNetworkManager id req : neutral (newNetworkManager id req).
Proof.
  unfold newNetworkManager. destruct (buildNetworkPolicy _); [|apply neutral_ret].
  destruct (validateNetworkPolicy _); [apply neutral_ret|].
  apply neutral_bind; [apply neutral_act, law_random|]. intros rands.
  destruct (buildSecrets _ _) as [[specs senv]|]; [|apply neutral_ret].
  destruct (_ && _); [apply neutral_ret|].
  apply neutral_bind; [apply neutral_newProxyServer|]. intros [[port ca]|e]; [|apply neutral_ret].
  apply neutral_bind; [apply neutral_start_strict|]. intros []; apply neutral_ret.
Qed.

(** Operations of a VM whose backend does not run yet. *)
Definition starts (id : string) {A} (m : M W A) : Prop :=
  ∀ s, agree s → RBackend id ∉ live_of (trace s) → agree (m s).2.

Lemma starts_neutral id {A} (m : M W A) : neutral m → starts id m.
Proof. intros Hm s Hs _. by apply Hm. Qed.
Lemma starts_bind id {A B} (m : M W A) (f : A → M W B) :
  neutral m → (∀ a, starts id (f a)) → starts id (m ≫= f).
Proof.
  intros Hm Hf s Hs Hid. unfold mbind, M_mbind. destruct (Hm s Hs) as [H1 H2].
  destruct (m s) as [a s1]. apply Hf; [done|]. by rewrite H2.
Qed.

Lemma starts_backend id (f : W → osres backend_error () * W) {A} (g : osres backend_error () → M W A) :
  (∀ w, h_ok w → id ∉ h_running w → h_ok (f w).2
        ∧ h_running (f w).2 = match (f w).1 with Good _ => {[id]} ∪ h_running w | Bad _ => h_running w end) →
  neutral (g (Good ())) → (∀ e, starts id (g (Bad e))) →
  starts id (start_backend id f ≫= g).
Proof.
  intros Hf Hgood Hbad s [Hok Hs] Hid. unfold start_backend, act, mbind, M_mbind.
  destruct (Hf (host s) Hok) as [H1 H2]; [by rewrite Hs|].
  destruct (f (host s)) as [[[]|e] w]; cbn [fst snd] in *.
  - cbn. apply Hgood. split; [done|]. cbn [host trace]. intros k. rewrite live_of_snoc. cbn [live_step].
    rewrite H2, !elem_of_union, !elem_of_singleton, Hs. naive_solver.
  - apply Hbad; [|done]. split; [done|]. cbn [host trace]. intros k. by rewrite H2.
Qed.

Lemma starts_newVM_host id req env n : starts id (newVM_host id req env n).
Proof.
  apply starts_backend; [intros; by apply law_hostBackend|apply neutral_ret|].
  intros e. apply starts_neutral, neutral_abandon.
Qed.

Lemma starts_newVM id req : starts id (newVM id req).
Proof.
  apply starts_bind; [apply neutral_newNetworkManager|].
  intros [n|e]; [|apply starts_neutral, neutral_ret]. cbv zeta.
  apply starts_bind; [done|]. intros mode.
  destruct (_ && _); [apply starts_neutral, neutral_abandon|].
  destruct (_ || _); [|apply starts_newVM_host].
  apply starts_backend; [intros w Hw Hid; apply (law_vmBackend id req (match n with Some m => nm_env m | None => [] end) n w Hw Hid)|apply neutral_ret|]. intros e.
  case_bool_decide; [apply starts_neutral, neutral_abandon|].
  destruct e; [|apply starts_neutral, neutral_abandon].
  destruct (requiresStrictEgress req); [apply starts_neutral, neutral_abandon|].
  apply starts_newVM_host.
Qed.

Lemma agree_close_vm vm s : agree s → agree (close_vm vm s).2.
Proof.
  intros [Hok Hs]. unfold close_vm, ev, act, mbind, M_mbind. cbn [host vms closed_managers trace].
  destruct (law_close (vm_ID vm) (host s) Hok) as [H1 H2].
  destruct (h_backendClose (vm_ID vm) (host s)) as [e w]. cbn [fst snd] in *.
  set (s1 := {| vms := vms s; closed_managers := closed_managers s; host := w; trace := _ |}).
  assert (Hs1 : agree s1).
  { split; [done|]. cbn [s1 host trace]. intros k. rewrite live_of_snoc. cbn [live_step].
    rewrite H2, !elem_of_difference, !elem_of_singleton, Hs. naive_solver. }
  destruct (vm_Network vm) as [m|]; [|done].
  pose proof (neutral_manager_Close m s1 Hs1) as [H3 _]. by destruct (manager_Close m s1).
Qed.
End props.

Section conc.
Context `{UT : UnicodeTables} `{VH : VMHost W} `{HL : !VMHostLaws W}.
Variable calls : list thread.

Definition inv_host (c : config) : Prop := inv calls c ∧ agree c.1.

Lemma sstep_host c c' : inv_host c → sstep c c' → inv_host c'.
Proof.
  intros [Hi Ha] Hstep. split; [by eapply sstep_inv|].
  destruct Hi as (_ & _ & [Hids _ _ _ Hlive]).
  destruct Hstep as [s ts1 ts2 id req|s ts1 ts2 vm|s ts1 ts2|s ts1 ts2 id Hne|s ts1 ts2 vm];
    cbn [fst snd] in *; try done.
  - apply starts_newVM; [done|]. rewrite Hlive. intros Hin.
    unfold holdings in Hin. apply elem_of_list_to_set, list_elem_of_bind in Hin as (vm & Hr & Hvm).
    apply elem_of_app in Hr as [Hr|Hr%list_elem_of_singleton].
    { destruct (vm_Network vm) as [m|]; [|by apply not_elem_of_nil in Hr]. simpl in Hr.
      destruct (nm_strictTransport m); set_solver. }
    injection Hr as Hr. apply NoDup_app in Hids as (_ & Hids & _).
    apply (Hids id); [|rewrite omap_app; cbn; set_solver].
    apply list_elem_of_fmap. by exists vm.
  - unfold take_vm. by destruct (vms s !! id).
  - by apply agree_close_vm.
Qed.

(** Whatever the interleaving, the backends that run are those of the VMs of
    the table and of the calls in progress. *)
Lemma running_backends w s ts :
  h_ok w → h_running w = ∅ → Forall is_call calls → NoDup (omap drawn calls) →
  star sstep (NewService w, calls) (s, ts) →
  h_ok (host s) ∧ h_running (host s) = list_to_set (map vm_ID (owners s ts)).
Proof.
  intros Hok Hw Hc Hn Hr.
  destruct (star_invariant sstep inv_host sstep_host _ _ Hr) as [[_ [_ [_ _ Hok' _ Hlive]]] [Ha Hrun]].
  { split; [by apply inv_start|]. split; [done|]. cbn. intros id. rewrite Hw. done. }
  cbn [fst snd] in *. split; [done|]. apply set_eq. intros id. rewrite Hrun, Hlive.
  unfold holdings. rewrite !elem_of_list_to_set, list_elem_of_bind, list_elem_of_fmap. split.
  - intros (vm & Hvm & Hin). exists vm. split; [|done].
    apply elem_of_app in Hvm as [Hvm|Hvm%list_elem_of_singleton]; [|by injection Hvm].
    destruct (vm_Network vm) as [m|]; [|by apply not_elem_of_nil in Hvm]. simpl in Hvm.
    destruct (nm_strictTransport m); set_solver.
  - intros (vm & -> & Hin). exists vm. split; [|done]. unfold held. set_solver.
Qed.
End conc.
