(* ===== verification/ServiceCallsProps.v ===== *)
(** * Nothing leaks and strict egress is kept, however handlers interleave

    Each VM's resources are changed by one call at a time: the StartVM that makes
    it, then, once it has taken the VM from the table, one StopVM.  [wp] is a rule
    for such calls that survives the actions of all the others; the theorems are
    about every interleaving of the actions of [ServiceCalls]. *)
From Stdlib Require Import Ascii.
From S2P Require Export ServiceCalls VMServiceHost.
From S2P Require Import MemVM.
From stdpp Require Import relations functions.
#[local] Open Scope Z_scope.

Definition is_good {E A} (r : osres E A) : bool := match r with Good _ => true | Bad _ => false end.

(** What is known of a host, VM by VM.  [bv_at id b p w]: if [b], the backend of VM
    [id] runs, else it does not; its strict transport sends to port [p], or it has
    none.  [bv_ready w]: the host was prepared for strict transports; [bv_id id]: what
    they need of an id; [bv_anchor id a]: [a] names the transport of VM [id]. *)
Class BackendView (W : Type) `{VH : VMHost W} := {
  bv_at : string → bool → option Z → W → Prop;
  bv_ready : W → Prop;
  bv_id : string → Prop;
  bv_anchor : string → string → Prop;
  bv_kept (w w' : W) : Prop := (∀ k b p, bv_at k b p w → bv_at k b p w') ∧ (bv_ready w → bv_ready w');
  bv_aside (id : string) (w w' : W) : Prop :=
    (∀ k b p, k ≠ id → bv_at k b p w → bv_at k b p w') ∧ (bv_ready w → bv_ready w');
  bv_listen w : bv_kept w (h_listen w).2;
  bv_listen_close w : bv_kept w (h_listen_close w).2;
  bv_ca w : bv_kept w (h_loadOrCreateCA w).2;
  bv_random w : bv_kept w (h_random w).2;
  bv_exec id c args w : bv_kept w (h_backendExec id c args w).2;
  bv_exec_stream id st w : bv_kept w (h_backendExecStream id st w).2;
  bv_prepare w :
    bv_kept w (h_strictPrepare w).2
    ∧ ∀ k b p, bv_at k b p w → (h_strictPrepare w).1 = None → bv_ready (h_strictPrepare w).2;
  bv_factory id port b w :
    bv_id id → bv_ready w → bv_at id b None w →
    match (h_strictFactory id port w).1 with
    | Good (Some a) => bv_anchor id a ∧ bv_at id b (Some port) (h_strictFactory id port w).2
    | _ => bv_at id b None (h_strictFactory id port w).2
    end ∧ bv_aside id w (h_strictFactory id port w).2;
  bv_strict_close id a b port w :
    bv_anchor id a → bv_at id b (Some port) w →
    bv_at id b None (h_strictClose a w).2 ∧ bv_aside id w (h_strictClose a w).2;
  bv_vmBackend id req env n p w :
    bv_at id false p w →
    bv_at id (is_good (h_vmBackend id req env n w).1) p (h_vmBackend id req env n w).2
    ∧ bv_aside id w (h_vmBackend id req env n w).2;
  bv_hostBackend id req env p w :
    bv_at id false p w →
    bv_at id (is_good (h_hostBackend id req env w).1) p (h_hostBackend id req env w).2
    ∧ bv_aside id w (h_hostBackend id req env w).2;
  bv_close id p w :
    bv_at id true p w →
    bv_at id false p (h_backendClose id w).2 ∧ bv_aside id w (h_backendClose id w).2
}.

(** Nothing is known. *)
Definition no_view `{VH : VMHost W} : BackendView W.
Proof.
  refine {| bv_at := λ _ _ _ _, True; bv_ready := λ _, True; bv_id := λ _, True; bv_anchor := λ _ _, True |};
    try done.
  intros. by repeat case_match.
Defined.

(** A VM's part of the state: what of it is open; whether its manager may be
    closed; the port of its strict transport; whether the host is known to be
    prepared for one. *)
Record stake := Stake {
  sk_open : gset resource;
  sk_closed : bool;
  sk_port : option Z;
  sk_ready : bool
}.

Section rule.
Context `{UT : UnicodeTables} `{BV : BackendView W}.
Abbreviation G := (acts (service W)).
Implicit Types (s : service W) (L : gset resource) (id : string) (K : stake) (p : option Z) (rd : bool).

(** ** A VM's part of the state *)
Record mine id K s : Prop := {
  mi_live : ∀ r, res_vm r = id → (r ∈ live_of (trace s) ↔ r ∈ sk_open K);
  mi_open : sk_closed K = false → closed_managers s !! id = None;
  mi_run : bv_at id (bool_decide (RBackend id ∈ sk_open K)) (sk_port K) (host s);
  mi_ready : sk_ready K = true → bv_ready (host s)
}.
(** The rest stays. *)
Record apart id s s' : Prop := {
  ap_live : ∀ r, res_vm r ≠ id → (r ∈ live_of (trace s') ↔ r ∈ live_of (trace s));
  ap_closed : ∀ k, k ≠ id → closed_managers s' !! k = closed_managers s !! k;
  ap_vms : vms s' = vms s;
  ap_run : bv_aside id (host s) (host s')
}.

Lemma kept_refl (w : W) : bv_kept w w.
Proof. done. Qed.
Lemma kept_aside id (w w' : W) : bv_kept w w' → bv_aside id w w'.
Proof. intros [H1 H2]. split; [by intros k b p _; apply H1|done]. Qed.
Lemma aside_trans id (w1 w2 w3 : W) : bv_aside id w1 w2 → bv_aside id w2 w3 → bv_aside id w1 w3.
Proof. intros [H1 H2] [J1 J2]. split; [intros k b p Hk Hw; apply J1, H1; done|auto]. Qed.
#[local] Hint Resolve kept_refl kept_aside : core.

Lemma mine_apart id k K s s' : k ≠ id → apart id s s' → mine k K s → mine k K s'.
Proof.
  intros Hne [A1 A2 A3 [A4 A5]] [M1 M2 M3 M4]. split; [| |by apply A4|auto].
  - intros r Hr. rewrite A1 by (by rewrite Hr). by apply M1.
  - intros Hc. rewrite A2 by done. by apply M2.
Qed.
Lemma apart_refl id s : apart id s s.
Proof. by split; [..|apply kept_aside, kept_refl]. Qed.
Lemma apart_trans id s1 s2 s3 : apart id s1 s2 → apart id s2 s3 → apart id s1 s3.
Proof.
  intros [A1 A2 A3 A4] [B1 B2 B3 B4]. split; [| | |by eapply aside_trans].
  - intros r Hr. by rewrite B1, A1.
  - intros k Hk. by rewrite B2, A2.
  - congruence.
Qed.

(** ** Actions on one VM *)
Definition triple {A} id K (m : M W A) (Q : A → stake → Prop) : Prop :=
  ∀ s, clean (trace s) → mine id K s →
  ∃ K', Q (m s).1 K' ∧ clean (trace (m s).2) ∧ mine id K' (m s).2 ∧ apart id s (m s).2.

Fixpoint wp {A} id K (Q : A → stake → Prop) (m : G A) : Prop :=
  match m with
  | Finished a => Q a K
  | Act f k => ∀ s, clean (trace s) → mine id K s →
      ∃ K', clean (trace (f s)) ∧ mine id K' (f s) ∧ apart id s (f s) ∧ wp id K' Q (k s)
  end.

Lemma gwp_ret {A} id K (Q : A → stake → Prop) a : Q a K → wp id K Q (mret a).
Proof. done. Qed.
Lemma gwp_bind {A B} id K (P : A → stake → Prop) (Q : B → stake → Prop) (m : G A) (g : A → G B) :
  wp id K P m → (∀ a K', P a K' → wp id K' Q (g a)) → wp id K Q (m ≫= g).
Proof.
  intros Hm Hg. revert K Hm. induction m as [a|f k IH]; intros K Hm; [by apply Hg|].
  intros s Hs HL. destruct (Hm s Hs HL) as (K' & H1 & H2 & H3 & H4). exists K'. eauto 6.
Qed.
Lemma gwp_atomic {A} id K Q (m : M W A) : triple id K m Q → wp id K Q (atomic m).
Proof.
  intros Hm s Hs HL. destruct (Hm s Hs HL) as (K' & H1 & H2 & H3 & H4). by exists K'.
Qed.
Lemma gwp_mono {A} id K (P Q : A → stake → Prop) (m : G A) :
  (∀ a K', P a K' → Q a K') → wp id K P m → wp id K Q m.
Proof.
  intros HPQ. revert K. induction m as [a|f k IH]; intros K Hm; [by apply HPQ|].
  intros s Hs HL. destruct (Hm s Hs HL) as (K' & H1 & H2 & H3 & H4). exists K'. eauto 6.
Qed.

Lemma vm_triple_ret {A} id K (a : A) (Q : A → stake → Prop) : Q a K → triple id K (mret a) Q.
Proof. intros H s Hs Hm. exists K. split_and!; [done..|apply apart_refl]. Qed.
Lemma vm_triple_bind {A B} id K P Q (m : M W A) (g : A → M W B) :
  triple id K m P → (∀ a K', P a K' → triple id K' (g a) Q) → triple id K (m ≫= g) Q.
Proof.
  intros Hm Hg s Hs Hi. rewrite M_bind_run. destruct (Hm s Hs Hi) as (K1 & HP & H1 & H2 & H3).
  destruct (Hg _ _ HP _ H1 H2) as (K2 & HQ & J1 & J2 & J3). exists K2.
  split_and!; try done. by eapply apart_trans.
Qed.

(** A call to the host: what is known of the VM after it, and the rest aside. *)
Lemma vm_triple_host {A} id K (f : W → A * W) (Q : A → stake → Prop) :
  (∀ w, bv_at id (bool_decide (RBackend id ∈ sk_open K)) (sk_port K) w → (sk_ready K = true → bv_ready w) →
     bv_aside id w (f w).2 ∧
     ∃ p rd, Q (f w).1 (Stake (sk_open K) (sk_closed K) p rd)
       ∧ bv_at id (bool_decide (RBackend id ∈ sk_open K)) p (f w).2 ∧ (rd = true → bv_ready (f w).2)) →
  triple id K (act f) Q.
Proof.
  intros Hf s Hs [M1 M2 M3 M4]. destruct (Hf (host s) M3 M4) as (Ha & p & rd & HQ & Hb & Hr).
  unfold act. destruct (f (host s)) as [a w]. cbn in *. eexists. split_and!; [exact HQ|done|by split|by split].
Qed.
Lemma vm_triple_act {A} id K (f : W → A * W) :
  (∀ w, bv_kept w (f w).2) → triple id K (act f) (λ _ K', K' = K).
Proof.
  intros Hf. apply vm_triple_host. intros w Hb Hr. specialize (Hf w). split; [by apply kept_aside|].
  exists (sk_port K), (sk_ready K). split; [by destruct K|]. destruct Hf as [H1 H2]. auto.
Qed.

(** An event of this VM. *)
Lemma live_other e r (tr : list vm_event) :
  (∀ r', e = EvOpened r' ∨ e = EvClosed r' → r ≠ r') → (r ∈ live_of (tr ++ [e]) ↔ r ∈ live_of tr).
Proof. intros H. rewrite live_of_snoc. destruct e as [r'|r']; cbn; specialize (H r'); set_solver. Qed.

Lemma logged_apart id e s s' :
  trace s' = trace s ++ [e] → closed_managers s' = closed_managers s → vms s' = vms s →
  (∀ r, e = EvOpened r ∨ e = EvClosed r → res_vm r = id) →
  bv_aside id (host s) (host s') → apart id s s'.
Proof.
  intros Ht Hc Hv He Hb. split; [|by intros; rewrite Hc|done|done]. intros r Hr. rewrite Ht. apply live_other.
  intros r' Hr' ->. by rewrite (He r' Hr') in Hr.
Qed.

Lemma opened_ok id L c p rd r s s' :
  trace s' = trace s ++ [EvOpened r] → closed_managers s' = closed_managers s → vms s' = vms s →
  res_vm r = id → r ∉ L → bv_at id (bool_decide (RBackend id ∈ {[r]} ∪ L)) p (host s') →
  bv_aside id (host s) (host s') → clean (trace s) → mine id (Stake L c p rd) s →
  clean (trace s') ∧ mine id (Stake ({[r]} ∪ L) c p rd) s' ∧ apart id s s'.
Proof.
  intros Ht Hc Hv Hr HL Hb Hk Hs [M1 M2 M3 M4]. cbn in *. split_and!.
  - rewrite Ht. apply clean_snoc; [done|]. cbn. by rewrite M1.
  - split; cbn; [|by rewrite Hc|done|by intros; apply Hk, M4]. intros r' Hr'. rewrite Ht, live_of_snoc. cbn.
    by rewrite !elem_of_union, M1.
  - apply (logged_apart id (EvOpened r)); try done. by intros r' [[= <-]|[=]].
Qed.
Lemma closed_ok id L c p rd r s s' :
  trace s' = trace s ++ [EvClosed r] → closed_managers s' = closed_managers s → vms s' = vms s →
  res_vm r = id → r ∈ L → bv_at id (bool_decide (RBackend id ∈ L ∖ {[r]})) p (host s') →
  bv_aside id (host s) (host s') → clean (trace s) → mine id (Stake L c p rd) s →
  clean (trace s') ∧ mine id (Stake (L ∖ {[r]}) c p rd) s' ∧ apart id s s'.
Proof.
  intros Ht Hc Hv Hr HL Hb Hk Hs [M1 M2 M3 M4]. cbn in *. split_and!.
  - rewrite Ht. apply clean_snoc; [done|]. cbn. by rewrite M1.
  - split; cbn; [|by rewrite Hc|done|by intros; apply Hk, M4]. intros r' Hr'. rewrite Ht, live_of_snoc. cbn.
    by rewrite !elem_of_difference, M1.
  - apply (logged_apart id (EvClosed r)); try done. by intros r' [[=]|[= <-]].
Qed.

(** *** Openings and closings *)
Lemma vm_triple_opened id L c p rd r :
  res_vm r = id → r ≠ RBackend id → r ∉ L →
  triple id (Stake L c p rd) (ev (EvOpened r)) (λ _ K', K' = Stake ({[r]} ∪ L) c p rd).
Proof.
  intros Hr Hb HL s Hs Hm. eexists. split; [done|]. apply opened_ok; try done.
  rewrite (bool_decide_ext _ (RBackend id ∈ L)) by set_solver. apply (mi_run _ _ _ Hm).
Qed.
Lemma vm_triple_closed id L c p rd r :
  res_vm r = id → r ≠ RBackend id → r ∈ L →
  triple id (Stake L c p rd) (ev (EvClosed r)) (λ _ K', K' = Stake (L ∖ {[r]}) c p rd).
Proof.
  intros Hr Hb HL s Hs Hm. eexists. split; [done|]. apply closed_ok; try done.
  rewrite (bool_decide_ext _ (RBackend id ∈ L)) by set_solver. apply (mi_run _ _ _ Hm).
Qed.

Lemma vm_triple_listen_proxy id L c p rd :
  RProxy id ∉ L →
  triple id (Stake L c p rd) (listen_proxy id)
    (λ r K', K' = Stake (match r with Good _ => {[RProxy id]} ∪ L | Bad _ => L end) c p rd).
Proof.
  intros HL. eapply vm_triple_bind; [apply vm_triple_act, bv_listen|]. intros [port|e] ? ->.
  - eapply vm_triple_bind; [by apply vm_triple_opened|]. intros _ ? ->. by apply vm_triple_ret.
  - by apply vm_triple_ret.
Qed.
Lemma vm_triple_prepare id L c p rd :
  triple id (Stake L c p rd) (act h_strictPrepare)
    (λ e K', K' = Stake L c p (if e is None then true else rd)).
Proof.
  apply vm_triple_host. cbn. intros w Hb H. destruct (bv_prepare w) as [Hk Hr].
  split; [by apply kept_aside|]. eexists _, _. split; [done|]. split; [by apply Hk|].
  destruct (h_strictPrepare w).1 eqn:E; intros Hrd; [by apply Hk, H|by eapply Hr].
Qed.
Lemma vm_triple_open_strict id L c port :
  bv_id id → RStrict id ∉ L →
  triple id (Stake L c None true) (open_strict id port)
    (λ r K', match r with
             | Good (Some a) => bv_anchor id a ∧ K' = Stake ({[RStrict id]} ∪ L) c (Some port) true
             | _ => K' = Stake L c None true
             end).
Proof.
  intros Hid HL. eapply (vm_triple_bind _ _ (λ r K', match r with
      | Good (Some a) => bv_anchor id a ∧ K' = Stake L c (Some port) true
      | _ => K' = Stake L c None true end)).
  { apply vm_triple_host. cbn. intros w Hb Hr.
    destruct (bv_factory id port _ w Hid (Hr eq_refl) Hb) as [H Ha]. split; [done|]. destruct Ha as [_ Ha].
    destruct (h_strictFactory id port w).1 as [[a|]|e];
      [destruct H; exists (Some port), true; by auto|exists None, true; by auto..]. }
  intros [[a|]|e] ? H.
  - destruct H as [Ha ->]. eapply vm_triple_bind; [by apply vm_triple_opened|]. intros _ ? ->. by apply vm_triple_ret.
  - by apply vm_triple_ret.
  - by apply vm_triple_ret.
Qed.
Lemma vm_triple_close_proxy id L c p rd :
  RProxy id ∈ L →
  triple id (Stake L c p rd) (proxy_Close id) (λ _ K', K' = Stake (L ∖ {[RProxy id]}) c p rd).
Proof.
  intros HL. eapply vm_triple_bind; [by apply vm_triple_closed|]. intros _ ? ->.
  apply vm_triple_act, bv_listen_close.
Qed.
Lemma vm_triple_close_strict id L c port rd a :
  bv_anchor id a → RStrict id ∈ L →
  triple id (Stake L c (Some port) rd) (close_strict id a) (λ _ K', K' = Stake (L ∖ {[RStrict id]}) c None rd).
Proof.
  intros Ha HL. eapply vm_triple_bind; [by apply vm_triple_closed|]. intros _ ? ->.
  apply vm_triple_host. cbn. intros w Hb Hr. destruct (bv_strict_close id a _ port w Ha Hb) as [H1 H2].
  split; [done|]. exists None, rd. split; [done|]. split; [done|]. intros Hrd. by apply H2, Hr.
Qed.
Lemma vm_triple_set_closed id L c p rd e :
  triple id (Stake L c p rd) (set_closed id e) (λ _ K', K' = Stake L true p rd).
Proof.
  intros s Hs [M1 M2 M3 M4]. eexists. split_and!; [done|done|by split|].
  split; cbn; [done| |done|by apply kept_aside, kept_refl]. intros k Hk. by rewrite lookup_insert_ne.
Qed.

(** A backend that starts runs, and one that is closed does not. *)
Lemma vm_triple_start_backend id L c p rd (f : W → osres backend_error () * W) :
  RBackend id ∉ L →
  (∀ w, bv_at id false p w → bv_at id (is_good (f w).1) p (f w).2 ∧ bv_aside id w (f w).2) →
  triple id (Stake L c p rd) (start_backend id f)
    (λ r K', K' = Stake (match r with Good _ => {[RBackend id]} ∪ L | Bad _ => L end) c p rd).
Proof.
  intros HL Hf s Hs Hm. pose proof (mi_run _ _ _ Hm) as Hrun. cbn in Hrun. rewrite bool_decide_false in Hrun by done.
  destruct (Hf _ Hrun) as [H1 H2]. unfold start_backend, act, mbind, M_mbind.
  destruct (f (host s)) as [[[]|e] w]; cbn [fst snd is_good] in *; eexists; (split; [done|]).
  - apply opened_ok; try done. by rewrite bool_decide_true by set_solver.
  - split; [done|]. destruct Hm as [M1 M2 M3 M4].
    split; split; cbn; try done; [by rewrite bool_decide_false|by intros; apply H2, M4].
Qed.
Lemma vm_triple_close_backend id L c p rd :
  RBackend id ∈ L →
  triple id (Stake L c p rd) (close_backend_of id) (λ _ K', K' = Stake (L ∖ {[RBackend id]}) c p rd).
Proof.
  intros HL s Hs Hm. pose proof (mi_run _ _ _ Hm) as Hrun. cbn in Hrun. rewrite bool_decide_true in Hrun by done.
  destruct (bv_close id p _ Hrun) as [H1 H2]. unfold close_backend_of, act, ev, mbind, M_mbind.
  cbn [fst snd host]. destruct (h_backendClose id (host s)) as [e w]; cbn [fst snd] in *.
  eexists. split; [done|]. apply closed_ok; try done. by rewrite bool_decide_false by set_solver.
Qed.

(** ** The handlers *)
Definition nset (n : option networkManager) : gset resource := list_to_set (network_held n).
Definition hset (vm : VM) : gset resource := list_to_set (held vm).

(** The port a network's strict transport sends to. *)
Definition strict_port (n : option networkManager) : option Z :=
  m ← n; _ ← nm_strictTransport m; Some (nm_port m).
Definition anchored id (n : option networkManager) : Prop :=
  ∀ m a, n = Some m → nm_strictTransport m = Some a → bv_anchor id a.

(** Nothing of the VM is left. *)
Definition nothing K : Prop := sk_open K = ∅ ∧ sk_port K = None.
(** What a network, and a VM, has. *)
Definition net_has id (n : option networkManager) K : Prop :=
  anchored id n ∧ ∃ rd, K = Stake (nset n) false (strict_port n) rd.
Definition vm_has (vm : VM) K : Prop :=
  anchored (vm_ID vm) (vm_Network vm) ∧ ∃ rd, K = Stake (hset vm) false (strict_port (vm_Network vm)) rd.

Lemma nothing_stake c rd : nothing (Stake ∅ c None rd).
Proof. done. Qed.
Lemma nothing_diff x c rd : nothing (Stake ({[x]} ∖ {[x]}) c None rd).
Proof. split; [apply difference_diag_L|done]. Qed.
#[local] Hint Resolve nothing_stake nothing_diff : core.

Lemma wp_newProxyServer id policy secrets :
  wp id (Stake ∅ false None false)
    (λ r K, if is_good r then K = Stake {[RProxy id]} false None false else nothing K)
    (newProxyServer_calls id policy secrets).
Proof.
  eapply gwp_bind; [by apply gwp_atomic, vm_triple_listen_proxy|]. intros [port|e] ? ->; [|by apply gwp_ret].
  rewrite (right_id_L ∅ (∪)). case_bool_decide; [done|].
  eapply gwp_bind; [apply gwp_atomic, vm_triple_act, bv_ca|]. intros [path|e] ? ->; [done|].
  eapply gwp_bind; [apply gwp_atomic, vm_triple_close_proxy; set_solver|]. intros _ ? ->. apply gwp_ret, nothing_diff.
Qed.

(** What [start_strict] makes of the proxy it is for. *)
Definition strict_has id port (r : osres vm_error (option string)) K : Prop :=
  match r with
  | Good (Some a) => bv_anchor id a ∧ ∃ rd, K = Stake {[RStrict id; RProxy id]} false (Some port) rd
  | Good None => ∃ rd, K = Stake {[RProxy id]} false None rd
  | Bad _ => nothing K
  end.
Lemma wp_start_strict id policy port :
  bv_id id →
  wp id (Stake {[RProxy id]} false None false) (strict_has id port) (start_strict_calls id policy port).
Proof.
  intros Hid.
  assert (Hend : ∀ (e : vm_error) rd, wp id (Stake {[RProxy id]} false None rd) (strict_has id port)
            (_ ← atomic (proxy_Close id); mret (Bad e))).
  { intros e rd. eapply gwp_bind; [apply gwp_atomic, vm_triple_close_proxy; set_solver|]. intros _ ? ->.
    apply gwp_ret, nothing_diff. }
  unfold start_strict_calls. destruct (_ =? _); [|by exists false].
  eapply gwp_bind; [apply gwp_atomic, vm_triple_prepare|]. intros [e|] ? ->; [apply Hend|].
  eapply gwp_bind; [apply gwp_atomic, vm_triple_open_strict; [done|set_solver]|].
  intros [[a|]|e] ? H; [destruct H as [Ha ->]; split; [done|by exists true]|subst; by exists true|subst; apply Hend].
Qed.

Lemma wp_newNetworkManager id req :
  bv_id id →
  wp id (Stake ∅ false None false)
    (λ r K, match r with Good n => network_ok id req n ∧ net_has id n K | Bad _ => nothing K end)
    (newNetworkManager_calls id req).
Proof.
  intros Hid. unfold newNetworkManager_calls. destruct (buildNetworkPolicy _) as [policy|] eqn:Ep; [|done].
  destruct (validateNetworkPolicy policy) eqn:Ev; [done|].
  eapply gwp_bind; [apply gwp_atomic, vm_triple_act, bv_random|]. intros rands ? ->.
  destruct (buildSecrets _ rands) as [[specs senv]|] eqn:Es; [|done].
  destruct (negb _ && _) eqn:Eneed.
  { apply andb_true_iff in Eneed as [Hr%negb_true_iff Hl%Nat.eqb_eq].
    apply gwp_ret. split; [|by split; [intros ? ? [=]|exists false]].
    exists policy, specs, senv, rands. split_and!; try done.
    apply length_zero_iff_nil in Hl as ->. by eapply buildSecrets_none. }
  eapply gwp_bind; [apply wp_newProxyServer|]. intros [[port ca]|e] ? H; cbn [is_good] in H; [subst|done].
  eapply gwp_bind; [by apply wp_start_strict|]. intros [st|e] ? H; [|done].
  apply gwp_ret. split; [by exists policy, specs, senv, rands|].
  destruct st as [a|]; [destruct H as [Ha [rd ->]]|destruct H as [rd ->]]; (split; [by intros m b [= <-] [= <-]|]);
    exists rd; unfold nset; cbn; f_equal; set_solver.
Qed.

Lemma wp_manager_Close id m rd :
  nm_vmID m = id → anchored id (Some m) →
  wp id (Stake (nset (Some m)) false (strict_port (Some m)) rd) (λ _ K, nothing K) (manager_Close_calls m).
Proof.
  intros <- Hanc. unfold manager_Close_calls. set (K := Stake _ _ _ _).
  eapply (gwp_bind _ _ (λ r K', r = None ∧ K' = K)).
  { apply gwp_atomic. intros s Hs Hm. exists K. split; [split; [by apply Hm|done]|].
    split; [done|]. split; [done|apply apart_refl]. }
  intros ? ? (-> & ->).
  eapply (gwp_bind _ _ (λ _ K', K' = Stake {[RProxy (nm_vmID m)]} false None rd)).
  { subst K. unfold nset. cbn. destruct (nm_strictTransport m) as [a|] eqn:Ea.
    - eapply gwp_mono; [|apply gwp_atomic, vm_triple_close_strict; [by eapply Hanc|set_solver]].
      intros _ ? ->. f_equal. set_solver.
    - apply gwp_ret. f_equal. set_solver. }
  intros e1 ? ->. eapply gwp_bind; [apply gwp_atomic, vm_triple_close_proxy; set_solver|]. intros e2 ? ->.
  cbv zeta. eapply gwp_bind; [apply gwp_atomic, vm_triple_set_closed|]. intros _ ? ->. apply gwp_ret, nothing_diff.
Qed.

Lemma wp_abandon id n e K (Q : osres vm_error VM → stake → Prop) :
  (∀ m, n = Some m → nm_vmID m = id) → net_has id n K → (∀ K', nothing K' → Q (Bad e) K') →
  wp id K Q (abandon_calls n e).
Proof.
  intros Hn [Hanc [rd ->]] HQ. unfold abandon_calls. destruct n as [m|]; [|by apply HQ].
  eapply gwp_bind; [by apply wp_manager_Close; [apply Hn|]|]. intros ? K' HK. by apply HQ.
Qed.

(** What a StartVM call has of its VM when [newVM] returns. *)
Definition newVM_has id req (r : osres vm_error VM) K : Prop :=
  match r with Good vm => vm_ok id req vm ∧ vm_has vm K | Bad _ => nothing K end.

Lemma hset_built id kind n :
  hset {| vm_ID := id; vm_Backend := kind; vm_Network := n |} = {[RBackend id]} ∪ nset n.
Proof. unfold hset, nset, held. cbn. rewrite list_to_set_app_L. set_solver. Qed.
Lemma vm_has_built id kind n rd :
  anchored id n →
  vm_has {| vm_ID := id; vm_Backend := kind; vm_Network := n |} (Stake ({[RBackend id]} ∪ nset n) false (strict_port n) rd).
Proof. intros Hn. split; [done|]. exists rd. by rewrite hset_built. Qed.

Lemma RBackend_nset id n : RBackend id ∉ nset n.
Proof. unfold nset. destruct n as [m|]; cbn; [destruct (nm_strictTransport m)|]; set_solver. Qed.

Lemma wp_newVM_host id req env n K :
  network_ok id req n → requiresStrictEgress req = false → net_has id n K →
  wp id K (newVM_has id req) (newVM_host_calls id req env n).
Proof.
  intros Hn Hr [Hanc [rd ->]].
  eapply gwp_bind; [apply gwp_atomic, vm_triple_start_backend; [apply RBackend_nset|intros; by apply bv_hostBackend]|].
  intros [u|e] ? ->.
  - apply gwp_ret. split; [|by apply vm_has_built]. split; [done|]. split; [done|congruence].
  - by apply wp_abandon; [eapply network_ok_id|split; [|by exists rd]|].
Qed.

Lemma wp_newVM id req : bv_id id → wp id (Stake ∅ false None false) (newVM_has id req) (newVM_calls id req).
Proof.
  intros Hid. eapply gwp_bind; [by apply wp_newNetworkManager|]. intros [n|e] K H; [|done].
  destruct H as [Hn HK]. cbv zeta. pose proof (network_ok_id _ _ _ Hn) as Hids.
  assert (Hend : ∀ e, wp id K (newVM_has id req) (abandon_calls n e))
    by (intros e; by apply wp_abandon).
  eapply (gwp_bind _ _ (λ _ K', K' = K)).
  { apply gwp_atomic. intros s Hs Hm. exists K. split_and!; [done..|apply apart_refl]. }
  intros mode ? ->.
  case_match eqn:Ehost; [apply Hend|]. destruct (_ || _) eqn:Emode.
  2: { apply wp_newVM_host; [done| |done]. destruct mode; try done.
       by rewrite bool_decide_true, andb_true_r in Ehost. }
  pose proof HK as [Hanc [rd HK']]. rewrite HK'.
  eapply gwp_bind; [apply gwp_atomic, vm_triple_start_backend; [apply RBackend_nset|intros; by apply bv_vmBackend]|].
  intros [u|e] ? ->; [apply gwp_ret; split; [by split|by apply vm_has_built]|]. rewrite <-HK'.
  case_bool_decide; [apply Hend|]. destruct e; [|apply Hend].
  destruct (requiresStrictEgress req) eqn:Es; [apply Hend|]. by apply wp_newVM_host.
Qed.

Lemma wp_close_vm req vm K :
  vm_ok (vm_ID vm) req vm → vm_has vm K → wp (vm_ID vm) K (λ _ K', nothing K') (close_vm_calls vm).
Proof.
  intros (_ & Hn & _) [Hanc [rd ->]].
  pose proof (network_ok_id _ _ _ Hn) as Hids. pose proof (RBackend_nset (vm_ID vm) (vm_Network vm)) as Hnb.
  assert (Hh : hset vm = {[RBackend (vm_ID vm)]} ∪ nset (vm_Network vm)) by (by destruct vm; rewrite hset_built).
  eapply gwp_bind; [apply gwp_atomic, vm_triple_close_backend; rewrite Hh; set_solver|]. intros e ? ->.
  rewrite Hh. replace (_ ∖ _) with (nset (vm_Network vm)) by set_solver.
  destruct (vm_Network vm) as [m|]; [|by apply gwp_ret].
  eapply gwp_bind; [by apply wp_manager_Close; [apply Hids|]|]. by intros ? ? HK.
Qed.

(** ** All calls together *)

(** Calls and others that concern no VM. *)
Record unchanged s s' : Prop := {
  un_vms : vms s' = vms s;
  un_closed : closed_managers s' = closed_managers s;
  un_trace : trace s' = trace s;
  un_run : bv_kept (host s) (host s')
}.
Fixpoint idle {A} (m : G A) : Prop :=
  match m with Finished _ => True | Act f k => ∀ s, unchanged s (f s) ∧ idle (k s) end.

Lemma idle_bind {A B} (m : G A) (g : A → G B) : idle m → (∀ a, idle (g a)) → idle (m ≫= g).
Proof. intros Hm Hg. induction m as [a|f k IH]; [apply Hg|]. intros s. destruct (Hm s). by split; [|apply IH]. Qed.
Lemma idle_Exec id command args : idle (Exec_calls id command args).
Proof.
  unfold Exec_calls. case_bool_decide; [done|]. apply idle_bind.
  { intros s. split; [|done]. by split. }
  intros [vm|]; [|done]. case_bool_decide; [done|]. intros s. split; [|done].
  pose proof (bv_exec (vm_ID vm) command args (host s)) as Hexec. unfold act.
  destruct (h_backendExec _ _ _ _) as [a w]. by split.
Qed.
Lemma idle_ExecStream first : idle (ExecStream_calls first).
Proof.
  unfold ExecStream_calls. destruct first as [[start|]|e]; [|done..]. case_bool_decide; [done|]. apply idle_bind.
  { intros s. split; [|done]. by split. }
  intros [vm|]; [|done]. case_bool_decide; [done|]. intros s. split; [|done].
  pose proof (bv_exec_stream (vm_ID vm) start (host s)) as Hexec. unfold act.
  destruct (h_backendExecStream _ _ _) as [a w]. by split.
Qed.

(** What is left of a StartVM call whose [newVM] has [m] to do, and of a StopVM
    call whose closing has. *)
Definition start_in (id : string) (m : G (osres vm_error VM)) : G svc_reply :=
  (m ≫= λ r, match r with
             | Bad e => mret (Bad (InvalidArgument (Some e)))
             | Good vm => _ ← atomic (publish vm); mret (Good id)
             end) ≫= λ r, mret (ReStart r).
Definition stop_in (m : G (option string)) : G svc_reply :=
  (m ≫= λ closeErr : option string, mret (match closeErr with Some e => Bad (Internal e) | None => Good () end))
  ≫= λ r, mret (ReStop r).

(** The VM a call has, with what of it is open. *)
Definition owner : Type := option (string * stake).

Inductive phase : svc_call → G svc_reply → owner → Prop :=
| ph_starting id req m K :
    wp id K (newVM_has id req) m → phase (SvcStart id req) (start_in id m) (Some (id, K))
| ph_stop_waits id : phase (SvcStop id) (serve_call (SvcStop id)) None
| ph_stopping id m K :
    wp id K (λ _ K', nothing K') m → phase (SvcStop id) (stop_in m) (Some (id, K))
| ph_exec call m : svc_vm call = None → idle m → phase call m None
| ph_done call r : phase call (Finished r) None.

Record all_ok (calls : list svc_call) (os : nat → owner) (ts : list (G svc_reply)) s : Prop := {
  ao_phase : ∀ i m, ts !! i = Some m → ∃ call, calls !! i = Some call ∧ phase call m (os i);
  ao_range : ∀ i, is_Some (os i) → is_Some (ts !! i);
  ao_once : ∀ i j id K K', os i = Some (id, K) → os j = Some (id, K') → i = j;
  ao_mine : ∀ i id K, os i = Some (id, K) → mine id K s ∧ vms s !! id = None;
  ao_table : ∀ id vm, vms s !! id = Some vm →
    vm_ID vm = id ∧ (∃ req, SvcStart id req ∈ calls ∧ vm_ok id req vm) ∧ ∃ K, vm_has vm K ∧ mine id K s;
  ao_rest : ∀ id, vms s !! id = None → (∀ i K, os i ≠ Some (id, K)) →
    (∀ r, res_vm r = id → r ∉ live_of (trace s)) ∧ bv_at id false None (host s);
  ao_clean : clean (trace s)
}.

Section steps.
Context (calls : list svc_call).
Implicit Types (os : nat → owner) (ts : list (G svc_reply)).

Lemma mine_unchanged id K s s' : unchanged s s' → mine id K s → mine id K s'.
Proof.
  intros [U1 U2 U3 [U4 U5]] [M1 M2 M3 M4]. split; rewrite ?U2; [|done|by apply U4|auto].
  intros r Hr. rewrite U3. by apply M1.
Qed.
Lemma all_ok_unchanged os ts s s' : unchanged s s' → all_ok calls os ts s → all_ok calls os ts s'.
Proof.
  intros U [A1 A2 A3 A4 A5 A6 A7]. pose proof U as [U1 U2 U3 [U4 U5]]. split; try done; rewrite ?U1, ?U3.
  - intros i id K Hi. destruct (A4 i id K Hi). split; [by eapply mine_unchanged|done].
  - intros id vm Hv. destruct (A5 id vm Hv) as (? & ? & K & ? & ?). split_and!; [done..|].
    exists K. split; [done|by eapply mine_unchanged].
  - intros id Hv Ho. destruct (A6 id Hv Ho) as [Hl Hb]. split; [done|by apply U4].
  - done.
Qed.

(** A call goes on; its VM stays as it is. *)
Lemma all_ok_thread os ts s i m :
  all_ok calls os ts s → (∀ call, calls !! i = Some call → phase call m (os i)) →
  all_ok calls os (<[i := m]> ts) s.
Proof.
  intros [A1 A2 A3 A4 A5 A6 A7] Hm. split; try done.
  - intros j m' [(<- & <- & Hi)|[Hne Hj]]%list_lookup_insert_Some; [|by apply A1].
    apply lookup_lt_is_Some in Hi as [m0 Hi]. destruct (A1 _ _ Hi) as (call & Hc & _). exists call. auto.
  - intros j Hj. apply lookup_lt_is_Some. rewrite length_insert. apply lookup_lt_is_Some. auto.
Qed.

(** Call [i] has [m] to do and owns [o] from now on. *)
Lemma phases_set os ts s i m o :
  all_ok calls os ts s → (∀ call, calls !! i = Some call → phase call m o) →
  ∀ j m', <[i := m]> ts !! j = Some m' → ∃ call, calls !! j = Some call ∧ phase call m' (<[i := o]> os j).
Proof.
  intros [A1 _ _ _ _ _ _] Hm j m' [(<- & <- & Hl)|[Hne Hj]]%list_lookup_insert_Some.
  - rewrite fn_lookup_insert. apply lookup_lt_is_Some in Hl as [m0 Hl].
    destruct (A1 _ _ Hl) as (call & Hcall & _). exists call. auto.
  - rewrite fn_lookup_insert_ne by done. by apply A1.
Qed.
Lemma range_set os ts s i m o :
  all_ok calls os ts s → is_Some (ts !! i) →
  ∀ j, is_Some (<[i := o]> os j) → is_Some (<[i := m]> ts !! j).
Proof.
  intros [_ A2 _ _ _ _ _] Hi j Hj. apply lookup_lt_is_Some. rewrite length_insert. apply lookup_lt_is_Some.
  destruct (decide (i = j)) as [<-|]; [done|]. apply A2. by rewrite fn_lookup_insert_ne in Hj.
Qed.

(** Who has what, once call [i] has [K] of VM [id]. *)
Lemma owner_set os i id K j id' K' :
  (∀ j K1, os j = Some (id, K1) → j = i) →
  <[i := Some (id, K)]> os j = Some (id', K') →
  (j = i ∧ id' = id ∧ K' = K) ∨ (j ≠ i ∧ id' ≠ id ∧ os j = Some (id', K')).
Proof.
  intros Hi. destruct (decide (i = j)) as [<-|Hne]; rewrite ?fn_lookup_insert, ?fn_lookup_insert_ne by done.
  - intros [= -> ->]. by left.
  - intros Hj. right. split_and!; [done| |done]. intros ->. apply Hne. symmetry. by eapply Hi.
Qed.

(** ... or changes as its [wp] says. *)
Lemma all_ok_own os ts s s' i id K K' m :
  all_ok calls os ts s → os i = Some (id, K) →
  clean (trace s') → mine id K' s' → apart id s s' →
  (∀ call, calls !! i = Some call → phase call m (Some (id, K'))) →
  all_ok calls (<[i := Some (id, K')]> os) (<[i := m]> ts) s'.
Proof.
  intros Hok Hi Hc Hm Ha Hph. pose proof Ha as [P1 P2 P3 P4]. pose proof Hok as [A1 A2 A3 A4 A5 A6 A7].
  assert (Hown : ∀ j id' K1, <[i := Some (id, K')]> os j = Some (id', K1) →
    (j = i ∧ id' = id ∧ K1 = K') ∨ (j ≠ i ∧ id' ≠ id ∧ os j = Some (id', K1))).
  { intros j id' K1. apply owner_set. intros j2 K2 Hj2. by eapply A3. }
  split.
  - by eapply phases_set.
  - by eapply range_set, A2.
  - intros j k id' K1 K2 Hj Hk. apply Hown in Hj, Hk. naive_solver.
  - intros j id' K1 Hj. rewrite P3. apply Hown in Hj as [(-> & -> & ->)|(Hne & Hid & Hj)].
    + split; [done|]. by apply (A4 i id K).
    + destruct (A4 _ _ _ Hj). split; [by eapply mine_apart|done].
  - intros id' vm. rewrite P3. intros Hv. destruct (A5 _ _ Hv) as (? & ? & K1 & ? & ?). split_and!; [done..|].
    exists K1. split; [done|]. eapply mine_apart; [|done|done]. intros ->. by rewrite (proj2 (A4 _ _ _ Hi)) in Hv.
  - intros id'. rewrite P3. intros Hv Ho.
    assert (Hne : id' ≠ id) by (intros ->; apply (Ho i K'), fn_lookup_insert).
    destruct (A6 id' Hv) as [Hl Hb].
    { intros j K1 Hj. apply (Ho j K1). rewrite fn_lookup_insert_ne; [done|]. intros <-.
      rewrite Hi in Hj. by injection Hj as ->. }
    split; [|by apply P4]. intros r Hr. rewrite P1 by (by rewrite Hr). by apply Hl.
  - done.
Qed.

(** The table changes for one VM, which passes between it and call [i]. *)
Lemma mine_table id K s s' :
  closed_managers s' = closed_managers s → trace s' = trace s → host s' = host s → mine id K s → mine id K s'.
Proof. intros Hc Ht Hh [M1 M2 M3 M4]. split; rewrite ?Hc, ?Hh; [|done..]. intros r. rewrite Ht. apply M1. Qed.

Lemma all_ok_publish os ts s i req vm K m :
  all_ok calls os ts s → os i = Some (vm_ID vm, K) → vm_has vm K →
  SvcStart (vm_ID vm) req ∈ calls → vm_ok (vm_ID vm) req vm →
  (∀ call, calls !! i = Some call → phase call m None) →
  all_ok calls (<[i := None]> os) (<[i := m]> ts) (publish vm s).2.
Proof.
  intros Hok Hi Hhas Hin Hvm Hph. pose proof Hok as [A1 A2 A3 A4 A5 A6 A7].
  assert (Hown : ∀ j o, <[i := None]> os j = Some o → j ≠ i ∧ os j = Some o).
  { intros j o. destruct (decide (i = j)) as [<-|Hne]; rewrite ?fn_lookup_insert, ?fn_lookup_insert_ne by done; done. }
  split.
  - by eapply phases_set.
  - by eapply range_set, A2.
  - intros j k id K1 K2 [_ Hj]%Hown [_ Hk]%Hown. by eapply A3.
  - intros j id K1 [Hne Hj]%Hown. destruct (A4 _ _ _ Hj) as [Hm Hv]. split; [by eapply mine_table, Hm|].
    cbn. rewrite lookup_insert_ne; [done|]. intros <-. apply Hne. by eapply A3.
  - intros id vm'. cbn. intros [[<- <-]|[Hne Hv]]%lookup_insert_Some.
    + split; [done|]. split; [by exists req|]. exists K. split; [done|].
      destruct (A4 _ _ _ Hi) as [Hm _]. by eapply mine_table, Hm.
    + destruct (A5 _ _ Hv) as (? & ? & K1 & ? & Hm). split_and!; [done..|]. exists K1.
      split; [done|by eapply mine_table, Hm].
  - intros id. cbn. intros [Hv Hne]%lookup_insert_None Ho. apply A6; [done|]. intros j K1 Hj.
    apply (Ho j K1). rewrite fn_lookup_insert_ne; [done|]. intros <-. rewrite Hi in Hj. by injection Hj.
  - done.
Qed.

Lemma all_ok_take os ts s i vm K m :
  all_ok calls os ts s → os i = None → is_Some (ts !! i) → vms s !! vm_ID vm = Some vm →
  mine (vm_ID vm) K s → (∀ call, calls !! i = Some call → phase call m (Some (vm_ID vm, K))) →
  all_ok calls (<[i := Some (vm_ID vm, K)]> os) (<[i := m]> ts) (set_vms (delete (vm_ID vm)) s).2.
Proof.
  intros Hok Hi Hts Hvm Hmine Hph. pose proof Hok as [A1 A2 A3 A4 A5 A6 A7].
  assert (Hown : ∀ j id' K1, <[i := Some (vm_ID vm, K)]> os j = Some (id', K1) →
    (j = i ∧ id' = vm_ID vm ∧ K1 = K) ∨ (j ≠ i ∧ id' ≠ vm_ID vm ∧ os j = Some (id', K1))).
  { intros j id' K1. apply owner_set. intros j2 K2 Hj2. destruct (A4 _ _ _ Hj2) as [_ Hn]. by rewrite Hn in Hvm. }
  split.
  - by eapply phases_set.
  - by eapply range_set.
  - intros j k id' K1 K2 Hj Hk. apply Hown in Hj, Hk. naive_solver.
  - intros j id' K1 [(-> & -> & ->)|(Hne & Hid & Hj)]%Hown.
    + split; [by eapply mine_table, Hmine|apply lookup_delete_eq].
    + destruct (A4 _ _ _ Hj) as [Hm Hv]. split; [by eapply mine_table, Hm|]. cbn. by rewrite lookup_delete_ne.
  - intros id' vm'. cbn. intros [Hne Hv]%lookup_delete_Some.
    destruct (A5 _ _ Hv) as (? & ? & K1 & ? & Hm). split_and!; [done..|]. exists K1. split; [done|by eapply mine_table, Hm].
  - intros id'. cbn. intros Hv Ho.
    assert (Hne : id' ≠ vm_ID vm) by (intros ->; apply (Ho i K), fn_lookup_insert).
    apply A6; [by rewrite lookup_delete_ne in Hv|]. intros j K1 Hj. apply (Ho j K1).
    rewrite fn_lookup_insert_ne; [done|]. intros <-. by rewrite Hi in Hj.
  - done.
Qed.

(** What an action of a call that has [o] makes of it: what it has to do, and has. *)
Definition went (call : svc_call) (o : owner) s (m' : G svc_reply) (o' : owner) s' : Prop :=
  match call with
  | SvcStart id req =>
      (∃ m K, m' = start_in id m ∧ o' = Some (id, K) ∧ wp id K (newVM_has id req) m)
      ∨ (m' = Finished (ReStart (Good id)) ∧ o' = None ∧ is_Some (vms s' !! id))
  | SvcStop id =>
      (∃ m K, m' = stop_in m ∧ o' = Some (id, K) ∧ wp id K (λ _ K', nothing K') m)
      ∨ (o = None ∧ o' = None ∧ vms s !! id = None)
  | _ => o' = None
  end.
Definition acted (call : svc_call) (i : nat) os ts s (m' : G svc_reply) s' : Prop :=
  ∃ os', all_ok calls os' (<[i := m']> ts) s'
    ∧ (∀ j, j ≠ i → os' j = os j)
    ∧ went call (os i) s m' (os' i) s'
    ∧ (∀ id vm, call ≠ SvcStop id → vms s !! id = Some vm → vms s' !! id = Some vm).

Lemma acted_set call i o os ts s m' s' :
  all_ok calls (<[i := o]> os) (<[i := m']> ts) s' → went call (os i) s m' o s' →
  (∀ id vm, call ≠ SvcStop id → vms s !! id = Some vm → vms s' !! id = Some vm) →
  acted call i os ts s m' s'.
Proof.
  intros Hok Hw Hv. exists (<[i := o]> os). split; [done|]. rewrite fn_lookup_insert. split; [|done].
  intros j Hj. by rewrite fn_lookup_insert_ne.
Qed.

(** An action of a StartVM call. *)
Lemma act_starting os ts s i id req m K f k :
  all_ok calls os ts s → ts !! i = Some (Act f k) → calls !! i = Some (SvcStart id req) →
  os i = Some (id, K) → start_in id m = Act f k → wp id K (newVM_has id req) m →
  acted (SvcStart id req) i os ts s (k s) (f s).
Proof.
  intros Hok Hi Hcall Ho Hm Hwp. destruct (ao_mine _ _ _ _ Hok _ _ _ Ho) as [Hmine Hnone].
  destruct m as [[vm|e]|g h]; [|done|].
  - destruct Hwp as (Hvm & Hhas). pose proof Hvm as (Hid & _). injection Hm as <- <-.
    rewrite <-Hid in *. apply acted_set with None.
    + eapply (all_ok_publish os ts s i req vm K); [done..|by eapply list_elem_of_lookup_2|done|].
      intros. apply ph_done.
    + right. split_and!; [done..|]. cbn. by rewrite lookup_insert_eq.
    + intros id' vm' _ Hv. cbn. rewrite lookup_insert_ne; [done|]. intros <-. by rewrite Hnone in Hv.
  - injection Hm as <- <-. destruct (Hwp s (ao_clean _ _ _ _ Hok) Hmine) as (K' & H1 & H2 & H3 & H4).
    apply acted_set with (Some (id, K')).
    + eapply all_ok_own; [done|done|exact H1|exact H2|exact H3|].
      intros call Hc. rewrite Hcall in Hc. injection Hc as <-. by apply (ph_starting id req (h s)).
    + left. by exists (h s), K'.
    + intros id' vm' _. by rewrite (ap_vms _ _ _ H3).
Qed.

(** An action of a StopVM call: it takes the VM, or goes on closing it. *)
Lemma act_stop_waits os ts s i id f k :
  all_ok calls os ts s → ts !! i = Some (Act f k) → calls !! i = Some (SvcStop id) →
  os i = None → serve_call (SvcStop id) = Act f k →
  acted (SvcStop id) i os ts s (k s) (f s).
Proof.
  intros Hok Hi Hcall Ho. cbn [serve_call]. unfold StopVM_calls. case_bool_decide as Hne; [done|].
  intros Hm. injection Hm as <- <-. unfold take_vm. destruct (vms s !! id) as [vm|] eqn:Ev.
  - destruct (ao_table _ _ _ _ Hok _ _ Ev) as (Hid & (req & _ & Hvm) & K & Hhas & Hmine). rewrite <-Hid in *.
    cbn [fst snd set_vms]. assert (Hwp : wp (vm_ID vm) K (λ _ K', nothing K') (close_vm_calls vm)) by (by eapply wp_close_vm).
    apply acted_set with (Some (vm_ID vm, K)).
    + eapply (all_ok_take os ts s i vm); [done|done|by rewrite Hi|done|exact Hmine|].
      intros call Hc. rewrite Hcall in Hc. injection Hc as <-. by apply (ph_stopping (vm_ID vm) (close_vm_calls vm)).
    + left. by exists (close_vm_calls vm), K.
    + intros id' vm' Hne'. cbn. rewrite lookup_delete_ne; [done|]. by intros <-.
  - exists os. split.
    + apply all_ok_thread; [done|]. intros call _. rewrite Ho. apply ph_done.
    + split; [done|]. split; [by right|done].
Qed.
Lemma act_stopping os ts s i id m K f k :
  all_ok calls os ts s → ts !! i = Some (Act f k) → calls !! i = Some (SvcStop id) →
  os i = Some (id, K) → stop_in m = Act f k → wp id K (λ _ K', nothing K') m →
  acted (SvcStop id) i os ts s (k s) (f s).
Proof.
  intros Hok Hi Hcall Ho Hm Hwp. destruct m as [e|g h]; [done|].
  injection Hm as <- <-. destruct (ao_mine _ _ _ _ Hok _ _ _ Ho) as [Hmine _].
  destruct (Hwp s (ao_clean _ _ _ _ Hok) Hmine) as (K' & H1 & H2 & H3 & H4).
  apply acted_set with (Some (id, K')).
  - eapply all_ok_own; [done|done|exact H1|exact H2|exact H3|].
    intros call Hc. rewrite Hcall in Hc. injection Hc as <-. by apply (ph_stopping id (h s)).
  - left. by exists (h s), K'.
  - intros id' vm' _. by rewrite (ap_vms _ _ _ H3).
Qed.

(** An action of any call. *)
Lemma all_ok_act os ts s i f k call :
  all_ok calls os ts s → ts !! i = Some (Act f k) → calls !! i = Some call →
  acted call i os ts s (k s) (f s).
Proof.
  intros Hok Hi Hcall. destruct (ao_phase _ _ _ _ Hok _ _ Hi) as (call' & Hcall' & Hph).
  rewrite Hcall in Hcall'. injection Hcall' as <-.
  inversion Hph as [id req m K Hwp Hc Hm Ho|id Hc Hm Ho|id m K Hwp Hc Hm Ho|call' m Hv Hq Hc Hm Ho|]; subst.
  - by eapply act_starting.
  - by eapply act_stop_waits.
  - by eapply act_stopping.
  - destruct (Hq s) as [Hu Hk]. exists os. split_and!; [|done| |].
    + apply all_ok_unchanged with s; [done|]. apply all_ok_thread; [done|]. intros call2 Hc.
      rewrite Hcall in Hc. injection Hc as <-. rewrite <-Ho. by apply ph_exec.
    + by destruct call.
    + intros id vm _. by rewrite (un_vms _ _ Hu).
Qed.

Lemma all_ok_step os ts s ts' s' :
  all_ok calls os ts s → gstep unchanged (ts, s) (ts', s') → ∃ os', all_ok calls os' ts' s'.
Proof.
  intros Hok Hstep. inversion Hstep as [ts0 s0 i f k Hi|ts0 s0 s1 Hu]; subst.
  - destruct (ao_phase _ _ _ _ Hok _ _ Hi) as (call & Hcall & _).
    destruct (all_ok_act _ _ _ _ _ _ _ Hok Hi Hcall) as (os' & H & _). by exists os'.
  - exists os. by eapply all_ok_unchanged.
Qed.

(** *** At the start *)
Definition first_owner (i : nat) : owner :=
  match calls !! i with Some (SvcStart id _) => Some (id, Stake ∅ false None false) | _ => None end.

Lemma omap_once {A B} `{EqDecision B} (g : A → option B) (l : list A) i j x y b :
  NoDup (omap g l) → l !! i = Some x → l !! j = Some y → g x = Some b → g y = Some b → i = j.
Proof.
  revert i j. induction l as [|a l IH]; intros i j Hn Hi Hj Hx Hy; [done|].
  assert (Htail : ∀ n z, l !! n = Some z → g z = Some b → b ∈ omap g l).
  { intros n z Hz Hg. apply list_elem_of_omap. exists z. split; [by eapply list_elem_of_lookup_2|done]. }
  cbn in Hn. destruct i as [|i], j as [|j]; cbn in Hi, Hj; [done| | |].
  - injection Hi as ->. rewrite Hx in Hn. apply stdpp.list_relations.list.NoDup_cons in Hn as [Hn _]. by destruct Hn; eapply Htail.
  - injection Hj as ->. rewrite Hy in Hn. apply stdpp.list_relations.list.NoDup_cons in Hn as [Hn _]. by destruct Hn; eapply Htail.
  - f_equal. eapply IH; try done. destruct (g a); [|done]. by apply stdpp.list_relations.list.NoDup_cons in Hn as [_ Hn].
Qed.

Lemma all_ok_start w :
  NoDup (omap svc_drawn calls) → (∀ id req, SvcStart id req ∈ calls → bv_id id) → (∀ k, bv_at k false None w) →
  all_ok calls first_owner (serve_call <$> calls) (NewService w).
Proof.
  intros Hn Hids Hw. assert (Hown : ∀ i id K, first_owner i = Some (id, K) →
    K = Stake ∅ false None false ∧ ∃ req, calls !! i = Some (SvcStart id req)).
  { intros i id K. unfold first_owner. destruct (calls !! i) as [[v req| | |]|]; try done.
    intros [= -> <-]. eauto. }
  split.
  - intros i m Hi. rewrite list_lookup_fmap in Hi. destruct (calls !! i) as [call|] eqn:Ec; [|done].
    injection Hi as <-. exists call. split; [done|]. unfold first_owner. rewrite Ec. destruct call as [id req|id cmd args|first|id].
    + apply (ph_starting id req (newVM_calls id req)), wp_newVM, (Hids id req). by eapply list_elem_of_lookup_2.
    + apply ph_exec; [done|]. cbn [serve_call]. by apply idle_bind; [apply idle_Exec|].
    + apply ph_exec; [done|]. cbn [serve_call]. by apply idle_bind; [apply idle_ExecStream|].
    + apply ph_stop_waits.
  - intros i [[id K] Hi]. apply Hown in Hi as (_ & req & Hi). by rewrite list_lookup_fmap, Hi.
  - intros i j id K K' Hi Hj. apply Hown in Hi as (_ & r1 & Hi), Hj as (_ & r2 & Hj).
    by eapply (omap_once svc_drawn).
  - intros i id K (-> & _)%Hown. split; [|apply lookup_empty].
    split; cbn; [set_solver|by intros; apply lookup_empty| |done]. by rewrite bool_decide_false by set_solver.
  - intros id vm. cbn. by rewrite lookup_empty.
  - intros id _ _. split; [set_solver|apply Hw].
  - apply clean_nil.
Qed.

Lemma all_ok_run w ts s :
  NoDup (omap svc_drawn calls) → (∀ id req, SvcStart id req ∈ calls → bv_id id) → (∀ k, bv_at k false None w) →
  rtc (gstep unchanged) (serve_call <$> calls, NewService w) (ts, s) → ∃ os, all_ok calls os ts s.
Proof.
  intros Hn Hids Hw Hrun.
  remember (serve_call <$> calls, NewService w) as c0 eqn:E0. remember (ts, s) as c1 eqn:E1.
  assert (H0 : ∃ os, all_ok calls os c0.1 c0.2) by (subst; eexists; by apply all_ok_start).
  clear E0. revert ts s E1 H0. induction Hrun as [c|[ts1 s1] [ts2 s2] c Hstep _ IH]; intros ts s -> [os Hok].
  { by exists os. }
  apply (IH ts s eq_refl). by eapply all_ok_step.
Qed.

(** A call that returned has nothing of its VM. *)
Lemma finished_owner os ts s i m r id K :
  all_ok calls os ts s → ts !! i = Some m → finished m = Some r → os i = Some (id, K) → nothing K.
Proof.
  intros Hok Hi Hf Ho. destruct (ao_phase _ _ _ _ Hok _ _ Hi) as (call & _ & Hph). rewrite Ho in Hph.
  inversion Hph as [id' req m' K' Hwp|  |id' m' K' Hwp| | ]; subst.
  - destruct m' as [[vm|e]|]; [done|exact Hwp|done].
  - destruct m' as [e|]; [exact Hwp|done].
Qed.
Lemma owner_call os ts s i id K :
  all_ok calls os ts s → os i = Some (id, K) →
  ∃ m call, ts !! i = Some m ∧ calls !! i = Some call ∧ svc_vm call = Some id.
Proof.
  intros Hok Ho. destruct (ao_range _ _ _ _ Hok i ltac:(by rewrite Ho)) as [m Hm].
  destruct (ao_phase _ _ _ _ Hok _ _ Hm) as (call & Hcall & Hph). exists m, call. split; [done|]. split; [done|].
  rewrite Ho in Hph. by inversion Hph.
Qed.
(** ... so one that has something still runs. *)
Definition in_progress ts id : Prop :=
  ∃ i call m, calls !! i = Some call ∧ svc_vm call = Some id ∧ ts !! i = Some m ∧ finished m = None.
Lemma owner_runs os ts s i id K :
  all_ok calls os ts s → os i = Some (id, K) → ¬ nothing K → in_progress ts id.
Proof.
  intros Hok Ho Hn. destruct (owner_call _ _ _ _ _ _ Hok Ho) as (m & call & Hm & Hcall & Hid). exists i, call, m.
  split_and!; try done. destruct (finished m) as [a|] eqn:Ef; [|done]. exfalso.
  by apply Hn, (finished_owner _ _ _ _ _ _ _ _ Hok Hm Ef Ho).
Qed.

Lemma owner_or_not os ts s id :
  all_ok calls os ts s → (∃ i K, os i = Some (id, K)) ∨ (∀ i K, os i ≠ Some (id, K)).
Proof.
  intros Hok.
  destruct (decide (Exists (λ i, fst <$> os i = Some id) (seq 0 (length ts)))) as [He|He].
  - left. apply Exists_exists in He as (i & _ & Hi). destruct (os i) as [[id' K]|] eqn:Eo; [|done].
    cbn in Hi. injection Hi as ->. by exists i, K.
  - right. intros i K Ho. apply He. apply Exists_exists. exists i. split; [|by rewrite Ho].
    apply in_seq. split; [lia|]. apply lookup_lt_is_Some, (ao_range _ _ _ _ Hok). by rewrite Ho.
Qed.

(** What is known of each VM: of a VM of the table what it has, of the VM of a call
    what the call has of it, and of any other that there is nothing. *)
Lemma all_ok_vm os ts s id :
  all_ok calls os ts s →
  (∃ vm K, vms s !! id = Some vm ∧ vm_ID vm = id ∧ vm_has vm K ∧ mine id K s)
  ∨ (∃ i K, os i = Some (id, K) ∧ mine id K s)
  ∨ (∀ r, res_vm r = id → r ∉ live_of (trace s)) ∧ bv_at id false None (host s).
Proof.
  intros Hok. destruct (vms s !! id) as [vm|] eqn:Ev.
  - left. destruct (ao_table _ _ _ _ Hok _ _ Ev) as (Hid & _ & K & HK & Hm). by exists vm, K.
  - right. destruct (owner_or_not os ts s id Hok) as [(i & K & Ho)|Hno].
    + left. destruct (ao_mine _ _ _ _ Hok _ _ _ Ho) as [Hm _]. by exists i, K.
    + right. by apply (ao_rest _ _ _ _ Hok).
Qed.

(** What is open, and what runs. *)
Lemma all_ok_live os ts s r :
  all_ok calls os ts s → r ∈ live_of (trace s) →
  (∃ vm, vms s !! res_vm r = Some vm ∧ r ∈ held vm) ∨ in_progress ts (res_vm r).
Proof.
  intros Hok Hr.
  destruct (all_ok_vm os ts s (res_vm r) Hok) as [(vm & K & Ev & _ & [_ [rd ->]] & [M1 _ _ _])|[(i & K & Ho & [M1 _ _ _])|[Hl _]]].
  - left. exists vm. split; [done|]. apply M1 in Hr; [|done]. by apply elem_of_list_to_set in Hr.
  - right. eapply owner_runs; [done|done|]. intros [HK _]. apply M1 in Hr; [|done]. set_solver.
  - by destruct (Hl r eq_refl).
Qed.
Lemma all_ok_held os ts s id vm r :
  all_ok calls os ts s → vms s !! id = Some vm → r ∈ held vm → r ∈ live_of (trace s).
Proof.
  intros Hok Hv Hr. destruct (ao_table _ _ _ _ Hok _ _ Hv) as (<- & (req & _ & Hvm) & K & [_ [rd ->]] & [M1 _ _ _]).
  apply M1; [by eapply res_vm_held_vm|]. by apply elem_of_list_to_set.
Qed.
End steps.
End rule.

(** ** What holds at any time *)
Section theorems.
Context `{UT : UnicodeTables} `{VH : VMHost W}.
Implicit Types s : service W.

(** The steps of others: they leave the service alone. *)
Definition others s s' : Prop :=
  vms s' = vms s ∧ closed_managers s' = closed_managers s ∧ trace s' = trace s.

#[local] Existing Instance no_view.
Lemma calls_run calls w ts s :
  NoDup (omap svc_drawn calls) →
  rtc (gstep others) (serve_call <$> calls, NewService w) (ts, s) → ∃ os, all_ok calls os ts s.
Proof.
  intros Hn Hrun. apply (all_ok_run calls w); [done..|]. eapply rtc_subrel; [|exact Hrun].
  intros c c' [ts0 s0 i f k Hi|ts0 s0 s1 (H1 & H2 & H3)]; [by apply step_act|].
  apply step_env. by split.
Qed.

(** C13: calls leak nothing, however they interleave: take any calls of StartVM, Exec,
    ExecStream and StopVM at once, each call to the machine, each critical section and each
    call of a backend at any moment, with any steps of others on the machine. At any
    time nothing was opened twice and nothing closed that was not open; a VM of the
    table has what it holds (its proxy, its strict transport, its backend) open; and
    whatever is open is held by a VM of the table, or a call that starts or stops its
    VM is still running; and a call that is given fifteen turns returns, so that in
    the end only what VMs of the table hold is open. (uuids are distinct.) *)
Theorem calls_leak_nothing calls w ts s :
  NoDup (omap svc_drawn calls) →
  rtc (gstep others) (serve_call <$> calls, NewService w) (ts, s) →
  clean (trace s)
  ∧ (∀ id vm r, vms s !! id = Some vm → r ∈ held vm → r ∈ live_of (trace s))
  ∧ (∀ r, r ∈ live_of (trace s) →
       (∃ vm, vms s !! res_vm r = Some vm ∧ r ∈ held vm)
       ∨ ∃ i call m, calls !! i = Some call ∧ svc_vm call = Some (res_vm r)
           ∧ ts !! i = Some m ∧ finished m = None)
  ∧ (∀ i js, (i < length calls)%nat → (15 ≤ length (filter (eq i) js))%nat →
       ∃ r, (turns js (serve_call <$> calls, NewService w)).1 !! i = Some (Finished r)).
Proof.
  intros Hn Hrun. destruct (calls_run _ _ _ _ Hn Hrun) as [os Hok]. split; [apply Hok|]. split_and!.
  - intros id vm r. by eapply all_ok_held.
  - intros r Hr. by eapply all_ok_live.
  - intros i js [call Hi]%lookup_lt_is_Some Hjs.
    eapply turns_finish; [by rewrite list_lookup_fmap, Hi|apply serve_call_within|done].
Qed.

(** C4: however the calls interleave, action by action, each VM of the table comes
    from a StartVM call under its uuid, has the network that call's request asks for,
    and, if the request asks for strict egress, runs on the VM backend behind a proxy
    whose policy is strict: strict egress is never served by the host backend. *)
Theorem calls_keep_strict calls w ts s id vm :
  NoDup (omap svc_drawn calls) →
  rtc (gstep others) (serve_call <$> calls, NewService w) (ts, s) →
  vms s !! id = Some vm →
  ∃ req, SvcStart id req ∈ calls ∧ vm_ID vm = id ∧ network_ok id req (vm_Network vm)
    ∧ (requiresStrictEgress req = true →
       vm_Backend vm = VMKind
       ∧ ∃ m, vm_Network vm = Some m ∧ egressMode (nm_policy m) = EgressMode.STRICT).
Proof.
  intros Hn Hrun Hv. destruct (calls_run _ _ _ _ Hn Hrun) as [os Hok].
  destruct (ao_table _ _ _ _ Hok _ _ Hv) as (Hid & (req & Hin & Hvm) & _). exists req.
  split; [done|]. split; [done|]. split; [apply Hvm|]. by apply vm_ok_strict with id.
Qed.
End theorems.

(** ** Over a host that keeps the laws of the interface *)
Section laws.
Context `{UT : UnicodeTables} `{VH : VMHost W} `{HL : !VMHostLaws W}.
Hypothesis law_exec_stream : ∀ id st w,
  h_ok w → h_ok (h_backendExecStream id st w).2 ∧ h_running (h_backendExecStream id st w).2 = h_running w.
Hypothesis law_exec : ∀ id c args w,
  h_ok w → h_ok (h_backendExec id c args w).2 ∧ h_running (h_backendExec id c args w).2 = h_running w.

Definition runs_at (id : string) (b : bool) (w : W) : Prop := h_ok w ∧ bool_decide (id ∈ h_running w) = b.

Lemma runs_at_same w w' :
  (h_ok w → h_ok w' ∧ h_running w' = h_running w) → ∀ k b, runs_at k b w → runs_at k b w'.
Proof. intros Hf k b [Hok <-]. destruct (Hf Hok) as [H1 H2]. unfold runs_at. by rewrite H2. Qed.

Lemma runs_at_start id w w' (good : bool) :
  (h_ok w → id ∉ h_running w →
   h_ok w' ∧ h_running w' = if good then {[id]} ∪ h_running w else h_running w) →
  runs_at id false w →
  runs_at id good w' ∧ ∀ k b, k ≠ id → runs_at k b w → runs_at k b w'.
Proof.
  intros Hf [Hok Hid%bool_decide_eq_false]. destruct (Hf Hok Hid) as [H1 H2]. split.
  - split; [done|]. rewrite H2. destruct good; [rewrite bool_decide_true|rewrite bool_decide_false]; set_solver.
  - intros k b Hne [_ <-]. split; [done|]. rewrite H2. apply bool_decide_ext. destruct good; set_solver.
Qed.
Lemma runs_at_close id w :
  runs_at id true w →
  runs_at id false (h_backendClose id w).2
  ∧ ∀ k b, k ≠ id → runs_at k b w → runs_at k b (h_backendClose id w).2.
Proof.
  intros [Hok _]. destruct (law_close id w Hok) as [H1 H2]. split.
  - split; [done|]. rewrite H2. apply bool_decide_false. set_solver.
  - intros k b Hne [_ <-]. split; [done|]. rewrite H2. apply bool_decide_ext. set_solver.
Qed.

(** Of strict transports nothing is known. *)
Definition laws_at id (b : bool) (p : option Z) (w : W) : Prop := runs_at id b w.
Definition laws_kept (w w' : W) : Prop := (∀ k b p, laws_at k b p w → laws_at k b p w') ∧ (True → True).
Lemma laws_keep w w' : (h_ok w → h_ok w' ∧ h_running w' = h_running w) → laws_kept w w'.
Proof. intros Hf. split; [intros k b p; by apply runs_at_same|done]. Qed.

#[local] Instance laws_view : BackendView W.
Proof.
  refine {| bv_at := laws_at; bv_ready := λ _, True; bv_id := λ _, True; bv_anchor := λ _ _, True |}.
  - intros w. apply laws_keep, law_listen.
  - intros w. apply laws_keep, law_listen_close.
  - intros w. apply laws_keep, law_ca.
  - intros w. apply laws_keep, law_random.
  - intros id c args w. apply laws_keep, law_exec.
  - intros id st w. apply laws_keep, law_exec_stream.
  - intros w. split; [apply laws_keep, law_prepare|done].
  - intros id port b w _ _ Hb. destruct (laws_keep _ _ (law_factory id port w)) as [H _]. split.
    + case_match; [case_match; [split; [done|]|]|]; exact (H id b None Hb).
    + split; [by intros k b' p _; apply H|done].
  - intros id a b port w _ Hb. destruct (laws_keep _ _ (law_strict_close a w)) as [H _].
    split; [exact (H id b None Hb)|]. split; [by intros k b' p _; apply H|done].
  - intros id req env n p w Hb. destruct (runs_at_start id w (h_vmBackend id req env n w).2
      (is_good (h_vmBackend id req env n w).1)) as [H1 H2]; [|exact Hb|by split; [|split; [intros k b' q; apply H2|]]].
    intros Hok Hid. destruct (law_vmBackend id req env n w Hok Hid) as [H1 H2]. split; [done|]. rewrite H2.
    by destruct (h_vmBackend id req env n w).1.
  - intros id req env p w Hb. destruct (runs_at_start id w (h_hostBackend id req env w).2
      (is_good (h_hostBackend id req env w).1)) as [H1 H2]; [|exact Hb|by split; [|split; [intros k b' q; apply H2|]]].
    intros Hok Hid. destruct (law_hostBackend id req env w Hok Hid) as [H1 H2]. split; [done|]. rewrite H2.
    by destruct (h_hostBackend id req env w).1.
  - intros id p w Hb. destruct (runs_at_close id w Hb) as [H1 H2].
    split; [exact H1|]. split; [intros k b' q; apply H2|done].
Defined.

(** The steps of others: they leave the service, its backends and the host's
    invariant alone. *)
Definition others_host (s s' : service W) : Prop :=
  others s s' ∧ (h_ok (host s) → h_ok (host s') ∧ h_running (host s') = h_running (host s)).

(** The backends that run are those of the VMs of the table, and of VMs for which
    a call is still running. *)
Lemma running_calls calls w ts s :
  h_ok w → h_running w = ∅ → NoDup (omap svc_drawn calls) →
  rtc (gstep others_host) (serve_call <$> calls, NewService w) (ts, s) →
  h_ok (host s)
  ∧ dom (vms s) ⊆ h_running (host s)
  ∧ ∀ id, id ∈ h_running (host s) → id ∈ dom (vms s)
      ∨ ∃ i call m, calls !! i = Some call ∧ svc_vm call = Some id ∧ ts !! i = Some m ∧ finished m = None.
Proof.
  intros Hok Hw Hn Hrun. destruct (all_ok_run calls w ts s Hn) as [os Ha].
  { done. }
  { intros k. split; [done|]. rewrite Hw. by apply bool_decide_false. }
  { eapply rtc_subrel; [|exact Hrun]. intros c c' [ts0 s0 i f k Hi|ts0 s0 s1 [(H1 & H2 & H3) H4]]; [by apply step_act|].
    apply step_env. split; try done. exact (laws_keep _ _ H4). }
  assert (Hat : ∀ id, runs_at id (bool_decide (RBackend id ∈ live_of (trace s))) (host s)).
  { intros id.
    destruct (all_ok_vm calls os ts s id Ha) as [(vm & K & _ & _ & _ & [M1 _ M3 _])|[(i & K & _ & [M1 _ M3 _])|[Hl Hb]]].
    - by rewrite (bool_decide_ext _ _ (M1 (RBackend id) eq_refl)).
    - by rewrite (bool_decide_ext _ _ (M1 (RBackend id) eq_refl)).
    - rewrite bool_decide_false; [exact Hb|]. by apply Hl. }
  assert (Hiff : ∀ id, id ∈ h_running (host s) ↔ RBackend id ∈ live_of (trace s)).
  { intros id. destruct (Hat id) as [_ Hb]. revert Hb. by repeat case_bool_decide. }
  split; [by destruct (Hat "")|]. split.
  - intros id [vm Hv]%elem_of_dom. apply Hiff. eapply all_ok_held; [exact Ha|exact Hv|].
    destruct (ao_table _ _ _ _ Ha _ _ Hv) as (<- & _). unfold held. set_solver.
  - intros id [(vm & Hv & _)|Hc]%Hiff%(all_ok_live _ _ _ _ _ Ha); [left|by right].
    by apply elem_of_dom; exists vm.
Qed.
End laws.

(** ** A run

    A strict VM and a plain one, started and used in turns; the first is being
    stopped. *)
Section demo.
#[local] Existing Instance ascii_tables.

Definition demo_svc_calls : list svc_call :=
  [SvcStart "a" strict_request; SvcStart "b" plain_request; SvcStop "a"; SvcExec "b" "true" []].
Definition demo_started :=
  turns [0; 1; 0; 0; 1; 0; 0; 1; 0; 1; 0]%nat (serve_call <$> demo_svc_calls, NewService ("", true)).
Definition demo_stopping :=
  turns [0; 1; 0; 0; 1; 0; 0; 1; 0; 1; 0; 2; 3; 2; 3]%nat (serve_call <$> demo_svc_calls, NewService ("", true)).

Example demo_stopping_values :
  map fst (map_to_list (vms demo_started.2)) = ["a"; "b"]
  ∧ map fst (map_to_list (vms demo_stopping.2)) = ["b"]
  ∧ elements (live_of (trace demo_stopping.2)) = [RBackend "b"; RStrict "a"; RProxy "a"]
  ∧ map (λ m, if finished m is Some _ then true else false) demo_stopping.1 = [true; true; false; true].
Proof. by vm_compute. Qed.

Lemma demo_drawn : NoDup (omap svc_drawn demo_svc_calls).
Proof. apply (bool_decide_unpack (NoDup (omap svc_drawn demo_svc_calls))). by vm_compute. Qed.
Lemma demo_turns_run js :
  let c := turns js (serve_call <$> demo_svc_calls, NewService ("", true)) in
  rtc (gstep others) (serve_call <$> demo_svc_calls, NewService ("", true)) (c.1, c.2).
Proof. cbv zeta. rewrite <-surjective_pairing. apply turns_run. Qed.

(** The proxy of the VM that is being stopped is open, and its call runs. *)
Lemma calls_leak_nothing_witness :
  RProxy "a" ∈ live_of (trace demo_stopping.2)
  ∧ clean (trace demo_stopping.2)
  ∧ ((∃ vm, vms demo_stopping.2 !! "a" = Some vm ∧ RProxy "a" ∈ held vm)
     ∨ ∃ i call m, demo_svc_calls !! i = Some call ∧ svc_vm call = Some "a"
         ∧ demo_stopping.1 !! i = Some m ∧ finished m = None).
Proof.
  assert (Hl : RProxy "a" ∈ live_of (trace demo_stopping.2)).
  { apply (bool_decide_unpack (RProxy "a" ∈ live_of (trace demo_stopping.2))). by vm_compute. }
  split; [exact Hl|].
  destruct (calls_leak_nothing demo_svc_calls ("", true) demo_stopping.1 demo_stopping.2 demo_drawn
              (demo_turns_run _)) as (H1 & _ & H3 & _).
  split; [exact H1|]. exact (H3 (RProxy "a") Hl).
Defined.

Lemma calls_keep_strict_witness :
  ∃ vm, vms demo_started.2 !! "a" = Some vm ∧ vm_Backend vm = VMKind.
Proof.
  destruct (vms demo_started.2 !! "a") as [vm|] eqn:Ev; [|by vm_compute in Ev].
  exists vm. split; [done|].
  destruct (calls_keep_strict demo_svc_calls ("", true) demo_started.1 demo_started.2 "a" vm demo_drawn
              (demo_turns_run [0; 1; 0; 0; 1; 0; 0; 1; 0; 1; 0]%nat) Ev) as (req & Hin & _ & _ & Hs).
  apply Hs. clear -Hin. unfold demo_svc_calls in Hin.
  repeat (apply elem_of_cons in Hin as [Hin|Hin]; [try discriminate Hin; by injection Hin as ->|]).
  by apply not_elem_of_nil in Hin.
Defined.
End demo.
