(* ===== verification/DaemonStrictProps.v ===== *)
(** * The packet filter follows the VMs

    The daemon's calls, however they interleave, over the hooks of
    [DaemonStrict]: what the daemon's anchors hold is, at any time, the rules of the
    strict-egress VMs that it has, and what earlier daemons left or pfctl refused to
    flush: between whole handlers
    ([strict_rules_follow]) and between their actions ([calls_rules_follow]). *)
From Stdlib Require Import Ascii.
From S2P Require Export DaemonStrict ServiceCallsProps.
From S2P Require Import MemVM.
From stdpp Require Import relations.
#[local] Open Scope Z_scope.

Section service.
Context `{UT : UnicodeTables} `{base : VMHost W} `{PF : PFHost Pw} (text : strict_error → string) (stale : gset string).
#[local] Abbreviation filters := (filters stale).
#[local] Abbreviation anchor_map := (anchor_map stale).
#[local] Existing Instance darwin_host.
#[local] Instance the_host : VMHost (W * pfstate Pw) := darwin_host text.
Implicit Types (s : service (W * pfstate Pw)) (V : gmap string Z).

Definition agree V s : Prop :=
  filters V (host s).2 ∧ ∀ id, is_Some (V !! id) ↔ RStrict id ∈ live_of (trace s).

(** What a call of the VM [id] does: [V] changes for [id] only. *)
Definition triple (id : string) {A} (P : gmap string Z → Prop) (m : M (W * pfstate Pw) A)
    (Q : A → gmap string Z → Prop) : Prop :=
  ∀ V s, agree V s → P V →
  ∃ V', agree V' (m s).2 ∧ (∀ k, k ≠ id → V' !! k = V !! k) ∧ Q (m s).1 V'.

Lemma triple_ret id {A} (a : A) Q : triple id (Q a) (mret a) Q.
Proof. intros V s Ha HQ. by exists V. Qed.
Lemma triple_bind id {A B} P Q R (m : M _ A) (f : A → M _ B) :
  triple id P m Q → (∀ a, triple id (Q a) (f a) R) → triple id P (m ≫= f) R.
Proof.
  intros Hm Hf V s Ha HP. destruct (Hm V s Ha HP) as (V1 & H1 & K1 & Q1).
  unfold mbind, M_mbind. destruct (m s) as [a s1]. destruct (Hf a V1 s1 H1 Q1) as (V2 & H2 & K2 & Q2).
  exists V2. split; [done|]. split; [|done]. intros k Hk. by rewrite K2, K1.
Qed.
Lemma triple_weaken id {A} (P P' : gmap string Z → Prop) (Q Q' : A → gmap string Z → Prop) m :
  triple id P m Q → (∀ V, P' V → P V) → (∀ a V, Q a V → Q' a V) → triple id P' m Q'.
Proof.
  intros H HP HQ V s Ha HP'. destruct (H V s Ha (HP V HP')) as (V' & ? & ? & ?).
  exists V'. auto.
Qed.

(** *** Operations that leave the strict transports alone *)
Definition aside {A} (m : M (W * pfstate Pw) A) : Prop := ∀ V s, agree V s → agree V (m s).2.

Lemma aside_ret {A} (a : A) : aside (mret a).
Proof. by intros V s. Qed.
Lemma aside_bind {A B} (m : M _ A) (f : A → M _ B) : aside m → (∀ a, aside (f a)) → aside (m ≫= f).
Proof.
  intros Hm Hf V s Ha. unfold mbind, M_mbind. specialize (Hm V s Ha).
  destruct (m s) as [a s1]. by apply Hf.
Qed.
Lemma aside_host {A} (f : W → A * W) : aside (act (on_host f)).
Proof. intros V s [H1 H2]. unfold act, on_host. by destruct (f (host s).1). Qed.
Lemma aside_set_closed id e : aside (set_closed id e).
Proof. by intros V s [? ?]. Qed.

Definition strict_event (e : vm_event) : bool :=
  match e with EvOpened (RStrict _) | EvClosed (RStrict _) => true | _ => false end.
Lemma aside_ev e : strict_event e = false → aside (ev e).
Proof.
  intros He V s [H1 H2]. split; [done|]. intros id. unfold ev. cbn [snd trace]. rewrite live_of_snoc, H2.
  destruct e as [[]|[]]; try done; cbn [live_step]; set_solver.
Qed.

Lemma triple_aside id {A} P (m : M _ A) : aside m → triple id P m (λ _, P).
Proof. intros Hm V s Ha HP. exists V. split; [by apply Hm|done]. Qed.
Lemma triple_aside_bind id {A B} P R (m : M _ A) (f : A → M _ B) :
  aside m → (∀ a, triple id P (f a) R) → triple id P (m ≫= f) R.
Proof. intros Hm. apply triple_bind, triple_aside, Hm. Qed.

Lemma aside_proxy_Close id : aside (proxy_Close id).
Proof. apply aside_bind; [by apply aside_ev|]. intros _. apply aside_host. Qed.

Lemma aside_newProxyServer id p secrets : aside (newProxyServer id p secrets).
Proof.
  apply aside_bind; [apply aside_host|]. intros [port|e]; [|apply aside_ret].
  apply aside_bind; [by apply aside_ev|]. intros _. case_bool_decide; [apply aside_ret|].
  apply aside_bind; [apply aside_host|]. intros [path|e]; [apply aside_ret|].
  apply aside_bind; [by apply aside_ev|]. intros _.
  apply aside_bind; [apply aside_host|]. intros; apply aside_ret.
Qed.

Lemma aside_start_backend id f : aside (start_backend id (on_host f)).
Proof.
  apply aside_bind; [apply aside_host|]. intros [[]|e]; [|apply aside_ret].
  apply aside_bind; [by apply aside_ev|]. intros; apply aside_ret.
Qed.

(** *** The network manager *)
Definition network_right (id : string) V (n : option networkManager) : Prop :=
  ∀ m, n = Some m → nm_vmID m = id
    ∧ ∀ a, nm_strictTransport m = Some a → a = buildPFAnchorID id ∧ V !! id = Some (nm_port m).
Definition vm_right V (vm : VM) : Prop := network_right (vm_ID vm) V (vm_Network vm).

Lemma network_right_same id V V' n :
  V' !! id = V !! id → network_right id V n → network_right id V' n.
Proof. intros HV Hn m Hm. rewrite HV. by apply Hn. Qed.

Lemma act_prepare V s :
  agree V s → let '(e, s') := act h_strictPrepare s in
  agree V s' ∧ (e = None → pf_prepared (host s').2 = Some None).
Proof.
  intros [Hf Hl]. pose proof (filters_prepare stale V _ Hf) as H.
  unfold act, h_strictPrepare. cbn. unfold on_pf.
  destruct (prepareStrictTransportDarwin (host s).2). destruct H as (H1 & H2 & _). by split.
Qed.

Lemma act_factory V s id port :
  agree V s → pf_prepared (host s).2 = Some None → V !! id = None → plain id →
  let '(r, s') := act (h_strictFactory id port) s in
  match r with
  | Good a => a = Some (buildPFAnchorID id) ∧ agree (<[id := port]> V) (ev (EvOpened (RStrict id)) s').2
  | Bad _ => agree V s'
  end.
Proof.
  intros [Hf Hl] Hp Hid Hpl. pose proof (filters_factory text stale V id port _ Hf Hid Hpl Hp) as H.
  unfold act, h_strictFactory. cbn -[strict_factory]. unfold on_pf.
  destruct (strict_factory text id port (host s).2) as [[a|e] p]; [|by split].
  destruct H as [-> H]. split; [done|]. split; [done|]. intros k. cbn [snd trace].
  rewrite live_of_snoc. cbn [live_step].
  rewrite lookup_insert_is_Some, elem_of_union, elem_of_singleton, Hl.
  destruct (decide (id = k)) as [->|]; naive_solver.
Qed.

Lemma triple_start_strict id p port :
  triple id (λ V, V !! id = None ∧ plain id) (start_strict id p port)
    (λ r V, ∀ a, r = Good (Some a) → a = buildPFAnchorID id ∧ V !! id = Some port).
Proof.
  intros V s Ha [Hid Hpl]. unfold start_strict. destruct (_ =? _); [|by exists V].
  pose proof (act_prepare V s Ha) as H. unfold mbind, M_mbind.
  destruct (act h_strictPrepare s) as [[e|] s1]; destruct H as [H1 Hp]; cbn [fst snd] in *.
  2: specialize (Hp eq_refl).
  { exists V. pose proof (aside_proxy_Close id V s1 H1). by destruct (proxy_Close id s1). }
  pose proof (act_factory V s1 id port H1 Hp Hid Hpl) as H2.
  destruct (act (h_strictFactory id port) s1) as [[a|e] s2].
  - destruct H2 as [-> H2]. exists (<[id := port]> V). split; [done|]. split.
    + intros k Hk. by rewrite lookup_insert_ne.
    + intros a [= <-]. by rewrite lookup_insert_eq.
  - exists V. pose proof (aside_proxy_Close id V s2 H2). by destruct (proxy_Close id s2).
Qed.

Lemma triple_newNetworkManager id req :
  triple id (λ V, V !! id = None ∧ plain id) (newNetworkManager id req)
    (λ r V, ∀ n, r = Good n → network_right id V n).
Proof.
  unfold newNetworkManager.
  assert (Hbad : ∀ P e, triple id P (mret (Bad e)) (λ r V, ∀ n : option networkManager,
            r = @Good vm_error _ n → network_right id V n)) by (intros P e V s Ha _; by exists V).
  destruct (buildNetworkPolicy _); [|apply Hbad]. destruct (validateNetworkPolicy _); [apply Hbad|].
  apply triple_aside_bind; [apply aside_host|]. intros rands.
  destruct (buildSecrets _ _) as [[specs senv]|]; [|apply Hbad].
  destruct (_ && _); [intros V s Ha _; exists V; split; [done|]; split; [done|]; by intros n [= <-] m|].
  apply triple_aside_bind; [apply aside_newProxyServer|]. intros [[port ca]|e]; [|apply Hbad].
  eapply triple_bind; [apply triple_start_strict|]. intros [strict|e]; [|apply Hbad].
  intros V s Ha HQ. exists V. split; [done|]. split; [done|].
  intros n [= <-] m [= <-]. cbn. split; [done|]. intros a0 ->. by apply HQ.
Qed.

(** *** Closing *)
Lemma act_close V s id port a :
  agree V s → a = buildPFAnchorID id → V !! id = Some port →
  agree (delete id V) (act (h_strictClose a) (ev (EvClosed (RStrict id)) s).2).2.
Proof.
  intros [Hf Hl] -> Hid.
  assert (H : filters (delete id V) (strict_close (buildPFAnchorID id) (host s).2).2).
  { apply filters_close; [done|by eexists]. }
  unfold act, h_strictClose. cbn -[strict_close]. unfold on_pf.
  destruct (strict_close (buildPFAnchorID id) (host s).2) as [e p]. split; [done|]. intros k.
  cbn [snd trace]. rewrite live_of_snoc. cbn [live_step].
  rewrite lookup_delete_is_Some, elem_of_difference, elem_of_singleton, Hl. naive_solver.
Qed.

Lemma triple_network_Close id n :
  triple id (λ V, network_right id V n) (network_Close n) (λ _ _, True).
Proof.
  destruct n as [m|]; [|by apply triple_weaken with (P := λ _, True) (Q := λ _ _, True);
                          [apply triple_aside, aside_ret|..]].
  intros V s Ha Hn. destruct (Hn m eq_refl) as [Hid Hst]. cbn [network_Close]. unfold manager_Close.
  rewrite Hid. destruct (closed_managers s !! id); [by exists V|].
  revert V s Ha Hn Hid Hst.
  enough (triple id (λ V, ∀ a, nm_strictTransport m = Some a →
                               a = buildPFAnchorID id ∧ V !! id = Some (nm_port m))
    (strictErr ← match nm_strictTransport m with
                 | Some anchor => _ ← ev (EvClosed (RStrict id)); act (h_strictClose anchor)
                 | None => mret None
                 end;
     proxyErr ← proxy_Close id;
     _ ← set_closed id (errors_Join strictErr proxyErr);
     mret (errors_Join strictErr proxyErr)) (λ _ _, True)) as H.
  { intros V s Ha _ _ Hst. exact (H V s Ha Hst). }
  apply triple_bind with (Q := λ _ _, True).
  - intros V s Ha Hst. destruct (nm_strictTransport m) as [a|]; [|by exists V].
    destruct (Hst a eq_refl) as [Hea HV]. exists (delete id V). split; [|split; [|done]].
    + exact (act_close V s id _ a Ha Hea HV).
    + intros k Hk. by rewrite lookup_delete_ne.
  - intros e1. apply triple_aside, aside_bind; [apply aside_proxy_Close|]. intros e2.
    apply aside_bind; [apply aside_set_closed|]. intros; apply aside_ret.
Qed.

(** *** VMs *)
Definition newVM_post (id : string) (r : osres vm_error VM) V : Prop :=
  ∀ vm, r = Good vm → vm_ID vm = id ∧ vm_right V vm.

Lemma triple_abandon id n e : triple id (λ V, network_right id V n) (abandon n e) (newVM_post id).
Proof.
  eapply triple_bind; [apply triple_network_Close|]. intros e' V s Ha _. by exists V.
Qed.

Lemma triple_made id kind n :
  triple id (λ V, network_right id V n)
    (mret (Good {| vm_ID := id; vm_Backend := kind; vm_Network := n |})) (newVM_post id).
Proof. intros V s Ha Hn. exists V. split; [done|]. split; [done|]. by intros vm [= <-]. Qed.

Lemma triple_newVM_host id req env n :
  triple id (λ V, network_right id V n) (newVM_host id req env n) (newVM_post id).
Proof.
  apply triple_aside_bind; [apply aside_start_backend|]. intros []; [apply triple_made|apply triple_abandon].
Qed.

Lemma triple_newVM id req :
  triple id (λ V, V !! id = None ∧ plain id) (newVM id req) (newVM_post id).
Proof.
  eapply triple_bind; [apply triple_newNetworkManager|]. intros [n|e].
  2: { intros V s Ha _. by exists V. }
  apply triple_weaken with (P := λ V, network_right id V n) (Q := newVM_post id); [|by auto|done].
  cbv zeta. apply triple_aside_bind; [by intros V s|]. intros mode.
  destruct (_ && _); [apply triple_abandon|]. destruct (_ || _); [|apply triple_newVM_host].
  apply triple_aside_bind; [apply aside_start_backend|]. intros [[]|e]; [apply triple_made|].
  case_bool_decide; [apply triple_abandon|]. destruct e; [|apply triple_abandon].
  destruct (requiresStrictEgress req); [apply triple_abandon|apply triple_newVM_host].
Qed.

Lemma triple_close_vm vm :
  triple (vm_ID vm) (λ V, vm_right V vm) (close_vm vm) (λ _ _, True).
Proof.
  unfold close_vm. apply triple_aside_bind; [by apply aside_ev|]. intros _.
  apply triple_aside_bind; [apply aside_host|]. intros e1.
  unfold vm_right. destruct (vm_Network vm) as [m|].
  - eapply triple_bind; [apply (triple_network_Close _ (Some m))|].
    intros e2. apply triple_aside, aside_ret.
  - apply triple_weaken with (P := λ _, True) (Q := λ _ _, True); [apply triple_aside, aside_ret|done..].
Qed.
End service.

(** ** Concurrent calls *)
Section conc.
Context `{UT : UnicodeTables} `{base : VMHost W} `{PF : PFHost Pw} (text : strict_error → string) (stale : gset string).
#[local] Abbreviation filters := (filters stale).
#[local] Abbreviation anchor_map := (anchor_map stale).
#[local] Abbreviation agree := (agree stale).
#[local] Instance conc_host : VMHost (W * pfstate Pw) := darwin_host text.
Variable calls : list thread.
Hypothesis ids_plain : ∀ id req, TStart id req ∈ calls → plain id.

Definition inv_strict (c : config (W := W * pfstate Pw)) : Prop :=
  inv calls c ∧ ∃ V, agree V c.1 ∧ Forall (vm_right V) (owners c.1 c.2).

Lemma rights_same V V' id (O : list VM) :
  id ∉ map vm_ID O → (∀ k, k ≠ id → V' !! k = V !! k) →
  Forall (vm_right V) O → Forall (vm_right V') O.
Proof.
  intros Hid HV. rewrite !Forall_forall. intros H vm Hvm.
  apply (network_right_same _ V); [|by apply H]. apply HV. intros Hvid. apply Hid.
  rewrite <-Hvid. by apply list_elem_of_fmap_2.
Qed.

(** An id that is still to be used has no strict transport. *)
Lemma unused_id V (s : service (W * pfstate Pw)) O S id :
  inv_at calls s O (id :: S) → agree V s → V !! id = None ∧ id ∉ map vm_ID O.
Proof.
  intros [H1 _ H3 _ H5] [_ Hl]. rewrite <-Permutation_middle in H1. apply NoDup_cons in H1 as [H1 _].
  assert (Hid : id ∉ map vm_ID O) by set_solver. split; [|done].
  apply eq_None_not_Some. rewrite Hl, H5. intros Hr. apply Hid.
  by apply (holdings_ids calls) in Hr.
Qed.

Lemma sstep_strict c c' : inv_strict c → sstep c c' → inv_strict c'.
Proof.
  intros [Hi (V & Ha & Hr)] Hstep. split; [by eapply sstep_inv|].
  destruct Hi as (Hk & Hts & Hi).
  destruct Hstep as [s ts1 ts2 id req|s ts1 ts2 vm|s ts1 ts2|s ts1 ts2 id Hne|s ts1 ts2 vm];
    cbn [fst snd] in *; rewrite owners_mid in Hr;
    (eapply inv_at_perm in Hi; [|apply owners_mid|apply drawn_mid]); cbn [in_flight drawn app] in *.
  - destruct (unused_id _ _ _ _ _ Hi Ha) as [Hn Hid].
    destruct (inv_at_newVM calls id req _ _ _ ltac:(apply Hts; set_solver) Hi) as [Hv _].
    destruct (triple_newVM text stale id req V s Ha) as (V' & Ha' & HV & HQ).
    { split; [done|]. apply (ids_plain id req), Hts. set_solver. }
    exists V'. split; [done|]. rewrite owners_mid, (owners_same s) by done.
    apply (rights_same V V' id) in Hr; [|done..].
    destruct (newVM id req s).1 as [vm|e]; cbn [in_flight app]; [|done].
    constructor; [by apply HQ|done].
  - exists V. split; [done|]. rewrite owners_mid. cbn [in_flight app].
    rewrite owners_insert; [done|done|]. apply eq_None_not_Some. intros [vm' E].
    destruct Hi as [Hnd _ _ _ _]. simpl in Hnd. apply NoDup_cons in Hnd as [Hnd _]. apply Hnd.
    apply elem_of_app. left. rewrite <-(Hk _ _ E). apply list_elem_of_fmap_2. by eapply table_owner.
  - exists V. split; [done|]. by rewrite owners_mid.
  - unfold take_vm. destruct (vms s !! id) as [vm|] eqn:E; cbn [fst snd].
    + exists V. split; [done|]. rewrite owners_mid. cbn [in_flight app].
      pose proof (Hk _ _ E) as Hid. cbn in Hid. subst id.
      cbn [set_vms fst snd in_flight app]. by rewrite <-(owners_delete s).
    + exists V. split; [done|]. by rewrite owners_mid.
  - inversion_clear Hr as [|?? Hvm Hr'].
    destruct (triple_close_vm text stale vm V s Ha Hvm) as (V' & Ha' & HV & _).
    destruct (inv_at_close _ _ _ _ _ Hi) as [_ Hv]. exists V'. split; [done|].
    rewrite owners_mid, (owners_same s) by done. cbn [in_flight app].
    eapply rights_same; [|exact HV|done]. destruct Hi as [Hnd _ _ _ _]. simpl in Hnd.
    apply NoDup_cons in Hnd as [Hnd _]. set_solver.
Qed.

(** The packet filter, with each handler's creation and closing of a VM one step.
    Calls of StartVM and StopVM,
    however they interleave and whatever pfctl, the listeners and the backends
    answer, keep this: each command given to pfctl stays in the daemon's part of
    the filter; what its anchors hold is the rules of the VMs (of the table and of
    the calls in progress) that have a strict transport:
    the anchor of each such VM is its own and holds the rules for its own proxy's
    port, and an anchor of no such VM holds none, but what an earlier daemon left or
    pfctl refused to flush. *)
Theorem strict_rules_follow w pw s ts :
  Forall is_call calls → NoDup (omap drawn calls) →
  star sstep (NewService (w, fresh_daemon pw), calls) (s, ts) →
  let p := (host s).2 in
  Forall own_command (pf_commands p)
  ∧ (∀ vm m a, vm ∈ owners s ts → vm_Network vm = Some m → nm_strictTransport m = Some a →
      a = buildPFAnchorID (vm_ID vm)
      ∧ ∃ extra, anchor_map p !! a = Some (Loaded (buildPFAnchorRules extra (nm_port m))))
  ∧ (∀ a st, anchor_map p !! a = Some st →
      leftover st ∨ ∃ vm m, vm ∈ owners s ts ∧ vm_Network vm = Some m ∧ nm_strictTransport m = Some a).
Proof.
  intros Hc Hn Hs p.
  destruct (star_invariant sstep inv_strict sstep_strict _ _ Hs) as [(_ & _ & Hi) (V & [Hf Hl] & Hr)].
  { split; [by apply inv_start|]. exists ∅. split; [split; [apply filters_fresh|]|].
    - intros id. cbn. rewrite lookup_empty. split; [by intros []|by intros ?%not_elem_of_empty].
    - cbn [fst snd]. by rewrite owners_start. }
  cbn [fst snd] in *. rewrite Forall_forall in Hr. split; [apply Hf|]. split.
  - intros vm m a Hvm Hm Ha. destruct (Hr _ Hvm m Hm) as [Hid Hst].
    destruct (Hst a Ha) as [-> HV]. split; [done|]. by eapply fi_told.
  - intros a st Ha. destruct (fi_only _ _ _ Hf a st Ha) as [|(id & Hid & ->)]; [by left|right].
    apply Hl in Hid. destruct Hi as [_ _ _ _ Hlive]. rewrite Hlive in Hid.
    unfold holdings in Hid. apply elem_of_list_to_set, list_elem_of_bind in Hid as (vm & Hin & Hvm).
    apply elem_of_app in Hin as [Hin|Hin%list_elem_of_singleton]; [|done].
    destruct (vm_Network vm) as [m|] eqn:Em; [|by apply not_elem_of_nil in Hin].
    exists vm, m. split; [done|]. split; [done|]. destruct (Hr _ Hvm m Em) as [Hmid Hst].
    cbn [network_held] in Hin. apply elem_of_cons in Hin as [Hin|Hin]; [done|].
    destruct (nm_strictTransport m) as [a|]; [|by apply not_elem_of_nil in Hin].
    apply list_elem_of_singleton in Hin. injection Hin as Hin. destruct (Hst a eq_refl) as [-> _].
    by rewrite Hin, Hmid.
Qed.
End conc.

(** ** Action by action

    What is known of a VM's strict transport: [V] is that of the VMs that have one. *)
Section calls.
Context `{UT : UnicodeTables} `{base : VMHost W} `{PF : PFHost Pw} (text : strict_error → string) (stale : gset string).
#[local] Abbreviation filters := (filters stale).
#[local] Abbreviation anchor_map := (anchor_map stale).
#[local] Instance calls_host : VMHost (W * pfstate Pw) := darwin_host text.
Implicit Types V : gmap string Z.

(** What the anchors hold says which VMs those are. *)
Lemma filters_sub V V' (p : pfstate Pw) id :
  filters V p → filters V' p → is_Some (V !! id) → is_Some (V' !! id).
Proof.
  intros Hf Hf' Hid. destruct Hid as [port Hport]. destruct (fi_told _ _ _ Hf id port Hport) as [extra He].
  destruct (fi_only _ _ _ Hf' _ _ He) as [[?|?]|(id' & Hid' & Ha)]; [done..|].
  apply buildPFAnchorID_inj in Ha as ->; [done| |]; [eapply fi_plain; [exact Hf|by rewrite Hport]|by eapply fi_plain].
Qed.

Definition pf_at (id : string) (b : bool) (p : option Z) (w : W * pfstate Pw) : Prop := ∃ V, filters V w.2 ∧ V !! id = p.
Definition pf_ready (w : W * pfstate Pw) : Prop := pf_prepared w.2 = Some None.

(** VM [id]'s may change: what a step does to each filter's VMs. *)
Lemma pf_aside id (w w' : W * pfstate Pw) :
  (∀ V, filters V w.2 → ∃ V', filters V' w'.2 ∧ ∀ k, k ≠ id → V' !! k = V !! k) →
  ∀ k (b : bool) p, k ≠ id → pf_at k b p w → pf_at k b p w'.
Proof.
  intros H k b p Hk (V & Hf & HV). destruct (H V Hf) as (V' & Hf' & Hother). exists V'. by rewrite Hother.
Qed.

Definition pf_kept (w w' : W * pfstate Pw) : Prop := (∀ k b p, pf_at k b p w → pf_at k b p w') ∧ (pf_ready w → pf_ready w').
Lemma pf_keep (w w' : W * pfstate Pw) : w'.2 = w.2 → pf_kept w w'.
Proof. intros He. unfold pf_kept, pf_at, pf_ready. by rewrite He. Qed.
Lemma on_host_pf {A} (f : W → A * W) (w : W * pfstate Pw) : (on_host f w).2.2 = w.2.
Proof. unfold on_host. by destruct (f w.1). Qed.
Lemma pf_host {A} (f : W → A * W) (w : W * pfstate Pw) : pf_kept w (on_host f w).2.
Proof. apply pf_keep, on_host_pf. Qed.
#[local] Hint Resolve pf_host : core.

Lemma pf_start {A} (f : W → osres backend_error A * W) id p (w : W * pfstate Pw) :
  pf_at id false p w →
  pf_at id (is_good (on_host f w).1) p (on_host f w).2
  ∧ (∀ k b q, k ≠ id → pf_at k b q w → pf_at k b q (on_host f w).2)
  ∧ (pf_ready w → pf_ready (on_host f w).2).
Proof.
  intros Hat. destruct (pf_host f w) as [H1 H2]. split; [|split; [by intros k b q _; apply H1|done]].
  exact (H1 id false p Hat).
Qed.

Lemma pf_prepare (w : W * pfstate Pw) :
  pf_kept w (h_strictPrepare w).2
  ∧ ∀ k b p, pf_at k b p w → (h_strictPrepare w).1 = None → pf_ready (h_strictPrepare w).2.
Proof.
  assert (H : ∀ V, filters V w.2 → filters V (h_strictPrepare w).2.2
    ∧ ((h_strictPrepare w).1 = None → pf_ready (h_strictPrepare w).2)).
  { intros V Hf. pose proof (filters_prepare stale V w.2 Hf) as H. revert H. cbn. unfold on_pf, pf_ready.
    destruct (prepareStrictTransportDarwin w.2). cbn. tauto. }
  split; [split|].
  - intros k b p (V & Hf & HV). exists V. split; [|done]. by apply H.
  - unfold pf_ready. cbn. unfold on_pf, prepareStrictTransportDarwin. intros He. by rewrite He.
  - intros k b p (V & Hf & _). by apply (H V).
Qed.

Lemma pf_factory id port (b : bool) (w : W * pfstate Pw) :
  plain id → pf_ready w → pf_at id b None w →
  match (h_strictFactory id port w).1 with
  | Good (Some a) => a = buildPFAnchorID id ∧ pf_at id b (Some port) (h_strictFactory id port w).2
  | _ => pf_at id b None (h_strictFactory id port w).2
  end
  ∧ (∀ k b p, k ≠ id → pf_at k b p w → pf_at k b p (h_strictFactory id port w).2)
  ∧ (pf_ready w → pf_ready (h_strictFactory id port w).2).
Proof.
  intros Hid Hr (V & Hf & HV). cbn. unfold on_pf.
  assert (Hall : ∀ V', filters V' w.2 → V' !! id = None).
  { intros V' Hf'. apply eq_None_not_Some. intros Hs. apply (filters_sub _ _ _ _ Hf' Hf) in Hs. rewrite HV in Hs. by destruct Hs. }
  pose proof (factory_spec text stale id port w.2 (fi_inv _ _ _ Hf)) as Hp.
  pose proof (λ V' Hf', filters_factory text stale V' id port w.2 Hf' (Hall V' Hf') Hid Hr) as H.
  destruct (strict_factory text id port w.2) as [[[a|]|e] p']; cbn [fst snd] in *; destruct Hp as (_ & Hprep & _).
  - split; [|split].
    + destruct (H V Hf) as [[= ->] H']. split; [done|]. eexists. split; [exact H'|by apply lookup_insert_eq].
    + apply pf_aside. intros V' Hf'. destruct (H V' Hf') as [_ H']. eexists. split; [exact H'|].
      intros k Hk. by apply lookup_insert_ne.
    + unfold pf_ready. cbn. by rewrite Hprep.
  - by destruct (H V Hf) as [[=] _].
  - split; [by exists V; split; [apply H|]|]. split.
    + apply pf_aside. intros V' Hf'. exists V'. split; [by apply H|done].
    + unfold pf_ready. cbn. by rewrite Hprep.
Qed.

Lemma pf_close id a (b : bool) port (w : W * pfstate Pw) :
  a = buildPFAnchorID id → pf_at id b (Some port) w →
  pf_at id b None (h_strictClose a w).2
  ∧ (∀ k b p, k ≠ id → pf_at k b p w → pf_at k b p (h_strictClose a w).2)
  ∧ (pf_ready w → pf_ready (h_strictClose a w).2).
Proof.
  intros -> (V & Hf & HV). cbn. unfold on_pf.
  assert (H : ∀ V', filters V' w.2 → filters (delete id V') (strict_close (buildPFAnchorID id) w.2).2).
  { intros V' Hf'. apply filters_close; [done|]. apply (filters_sub _ _ _ _ Hf Hf'). by rewrite HV. }
  assert (Hp : pf_prepared (strict_close (buildPFAnchorID id) w.2).2 = pf_prepared w.2).
  { pose proof (close_spec stale (buildPFAnchorID id) w.2 (fi_inv _ _ _ Hf)) as H'. revert H'.
    destruct (strict_close _ w.2) as [e p']. intros (_ & Hp & _); [|done].
    rewrite (fi_open _ _ _ Hf). apply list_elem_of_fmap. exists (id, port). split; [done|]. by apply elem_of_map_to_list. }
  destruct (strict_close (buildPFAnchorID id) w.2) as [e p']. cbn [fst snd] in *. split; [|split].
  - exists (delete id V). split; [by apply H|apply lookup_delete_eq].
  - apply pf_aside. intros V' Hf'. exists (delete id V'). split; [by apply H|]. intros k Hk. by apply lookup_delete_ne.
  - unfold pf_ready. cbn. by rewrite Hp.
Qed.

#[local] Instance pf_view : BackendView (W * pfstate Pw).
Proof.
  refine {| bv_at := pf_at; bv_ready := pf_ready; bv_id := plain; bv_anchor := λ id a, a = buildPFAnchorID id |};
    try (intros; apply pf_host).
  - apply pf_prepare.
  - apply pf_factory.
  - apply pf_close.
  - intros id req env n p w. apply (pf_start (h_vmBackend id req env n)).
  - intros id req env p w. apply (pf_start (h_hostBackend id req env)).
  - intros id p w Hat. destruct (pf_host (h_backendClose id) w) as [H1 H2].
    split; [exact (H1 id true p Hat)|]. split; [by intros k b q _; apply H1|done].
Defined.

(** The steps of others: they leave the service and its part of the filter alone. *)
Definition others_pf (s s' : service (W * pfstate Pw)) : Prop := others s s' ∧ (host s').2 = (host s).2.

(** C5: the packet filter of macOS follows the strict-egress VMs.  With the hooks of
    strict_transport_darwin.go, take any calls of StartVM, Exec, ExecStream and StopVM
    at once, each call to the machine, each critical section and each hook at any
    moment, whatever pfctl, listeners and backends answer, any anchors with rules of
    earlier daemons, and any steps of others that leave the filter alone; VM ids are
    plain, as uuids are. A pfctl command that answered no error did what it says; after
    one that failed its anchor may hold rules. At any time: every command stayed in the
    daemon's part of the filter; a VM of the table with a strict transport has its own
    anchor, which holds the rules for its own proxy's port, and no anchor listed when
    the daemon was prepared still has an earlier daemon's rules; an anchor that may hold
    rules is that of such a VM, or of the VM of a call still running, or an earlier
    daemon's that no command has emptied, or one that pfctl refused to flush. *)
Theorem calls_rules_follow (calls : list svc_call) w pw ts s :
  NoDup (omap svc_drawn calls) → (∀ id req, SvcStart id req ∈ calls → plain id) →
  rtc (gstep others_pf) (serve_call (W := W * pfstate Pw) <$> calls, NewService (w, fresh_daemon pw)) (ts, s) →
  let p := (host s).2 in
  Forall own_command (pf_commands p)
  ∧ (∀ id vm m a, vms s !! id = Some vm → vm_Network vm = Some m → nm_strictTransport m = Some a →
      a = buildPFAnchorID id
      ∧ (∃ extra, anchor_map p !! a = Some (Loaded (buildPFAnchorRules extra (nm_port m))))
      ∧ stale_flushed stale (pf_log p))
  ∧ (∀ a st, anchor_map p !! a = Some st →
      (st = Stale ∧ a ∈ stale)
      ∨ (st = FlushRefused ∧ ∃ failure, (flush a, Bad failure) ∈ pf_log p)
      ∨ ∃ id, a = buildPFAnchorID id
        ∧ ((∃ vm m, vms s !! id = Some vm ∧ vm_Network vm = Some m ∧ nm_strictTransport m = Some a)
           ∨ ∃ i call m, calls !! i = Some call ∧ svc_vm call = Some id ∧ ts !! i = Some m ∧ finished m = None)).
Proof.
  intros Hn Hids Hrun p. destruct (all_ok_run (BV := pf_view) calls (w, fresh_daemon pw) ts s Hn Hids) as [os Ha].
  { intros k. exists ∅. split; [apply filters_fresh|apply lookup_empty]. }
  { eapply rtc_subrel; [|exact Hrun]. intros c c' [ts0 s0 i f k Hi|ts0 s0 s1 [(H1 & H2 & H3) H4]]; [by apply step_act|].
    apply step_env. split; try done. by apply pf_keep. }
  assert (Hany : ∃ V, filters V p).
  { destruct (all_ok_vm calls os ts s "" Ha) as [(vm & K & _ & _ & _ & [_ _ M3 _])|[(i & K & _ & [_ _ M3 _])|[_ M3]]];
      destruct M3 as (V & Hf & _); by exists V. }
  destruct Hany as [V Hf]. split; [apply Hf|]. split.
  - intros id vm m a Hv Hm Hs. destruct (ao_table _ _ _ _ Ha _ _ Hv) as (<- & _ & K & [Hanc [rd ->]] & [_ _ (V' & Hf' & HV') _]).
    pose proof (Hanc m a Hm Hs) as ->. cbn in HV'. rewrite Hm in HV'. cbn in HV'. rewrite Hs in HV'.
    split; [done|]. split; [by apply (fi_told _ _ _ Hf')|].
    apply (fi_flushed _ _ _ Hf'), (fi_prepared _ _ _ Hf'). intros ->. by rewrite lookup_empty in HV'.
  - intros a st Hin. destruct (fi_only _ _ _ Hf a st Hin) as [[->| ->]|(id & Hid & ->)];
      [left; split; [done|by eapply pf_held_stale]|right; left; split; [done|by eapply pf_held_refused]|right; right].
    exists id. split; [done|].
    destruct (all_ok_vm calls os ts s id Ha)
      as [(vm & K & Hv & <- & [Hanc [rd ->]] & [_ _ (V' & Hf' & HV') _])|[(i & K & Ho & [_ _ (V' & Hf' & HV') _])|[_ (V' & Hf' & HV')]]];
      apply (filters_sub _ _ _ _ Hf Hf') in Hid; rewrite HV' in Hid.
    + left. exists vm. cbn in Hid. destruct (vm_Network vm) as [m|] eqn:Em; [|by destruct Hid]. exists m. cbn in Hid.
      destruct (nm_strictTransport m) as [a|] eqn:Es; [|by destruct Hid]. by rewrite (Hanc m a eq_refl Es).
    + right. eapply owner_runs; [done|done|]. intros [_ HK]. rewrite HK in Hid. by destruct Hid.
    + by destruct Hid.
Qed.
End calls.

(** ** A run

    A strict-egress VM is started and stopped on a machine whose pfctl lists a
    stale anchor. *)
#[local] Existing Instance ascii_tables.
#[local] Instance demo_pfctl : PFHost () := {|
  pf_run args stdin w := (None, w);
  pf_output args w := (Good ("com.apple" +:+ String nl " com.klitka.vm/old "), w);
  pf_getenv _ _ := ""
|}.
#[local] Instance demo_darwin : VMHost (machine * pfstate ()) :=
  darwin_host (λ e, match e with StrictPF t => t | _ => "strict transport" end).

Definition darwin_calls : list thread :=
  [TStart "a-1" strict_request; TStart "b-2" plain_request; TStop "a-1"].
Definition darwin_s0 : service (machine * pfstate ()) := NewService (("", true), fresh_daemon ()).
Definition darwin_s1 := (StartVM "a-1" strict_request darwin_s0).2.
Definition darwin_s2 := (StopVM "a-1" darwin_s1).2.

Definition demo_stale : gset string := {["com.klitka.vm/old"]}.

Example darwin_log :
  map_to_list (anchor_map demo_stale (host darwin_s0).2) = [("com.klitka.vm/old", Stale)]
  ∧ map_to_list (anchor_map demo_stale (host darwin_s1).2) = [("com.klitka.vm/a-1", Loaded (buildPFAnchorRules "" 4000))]
  ∧ anchor_map demo_stale (host darwin_s2).2 = ∅
  ∧ map fst (pf_commands (host darwin_s2).2)
  = [["-E"]; ["-s"; "Anchors"]; ["-a"; "com.klitka.vm/old"; "-F"; "all"]; ["-E"];
     ["-a"; "com.klitka.vm/a-1"; "-f"; "-"]; ["-a"; "com.klitka.vm/a-1"; "-F"; "all"]].
Proof. by vm_compute. Qed.

(** A pfctl that refuses every flush: the rules of a closed enforcer may stay. *)
Definition refusing_pfctl : PFHost () := {|
  pf_run args stdin w := (if bool_decide ("-F" ∈ args) then Some "denied" else None, w);
  pf_output args w := (Good "", w);
  pf_getenv _ _ := ""
|}.
Example refused_flush_stays :
  map_to_list (anchor_map demo_stale
    (@strict_run () refusing_pfctl [OpNew "vm.1" 8080; OpCloseEnforcer 0] (fresh_daemon ())).2)
  = [("com.klitka.vm/old", Stale); ("com.klitka.vm/vm_1", FlushRefused)].
Proof. by vm_compute. Qed.

Definition darwin_vm : VM := {|
  vm_ID := "a-1"; vm_Backend := VMKind;
  vm_Network := Some {| nm_vmID := "a-1";
    nm_policy := {| allowHosts := ["api.test"]; denyHosts := []; blockPrivateRange := false;
                    egressMode := EgressMode.STRICT; dnsMode := DNSMode.OPEN;
                    trustedDNSServers := [] |};
    nm_port := 4000; nm_env := proxy_env 4000; nm_caCertPath := "";
    nm_strictTransport := Some "com.klitka.vm/a-1" |} |}.
Definition darwin_s : service (machine * pfstate ()) := (newVM "a-1" strict_request darwin_s0).2.
Definition darwin_ts : list thread :=
  [TPublish darwin_vm; TStart "b-2" plain_request; TStop "a-1"].

Lemma darwin_run : star sstep (darwin_s0, darwin_calls) (darwin_s, darwin_ts).
Proof.
  apply star_one. pose proof (step_start darwin_s0 [] [TStart "b-2" plain_request; TStop "a-1"]
                                "a-1" strict_request) as H.
  replace (newVM "a-1" strict_request darwin_s0).1 with (@Good vm_error VM darwin_vm) in H
    by (by vm_compute).
  exact H.
Qed.

Lemma strict_rules_follow_witness :
  let p := (host darwin_s).2 in
  Forall own_command (pf_commands p)
  ∧ (∀ vm m a, vm ∈ owners darwin_s darwin_ts → vm_Network vm = Some m → nm_strictTransport m = Some a →
      a = buildPFAnchorID (vm_ID vm)
      ∧ ∃ extra, anchor_map demo_stale p !! a = Some (Loaded (buildPFAnchorRules extra (nm_port m))))
  ∧ (∀ a st, anchor_map demo_stale p !! a = Some st →
      leftover st ∨ ∃ vm m, vm ∈ owners darwin_s darwin_ts ∧ vm_Network vm = Some m ∧ nm_strictTransport m = Some a).
Proof.
  refine (strict_rules_follow _ demo_stale darwin_calls _ ("", true) () darwin_s darwin_ts _ _ darwin_run).
  - intros id req Hin. repeat (apply elem_of_cons in Hin as [[= -> ->]|Hin];
      [split; [by vm_compute|split; by vm_compute]|]) || apply elem_of_cons in Hin as [Hin|Hin]; try done.
    by apply not_elem_of_nil in Hin.
  - repeat constructor.
  - apply (bool_decide_unpack (NoDup (omap drawn darwin_calls))). by vm_compute.
Defined.

(** ** A run, action by action

    Two strict VMs are started in turns, and the first is stopped. *)
Definition pf_calls : list svc_call :=
  [SvcStart "a-1" strict_request; SvcStart "b-2" strict_request; SvcStop "a-1"; SvcExec "b-2" "true" []].
Definition pf_started := turns [0; 1; 0; 1; 0; 1; 0; 1; 0; 1; 0; 1; 0; 1]%nat (serve_call <$> pf_calls, darwin_s0).
Definition pf_stopping := turns [2; 3; 2; 3; 2; 2]%nat pf_started.

Example pf_run_values :
  map_to_list (anchor_map demo_stale (host pf_started.2).2)
  = [("com.klitka.vm/a-1", Loaded (buildPFAnchorRules "" 4000)); ("com.klitka.vm/b-2", Loaded (buildPFAnchorRules "" 4000))]
  ∧ map_to_list (anchor_map demo_stale (host pf_stopping.2).2) = [("com.klitka.vm/b-2", Loaded (buildPFAnchorRules "" 4000))].
Proof. by vm_compute. Qed.

Lemma calls_rules_follow_witness :
  (∃ vm, vms pf_stopping.2 !! "b-2" = Some vm
     ∧ (∃ extra, anchor_map demo_stale (host pf_stopping.2).2 !! "com.klitka.vm/b-2"
                 = Some (Loaded (buildPFAnchorRules extra 4000)))
     ∧ stale_flushed demo_stale (pf_log (host pf_stopping.2).2))
  ∧ vms pf_stopping.2 !! "a-1" = None
  ∧ Forall own_command (pf_commands (host pf_stopping.2).2).
Proof.
  destruct (calls_rules_follow (λ e, match e with StrictPF t => t | _ => "strict transport" end)
              demo_stale pf_calls ("", true) () pf_stopping.1 pf_stopping.2) as (H1 & H2 & _).
  - apply (bool_decide_unpack (NoDup (omap svc_drawn pf_calls))). by vm_compute.
  - intros id req Hin. unfold pf_calls in Hin.
    repeat (apply elem_of_cons in Hin as [Hin|Hin];
      [first [discriminate Hin|injection Hin as -> _; split; [by vm_compute|split; by vm_compute]]|]).
    by apply not_elem_of_nil in Hin.
  - rewrite <-surjective_pairing. unfold pf_stopping. etransitivity; [|apply turns_run]. apply turns_run.
  - split; [|split; [by vm_compute|exact H1]].
    destruct (vms pf_stopping.2 !! "b-2") as [vm|] eqn:Ev; [|by vm_compute in Ev]. exists vm. split; [done|].
    assert (Hm : vm_Network vm = Some {| nm_vmID := "b-2";
      nm_policy := {| allowHosts := ["api.test"]; denyHosts := []; blockPrivateRange := false;
                      egressMode := EgressMode.STRICT; dnsMode := DNSMode.OPEN; trustedDNSServers := [] |};
      nm_port := 4000; nm_env := proxy_env 4000; nm_caCertPath := "";
      nm_strictTransport := Some "com.klitka.vm/b-2" |}).
    { assert (Hn : (vm_Network <$> vms pf_stopping.2 !! "b-2") = Some (vm_Network vm)) by (by rewrite Ev).
      clear -Hn. vm_compute in Hn. vm_compute. congruence. }
    by destruct (H2 "b-2" vm _ _ Ev Hm eq_refl) as [_ H].
Defined.
