(* ===== verification/VMHostImpl.v ===== *)
(** * The service over its two backends

    [newHostBackend] and [Close] of [daemon/vm.go], in the state passing of
    [VMBackend]: the only thing held is the backend's temporary directory.

    The backend factories of [VMHost] implemented by [newVMBackend] and
    [newHostBackend]: the laws of [VMHostLaws] are theorems about them, so what
    the service promises of its backends becomes a theorem about processes,
    sockets and directories. *)
From Stdlib Require Import Ascii.
From S2P Require Export VMServiceHost ServiceCallsProps VMBackendLife.
From stdpp Require Import relations.
#[local] Open Scope Z_scope.

(** ** The host backend's directory *)
Section code.
Context `{VM : VMMachine W}.

Definition prepareRoot (root : string) : B W (option string) :=
  on_files (MkdirAll (PathJoin [root; "tmp"]) 493).

(** The error of [buildMounts] or the text of another. *)
Inductive host_start_error :=
| HostMountError (e : mount_error)
| HostIOFailed (text : string).

Definition newHostBackend (id : string) (req : StartVMRequest) (env : list string)
    : B W (osres host_start_error HostBackend) :=
  t ← on_machine (m_mkdirTemp "" ("klitka-" +:+ id +:+ "-"));
  match t with
  | Bad text => mret (Bad (HostIOFailed text))
  | Good root =>
      _ ← log (EvOpened (RTempDir root));
      e ← prepareRoot root;
      match e with
      | Some text => _ ← removeAll root; mret (Bad (HostIOFailed text))
      | None =>
          m ← on_files (buildMounts root (Mounts req));
          match m with
          | Bad err => _ ← removeAll root; mret (Bad (HostMountError err))
          | Good mounts => mret (Good {| hb_Root := root; hb_Mounts := mounts; hb_Env := env |})
          end
      end
  end.

(** [Close] ignores what [os.RemoveAll] answers; [removeAll] records it. *)
Definition host_Close (backend : HostBackend) : B W () :=
  if bool_decide (hb_Root backend = "") then mret () else removeAll (hb_Root backend).
End code.

Section props.
Context `{VM : VMMachine W} (Hmkdir : mkdir_law).
Implicit Types s : bstate W.

(** Starting and stopping a host backend. *)
Lemma hoare_newHostBackend id req env :
  hoare (holding ∅) (newHostBackend id req env)
    (λ r s, match r with
            | Good b => hb_Root b ≠ "" ∧ hb_Env b = env ∧ holding {[RTempDir (hb_Root b)]} s
            | Bad _ => holding ∅ s
            end).
Proof.
  unfold newHostBackend.
  eapply (hoare_bind _ _ _ (λ r s, (∀ t, r = Good t → t ≠ "") ∧ holding ∅ s)).
  { apply (hoare_answer (holding ∅)). intros a s [w <-] Hs. split; [|done]. intros t. apply Hmkdir. }
  intros [root|e]; [|by apply hoare_ret; intros s []].
  apply hoare_pure. intros Hroot. specialize (Hroot root eq_refl).
  eapply (hoare_bind _ _ _ (λ _, holding {[RTempDir root]})).
  { eapply hoare_mono; [by apply (hoare_open ∅)|done|]. cbn. intros _ s. by rewrite (right_id_L ∅ (∪)). }
  intros _.
  assert (Hgo : ∀ e, hoare (holding {[RTempDir root]}) (_ ← removeAll root; mret (Bad e))
                       (λ (r : osres host_start_error HostBackend) s,
                          match r with
                          | Good b => hb_Root b ≠ "" ∧ hb_Env b = env ∧ holding {[RTempDir (hb_Root b)]} s
                          | Bad _ => holding ∅ s
                          end)).
  { intros e. eapply hoare_bind; [apply hoare_removeAll; set_solver|]. intros []. cbn beta.
    apply hoare_ret. intros s. by rewrite difference_diag_L. }
  apply hoare_quiet; [apply quiet_on_files|]. intros [text|]; [apply Hgo|].
  apply hoare_quiet; [apply quiet_on_files|]. intros [mounts|err]; [|apply Hgo].
  by apply hoare_ret.
Qed.

Lemma hoare_host_Close b :
  hb_Root b ≠ "" → hoare (holding {[RTempDir (hb_Root b)]}) (host_Close b) (λ _, holding ∅).
Proof.
  intros Hb. unfold host_Close. rewrite bool_decide_false by done.
  eapply hoare_mono; [apply (hoare_removeAll {[RTempDir (hb_Root b)]}); set_solver|done|]. intros [] s Hs. cbn beta in Hs.
  by rewrite difference_diag_L in Hs.
Qed.
End props.

(** ** The two backends *)

(** A backend that was started. *)
Inductive running :=
| RunVM (b : vmBackend)
| RunHost (b : HostBackend).

Definition running_held (r : running) : gset vm_resource :=
  match r with
  | RunVM b => list_to_set (backend_held b)
  | RunHost b => {[RTempDir (hb_Root b)]}
  end.
Definition running_ok (r : running) : Prop :=
  match r with
  | RunVM b => vb_tempDir b ≠ "" ∧ NoDup (backend_held b)
  | RunHost b => hb_Root b ≠ ""
  end.

(** What became of a backend: its trace, and the directories [os.RemoveAll] failed
    for. *)
Record backend_log := { bl_trace : list (life vm_resource); bl_refused : list string }.
Definition log_of {W} (s : bstate W) : backend_log := {| bl_trace := btrace s; bl_refused := bs_refused s |}.
Definition resume {W} (w : W) (l : backend_log) : bstate W :=
  {| machine := w; bs_closed := false; btrace := bl_trace l; bs_refused := bl_refused l |}.

(** Nothing was opened twice or closed while not open, and a directory could not be
    removed only if its removal was tried. *)
Definition log_ok (l : backend_log) : Prop :=
  clean (bl_trace l) ∧ ∀ d, d ∈ bl_refused l → EvClosed (RTempDir d) ∈ bl_trace l.

(** The directories that could not be removed, and with them all that a backend has
    left on the machine. *)
Definition refused_dirs (l : backend_log) : gset vm_resource := list_to_set (RTempDir <$> bl_refused l).
Definition left_behind (l : backend_log) : gset vm_resource := live_of (bl_trace l) ∪ refused_dirs l.

(** What is open of a backend that runs, and what is left of one that ended. *)
Definition alive_ok (e : running * backend_log) : Prop :=
  log_ok e.2 ∧ live_of (bl_trace e.2) = running_held e.1.
Definition gone_ok (l : backend_log) : Prop :=
  log_ok l ∧ (left_behind l = refused_dirs l ∨ ∃ sock, left_behind l = {[RConsole sock]} ∪ refused_dirs l).

(** The machine, the backends that run by VM, each with its log, and the
    logs of those that ended. *)
Record impl (W : Type) := {
  im_machine : W;
  im_backends : gmap string (running * backend_log);
  im_finished : list backend_log
}.
Arguments im_machine {W}. Arguments im_backends {W}. Arguments im_finished {W}.
Arguments Build_impl {W}.

Section impl.
Context `{UT : UnicodeTables} `{VM : VMMachine W}.

(** The rest of the host, and how errors read. *)
Context (base : VMHost W) (vm_text : vm_start_error → string) (host_text : host_start_error → string).

Definition lift {A} (f : W → A * W) (i : impl W) : A * impl W :=
  let '(a, w) := f (im_machine i) in
  (a, {| im_machine := w; im_backends := im_backends i; im_finished := im_finished i |}).

Definition finish {A} (s : bstate W) (i : impl W) (a : A) : A * impl W :=
  (a, {| im_machine := machine s; im_backends := im_backends i;
         im_finished := log_of s :: im_finished i |}).
Definition keep {A} (id : string) (r : running) (s : bstate W) (i : impl W) (a : A) : A * impl W :=
  (a, {| im_machine := machine s; im_backends := <[id := (r, log_of s)]> (im_backends i);
         im_finished := im_finished i |}).

(** The factory of VM backends: its errors are [ErrVMUnavailable] or not. *)
Definition vm_factory (id : string) (req : StartVMRequest) (env : list string)
    (network : option networkManager) (i : impl W) : osres backend_error () * impl W :=
  let '(r, s) := newVMBackend id req env network (unused (im_machine i)) in
  match r with
  | Good b => keep id (RunVM b) s i (Good ())
  | Bad e => finish s i (Bad (if vm_unavailable e then VMUnavailable (vm_text e)
                              else BackendFailed (vm_text e)))
  end.

Definition host_factory (id : string) (req : StartVMRequest) (env : list string) (i : impl W)
    : osres backend_error () * impl W :=
  let '(r, s) := newHostBackend id req env (unused (im_machine i)) in
  match r with
  | Good b => keep id (RunHost b) s i (Good ())
  | Bad e => finish s i (Bad (BackendFailed (host_text e)))
  end.

Definition close_running (r : running) : B W () :=
  match r with RunVM b => backend_Close b | RunHost b => host_Close b end.

Definition close_backend (id : string) (i : impl W) : option string * impl W :=
  match im_backends i !! id with
  | None => (None, i)
  | Some (r, l) =>
      let s := (close_running r (resume (im_machine i) l)).2 in
      (None, {| im_machine := machine s; im_backends := delete id (im_backends i);
                im_finished := log_of s :: im_finished i |})
  end.

#[local] Instance impl_host : VMHost (impl W) := {|
  h_listen := lift h_listen;
  h_listen_close := lift h_listen_close;
  h_loadOrCreateCA := lift h_loadOrCreateCA;
  h_random := lift h_random;
  h_strictPrepare := lift h_strictPrepare;
  h_strictFactory id port := lift (h_strictFactory id port);
  h_strictClose a := lift (h_strictClose a);
  h_getenv k i := h_getenv k (im_machine i);
  h_vmBackend := vm_factory;
  h_hostBackend := host_factory;
  h_backendClose := close_backend;
  h_backendExec id c args := lift (h_backendExec id c args);
  h_backendExecStream id st := lift (h_backendExecStream id st)
|}.

Definition runs_ok (e : running * backend_log) : Prop := running_ok e.1 ∧ alive_ok e.
Definition impl_ok (i : impl W) : Prop :=
  map_Forall (λ _ e, runs_ok e) (im_backends i) ∧ Forall gone_ok (im_finished i).

Lemma left_gone (s : bstate W) : left_with ∅ s → gone_ok (log_of s).
Proof.
  intros (H1 & H2 & H3). split; [by split|]. left. unfold left_behind. cbn [log_of bl_trace].
  by rewrite H2, (left_id_L ∅ (∪)).
Qed.
Lemma left_console sock (s : bstate W) : left_with {[RConsole sock]} s → gone_ok (log_of s).
Proof.
  intros (H1 & H2 & H3). split; [by split|]. right. exists sock. unfold left_behind.
  cbn [log_of bl_trace]. by rewrite H2.
Qed.
Lemma holding_runs r (s : bstate W) : running_ok r → holding (running_held r) s → runs_ok (r, log_of s).
Proof. intros Hr (_ & H1 & H2 & H3). split; [done|]. by split; [split|]. Qed.

(** [Close] of the host backend succeeds and leaves the directory when
    [os.RemoveAll] fails, as it does for the copy of a read-only mount, whose
    directories have lost their write bits. *)
Lemma host_close_leaves b w l text :
  hb_Root b ≠ "" → (m_removeAll (hb_Root b) w).1 = Some text →
  RTempDir (hb_Root b) ∈ left_behind (log_of (host_Close b (resume w l)).2).
Proof.
  intros Hb He. unfold host_Close. rewrite bool_decide_false by done.
  unfold removeAll, on_machine, mbind, B_mbind. cbn [machine resume].
  destruct (m_removeAll (hb_Root b) w) as [e w'] eqn:E. cbn in He. subst e.
  unfold left_behind, refused_dirs. cbn. set_solver.
Qed.

Hypothesis Hmkdir : mkdir_law.

Lemma vm_factory_ok id req env n i :
  impl_ok i →
  impl_ok (vm_factory id req env n i).2
  ∧ dom (im_backends (vm_factory id req env n i).2)
    = match (vm_factory id req env n i).1 with
      | Good _ => {[id]} ∪ dom (im_backends i)
      | Bad _ => dom (im_backends i)
      end.
Proof.
  intros [Hr Hf]. unfold vm_factory.
  pose proof (hoare_newVMBackend Hmkdir id req env n _ (holding_unused (im_machine i))) as H.
  destruct (newVMBackend _ _ _ _ _) as [[b|e] s]; cbn in *.
  - destruct H as [[[Ht _] _ Hn _ _] Hh]. split; [|by rewrite dom_insert_L].
    split; [|done]. apply map_Forall_insert_2; [|done]. by apply holding_runs.
  - split; [|done]. split; [done|]. constructor; [|done].
    destruct H as [H|(_ & sock & H)]; [by apply left_gone|by eapply left_console].
Qed.

Lemma host_factory_ok id req env i :
  impl_ok i →
  impl_ok (host_factory id req env i).2
  ∧ dom (im_backends (host_factory id req env i).2)
    = match (host_factory id req env i).1 with
      | Good _ => {[id]} ∪ dom (im_backends i)
      | Bad _ => dom (im_backends i)
      end.
Proof.
  intros [Hr Hf]. unfold host_factory.
  pose proof (hoare_newHostBackend Hmkdir id req env _ (holding_unused (im_machine i))) as H.
  destruct (newHostBackend _ _ _ _) as [[b|e] s]; cbn in *.
  - destruct H as (Hroot & _ & Hh). split; [|by rewrite dom_insert_L].
    split; [|done]. apply map_Forall_insert_2; [|done]. by apply holding_runs.
  - split; [|done]. split; [done|]. constructor; [|done]. by apply left_gone, holding_left.
Qed.

Lemma close_running_ok r w l : runs_ok (r, l) → gone_ok (log_of (close_running r (resume w l)).2).
Proof.
  intros (Hr & [Hcl Hre] & Hl). cbn [fst snd] in *.
  assert (Hh : holding (running_held r) (resume w l)) by (by split_and!).
  apply left_gone. destruct r as [b|b]; cbn [close_running running_held running_ok] in *.
  - destruct Hr as [Ht Hn].
    rewrite <-(difference_diag_L (held_set b)). apply (hoare_backend_Close b (held_set b) Ht Hn); [|exact Hh].
    intros x Hx. by apply elem_of_list_to_set.
  - by apply holding_left, (hoare_host_Close Hmkdir b Hr).
Qed.

Lemma close_backend_ok id i :
  impl_ok i → impl_ok (close_backend id i).2
              ∧ dom (im_backends (close_backend id i).2) = dom (im_backends i) ∖ {[id]}.
Proof.
  intros [Hr Hf]. unfold close_backend. destruct (im_backends i !! id) as [[r l]|] eqn:E; cbn [snd].
  - split; [|by rewrite <-dom_delete_L]. split; cbn [im_backends im_finished].
    + by apply map_Forall_delete.
    + constructor; [|done]. apply close_running_ok. by apply (Hr id).
  - split; [done|]. apply not_elem_of_dom in E. set_solver.
Qed.

Lemma lift_ok {A} (f : W → A * W) i :
  impl_ok i → impl_ok (lift f i).2 ∧ dom (im_backends (lift f i).2) = dom (im_backends i).
Proof. intros H. unfold lift. by destruct (f (im_machine i)). Qed.

(** The backends keep the laws the service relies on. *)
#[local] Instance impl_laws : VMHostLaws (impl W) := {|
  h_running i := dom (im_backends i); h_ok := impl_ok;
  law_listen := lift_ok h_listen;
  law_listen_close := lift_ok h_listen_close;
  law_ca := lift_ok h_loadOrCreateCA;
  law_random := lift_ok h_random;
  law_prepare := lift_ok h_strictPrepare;
  law_factory id port := lift_ok (h_strictFactory id port);
  law_strict_close a := lift_ok (h_strictClose a);
  law_vmBackend id req env n i H _ := vm_factory_ok id req env n i H;
  law_hostBackend id req env i H _ := host_factory_ok id req env i H;
  law_close := close_backend_ok
|}.

(** what is left of a stopped VM: over the real backends, however calls of StartVM
    and StopVM interleave, the backends that run are those of the VMs of the table
    and of the calls in progress; of each of them is open exactly what it holds (its
    directory, processes, sockets), and of every backend that ended nothing is, but
    a directory that os.RemoveAll was called for and failed to remove, and perhaps a
    console connection that came as its accept timer fired; and no backend ever
    opened a thing twice or closed one that was not open. *)
Theorem daemon_leaves_nothing calls w s ts :
  Forall is_call calls → NoDup (omap drawn calls) →
  star sstep (NewService {| im_machine := w; im_backends := ∅; im_finished := [] |}, calls) (s, ts) →
  dom (im_backends (host s)) = list_to_set (map vm_ID (owners s ts))
  ∧ map_Forall (λ _ e, alive_ok e) (im_backends (host s))
  ∧ Forall gone_ok (im_finished (host s)).
Proof.
  intros Hc Hn Hr.
  destruct (running_backends calls {| im_machine := w; im_backends := ∅; im_finished := [] |} s ts)
    as [[H1 H2] H3]; [split; [apply map_Forall_empty|constructor]|apply dom_empty_L|done|done|done|].
  split; [exact H3|]. split; [|done]. intros id e He. by destruct (H1 id e He) as (_ & ? & ?).
Qed.

(** The steps of others: they change the machine. *)
Definition others_machine (s s' : service (impl W)) : Prop :=
  others s s' ∧ im_backends (host s') = im_backends (host s) ∧ im_finished (host s') = im_finished (host s).

(** C3: what is left of a stopped VM: over the real backends, take any calls of
    StartVM, Exec, ExecStream and StopVM at once, each call to the machine, each critical
    section and each call of a backend at any moment, with any steps of others. At
    any time the backend of a VM of the table runs, and a backend runs for a VM of
    the table only, or while a call that starts or stops its VM is still running; of
    each of them is open exactly what it holds (its directory, processes, sockets).
    Of every backend that ended, by Close or because its start failed, nothing is
    left but its directory in the case that os.RemoveAll was called for it and
    answered an error, which the code ignores (the copy of a read-only mount on the
    host backend is such a case: finding of vm.go:51), and perhaps a console
    connection that came as its accept timer fired. A process counts as ended once
    the code has waited for it or killed it, whatever that answered. No backend ever
    opened a thing twice or closed one that was not open. *)
Theorem daemon_calls_leave_nothing calls w ts s :
  NoDup (omap svc_drawn calls) →
  rtc (gstep others_machine)
    (serve_call <$> calls, NewService {| im_machine := w; im_backends := ∅; im_finished := [] |}) (ts, s) →
  dom (vms s) ⊆ dom (im_backends (host s))
  ∧ (∀ id, id ∈ dom (im_backends (host s)) → id ∈ dom (vms s)
       ∨ ∃ i call m, calls !! i = Some call ∧ svc_vm call = Some id ∧ ts !! i = Some m ∧ finished m = None)
  ∧ map_Forall (λ _ e, alive_ok e) (im_backends (host s))
  ∧ Forall gone_ok (im_finished (host s)).
Proof.
  intros Hn Hrun.
  destruct (running_calls (W := impl W) (HL := impl_laws) (λ id st, lift_ok (@h_backendExecStream W base id st))
    (λ id c args, lift_ok (@h_backendExec W base id c args))
    calls {| im_machine := w; im_backends := ∅; im_finished := [] |} ts s) as ([H1 H2] & H3 & H4).
  - split; [apply map_Forall_empty|constructor].
  - apply dom_empty_L.
  - done.
  - eapply rtc_subrel; [|exact Hrun]. intros c c' [ts0 s0 i f k Hi|ts0 s0 s1 (Ho & Hb & Hf)]; [by apply step_act|].
    apply step_env. split; [done|]. cbn. unfold impl_ok. by rewrite Hb, Hf.
  - split_and!; [done|done| |done]. intros id e He. by destruct (H1 id e He) as (_ & ? & ?).
Qed.
End impl.

(** ** On the small machine *)
Section demo.
#[local] Existing Instance ascii_tables.
#[local] Existing Instance demo_tree.
#[local] Instance accepting : VMMachine Z := demo_machine Accepted.

Definition demo_base : VMHost Z := {|
  h_listen w := (Good 4000, w); h_listen_close w := (None, w);
  h_loadOrCreateCA w := (Good "/ca/ca.crt", w); h_random w := ([], w);
  h_strictPrepare w := (None, w); h_strictFactory _ _ w := (Good None, w);
  h_strictClose _ w := (None, w); h_getenv _ _ := "";
  h_vmBackend _ _ _ _ w := (Good (), w); h_hostBackend _ _ _ w := (Good (), w);
  h_backendClose _ w := (None, w);
  h_backendExec _ _ _ w := (Good {| ex_ExitCode := 0; ex_Stdout := []; ex_Stderr := [] |}, w);
  h_backendExecStream _ _ w := (Good (), w)
|}.

#[local] Instance demo_impl : VMHost (impl Z) := impl_host demo_base (λ _, "vm") (λ _, "host").

Definition idle_daemon : service (impl Z) :=
  NewService {| im_machine := 0; im_backends := ∅; im_finished := [] |}.

(** The VM starts on the VM backend, and stops. *)
Example daemon_values :
  (StartVM "v" demo_req idle_daemon).1 = Good "v"
  ∧ map fst (map_to_list (im_backends (host (StartVM "v" demo_req idle_daemon).2))) = ["v"]
  ∧ let s := (StopVM "v" (StartVM "v" demo_req idle_daemon).2).2 in
    map_to_list (im_backends (host s)) = [] ∧ length (im_finished (host s)) = 1%nat.
Proof. by vm_compute. Qed.

Lemma daemon_leaves_nothing_witness :
  let s := (StartVM "v" demo_req idle_daemon).2 in
  dom (im_backends (host s)) = list_to_set (map vm_ID (owners s [TDone]))
  ∧ map_Forall (λ _ e, alive_ok e) (im_backends (host s))
  ∧ Forall gone_ok (im_finished (host s)).
Proof.
  refine (daemon_leaves_nothing demo_base (λ _, "vm") (λ _, "host") (demo_mkdir Accepted)
            [TStart "v" demo_req] 0 (StartVM "v" demo_req idle_daemon).2 [TDone] _ _ _).
  - by repeat constructor.
  - apply NoDup_singleton.
  - apply StartVM_steps.
Defined.

(** Two VMs, started and stopped in turns; an Exec while the first is stopped. *)
Definition demo_svc : list svc_call :=
  [SvcStart "v" demo_req; SvcStart "w" demo_req; SvcExec "v" "true" []; SvcStop "v"].
Definition demo_turns : list nat :=
  [0; 1; 0; 1; 0; 1; 0; 1; 0; 1; 0; 1; 0; 1; 0; 1; 2; 3; 3; 2; 3; 3; 3; 3]%nat.
Definition demo_svc_ends := turns demo_turns (serve_call <$> demo_svc, idle_daemon).

Lemma daemon_calls_leave_nothing_witness :
  map fst (map_to_list (vms demo_svc_ends.2)) = ["w"]
  ∧ dom (vms demo_svc_ends.2) ⊆ dom (im_backends (host demo_svc_ends.2))
  ∧ Forall gone_ok (im_finished (host demo_svc_ends.2)).
Proof.
  split; [by vm_compute|].
  destruct (daemon_calls_leave_nothing demo_base (λ _, "vm") (λ _, "host") (demo_mkdir Accepted)
              demo_svc 0 demo_svc_ends.1 demo_svc_ends.2) as (H1 & _ & _ & H4).
  - apply (bool_decide_unpack (NoDup (omap svc_drawn demo_svc))). by vm_compute.
  - rewrite <-surjective_pairing. apply turns_run.
  - by split.
Defined.
End demo.
