(* ===== verification/CLI.v ===== *)
(** * The command line of klitka ([cli/main.go])

    Parsing of the flags of [exec], [shell] and [start] into the StartVM
    request, and the choice of the command to run.  The environment is the
    argument [getenv]. *)
From Stdlib Require Import Ascii.
From S2P Require Export NetPolicyProps.

Inductive cli_error :=
| InvalidMountFormat (item : string)
| InvalidMountMode (mode : string)
| InvalidSecretFormat (item : string)
| MissingSecretValue (name : string)
| InvalidEgressMode (raw : string)
| InvalidDNSMode (raw : string)
| TrustedModeNeedsServer
| TrustedOnlyWithMode.

Section code.
Context `{UT : UnicodeTables}.

(** ** [--mount] *)

(** The host path, the guest path and the mode. *)
Definition splitMountSpec (raw : string) : osres cli_error (string * string * string) :=
  let item := TrimSpace raw in
  if bool_decide (item = "") then Bad (InvalidMountFormat raw)
  else
    let '(mode, withoutMode) :=
      match cut_last ":"%char item with
      | Some (before, after) =>
          let candidate := TrimSpace after in
          if bool_decide (candidate = "ro") || bool_decide (candidate = "rw")
          then (candidate, TrimSpace before) else ("", item)
      | None => ("", item)
      end in
    match cut_last ":"%char withoutMode with
    | None => Bad (InvalidMountFormat raw)
    | Some (host, guest) => Good (TrimSpace host, TrimSpace guest, mode)
    end.

Definition parseMountFlag (item : string) : osres cli_error Mount :=
  match splitMountSpec item with
  | Bad e => Bad e
  | Good (hostPath, guestPath, modeRaw) =>
      let m := ToLower (TrimSpace modeRaw) in
      let build mode :=
        if bool_decide (hostPath = "") || bool_decide (guestPath = "")
        then Bad (InvalidMountFormat item)
        else Good {| GuestPath := guestPath; HostPath := hostPath; Mount_Mode := mode |} in
      if bool_decide (m = "") || bool_decide (m = "ro") then build MountMode.RO
      else if bool_decide (m = "rw") then build MountMode.RW
      else Bad (InvalidMountMode modeRaw)
  end.

Fixpoint parseMountFlags (flags : list string) : osres cli_error (list Mount) :=
  match flags with
  | [] => Good []
  | item :: flags' =>
      try m := parseMountFlag item catch e => Bad e in
      osres_map (cons m) (parseMountFlags flags')
  end.

(** ** [--secret] *)
Definition parseSecretFormat (raw : string) : osres cli_error Z :=
  let v := ToLower (TrimSpace raw) in
  if bool_decide (v = "") then Good SecretFormat.UNSPECIFIED
  else if bool_decide (v = "bearer") then Good SecretFormat.BEARER
  else if bool_decide (v = "raw") then Good SecretFormat.RAW
  else Bad (InvalidSecretFormat raw).

Definition parseSecretFlag (getenv : string → string) (item : string) : osres cli_error Secret :=
  let item := TrimSpace item in
  if bool_decide (item = "") then Bad (InvalidSecretFormat "")
  else
    let '(spec, value) := default (item, "") (cut_first "="%char item) in
    let parts := Split spec ":"%char in
    if (3 <? length parts)%nat then Bad (InvalidSecretFormat item)
    else
      let nameHosts := TrimSpace (default "" (parts !! 0%nat)) in
      let header := TrimSpace (default "" (parts !! 1%nat)) in
      let format := TrimSpace (default "" (parts !! 2%nat)) in
      match cut_first "@"%char nameHosts with
      | None => Bad (InvalidSecretFormat item)
      | Some (n, h) =>
          let name := TrimSpace n in
          let hostsPart := TrimSpace h in
          if bool_decide (name = "") || bool_decide (hostsPart = "")
          then Bad (InvalidSecretFormat item)
          else
            let hosts := filter (λ h, h ≠ "") (map TrimSpace (Split hostsPart ","%char)) in
            if bool_decide (hosts = []) then Bad (InvalidSecretFormat item)
            else
              let value := if bool_decide (value = "") then getenv name else value in
              if bool_decide (value = "") then Bad (MissingSecretValue name)
              else
                try formatEnum := parseSecretFormat format catch e => Bad e in
                Good {| Secret_Name := name; Secret_Hosts := hosts; Secret_Value := value;
                        Secret_Header := header; Secret_Format := formatEnum |}
      end.

Fixpoint parseSecretFlags (getenv : string → string) (flags : list string)
    : osres cli_error (list Secret) :=
  match flags with
  | [] => Good []
  | item :: flags' =>
      try s := parseSecretFlag getenv item catch e => Bad e in
      osres_map (cons s) (parseSecretFlags getenv flags')
  end.

(** ** The network flags *)
Definition parseEgressMode (raw : string) : osres cli_error Z :=
  let v := ToLower (TrimSpace raw) in
  if bool_decide (v = "") || bool_decide (v = "compat") then Good EgressMode.COMPAT
  else if bool_decide (v = "strict") then Good EgressMode.STRICT
  else Bad (InvalidEgressMode raw).

Definition parseDNSMode (raw : string) : osres cli_error Z :=
  let v := ToLower (TrimSpace raw) in
  if bool_decide (v = "") || bool_decide (v = "open") then Good DNSMode.OPEN
  else if bool_decide (v = "trusted") then Good DNSMode.TRUSTED
  else if bool_decide (v = "synthetic") then Good DNSMode.SYNTHETIC
  else Bad (InvalidDNSMode raw).

Definition nonEmptyStrings (values : list string) : list string :=
  filter (λ v, v ≠ "") (map TrimSpace values).

(** [Good None] is the nil policy without an error. *)
Definition cli_buildNetworkPolicy (allowHosts denyHosts trustedDNS : list string)
    (blockPrivate : bool) (egressModeRaw dnsModeRaw : string)
    : osres cli_error (option NetworkPolicy) :=
  try egressMode := parseEgressMode egressModeRaw catch e => Bad e in
  try dnsMode := parseDNSMode dnsModeRaw catch e => Bad e in
  let allow := nonEmptyStrings allowHosts in
  let deny := nonEmptyStrings denyHosts in
  let trusted := nonEmptyStrings trustedDNS in
  if (dnsMode =? DNSMode.TRUSTED) && (length trusted =? 0)%nat then Bad TrustedModeNeedsServer
  else if negb (dnsMode =? DNSMode.TRUSTED) && (0 <? length trusted)%nat
  then Bad TrustedOnlyWithMode
  else
    let hasPolicy := (0 <? length allow)%nat || (0 <? length deny)%nat || (0 <? length trusted)%nat
                     || negb blockPrivate || negb (egressMode =? EgressMode.COMPAT)
                     || negb (dnsMode =? DNSMode.OPEN) in
    if negb hasPolicy then Good None
    else Good (Some {| AllowHosts := allow; DenyHosts := deny; BlockPrivateRanges := blockPrivate;
                       np_EgressMode := egressMode; np_DnsMode := dnsMode;
                       TrustedDnsServers := trusted |}).

(** ** The command of [exec], and addresses *)

(** One argument with white space is a shell command. *)
Definition exec_command (cmdArgs : list string) : option (string * list string) :=
  match cmdArgs with
  | [] => None
  | [command] =>
      if Contains command " " || Contains command (String (ascii_of_nat 9) "")
         || Contains command (String (ascii_of_nat 10) "")
      then Some ("sh", ["-c"; command]) else Some (command, [])
  | command :: args => Some (command, args)
  end.

Definition tcpBaseURL (addr : string) : string :=
  if HasPrefix addr "http://" || HasPrefix addr "https://" then addr else "http://" +:+ addr.
End code.

Section examples.
#[local] Existing Instance ascii_tables.

Example splitMountSpec_values :
  splitMountSpec " /home/u : /work:rw " = Good ("/home/u", "/work", "rw")
  ∧ splitMountSpec "C:\proj:/work" = Good ("C:\proj", "/work", "")
  ∧ splitMountSpec "/a" = Bad (InvalidMountFormat "/a")
  ∧ splitMountSpec "/a:rw" = Bad (InvalidMountFormat "/a:rw")
  ∧ parseMountFlag "/a:/b:RW" = Good {| GuestPath := "RW"; HostPath := "/a:/b"; Mount_Mode := MountMode.RO |}
  ∧ parseMountFlag ":/b" = Bad (InvalidMountFormat ":/b").
Proof. by vm_compute. Qed.

Example parseSecretFlag_values :
  parseSecretFlag (λ _, "") "TOKEN@api.test, b.test:X-Key:raw=v=1"
  = Good {| Secret_Name := "TOKEN"; Secret_Hosts := ["api.test"; "b.test"]; Secret_Value := "v=1";
            Secret_Header := "X-Key"; Secret_Format := SecretFormat.RAW |}
  ∧ parseSecretFlag (λ _, "env") "T@h"
    = Good {| Secret_Name := "T"; Secret_Hosts := ["h"]; Secret_Value := "env";
              Secret_Header := ""; Secret_Format := SecretFormat.UNSPECIFIED |}
  ∧ parseSecretFlag (λ _, "") "T@h" = Bad (MissingSecretValue "T")
  ∧ parseSecretFlag (λ _, "") "T@h:a:raw:x=1" = Bad (InvalidSecretFormat "T@h:a:raw:x=1").
Proof. by vm_compute. Qed.
End examples.

(** ** Properties *)
Section props.
Context `{UT : UnicodeTables}.

Lemma cut_last_colon l r : has_char ":" r = false → cut_last ":" (l +:+ ":" +:+ r) = Some (l, r).
Proof. intros H. apply cut_last_Some. by split. Qed.

(** A mode as [--mount] accepts it. *)
Definition mode_word (mode : string) : Prop := mode = "ro" ∨ mode = "rw".

(** a mount flag is read back as it is written: the host path (which may
    hold colons), the guest path and the mode, or without a mode read-only. *)
Theorem mount_flag_roundtrip host guest mode :
  mode_word mode → trimmed host → host ≠ "" → trimmed guest → guest ≠ "" →
  has_char ":" guest = false → ¬ mode_word guest →
  TrimSpace (host +:+ ":" +:+ guest) = host +:+ ":" +:+ guest →
  TrimSpace (host +:+ ":" +:+ guest +:+ ":" +:+ mode) = host +:+ ":" +:+ guest +:+ ":" +:+ mode →
  parseMountFlag (host +:+ ":" +:+ guest +:+ ":" +:+ mode)
  = Good {| GuestPath := guest; HostPath := host;
            Mount_Mode := if bool_decide (mode = "rw") then MountMode.RW else MountMode.RO |}
  ∧ parseMountFlag (host +:+ ":" +:+ guest)
    = Good {| GuestPath := guest; HostPath := host; Mount_Mode := MountMode.RO |}.
Proof.
  intros Hmode Hh Hhne Hg Hgne Hcolon Hword Ht Htm.
  assert (Hne : ∀ t, host +:+ ":" +:+ t ≠ "") by (intros t [? _]%sapp_nil_inv; done).
  assert (Hmt : TrimSpace mode = mode) by (by destruct Hmode as [-> | ->]; vm_compute).
  assert (Hmc : has_char ":" mode = false) by (by destruct Hmode as [-> | ->]; vm_compute).
  assert (Hsplit : splitMountSpec (host +:+ ":" +:+ guest +:+ ":" +:+ mode) = Good (host, guest, mode)
                   ∧ splitMountSpec (host +:+ ":" +:+ guest) = Good (host, guest, "")).
  { unfold splitMountSpec. rewrite Htm, Ht. rewrite !bool_decide_false by apply Hne. split.
    - replace (host +:+ ":" +:+ guest +:+ ":" +:+ mode)
        with ((host +:+ ":" +:+ guest) +:+ ":" +:+ mode) by (by rewrite !sapp_assoc).
      rewrite cut_last_colon, Hmt by done.
      replace (bool_decide (mode = "ro") || bool_decide (mode = "rw")) with true
        by (by destruct Hmode as [-> | ->]).
      rewrite Ht, cut_last_colon by done. by rewrite !TrimSpace_id.
    - rewrite cut_last_colon by done. rewrite (TrimSpace_id guest) by done.
      unfold mode_word in Hword. rewrite !bool_decide_false by tauto. cbn [orb].
      rewrite cut_last_colon by done. by rewrite !TrimSpace_id. }
  destruct Hsplit as [H1 H2]. unfold parseMountFlag. rewrite H1, H2. cbv zeta. rewrite Hmt.
  rewrite (bool_decide_false (host = "")), (bool_decide_false (guest = "")) by done. cbn [orb].
  split; [|by rewrite (TrimSpace_id "") by (by split; vm_compute)].
  by destruct Hmode as [-> | ->]; rewrite ToLower_ascii by done.
Qed.

Lemma nonEmptyStrings_elem v values : v ∈ nonEmptyStrings values → v ≠ "" ∧ TrimSpace v = v.
Proof.
  unfold nonEmptyStrings. intros [Hv Hin]%list_elem_of_filter. split; [done|].
  apply list_elem_of_fmap in Hin as (x & -> & _). apply TrimSpace_idemp.
Qed.

(** what the command line accepts the daemon accepts: a policy built from
    the flags fails in the daemon only on a malformed DNS server; once it is
    normalised there, it passes validation with the modes asked for. *)
Theorem cli_policy_accepted allow deny trusted block egress dns np p :
  cli_buildNetworkPolicy allow deny trusted block egress dns = Good (Some np) →
  buildNetworkPolicy (Some np) = Good p →
  validateNetworkPolicy p = None
  ∧ Good (egressMode p) = parseEgressMode egress ∧ Good (dnsMode p) = parseDNSMode dns
  ∧ blockPrivateRange p = block.
Proof.
  unfold cli_buildNetworkPolicy. destruct (parseEgressMode egress) as [em|] eqn:Ee; [|done].
  destruct (parseDNSMode dns) as [dm|] eqn:Ed; [|done]. cbv zeta.
  destruct ((dm =? DNSMode.TRUSTED) && _) eqn:E1; [done|].
  destruct (negb (dm =? DNSMode.TRUSTED) && _) eqn:E2; [done|].
  destruct (negb (_ || _)); [done|]. intros [= <-]. unfold buildNetworkPolicy. simpl.
  destruct (normalizeDNSServers (nonEmptyStrings trusted)) as [servers|] eqn:Es; [|done].
  intros [= <-]. simpl.
  assert (Hem : em = EgressMode.COMPAT ∨ em = EgressMode.STRICT).
  { unfold parseEgressMode in Ee. destruct (_ || _); [injection Ee; auto|].
    case_bool_decide; [injection Ee; auto|done]. }
  assert (Hdm : dm = DNSMode.OPEN ∨ dm = DNSMode.TRUSTED ∨ dm = DNSMode.SYNTHETIC).
  { unfold parseDNSMode in Ed. destruct (_ || _); [injection Ed; auto|].
    case_bool_decide; [injection Ed; auto|]. case_bool_decide; [injection Ed; auto|done]. }
  replace (if em =? EgressMode.UNSPECIFIED then EgressMode.COMPAT else em) with em
    by (by destruct Hem as [-> | ->]).
  replace (if dm =? DNSMode.UNSPECIFIED then DNSMode.OPEN else dm) with dm
    by (by destruct Hdm as [-> | [-> | ->]]).
  split; [|done]. apply normalizeDNSServers_loop_spec in Es as (_ & _ & Hfrom & Hto).
  assert (Hlen : servers = [] ↔ nonEmptyStrings trusted = []).
  { split; intros Hn.
    - destruct (nonEmptyStrings trusted) as [|v l] eqn:El; [done|]. exfalso.
      assert (Hv : v ∈ nonEmptyStrings trusted) by (rewrite El; by left).
      apply nonEmptyStrings_elem in Hv as [Hv1 Hv2].
      destruct (Hto v) as (s & _ & [H|H]); [by left|by rewrite Hv2| |];
        [rewrite Hn in H|]; by apply not_elem_of_nil in H.
    - destruct servers as [|s l]; [done|]. destruct (Hfrom s) as (v & Hv & _); [by left|].
      rewrite Hn in Hv. by apply not_elem_of_nil in Hv. }
  unfold validateNetworkPolicy. simpl.
  assert (Hz : (length servers =? 0)%nat = (length (nonEmptyStrings trusted) =? 0)%nat).
  { destruct servers, (nonEmptyStrings trusted); try done; [by destruct (proj1 Hlen eq_refl)|].
    by discriminate (proj2 Hlen eq_refl). }
  assert (Hp : (0 <? length servers)%nat = (0 <? length (nonEmptyStrings trusted))%nat)
    by (by destruct servers, (nonEmptyStrings trusted)).
  rewrite Hz, E1, Hp, E2.
  by destruct Hem as [-> | ->], Hdm as [-> | [-> | ->]].
Qed.
End props.

Lemma mount_flag_roundtrip_witness :
  @parseMountFlag ascii_tables "C:\proj:/work:rw"
  = Good {| GuestPath := "/work"; HostPath := "C:\proj"; Mount_Mode := MountMode.RW |}
  ∧ @parseMountFlag ascii_tables "C:\proj:/work"
    = Good {| GuestPath := "/work"; HostPath := "C:\proj"; Mount_Mode := MountMode.RO |}.
Proof.
  apply (@mount_flag_roundtrip ascii_tables "C:\proj" "/work" "rw"); try by vm_compute.
  - by right.
  - intros [?|?]; done.
Defined.

Lemma cli_policy_accepted_witness :
  validateNetworkPolicy {| allowHosts := ["api.test"]; denyHosts := []; blockPrivateRange := true;
    egressMode := EgressMode.STRICT; dnsMode := DNSMode.TRUSTED;
    trustedDNSServers := ["1.1.1.1:53"] |} = None
  ∧ Good EgressMode.STRICT = @parseEgressMode ascii_tables " Strict "
  ∧ Good DNSMode.TRUSTED = @parseDNSMode ascii_tables "trusted" ∧ true = true.
Proof.
  exact (@cli_policy_accepted ascii_tables ["api.test"; " "] [] ["1.1.1.1"] true " Strict " "trusted"
    _ {| allowHosts := ["api.test"]; denyHosts := []; blockPrivateRange := true;
         egressMode := EgressMode.STRICT; dnsMode := DNSMode.TRUSTED;
         trustedDNSServers := ["1.1.1.1:53"] |}
    ltac:(vm_compute; reflexivity) ltac:(vm_compute; reflexivity)).
Defined.
