(* ===== verification/RpcStubs.v ===== *)
(** * The RPC stubs

    [proto/gen/go/klitka/v1/klitkav1connect/daemon.connect.go], and the handler
    that [cmd/klitka-daemon/main.go] serves: the URLs the client posts to, the
    switch on the request's path, the mux in front of it.  The client and the
    server agree ([rpc_routes]), and no other path reaches a handler
    ([other_paths_refused]).  The handlers and clients that connect builds are
    parameters. *)
From Stdlib Require Import Ascii.
From S2P Require Export GoPath CLI.

(** ** Names *)
Inductive rpc := rpcStartVM | rpcExec | rpcExecStream | rpcStopVM.
#[export] Instance rpc_eq : EqDecision rpc.
Proof. solve_decision. Defined.

Definition DaemonServiceName : string := "klitka.v1.DaemonService".
Definition DaemonServiceStartVMProcedure : string := "/klitka.v1.DaemonService/StartVM".
Definition DaemonServiceExecProcedure : string := "/klitka.v1.DaemonService/Exec".
Definition DaemonServiceExecStreamProcedure : string := "/klitka.v1.DaemonService/ExecStream".
Definition DaemonServiceStopVMProcedure : string := "/klitka.v1.DaemonService/StopVM".

(** The procedure of each RPC. *)
Definition procedure (r : rpc) : string :=
  match r with
  | rpcStartVM => DaemonServiceStartVMProcedure
  | rpcExec => DaemonServiceExecProcedure
  | rpcExecStream => DaemonServiceExecStreamProcedure
  | rpcStopVM => DaemonServiceStopVMProcedure
  end.

(** ** The client *)

(** [strings.TrimRight] with a cutset of one byte. *)
Fixpoint trim_first (c : ascii) (s : string) : string :=
  match s with
  | "" => ""
  | String a s' => if decide (a = c) then trim_first c s' else s
  end.
Definition TrimRight (s : string) (c : ascii) : string := srev (trim_first c (srev s)).

(** [C r url]: what [connect.NewClient] makes for an RPC and its URL. *)
Record daemonServiceClient (C : rpc → Type) := {
  startVM : C rpcStartVM;
  exec_ : C rpcExec;
  execStream : C rpcExecStream;
  stopVM : C rpcStopVM
}.
Arguments startVM {C}. Arguments exec_ {C}. Arguments execStream {C}. Arguments stopVM {C}.

Definition NewDaemonServiceClient {C : rpc → Type} (NewClient : ∀ r, string → C r) (baseURL : string)
    : daemonServiceClient C :=
  let baseURL := TrimRight baseURL slash in {|
    startVM := NewClient rpcStartVM (baseURL +:+ DaemonServiceStartVMProcedure);
    exec_ := NewClient rpcExec (baseURL +:+ DaemonServiceExecProcedure);
    execStream := NewClient rpcExecStream (baseURL +:+ DaemonServiceExecStreamProcedure);
    stopVM := NewClient rpcStopVM (baseURL +:+ DaemonServiceStopVMProcedure)
  |}.

(** The methods of the client: each calls its own connect client. *)
Definition client_method {C} (c : daemonServiceClient C) (r : rpc) : C r :=
  match r with
  | rpcStartVM => startVM c
  | rpcExec => exec_ c
  | rpcExecStream => execStream c
  | rpcStopVM => stopVM c
  end.

(** ** The handler *)

(** The implementation of the service: a function of the RPC's type each. *)
Definition DaemonServiceHandler (F : rpc → Type) : Type := ∀ r, F r.

Definition is_path (path procedure : string) : bool := bool_decide (path = procedure).

(** [mk]: [connect.NewUnaryHandler] and [connect.NewBidiStreamHandler].  The
    result is the path to mount at, and the handler: [None] is
    [http.NotFound]. *)
Definition NewDaemonServiceHandler {F : rpc → Type} {H : Type} (mk : ∀ r, string → F r → H)
    (svc : DaemonServiceHandler F) : string * (string → option H) :=
  let daemonServiceStartVMHandler := mk rpcStartVM DaemonServiceStartVMProcedure (svc rpcStartVM) in
  let daemonServiceExecHandler := mk rpcExec DaemonServiceExecProcedure (svc rpcExec) in
  let daemonServiceExecStreamHandler :=
    mk rpcExecStream DaemonServiceExecStreamProcedure (svc rpcExecStream) in
  let daemonServiceStopVMHandler := mk rpcStopVM DaemonServiceStopVMProcedure (svc rpcStopVM) in
  ("/klitka.v1.DaemonService/", λ path,
     if is_path path DaemonServiceStartVMProcedure then Some daemonServiceStartVMHandler
     else if is_path path DaemonServiceExecProcedure then Some daemonServiceExecHandler
     else if is_path path DaemonServiceExecStreamProcedure then Some daemonServiceExecStreamHandler
     else if is_path path DaemonServiceStopVMProcedure then Some daemonServiceStopVMHandler
     else None).

(** [UnimplementedDaemonServiceHandler]: a code and a text for every method. *)
Record connect_error := { ce_code : string; ce_text : string }.
Definition method_name (r : rpc) : string :=
  match r with
  | rpcStartVM => "StartVM" | rpcExec => "Exec" | rpcExecStream => "ExecStream" | rpcStopVM => "StopVM"
  end.
Definition UnimplementedDaemonServiceHandler (r : rpc) : connect_error :=
  {| ce_code := "unimplemented";
     ce_text := "klitka.v1.DaemonService." +:+ method_name r +:+ " is not implemented" |}.

(** ** HTTP *)

(** The path of a URL, as net/url finds it; [None]: no scheme, or an escape. *)
Definition url_path (url : string) : option string :=
  let url := match cut_first "#" url with Some (u, _) => u | None => url end in
  let url := match cut_first "?" url with Some (u, _) => u | None => url end in
  if has_char "%" url then None
  else
    match strip_prefix "http://" url, strip_prefix "https://" url with
    | Some rest, _ | None, Some rest =>
        match cut_first slash rest with
        | Some (_, path) => Some (String slash path)
        | None => Some ""
        end
    | None, None => None
    end.

(** [http.ServeMux] with one handler, at a pattern that ends in a slash. *)
Inductive served (H : Type) := Handled (h : H) | Redirected (path : string) | PageNotFound.
Arguments Handled {H} h. Arguments Redirected {H} path. Arguments PageNotFound {H}.

Definition cleanPath (p : string) : string :=
  let p := match p with "" => "/" | _ => if HasPrefix p "/" then p else "/" +:+ p end in
  let np := Clean p in
  if HasSuffix p "/" && negb (bool_decide (np = "/")) then np +:+ "/" else np.

Definition ServeMux {H : Type} (pattern : string) (handler : string → option H) (path : string)
    : served H :=
  let clean := cleanPath path in
  if bool_decide (clean +:+ "/" = pattern) then Redirected pattern
  else if negb (bool_decide (clean = path)) then Redirected clean
  else if HasPrefix clean pattern then
    match handler path with Some h => Handled h | None => PageNotFound end
  else PageNotFound.

(** [main] of klitka-daemon: what is served. *)
Definition daemon_handler {F : rpc → Type} {H : Type} (mk : ∀ r, string → F r → H)
    (svc : DaemonServiceHandler F) : string → served H :=
  let '(path, handler) := NewDaemonServiceHandler mk svc in ServeMux path handler.

(** ** Client and server agree *)
Fixpoint slashes (n : nat) : string := match n with O => "" | S n => String slash (slashes n) end.

Lemma slashes_snoc n : slashes n +:+ String slash "" = slashes (S n).
Proof. induction n as [|n IH]; [done|]. cbn [slashes]. by rewrite sapp_cons, IH. Qed.
Lemma srev_slashes n : srev (slashes n) = slashes n.
Proof. induction n as [|n IH]; [done|]. cbn [slashes srev]. by rewrite IH, slashes_snoc. Qed.
Lemma trim_first_slashes n t : trim_first slash (slashes n +:+ t) = trim_first slash t.
Proof. induction n as [|n IH]; [done|]. cbn [slashes]. by rewrite sapp_cons. Qed.
Lemma trim_first_clean c s t : s ≠ "" → has_char c s = false → trim_first c (s +:+ t) = s +:+ t.
Proof.
  destruct s as [|a s]; [done|]. intros _ [H _]%orb_false_iff. rewrite sapp_cons. cbn.
  apply bool_decide_eq_false in H. by rewrite decide_False.
Qed.

Lemma TrimRight_slashes u host n :
  host ≠ "" → has_char slash host = false → TrimRight (u +:+ host +:+ slashes n) slash = u +:+ host.
Proof.
  intros Hne Hs. unfold TrimRight. rewrite !srev_app, srev_slashes, <-sapp_assoc, trim_first_slashes.
  rewrite trim_first_clean; [by rewrite srev_app, !srev_involutive| |by rewrite has_char_srev].
  intros H. apply Hne. by rewrite <-(srev_involutive host), H.
Qed.

(** The host part of a base URL: nothing that ends it or escapes. *)
Definition plain_host (host : string) : Prop :=
  host ≠ "" ∧ Forall (λ c, has_char c host = false) ["/"; "?"; "#"; "%"]%char.

Lemma url_path_host scheme host r :
  scheme ∈ ["http://"; "https://"] → plain_host host →
  url_path (scheme +:+ host +:+ procedure r) = Some (procedure r).
Proof.
  intros Hs [_ Hh]. rewrite !Forall_cons in Hh. destruct Hh as (H1 & H2 & H3 & H4 & _).
  unfold url_path.
  assert (Hc : ∀ c, has_char c scheme = false → has_char c host = false → has_char c (procedure r) = false →
            has_char c (scheme +:+ host +:+ procedure r) = false).
  { intros c E1 E2 E3. by rewrite !has_char_app, E1, E2, E3. }
  assert (Hk : ∀ c, c ∈ ["?"; "#"; "%"]%char → has_char c scheme = false ∧ has_char c (procedure r) = false).
  { intros c Hc'. repeat (apply elem_of_cons in Hc' as [->|Hc']); [..|by apply not_elem_of_nil in Hc'];
      (split; [repeat (apply elem_of_cons in Hs as [->|Hs]);
               [by vm_compute|by vm_compute|by apply not_elem_of_nil in Hs]|by destruct r; vm_compute]). }
  rewrite (proj2 (cut_first_None "#" _)) by (apply Hc; [apply Hk; set_solver|done|apply Hk; set_solver]).
  rewrite (proj2 (cut_first_None "?" _)) by (apply Hc; [apply Hk; set_solver|done|apply Hk; set_solver]).
  rewrite Hc by (try done; apply Hk; set_solver).
  assert (Hcut : ∃ p, procedure r = String slash p) by (destruct r; by eexists).
  destruct Hcut as [p Hp].
  assert (E : cut_first slash (host +:+ procedure r) = Some (host, p)).
  { apply cut_first_Some. by rewrite Hp. }
  repeat (apply elem_of_cons in Hs as [->|Hs]); [..|by apply not_elem_of_nil in Hs].
  - by rewrite strip_prefix_app, E, Hp.
  - rewrite strip_prefix_app, E, Hp. destruct (strip_prefix "http://" _) eqn:Ex; [|done].
    by apply strip_prefix_Some in Ex.
Qed.

Section routes.
Context {F : rpc → Type} {H : Type} (mk : ∀ r, string → F r → H) (svc : DaemonServiceHandler F).

Lemma daemon_handler_procedure r :
  daemon_handler mk svc (procedure r) = Handled (mk r (procedure r) (svc r)).
Proof.
  unfold daemon_handler, NewDaemonServiceHandler, ServeMux, is_path.
  assert (E : cleanPath (procedure r) = procedure r
              ∧ HasPrefix (procedure r) "/klitka.v1.DaemonService/" = true
              ∧ procedure r +:+ "/" ≠ "/klitka.v1.DaemonService/") by (destruct r; by vm_compute).
  destruct E as (-> & -> & E). rewrite (bool_decide_false _ E), bool_decide_true by done. cbn [negb].
  by destruct r; repeat first [rewrite bool_decide_true by done|rewrite bool_decide_false by done].
Qed.

Lemma daemon_handler_only path h :
  daemon_handler mk svc path = Handled h →
  ∃ r, path = procedure r ∧ h = mk r (procedure r) (svc r).
Proof.
  unfold daemon_handler, NewDaemonServiceHandler, ServeMux, is_path.
  case_bool_decide; [done|]. case_bool_decide; cbn [negb]; [|done]. destruct (HasPrefix _ _); [|done].
  repeat (case_bool_decide; [intros [= <-]; subst;
    first [by exists rpcStartVM|by exists rpcExec|by exists rpcExecStream|by exists rpcStopVM]|]). done.
Qed.

(** C21: the client's calls reach the service's methods: given a base URL with a
    scheme, a host and any number of slashes at its end, the connect client of
    each method is made for a URL whose path the daemon's mux and the switch of
    the stub lead to the handler made from the same method of the service; and a
    handler runs for no other path. *)
Theorem rpc_routes {C} (NewClient : ∀ r, string → C r) scheme host n :
  scheme ∈ ["http://"; "https://"] → plain_host host →
  (∀ r, ∃ url path,
    client_method (NewDaemonServiceClient NewClient (scheme +:+ host +:+ slashes n)) r = NewClient r url
    ∧ url_path url = Some path
    ∧ daemon_handler mk svc path = Handled (mk r (procedure r) (svc r)))
  ∧ ∀ path h, daemon_handler mk svc path = Handled h →
    ∃ r, path = procedure r ∧ h = mk r (procedure r) (svc r).
Proof.
  intros Hs Hh. split; [|apply daemon_handler_only].
  intros r. exists (scheme +:+ host +:+ procedure r), (procedure r). split_and!.
  - unfold NewDaemonServiceClient. rewrite TrimRight_slashes; [|apply Hh|].
    + destruct r; cbn [client_method]; by rewrite sapp_assoc.
    + destruct Hh as [_ Hh]. by apply Forall_cons in Hh as [Hh _].
  - by apply url_path_host.
  - apply daemon_handler_procedure.
Qed.
End routes.

(** ** Values *)
Example daemon_handler_values :
  let served := daemon_handler (λ r p (f : rpc → nat), p) (λ r _, O) in
  served "/klitka.v1.DaemonService/Exec" = Handled DaemonServiceExecProcedure
  ∧ served "/klitka.v1.DaemonService/exec" = PageNotFound
  ∧ served "/klitka.v1.DaemonService" = Redirected "/klitka.v1.DaemonService/"
  ∧ served "//klitka.v1.DaemonService/Exec" = Redirected "/klitka.v1.DaemonService/Exec"
  ∧ served "/x/klitka.v1.DaemonService/Exec" = PageNotFound
  ∧ TrimRight "http://127.0.0.1:5711//" slash = "http://127.0.0.1:5711"
  ∧ url_path "http://unix/klitka.v1.DaemonService/StopVM" = Some DaemonServiceStopVMProcedure.
Proof. by vm_compute. Qed.

Lemma rpc_routes_witness :
  (∀ r, ∃ url path,
    client_method (NewDaemonServiceClient (C := λ _, string) (λ _ u, u) "http://127.0.0.1:5711/") r = url
    ∧ url_path url = Some path
    ∧ daemon_handler (F := λ _, nat) (λ r p f, (p, f)) (λ r, match r with rpcStopVM => 1%nat | _ => 2%nat end) path
      = Handled (procedure r, match r with rpcStopVM => 1%nat | _ => 2%nat end))
  ∧ ∀ path h, daemon_handler (F := λ _, nat) (λ r p f, (p, f))
                (λ r, match r with rpcStopVM => 1%nat | _ => 2%nat end) path = Handled h →
    ∃ r, path = procedure r ∧ h = (procedure r, match r with rpcStopVM => 1%nat | _ => 2%nat end).
Proof.
  apply (rpc_routes (F := λ _, nat) (C := λ _, string) (λ r p f, (p, f)) _ (λ _ u, u) "http://" "127.0.0.1:5711" 1).
  - by left.
  - split; [done|]. by repeat constructor.
Defined.
