(* ===== verification/ServerDebug.v ===== *)
(** * The debug wrappers of the server ([daemon/server_debug.go])

    With KLITKA_DEBUG_CONN=1 a connection's first bytes are looked at before its
    first read.  The bytes the server reads are the same ([debug_conn_reads]); but
    a connection whose first message is shorter than what is looked at is not
    served until more comes ([debug_conn_waits]).  A connection is what will come
    over it; [bufio.Reader] is modelled. *)
From Stdlib Require Import Ascii.
From S2P Require Export Lifetimes GoStrings.
From Stdlib Require Import Strings.Byte.

(** ** Connections *)

(** What will come, read by read, and the error after it; [None]: nothing more
    comes and the connection stays open. *)
Record rawConn := { rc_pending : list (list byte); rc_ending : option string }.

Inductive read_result := Got (data : list byte) (err : option string) | Waits.

(** Read: at most [k] bytes of what came, or the error, or it waits. *)
Definition conn_Read (k : nat) (c : rawConn) : read_result * rawConn :=
  match rc_pending c with
  | [] => match rc_ending c with Some e => (Got [] (Some e), c) | None => (Waits, c) end
  | d :: ds =>
      (Got (take k d) None,
       {| rc_pending := match drop k d with [] => ds | r => r :: ds end; rc_ending := rc_ending c |})
  end.

(** ** bufio.Reader *)
Record bufReader := { br_conn : rawConn; br_buf : list byte; br_err : option string }.
Definition bufSize : nat := 4096.
Definition newReader (c : rawConn) : bufReader := {| br_conn := c; br_buf := []; br_err := None |}.

(** [fill]: one read for the room that is left; [None] when it waits. *)
Definition fill (b : bufReader) : option bufReader :=
  match conn_Read (bufSize - length (br_buf b)) (br_conn b) with
  | (Got data err, c) => Some {| br_conn := c; br_buf := br_buf b ++ data; br_err := err |}
  | (Waits, _) => None
  end.

(** [Peek(n)] for an [n] within the buffer: [fuel] fills are tried.  The result is
    what is buffered and an error when that is too short; the reader's state also
    when it waits. *)
Fixpoint fill_to (fuel n : nat) (b : bufReader) : bool * bufReader :=
  match fuel with
  | O => (true, b)
  | S fuel =>
      if (length (br_buf b) <? n)%nat && bool_decide (br_err b = None) then
        match fill b with Some b' => fill_to fuel n b' | None => (false, b) end
      else (true, b)
  end.
Definition ErrBufferFull : string := "bufio: buffer full".
Definition Peek (n : nat) (b : bufReader) : option (list byte * option string) * bufReader :=
  match fill_to n n b with
  | (false, b) => (None, b)
  | (true, b) =>
      if (length (br_buf b) <? n)%nat then
        (Some (br_buf b, Some (default ErrBufferFull (br_err b))),
         {| br_conn := br_conn b; br_buf := br_buf b; br_err := None |})
      else (Some (take n (br_buf b), None), b)
  end.

(** [Read] of a buffer of [k] bytes. *)
Definition take_buf (k : nat) (b : bufReader) : read_result * bufReader :=
  (Got (take k (br_buf b)) None,
   {| br_conn := br_conn b; br_buf := drop k (br_buf b); br_err := br_err b |}).
Definition clear_err (b : bufReader) : bufReader :=
  {| br_conn := br_conn b; br_buf := br_buf b; br_err := None |}.
Definition buf_Read (k : nat) (b : bufReader) : read_result * bufReader :=
  if (k =? 0)%nat then
    match br_buf b with
    | [] => (Got [] (br_err b), clear_err b)
    | _ => (Got [] None, b)
    end
  else
    match br_buf b with
    | _ :: _ => take_buf k b
    | [] =>
        match br_err b with
        | Some e => (Got [] (Some e), clear_err b)
        | None =>
            if (bufSize <=? k)%nat then
              match conn_Read k (br_conn b) with
              | (Waits, _) => (Waits, b)
              | (Got data err, c) => (Got data err, {| br_conn := c; br_buf := []; br_err := None |})
              end
            else
              match conn_Read bufSize (br_conn b) with
              | (Waits, _) => (Waits, b)
              | (Got [] err, c) => (Got [] err, {| br_conn := c; br_buf := []; br_err := None |})
              | (Got data err, c) => take_buf k {| br_conn := c; br_buf := data; br_err := err |}
              end
        end
    end.

(** ** server_debug.go *)
Record debugConn := { dc_label : string; dc_reader : bufReader; dc_logged : bool }.

(** [log.Printf]: the label, the bytes looked at, the error. *)
Definition debug_log : Type := list (string * list byte * option string).

Definition debugConn_Read (k : nat) (c : debugConn) (log : debug_log)
    : read_result * debugConn * debug_log :=
  if dc_logged c then
    let '(r, b) := buf_Read k (dc_reader c) in
    (r, {| dc_label := dc_label c; dc_reader := b; dc_logged := true |}, log)
  else
    match Peek 24 (dc_reader c) with
    | (None, b) => (Waits, {| dc_label := dc_label c; dc_reader := b; dc_logged := true |}, log)
    | (Some (peek, err), b) =>
        let '(r, b) := buf_Read k b in
        (r, {| dc_label := dc_label c; dc_reader := b; dc_logged := true |},
         log ++ [(dc_label c, peek, err)])
    end.

(** A listener's connections: raw, or wrapped. *)
Inductive netConn := Plain (c : rawConn) | Debugged (c : debugConn).

Record debugListener := { dl_label : string }.
Definition Accept (l : debugListener) (accepted : osres string rawConn) : osres string netConn :=
  match accepted with
  | Bad e => Bad e
  | Good conn =>
      Good (Debugged {| dc_label := dl_label l; dc_reader := newReader conn; dc_logged := false |})
  end.
Definition wrapDebugListener (getenv : string → string) (label : string)
    : osres string rawConn → osres string netConn :=
  if bool_decide (getenv "KLITKA_DEBUG_CONN" = "1") then Accept {| dl_label := label |}
  else osres_map Plain.

Definition net_Read (k : nat) (c : netConn) (log : debug_log) : read_result * netConn * debug_log :=
  match c with
  | Plain c => let '(r, c) := conn_Read k c in (r, Plain c, log)
  | Debugged c => let '(r, c, log) := debugConn_Read k c log in (r, Debugged c, log)
  end.

(** [wrapDebugHandler]: a line for each request, then the handler. *)
Definition wrapDebugHandler {Req W : Type} (line : Req → string) (getenv : string → string)
    (handler : Req → W → W) (r : Req) (lw : list string * W) : list string * W :=
  let '(log, w) := lw in
  if bool_decide (getenv "KLITKA_DEBUG_HTTP" = "1") then (log ++ [line r], handler r w)
  else (log, handler r w).

(** ** Reading *)
Definition arrives (c : rawConn) : Prop := Forall (λ d, d ≠ []) (rc_pending c).
Definition to_come (c : rawConn) : list byte := concat (rc_pending c).

(** One read of [k > 0] bytes of what is [rest] and ends with [ending]: it gives
    some of the rest, or the end when nothing is left, or it waits. *)
Definition reads_of (rest : list byte) (ending : option string) (waits : Prop) (k : nat)
    (r : read_result) (rest' : list byte) : Prop :=
  match r with
  | Got data None => data ≠ [] ∧ (length data ≤ k)%nat ∧ rest = data ++ rest'
  | Got data (Some e) => data = [] ∧ rest = [] ∧ rest' = [] ∧ ending = Some e
  | Waits => ending = None ∧ rest' = rest ∧ (rest = [] ∨ waits)
  end.

Lemma take_nonempty {A} k (l : list A) : (0 < k)%nat → l ≠ [] → take k l ≠ [].
Proof. destruct k; [lia|]. by destruct l. Qed.

Lemma conn_Read_spec k c :
  (0 < k)%nat → arrives c →
  let '(r, c') := conn_Read k c in
  reads_of (to_come c) (rc_ending c) False k r (to_come c') ∧ arrives c' ∧ rc_ending c' = rc_ending c.
Proof.
  intros Hk Hc. unfold conn_Read, to_come, arrives in *.
  destruct c as [[|d ds] e]; cbn [rc_pending rc_ending] in *.
  { destruct e; cbn; split_and!; auto. }
  apply Forall_cons in Hc as [Hd Hds]. cbn [reads_of rc_pending rc_ending concat].
  assert (Hdrop : concat (match drop k d with [] => ds | r => r :: ds end) = drop k d ++ concat ds)
    by (by destruct (drop k d)).
  split; [split_and!|split; [|done]].
  - by apply take_nonempty.
  - rewrite length_take. lia.
  - cbn [concat]. by rewrite Hdrop, app_assoc, take_drop.
  - destruct (drop k d) eqn:E; [done|]. by constructor.
Qed.

Definition buffered (b : bufReader) : list byte := br_buf b ++ to_come (br_conn b).

(** The reader holds what it read, and no error between its calls. *)
Definition reader_ok (b : bufReader) (rest : list byte) (ending : option string) : Prop :=
  arrives (br_conn b) ∧ rc_ending (br_conn b) = ending ∧ buffered b = rest.

Lemma take_buf_spec k b rest ending waits :
  (0 < k)%nat → br_buf b ≠ [] → br_err b = None → reader_ok b rest ending →
  let '(r, b') := take_buf k b in
  ∃ rest', reads_of rest ending waits k r rest' ∧ reader_ok b' rest' ending ∧ br_err b' = None.
Proof.
  intros Hk Hb He (H1 & H2 & <-). unfold take_buf, buffered. cbn [reads_of br_err br_conn br_buf].
  exists (drop k (br_buf b) ++ to_come (br_conn b)). split; [split_and!|by split_and!].
  - by apply take_nonempty.
  - rewrite length_take. lia.
  - by rewrite app_assoc, take_drop.
Qed.

Lemma buf_Read_spec k b rest ending waits :
  (0 < k)%nat → br_err b = None → reader_ok b rest ending →
  let '(r, b') := buf_Read k b in
  ∃ rest', reads_of rest ending waits k r rest' ∧ reader_ok b' rest' ending ∧ br_err b' = None.
Proof.
  intros Hk He Hok. unfold buf_Read. rewrite (proj2 (Nat.eqb_neq k 0)) by lia.
  destruct (br_buf b) as [|x xs] eqn:Eb; [|apply take_buf_spec; [done|by rewrite Eb|done..]].
  rewrite He. destruct Hok as (H1 & H2 & H3). unfold buffered in H3. rewrite Eb in H3. cbn in H3. subst rest.
  destruct (bufSize <=? k)%nat eqn:Es.
  - pose proof (conn_Read_spec k (br_conn b) Hk H1) as H. rewrite H2 in H.
    destruct (conn_Read k (br_conn b)) as [[data [e|]|] c]; cbn [reads_of] in *; destruct H as (Hr & Ha & Hend).
    + destruct Hr as (-> & H0 & Hc & ->). rewrite H0. exists [].
      split; [by split_and!|]. split; [by split_and!|done].
    + exists (to_come c). split; [done|]. split; [by split_and!|done].
    + destruct Hr as (Hn & _ & Hz). exists (to_come (br_conn b)).
      split; [split_and!; tauto|]. split; [|done]. split_and!; [done..|]. unfold buffered. by rewrite Eb.
  - pose proof (conn_Read_spec bufSize (br_conn b) ltac:(unfold bufSize; lia) H1) as H. rewrite H2 in H.
    destruct (conn_Read bufSize (br_conn b)) as [[data [e|]|] c]; cbn [reads_of] in *; destruct H as (Hr & Ha & Hend).
    + destruct Hr as (-> & H0 & Hc & ->). rewrite H0. exists [].
      split; [by split_and!|]. split; [by split_and!|done].
    + destruct Hr as (Hne & Hle & Hrest). destruct data as [|y ys]; [done|].
      apply take_buf_spec; [done|done|done|]. by split_and!.
    + destruct Hr as (Hn & _ & Hz). exists (to_come (br_conn b)).
      split; [split_and!; tauto|]. split; [|done]. split_and!; [done..|]. unfold buffered. by rewrite Eb.
Qed.

(** *** Looking at the first bytes *)
Lemma fill_to_spec fuel n b rest ending :
  (n ≤ bufSize)%nat → (n - length (br_buf b) ≤ fuel)%nat → br_err b = None → reader_ok b rest ending →
  let '(filled, b') := fill_to fuel n b in
  reader_ok b' rest ending
  ∧ if filled : bool
    then br_err b' = None ∨ (length (br_buf b') < n)%nat
    else ending = None ∧ br_err b' = None ∧ (length rest < n)%nat.
Proof.
  revert b. induction fuel as [|fuel IH]; intros b Hn Hf He Hok; cbn [fill_to]; [by auto|].
  destruct (length (br_buf b) <? n)%nat eqn:El; cbn [andb]; [|by auto].
  apply Nat.ltb_lt in El. rewrite bool_decide_true by done. unfold fill.
  destruct Hok as (H1 & H2 & <-).
  pose proof (conn_Read_spec (bufSize - length (br_buf b)) (br_conn b) ltac:(lia) H1) as H. rewrite H2 in H.
  destruct (conn_Read _ (br_conn b)) as [[data [e|]|] c]; destruct H as (Hr & Ha & Hend); cbn [reads_of] in Hr.
  - destruct Hr as (-> & H3 & H4 & H5). rewrite app_nil_r.
    assert (Hfin : ∀ fuel', fill_to fuel' n {| br_conn := c; br_buf := br_buf b; br_err := Some e |}
                    = (true, {| br_conn := c; br_buf := br_buf b; br_err := Some e |})).
    { intros []; [done|]. cbn [fill_to br_err]. by rewrite bool_decide_false, andb_false_r. }
    rewrite Hfin. split; [|by right]. split_and!; [done|done|]. unfold buffered. cbn. by rewrite H3, H4.
  - destruct Hr as (Hne & Hle & Hrest). apply IH; cbn [br_buf br_err]; [done| |done|].
    + rewrite length_app. assert (length data ≠ 0)%nat by (by intros ?%nil_length_inv). lia.
    + split_and!; [done|done|]. unfold buffered. cbn [br_buf br_conn]. by rewrite Hrest, app_assoc.
  - destruct Hr as (Hend' & _ & [Hz|[]]). split; [by split_and!|]. split_and!; [done|done|].
    unfold buffered. rewrite Hz, app_nil_r. done.
Qed.

Definition peeked : nat := 24.
Lemma Peek_spec b rest ending :
  br_err b = None → reader_ok b rest ending →
  let '(r, b') := Peek peeked b in
  reader_ok b' rest ending ∧ br_err b' = None
  ∧ (r = None → ending = None ∧ (length rest < peeked)%nat).
Proof.
  intros He Hok. unfold Peek.
  pose proof (fill_to_spec peeked peeked b rest ending ltac:(unfold peeked, bufSize; lia) ltac:(lia) He Hok) as H.
  destruct (fill_to peeked peeked b) as [[|] b']; destruct H as (Hok' & H); [|by destruct_and!].
  destruct (length (br_buf b') <? peeked)%nat eqn:El; [done|]. apply Nat.ltb_ge in El.
  split_and!; [done| |done]. destruct H; [done|lia].
Qed.

(** *** A connection of the server *)

(** What is still to be read, and how it ends. *)
Definition net_state (c : netConn) (rest : list byte) (ending : option string) : Prop :=
  match c with
  | Plain c => arrives c ∧ rc_ending c = ending ∧ to_come c = rest
  | Debugged c => reader_ok (dc_reader c) rest ending ∧ br_err (dc_reader c) = None
  end.
(** Whether the next read looks at the first bytes. *)
Definition looks (c : netConn) : Prop :=
  match c with Plain _ => False | Debugged c => dc_logged c = false end.

Lemma net_Read_spec k c log rest ending :
  (0 < k)%nat → net_state c rest ending →
  let '(r, c', log') := net_Read k c log in
  ∃ rest', reads_of rest ending (looks c ∧ (length rest < peeked)%nat) k r rest'
           ∧ net_state c' rest' ending ∧ ¬ looks c'.
Proof.
  intros Hk Hc. destruct c as [c|c]; cbn [net_Read net_state looks] in *.
  - destruct Hc as (H1 & H2 & <-). pose proof (conn_Read_spec k c Hk H1) as H. rewrite H2 in H.
    destruct (conn_Read k c) as [r c']. destruct H as (Hr & Ha & He). exists (to_come c').
    split; [|split; [by split_and!|by intros []]]. destruct r as [data [e|]|]; cbn [reads_of] in *; tauto.
  - destruct Hc as [Hok He]. unfold debugConn_Read. destruct (dc_logged c) eqn:El.
    + pose proof (buf_Read_spec k _ _ _ (true = false ∧ (length rest < peeked)%nat) Hk He Hok) as H.
      destruct (buf_Read k (dc_reader c)) as [r b]. destruct H as (rest' & H1 & H2). by exists rest'.
    + pose proof (Peek_spec _ _ _ He Hok) as H. change 24%nat with peeked.
      destruct (Peek peeked (dc_reader c)) as [[[p perr]|] b]; destruct H as (Hok1 & He1 & Hp).
      * pose proof (buf_Read_spec k _ _ _ (false = false ∧ (length rest < peeked)%nat) Hk He1 Hok1) as H.
        destruct (buf_Read k b) as [r b']. destruct H as (rest' & H1 & H2). by exists rest'.
      * destruct (Hp eq_refl) as [Hend Hlen]. exists rest. split; [by cbn [reads_of]; auto|]. by split.
Qed.

(** Reads one after the other, up to the error or until one waits. *)
Inductive run_end := Going | Ended (err : string) | Waiting.
Fixpoint net_reads (ks : list nat) (c : netConn) (log : debug_log) : list byte * run_end :=
  match ks with
  | [] => ([], Going)
  | k :: ks' =>
      match net_Read k c log with
      | (Got data None, c, log) => let '(out, e) := net_reads ks' c log in (data ++ out, e)
      | (Got data (Some err), _, _) => (data, Ended err)
      | (Waits, _, _) => ([], Waiting)
      end
  end.

Lemma net_reads_spec ks c log rest ending :
  Forall (λ k, (0 < k)%nat) ks → net_state c rest ending →
  let '(out, e) := net_reads ks c log in
  match e with
  | Going => out `prefix_of` rest ∧ (length ks ≤ length out)%nat
  | Ended err => out = rest ∧ ending = Some err
  | Waiting => ending = None ∧ (out = rest ∨ out = [] ∧ looks c ∧ (length rest < peeked)%nat)
  end.
Proof.
  intros Hks. revert c log rest. induction Hks as [|k ks Hk _ IH]; intros c log rest Hc; cbn [net_reads].
  { split; [apply prefix_nil|cbn; lia]. }
  pose proof (net_Read_spec k c log rest ending Hk Hc) as H.
  destruct (net_Read k c log) as [[[data [err|]|] c'] log']; destruct H as (rest' & Hr & Hc' & Hl);
    cbn [reads_of] in Hr.
  - destruct Hr as (-> & -> & -> & ->). done.
  - destruct Hr as (Hne & _ & ->). specialize (IH c' log' rest' Hc').
    destruct (net_reads ks c' log') as [out []].
    + destruct IH as [IH1 IH2]. split; [by apply prefix_app|].
      rewrite length_app. cbn [length]. assert (length data ≠ 0)%nat by (by intros ?%nil_length_inv). lia.
    + by destruct IH as [-> ->].
    + destruct IH as [IH1 IH2]. split; [done|]. destruct IH2 as [->|(_ & H & _)]; [by left|done].
  - destruct Hr as (Hend & -> & Hz). split; [done|]. destruct Hz as [->|[Hz1 Hz2]]; [by left|by right].
Qed.

(** the debug wrapper is transparent: on a connection that the server's
    listener accepts, wrapped or not, any reads give the bytes that came over the
    connection, in order and none lost, at least one with each read, and the error
    only after the last of them; a read waits only when everything that comes was
    read, or, of a wrapped connection only, when fewer than 24 bytes come. *)
Theorem debug_conn_reads getenv label conn c ks log :
  arrives conn → Forall (λ k, (0 < k)%nat) ks →
  wrapDebugListener getenv label (Good conn) = Good c →
  let '(out, e) := net_reads ks c log in
  match e with
  | Going => out `prefix_of` to_come conn ∧ (length ks ≤ length out)%nat
  | Ended err => out = to_come conn ∧ rc_ending conn = Some err
  | Waiting =>
      rc_ending conn = None
      ∧ (out = to_come conn
         ∨ out = [] ∧ getenv "KLITKA_DEBUG_CONN" = "1" ∧ (length (to_come conn) < peeked)%nat)
  end.
Proof.
  intros Ha Hks. unfold wrapDebugListener. case_bool_decide as Hd; intros [= <-].
  - match goal with |- context [net_reads ks ?c log] =>
      pose proof (net_reads_spec ks c log (to_come conn) (rc_ending conn) Hks) as H;
      destruct (net_reads ks c log) as [out e] end.
    specialize (H ltac:(by repeat split)). destruct e; [done|done|]. destruct H as [H1 [H2|(H2 & _ & H3)]]; auto.
  - pose proof (net_reads_spec ks (Plain conn) log (to_come conn) (rc_ending conn) Hks) as H.
    destruct (net_reads ks (Plain conn) log) as [out e]. specialize (H ltac:(by repeat split)).
    destruct e; [done|done|]. destruct H as [H1 [H2|(_ & [] & _)]]; auto.
Qed.

(** ** Values *)
Definition debug_on (k : string) : string := if bool_decide (k = "KLITKA_DEBUG_CONN") then "1" else "".
Definition crlf : string := String (ascii_of_nat 13) (String (ascii_of_nat 10) "").

(** A request of 18 bytes, and a client that waits for its answer. *)
Definition short_request : rawConn :=
  {| rc_pending := [text_bytes ("GET / HTTP/1.0" +:+ crlf +:+ crlf)]; rc_ending := None |}.

(** a wrapped connection does not serve a request shorter than 24 bytes: the
    server that reads it as it came sees it, the debug one waits for more. *)
Theorem debug_conn_waits :
  net_reads [4096%nat] (Plain short_request) [] = (to_come short_request, Going)
  ∧ ∃ c, wrapDebugListener debug_on "tcp" (Good short_request) = Good c
         ∧ net_reads [4096%nat] c [] = ([], Waiting).
Proof. split; [by vm_compute|]. eexists. split; [done|by vm_compute]. Qed.

Lemma debug_conn_reads_witness :
  let conn := {| rc_pending := [text_bytes "PRI * HTTP"; text_bytes "/2.0"]; rc_ending := Some "EOF" |} in
  ∃ c, wrapDebugListener debug_on "tcp" (Good conn) = Good c
  ∧ net_reads [6%nat; 4096%nat; 1%nat] c [] = (text_bytes "PRI * HTTP/2.0", Ended "EOF")
  ∧ text_bytes "PRI * HTTP/2.0" = to_come conn ∧ rc_ending conn = Some "EOF".
Proof.
  intros conn. eexists. split; [done|]. split; [by vm_compute|].
  apply (debug_conn_reads debug_on "tcp" conn
    (Debugged {| dc_label := "tcp"; dc_reader := newReader conn; dc_logged := false |})
    [6%nat; 4096%nat; 1%nat] []).
  - by repeat constructor.
  - repeat (apply Forall_cons; split; [lia|]). constructor.
  - done.
Defined.
