(* ===== verification/GoFlag.v ===== *)
(** * Command-line flags, as Go's [flag] package parses them

    What [cli/main.go] uses of [flag.FlagSet]: flags with a value, boolean flags,
    repeatable flags ([flag.Var]), and the end of the flags at [--] or at the first
    word that is not one. *)
From Stdlib Require Import Ascii.
From S2P Require Export GoStrings.

(** A set of flags over a record of options: which are boolean, and how one is
    set, [None] when it is not defined and [Some None] when the value is bad. *)
Record flagset (O : Type) := {
  fs_bool : string → bool;
  fs_set : string → string → O → option (option O)
}.
Arguments fs_bool {O}. Arguments fs_set {O}.

Inductive flag_error :=
| FlagSyntax (word : string)
| FlagUndefined (name : string)
| FlagHelp
| FlagNeedsValue (name : string)
| FlagInvalid (name value : string).

Inductive flag_word := WStop | WEnd | WBad | WFlag (name : string) (value : option string).

Definition flag_name (s : string) : flag_word :=
  match s with
  | "" => WBad
  | String c _ =>
      if bool_decide (c = "-"%char) || bool_decide (c = "="%char) then WBad
      else match cut_first "="%char s with
           | Some (name, value) => WFlag name (Some value)
           | None => WFlag s None
           end
  end.

Definition classify (s : string) : flag_word :=
  match s with
  | String a (String c rest) =>
      if bool_decide (a = "-"%char) then
        if bool_decide (c = "-"%char)
        then if bool_decide (rest = "") then WEnd else flag_name rest
        else flag_name (String c rest)
      else WStop
  | _ => WStop
  end.

(** [strconv.ParseBool] *)
Definition ParseBool (s : string) : option bool :=
  if bool_decide (s ∈ ["1"; "t"; "T"; "TRUE"; "true"; "True"]) then Some true
  else if bool_decide (s ∈ ["0"; "f"; "F"; "FALSE"; "false"; "False"]) then Some false
  else None.

Section parse.
Context {O : Type} (fs : flagset O).

Definition set_flag (name value : string) (o : O) : osres flag_error O :=
  match fs_set fs name value o with
  | None => if bool_decide (name = "help") || bool_decide (name = "h") then Bad FlagHelp
            else Bad (FlagUndefined name)
  | Some None => Bad (FlagInvalid name value)
  | Some (Some o') => Good o'
  end.

(** Whether the flag is defined is asked before its value. *)
Definition defined (name : string) (o : O) : bool :=
  match fs_set fs name "" o with None => false | Some _ => true end.

(** The options, and the words after the flags. *)
Fixpoint Parse (args : list string) (o : O) : osres flag_error (O * list string) :=
  match args with
  | [] => Good (o, [])
  | arg :: args' =>
      match classify arg with
      | WStop => Good (o, args)
      | WEnd => Good (o, args')
      | WBad => Bad (FlagSyntax arg)
      | WFlag name (Some value) =>
          try o' := set_flag name value o catch e => Bad e in Parse args' o'
      | WFlag name None =>
          if fs_bool fs name then try o' := set_flag name "true" o catch e => Bad e in Parse args' o'
          else if negb (defined name o) then
            try o' := set_flag name "" o catch e => Bad e in Parse args' o'
          else
            match args' with
            | [] => Bad (FlagNeedsValue name)
            | value :: args'' =>
                try o' := set_flag name value o catch e => Bad e in Parse args'' o'
            end
      end
  end.

(** [flag.ExitOnError]: what the program exits with. *)
Definition flag_exit (e : flag_error) : Z := match e with FlagHelp => 0 | _ => 2 end.
End parse.
