(* ===== verification/CLICommands.v ===== *)
(** * The commands of klitka ([cli/main.go])

    [exec], [shell], [start] and [stop]: their flags, the calls they make of the
    daemon in order, what they print and the status they exit with.  A
    [log.Fatal] and an [os.Exit] end the program where they stand. *)
From Stdlib Require Import Ascii.
From S2P Require Export CLI GoFlag HostStream.

(** ** Options *)
Record options := {
  o_mounts : list string;
  o_allow : list string;
  o_deny : list string;
  o_trusted : list string;
  o_secrets : list string;
  o_blockPrivate : bool;
  o_egress : string;
  o_dns : string;
  o_socket : string;
  o_tcp : string
}.

Definition default_options (socket tcp : string) : options :=
  {| o_mounts := []; o_allow := []; o_deny := []; o_trusted := []; o_secrets := [];
     o_blockPrivate := true; o_egress := "compat"; o_dns := "open"; o_socket := socket;
     o_tcp := tcp |}.

(** [mountFlag] and [stringSliceFlag]. *)
Definition list_flag_String (m : list string) : string := Join m ",".
Definition list_flag_Set (value : string) (m : list string) : list string := m ++ [value].

(** Setting one flag; the repeatable ones collect their values. *)
Definition options_set (name value : string) (o : options) : option (option options) :=
  let '(Build_options m a d t s b e n k p) := o in
  if bool_decide (name = "mount") then Some (Some (Build_options (list_flag_Set value m) a d t s b e n k p))
  else if bool_decide (name = "allow-host") then Some (Some (Build_options m (list_flag_Set value a) d t s b e n k p))
  else if bool_decide (name = "deny-host") then Some (Some (Build_options m a (list_flag_Set value d) t s b e n k p))
  else if bool_decide (name = "trusted-dns") then Some (Some (Build_options m a d (list_flag_Set value t) s b e n k p))
  else if bool_decide (name = "secret") then Some (Some (Build_options m a d t (list_flag_Set value s) b e n k p))
  else if bool_decide (name = "block-private")
  then Some (option_map (λ b', Build_options m a d t s b' e n k p) (ParseBool value))
  else if bool_decide (name = "egress-mode") then Some (Some (Build_options m a d t s b value n k p))
  else if bool_decide (name = "dns-mode") then Some (Some (Build_options m a d t s b e value k p))
  else if bool_decide (name = "socket") then Some (Some (Build_options m a d t s b e n value p))
  else if bool_decide (name = "tcp") then Some (Some (Build_options m a d t s b e n k value))
  else None.
Definition start_flags : flagset options :=
  {| fs_bool name := bool_decide (name = "block-private"); fs_set := options_set |}.

(** The flags of [stop]. *)
Record stop_options := { so_id : string; so_socket : string; so_tcp : string }.
Definition stop_set (name value : string) (o : stop_options) : option (option stop_options) :=
  let '(Build_stop_options i k p) := o in
  if bool_decide (name = "id") then Some (Some (Build_stop_options value k p))
  else if bool_decide (name = "socket") then Some (Some (Build_stop_options i value p))
  else if bool_decide (name = "tcp") then Some (Some (Build_stop_options i k value))
  else None.
Definition stop_flags : flagset stop_options := {| fs_bool _ := false; fs_set := stop_set |}.

(** ** The daemon, and the program's state *)

(** What [stream.Receive] answers the shell. *)
Inductive answer := GotResponse (r : ExecStreamResponse) | GotEOF | GotError (text : string).

Class DaemonClient (W : Type) := {
  d_getenv : string → W → string;
  d_defaultSocket : W → string;                           (* daemon.DefaultSocketPath *)
  d_defaultTcp : W → string;                              (* defaultTcpAddr *)
  d_connect : string → string → W → option string * W;    (* newClient: nil or its error *)
  d_rewriteMounts : list Mount → W → osres string (list Mount) * W;   (* rewriteMountsForWsl *)
  d_StartVM : StartVMRequest → W → osres string string * W;
  d_Exec : string → string → list string → W → osres string exec_response * W;
  d_StopVM : string → W → option string * W;
  d_sendStart : exec_start → W → option string * W;       (* the first message of ExecStream *)
  d_session : W → list answer * W;                        (* what the stream then receives *)
  d_isTerminal : W → bool;                                (* standard input is a terminal *)
  d_makeRaw : W → bool * W;                               (* term.MakeRaw succeeds *)
  d_restore : W → W                                       (* term.Restore *)
}.

(** The calls made, in order. *)
Inductive call :=
| CallStartVM (req : StartVMRequest) (vm : option string)   (* the id, if it started *)
| CallExec (vm command : string) (args : list string)
| CallExecStream (start : exec_start)
| CallStopVM (vm : string).

Record cst (W : Type) := {
  c_world : W;
  c_calls : list call;
  c_stdout : list byte;
  c_stderr : list byte
}.
Arguments c_world {W}. Arguments c_calls {W}. Arguments c_stdout {W}. Arguments c_stderr {W}.
Arguments Build_cst {W}.

(** A part of the program returns, or the program exits. *)
Inductive finish (A : Type) := Next (a : A) | Exit (code : Z).
Arguments Next {A} a. Arguments Exit {A} code.

Definition X (W A : Type) : Type := cst W → finish A * cst W.
#[export] Instance X_mret {W} : MRet (X W) := λ A a s, (Next a, s).
#[export] Instance X_mbind {W} : MBind (X W) := λ A B f m s,
  match m s with (Next a, s') => f a s' | (Exit code, s') => (Exit code, s') end.

Section code.
Context `{UT : UnicodeTables} `{DC : DaemonClient W}.

Definition exit {A} (code : Z) : X W A := λ s, (Exit code, s).
Definition fatal {A} : X W A := exit 1.                        (* log.Fatal *)
Definition ask {A} (f : W → A) : X W A := λ s, (Next (f (c_world s)), s).
Definition do_ {A} (f : W → A * W) : X W A := λ s,
  let '(a, w) := f (c_world s) in (Next a, Build_cst w (c_calls s) (c_stdout s) (c_stderr s)).
Definition called (c : call) : X W () := λ s,
  (Next (), Build_cst (c_world s) (c_calls s ++ [c]) (c_stdout s) (c_stderr s)).
Definition write_out (data : list byte) : X W () := λ s,
  (Next (), Build_cst (c_world s) (c_calls s) (c_stdout s ++ data) (c_stderr s)).
Definition write_err (data : list byte) : X W () := λ s,
  (Next (), Build_cst (c_world s) (c_calls s) (c_stdout s) (c_stderr s ++ data)).

(** ** Defaults and flags *)
Definition socketDefault : X W string :=
  value ← ask (d_getenv "KLITKA_SOCKET");
  d ← ask d_defaultSocket;
  mret (if bool_decide (value = "") then d else value).
Definition tcpDefault : X W string :=
  value ← ask (d_getenv "KLITKA_TCP");
  d ← ask d_defaultTcp;
  mret (if bool_decide (value = "") then d else value).

Definition parse_flags {O} (fs : flagset O) (o : O) (args : list string) : X W (O * list string) :=
  match Parse fs args o with
  | Good r => mret r
  | Bad e => exit (flag_exit e)
  end.
Definition start_options (args : list string) : X W (options * list string) :=
  socket ← socketDefault; tcp ← tcpDefault;
  parse_flags start_flags (default_options socket tcp) args.

(** ** From the options to the VM *)
Definition open_client (socket tcp : string) : X W () :=
  e ← do_ (d_connect socket tcp);
  match e with Some _ => fatal | None => mret () end.

(** The request of [exec], [shell] and [start]. *)
Definition build_request (o : options) : X W StartVMRequest :=
  match parseMountFlags (o_mounts o) with
  | Bad _ => fatal
  | Good mounts =>
      r ← do_ (d_rewriteMounts mounts);
      match r with
      | Bad _ => fatal
      | Good mounts =>
          getenv ← ask (λ w k, d_getenv k w);
          match parseSecretFlags getenv (o_secrets o) with
          | Bad _ => fatal
          | Good secrets =>
              match cli_buildNetworkPolicy (o_allow o) (o_deny o) (o_trusted o) (o_blockPrivate o)
                      (o_egress o) (o_dns o) with
              | Bad _ => fatal
              | Good network => mret {| Mounts := mounts; Network := network; Secrets := secrets |}
              end
          end
      end
  end.

Definition start_vm (req : StartVMRequest) : X W string :=
  r ← do_ (d_StartVM req);
  match r with
  | Bad _ => _ ← called (CallStartVM req None); fatal
  | Good vmID => _ ← called (CallStartVM req (Some vmID)); mret vmID
  end.
Definition stop_vm (vmID : string) : X W () :=
  _ ← called (CallStopVM vmID);
  _ ← do_ (d_StopVM vmID);                (* an error is only logged *)
  mret ().

(** ** The commands *)
Definition execCommand (args : list string) : X W () :=
  p ← start_options args;
  let '(o, cmdArgs) := p in
  match exec_command cmdArgs with
  | None => fatal
  | Some (command, commandArgs) =>
      _ ← open_client (o_socket o) (o_tcp o);
      req ← build_request o;
      vmID ← start_vm req;
      _ ← called (CallExec vmID command commandArgs);
      r ← do_ (d_Exec vmID command commandArgs);
      match r with
      | Bad _ => _ ← stop_vm vmID; fatal
      | Good resp =>
          _ ← stop_vm vmID;
          _ ← write_out (ex_Stdout resp);
          _ ← write_err (ex_Stderr resp);
          if ex_ExitCode resp =? 0 then mret () else exit (ex_ExitCode resp)
      end
  end.

(** The goroutine that receives, with what it makes of [exitCodeCh] and
    [readErrCh]: [None] when neither is ever sent to. *)
Fixpoint shell_receive (answers : list answer) : X W (option Z) :=
  match answers with
  | [] => mret None
  | GotEOF :: _ => mret None
  | GotError _ :: _ => mret (Some 1)
  | GotResponse (RespOutput name data) :: answers' =>
      _ ← (if bool_decide (name = "stderr") then write_err data else write_out data);
      shell_receive answers'
  | GotResponse (RespExit code) :: _ => mret (Some code)
  end.

Definition shell_start (vmID : string) : exec_start :=
  {| st_VmId := vmID; st_Command := "sh"; st_Args := []; st_Pty := true |}.

(** The terminal in raw mode, and what is deferred to restore it. *)
Definition make_raw : X W bool :=
  isTTY ← ask d_isTerminal;
  if (isTTY : bool) then do_ d_makeRaw else mret false.
Definition restore_terminal (raw : bool) : X W () :=
  if raw then do_ (λ w, ((), d_restore w)) else mret ().

(** The end; [os.Exit] leaves out what is deferred. *)
Definition shell_finish (vmID : string) (raw : bool) (exitCode : Z) : X W (option ()) :=
  _ ← stop_vm vmID;
  if negb (exitCode =? 0) then exit exitCode
  else _ ← restore_terminal raw; mret (Some ()).

(** [None]: the [select] on the two channels never ends. *)
Definition shellCommand (args : list string) : X W (option ()) :=
  p ← start_options args;
  let '(o, _) := p in
  _ ← open_client (o_socket o) (o_tcp o);
  req ← build_request o;
  vmID ← start_vm req;
  _ ← called (CallExecStream (shell_start vmID));
  e ← do_ (d_sendStart (shell_start vmID));
  match e with
  | Some _ => fatal
  | None =>
      raw ← make_raw;
      answers ← do_ d_session;
      r ← shell_receive answers;
      match r with
      | None => mret None
      | Some exitCode => shell_finish vmID raw exitCode
      end
  end.

Definition cli_startCommand (args : list string) : X W () :=
  p ← start_options args;
  let '(o, _) := p in
  _ ← open_client (o_socket o) (o_tcp o);
  req ← build_request o;
  vmID ← start_vm req;
  write_out (text_bytes (vmID +:+ String (ascii_of_nat 10) "")).

Definition stopCommand (args : list string) : X W () :=
  socket ← socketDefault; tcp ← tcpDefault;
  p ← parse_flags stop_flags {| so_id := ""; so_socket := socket; so_tcp := tcp |} args;
  let '(o, _) := p in
  if bool_decide (so_id o = "") then fatal
  else
    _ ← open_client (so_socket o) (so_tcp o);
    _ ← called (CallStopVM (so_id o));
    e ← do_ (d_StopVM (so_id o));
    match e with Some _ => fatal | None => mret () end.

(** *** Usage *)
Definition start_usage : string :=
  "[--mount host:guest[:ro|rw]] [--allow-host host] [--deny-host host] [--block-private=false] [--egress-mode compat|strict] [--dns-mode open|trusted|synthetic] [--trusted-dns host[:port]] [--secret NAME@host[,host...][:header][:format][=VALUE]] [--socket path | --tcp host:port]".
Definition usage_lines : list string :=
  ["Usage:"; "  klitka exec " +:+ start_usage +:+ " -- <command>"; "  klitka shell " +:+ start_usage;
   "  klitka start " +:+ start_usage; "  klitka stop --id <vm-id> [--socket path | --tcp host:port]"].
Definition printUsage : X W () :=
  write_out (mjoin (map (λ l, text_bytes (l +:+ String (ascii_of_nat 10) "")) usage_lines)).

(** [main]; the shell's [option] as above. *)
Definition main (os_Args : list string) : X W (option ()) :=
  match os_Args with
  | _ :: sub :: args =>
      if bool_decide (sub = "exec") then _ ← execCommand args; mret (Some ())
      else if bool_decide (sub = "shell") then shellCommand args
      else if bool_decide (sub = "start") then _ ← cli_startCommand args; mret (Some ())
      else if bool_decide (sub = "stop") then _ ← stopCommand args; mret (Some ())
      else _ ← printUsage; exit 1
  | _ => _ ← printUsage; exit 1
  end.
End code.

(** ** The shell's input *)

(** What [reader.Read] answers: some bytes, and an end or an error. *)
Inductive read_end := ReadEnds | ReadBreaks.
Fixpoint shell_input (reads : list (list byte * option read_end)) : list ExecStreamRequest :=
  match reads with
  | [] => []
  | (data, e) :: reads' =>
      (if (length data =? 0)%nat then [] else [ReqInput data false])
      ++ match e with
         | None => shell_input reads'
         | Some ReadEnds => [ReqInput [] true]
         | Some ReadBreaks => []
         end
  end.

(** [sendResize]: [None] when the size is not known. *)
Definition cli_sendResize (size : option (Z * Z)) : list ExecStreamRequest :=
  match size with
  | None => []
  | Some (cols, rows) => [ReqResize (uint32_of rows) (uint32_of cols)]
  end.

(** [watchResize]: one for each SIGWINCH, with the sizes found then. *)
Definition watchResize (sizes : list (option (Z * Z))) : list ExecStreamRequest :=
  mjoin (map cli_sendResize sizes).
