(* ===== verification/CLICommandsProps.v ===== *)
(** * What the commands do

    [exec] stops the VM it started, whatever happens in between
    ([exec_stops_its_vm]); [shell] shows a command's output and takes its exit code
    ([shell_shows_command]), but leaves its VM running when the stream does not
    start ([shell_leaves_vm]) and the terminal raw when the code is not 0
    ([shell_leaves_raw]); and a command line says what its options say
    ([flags_roundtrip]). *)
From Stdlib Require Import Ascii.
From S2P Require Export CLICommands HostStreamEnds.

Section props.
Context `{UT : UnicodeTables} `{DC : DaemonClient W}.
Implicit Types s : cst W.

(** Parts that make no call of the daemon's VMs and print nothing. *)
Definition unseen s s' : Prop :=
  c_calls s' = c_calls s ∧ c_stdout s' = c_stdout s ∧ c_stderr s' = c_stderr s.
Definition silent {A} (m : X W A) : Prop := ∀ s, unseen s (m s).2.

Lemma silent_ret {A} (a : A) : silent (mret a). Proof. by intros s. Qed.
Lemma silent_exit {A} code : silent (exit (A := A) code). Proof. by intros s. Qed.
Lemma silent_ask {A} (f : W → A) : silent (ask f). Proof. by intros s. Qed.
Lemma silent_do {A} (f : W → A * W) : silent (do_ f).
Proof. intros s. unfold do_. by destruct (f (c_world s)). Qed.
Lemma silent_bind {A B} (m : X W A) (k : A → X W B) :
  silent m → (∀ a, silent (k a)) → silent (x ← m; k x).
Proof.
  intros Hm Hk s. unfold mbind, X_mbind. specialize (Hm s).
  destruct (m s) as [[a|code] s1]; [|done]. destruct Hm as (H1 & H2 & H3).
  destruct (Hk a s1) as (K1 & K2 & K3). unfold unseen in *. cbn in *. by rewrite K1, K2, K3.
Qed.
#[local] Hint Resolve silent_ret silent_exit silent_ask silent_do : klitka.

Ltac silent := repeat (apply silent_bind; [eauto with klitka|intros ?]); eauto with klitka.

Lemma silent_start_options args : silent (start_options args).
Proof.
  unfold start_options. apply silent_bind; [unfold socketDefault; silent|intros socket].
  apply silent_bind; [unfold tcpDefault; silent|intros tcp].
  unfold parse_flags. destruct (Parse _ _ _); eauto with klitka.
Qed.
Lemma silent_open_client socket tcp : silent (open_client socket tcp).
Proof.
  unfold open_client. apply silent_bind; [eauto with klitka|]. intros [e|]; [apply silent_exit|apply silent_ret].
Qed.
Lemma silent_build_request o : silent (build_request o).
Proof.
  unfold build_request, fatal. destruct (parseMountFlags _); [|apply silent_exit].
  apply silent_bind; [eauto with klitka|]. intros [mounts|]; [|apply silent_exit].
  apply silent_bind; [eauto with klitka|]. intros getenv.
  destruct (parseSecretFlags _ _); [|apply silent_exit].
  destruct (cli_buildNetworkPolicy _ _ _ _ _ _); [apply silent_ret|apply silent_exit].
Qed.

(** The common beginning: with the options, to the request. *)
Definition prepare (o : options) : X W StartVMRequest :=
  _ ← open_client (o_socket o) (o_tcp o); build_request o.
Lemma silent_prepare o : silent (prepare o).
Proof. apply silent_bind; [apply silent_open_client|intros _; apply silent_build_request]. Qed.

(** A program that was just started. *)
Definition begun (w : W) : cst W := Build_cst w [] [] [].
Definition quiet_state s : Prop := c_calls s = [] ∧ c_stdout s = [] ∧ c_stderr s = [].

Lemma silent_next {A} (m : X W A) s a s' :
  silent m → quiet_state s → m s = (Next a, s') → quiet_state s'.
Proof.
  intros Hm (Q1 & Q2 & Q3) Hr. destruct (Hm s) as (H1 & H2 & H3). rewrite Hr in H1, H2, H3.
  unfold quiet_state. cbn in *. by rewrite H1, H2, H3.
Qed.
Lemma silent_exits {A} (m : X W A) s code s' :
  silent m → quiet_state s → m s = (Exit code, s') → quiet_state s'.
Proof.
  intros Hm (Q1 & Q2 & Q3) Hr. destruct (Hm s) as (H1 & H2 & H3). rewrite Hr in H1, H2, H3.
  unfold quiet_state. cbn in *. by rewrite H1, H2, H3.
Qed.

(** How a run of [exec] can go: it ends before a VM is started, the VM does not
    start, or there is one and it is stopped. *)
Inductive exec_run (cmdArgs : list string) (r : finish ()) s : Prop :=
| ExecNone code : quiet_state s → r = Exit code → exec_run cmdArgs r s
| ExecNotStarted req :
    c_calls s = [CallStartVM req None] → c_stdout s = [] → r = Exit 1 → exec_run cmdArgs r s
| ExecStopped req vm command args w1 w2 resp :
    exec_command cmdArgs = Some (command, args) →
    c_calls s = [CallStartVM req (Some vm); CallExec vm command args; CallStopVM vm] →
    d_Exec vm command args w1 = (resp, w2) →
    match resp with
    | Bad _ => r = Exit 1 ∧ c_stdout s = [] ∧ c_stderr s = []
    | Good x => c_stdout s = ex_Stdout x ∧ c_stderr s = ex_Stderr x
                ∧ r = (if ex_ExitCode x =? 0 then Next () else Exit (ex_ExitCode x))
    end →
    exec_run cmdArgs r s.

Lemma exec_after_options o cmdArgs command args s :
  exec_command cmdArgs = Some (command, args) → quiet_state s →
  let '(r, s') := (req ← prepare o; vmID ← start_vm req;
    _ ← called (CallExec vmID command args);
    r ← do_ (d_Exec vmID command args);
    match r with
    | Bad _ => _ ← stop_vm vmID; fatal
    | Good resp =>
        _ ← stop_vm vmID; _ ← write_out (ex_Stdout resp); _ ← write_err (ex_Stderr resp);
        if ex_ExitCode resp =? 0 then mret () else exit (ex_ExitCode resp)
    end) s in
  exec_run cmdArgs r s'.
Proof.
  intros Hcmd Hs. unfold mbind, X_mbind.
  destruct (prepare o s) as [[req|code] s1] eqn:Ep.
  2: { eapply ExecNone; [by eapply silent_exits; [apply silent_prepare|..]|done]. }
  apply (silent_next _ _ _ _ (silent_prepare o) Hs) in Ep as (Q1 & Q2 & Q3).
  unfold start_vm, mbind, X_mbind, do_.
  destruct (d_StartVM req (c_world s1)) as [[vm|e] w1]; cbn.
  2: { eapply (ExecNotStarted _ _ _ req); cbn; by rewrite ?Q1, ?Q2. }
  destruct (d_Exec vm command args w1) as [[resp|e] w2] eqn:Ex; cbn;
    unfold stop_vm, do_, mbind, X_mbind; cbn; destruct (d_StopVM vm w2) as [e' w3]; cbn.
  - destruct (ex_ExitCode resp =? 0) eqn:Ez; cbn.
    all: eapply (ExecStopped _ _ _ req vm command args w1 w2 (Good resp)); [done| |done|]; cbn;
      by rewrite ?Q1, ?Q2, ?Q3, ?Ez.
  - eapply (ExecStopped _ _ _ req vm command args w1 w2 (Bad e)); [done| |done|]; cbn;
      by rewrite ?Q1, ?Q2, ?Q3.
Qed.

(** klitka exec leaves no VM behind: for every command line, environment and
    daemon, either it exits before it asks for a VM, or the daemon refuses the VM
    and it exits with 1, or the calls it makes are to start a VM, to run in it
    the command of the command line, and to stop that VM; in the last case it
    prints the command's outputs and exits with the command's code, or with 1 if
    the call failed. *)
Theorem exec_stops_its_vm args w :
  let '(r, s) := execCommand args (begun w) in
  ∃ cmdArgs, exec_run cmdArgs r s
  ∧ (c_calls s ≠ [] → ∃ o s0, start_options args (begun w) = (Next (o, cmdArgs), s0)).
Proof.
  assert (Hq : quiet_state (begun w)) by done.
  unfold execCommand. unfold mbind at 1, X_mbind at 1.
  destruct (start_options args (begun w)) as [[[o cmdArgs]|code] s0] eqn:Eo.
  2: { apply (silent_exits _ _ _ _ (silent_start_options args) Hq) in Eo.
       exists []. split; [by eapply ExecNone|]. by destruct Eo. }
  apply (silent_next _ _ _ _ (silent_start_options args) Hq) in Eo as Hq0.
  destruct (exec_command cmdArgs) as [[command cargs]|] eqn:Ec.
  2: { exists cmdArgs. split; [by eapply ExecNone|]. by destruct Hq0. }
  pose proof (exec_after_options o cmdArgs command cargs s0 Ec Hq0) as H.
  unfold prepare in H. unfold mbind, X_mbind in *.
  destruct (open_client _ _ s0) as [[[]|code] s1]; [|].
  - destruct (build_request o s1) as [[req|code] s2].
    + destruct (start_vm req s2) as [[vm|code] s3].
      * match goal with |- let '(r, s) := ?t in _ => destruct t as [r s'] end. exists cmdArgs. eauto.
      * exists cmdArgs. eauto.
    + exists cmdArgs. eauto.
  - exists cmdArgs. eauto.
Qed.

(** ** The shell *)

Lemma data_of_cons n r l : data_of n (r :: l) = piece n r ++ data_of n l.
Proof. done. Qed.

(** What the terminal gets of a list of answers. *)
Lemma shell_receive_outputs l code s :
  Forall (λ r, is_output r = true) l → Forall piece_ok l →
  shell_receive (map GotResponse (l ++ [execExit code])) s
  = (Next (Some code),
     Build_cst (c_world s) (c_calls s) (c_stdout s ++ data_of Stdout l) (c_stderr s ++ data_of Stderr l)).
Proof.
  intros Hl. revert s. induction Hl as [|r l Hr _ IH]; intros s Hp.
  { cbn. unfold data_of. cbn. rewrite !app_nil_r. by destruct s. }
  apply Forall_cons in Hp as [Hn Hp]. destruct r as [name data|]; [|done].
  cbn [app map shell_receive]. unfold mbind, X_mbind. rewrite !data_of_cons.
  destruct Hn as ([-> | ->] & _ & _).
  - rewrite bool_decide_false by done. cbn [write_out]. rewrite IH by done. cbn. by rewrite <-app_assoc.
  - rewrite bool_decide_true by done. cbn [write_err]. rewrite IH by done. cbn. by rewrite <-app_assoc.
Qed.

Lemma data_of_exit n l code : data_of n (l ++ [execExit code]) = data_of n l.
Proof. rewrite data_of_snoc. apply app_nil_r. Qed.

(** C29: from a process on the host to the terminal: once ExecStream has sent the
    exit code of a command, in whatever order the process, the readers and the
    call ran, the shell that receives what was sent writes to its standard output
    and its standard error what was sent of each, which is a prefix of what the
    process wrote to each, and takes the process's exit code as its own. *)
Theorem shell_shows_command pty acts st code s :
  reached pty acts st → RespExit code ∈ st_sent st →
  ∃ s', shell_receive (map GotResponse (st_sent st)) s = (Next (Some code), s')
  ∧ c_stdout s' = c_stdout s ++ data_of Stdout (st_sent st)
  ∧ c_stderr s' = c_stderr s ++ data_of Stderr (st_sent st)
  ∧ (∀ n, data_of n (st_sent st) `prefix_of` p_written (st_pipe st n))
  ∧ ∃ w, st_exited st = Some w ∧ code = exit_code_of w.
Proof.
  intros Hr Hin. destruct (reached_flows _ _ _ Hr) as [Hok Hf].
  destruct (ending_exit st code (reached_ending _ _ _ Hr) Hin) as (l & w & Hs & Hl & Hx & -> & _).
  rewrite Hs in *. apply Forall_app in Hok as [Hok _].
  eexists. split; [by apply shell_receive_outputs|]. cbn. rewrite !data_of_exit.
  split_and!; [done|done| |by exists w].
  intros n. rewrite data_of_exit. specialize (Hf n). apply flow_done in Hf. cbn in Hf.
  by rewrite data_of_exit in Hf.
Qed.

(** The VM of a shell whose stream does not start is never stopped. *)
Lemma shell_start_failure args o rest s0 req s1 vm s2 text w :
  start_options args (begun w) = (Next (o, rest), s0) → prepare o s0 = (Next req, s1) →
  start_vm req s1 = (Next vm, s2) → (d_sendStart (shell_start vm) (c_world s2)).1 = Some text →
  ∃ s', shellCommand args (begun w) = (Exit 1, s')
  ∧ c_calls s' = [CallStartVM req (Some vm); CallExecStream (shell_start vm)].
Proof.
  intros Ho Hp Hv Hsend.
  assert (Hq : quiet_state s1).
  { eapply silent_next; [apply silent_prepare| |exact Hp].
    by eapply silent_next; [apply silent_start_options| |exact Ho]. }
  unfold shellCommand, mbind, X_mbind. rewrite Ho. cbn.
  unfold prepare, mbind, X_mbind in Hp. destruct (open_client _ _ s0) as [[[]|code] s']; [|done].
  rewrite Hp, Hv. unfold do_. cbn. destruct (d_sendStart _ _) as [e w']. cbn in Hsend. subst e.
  eexists. split; [done|]. cbn. destruct Hq as (Q1 & _ & _).
  unfold start_vm, mbind, X_mbind, do_ in Hv.
  destruct (d_StartVM req (c_world s1)) as [[vm'|e] w1]; cbn in Hv; [|done].
  injection Hv as -> <-. cbn. by rewrite Q1.
Qed.
End props.

(** ** Flags *)

(** The words for some options. *)
Definition flag_words (name : string) (values : list string) : list string :=
  flat_map (λ v, [("--" +:+ name)%string; v]) values.
Definition render_options (o : options) : list string :=
  flag_words "mount" (o_mounts o) ++ flag_words "allow-host" (o_allow o)
  ++ flag_words "deny-host" (o_deny o) ++ flag_words "trusted-dns" (o_trusted o)
  ++ flag_words "secret" (o_secrets o)
  ++ [if o_blockPrivate o then "--block-private=true" else "--block-private=false"]
  ++ ["--egress-mode"; o_egress o; "--dns-mode"; o_dns o; "--socket"; o_socket o; "--tcp"; o_tcp o].

(** One word with a value, and one repeated flag. *)
Lemma Parse_value name value args o o' :
  classify ("--" +:+ name)%string = WFlag name None → fs_bool start_flags name = false →
  options_set name value o = Some (Some o') → defined start_flags name o = true →
  Parse start_flags (("--" +:+ name)%string :: value :: args) o = Parse start_flags args o'.
Proof.
  intros Hc Hb Hs Hd. cbn [Parse]. rewrite Hc, Hb, Hd. cbn [negb]. unfold set_flag.
  cbn [fs_set start_flags]. by rewrite Hs.
Qed.

Lemma Parse_repeated name (put : list string → options → options) values : ∀ args o,
  classify ("--" +:+ name)%string = WFlag name None → fs_bool start_flags name = false →
  (∀ v o, options_set name v o = Some (Some (put [v] o))) →
  (∀ o, put [] o = o) → (∀ v l o, put l (put [v] o) = put (v :: l) o) →
  Parse start_flags (flag_words name values ++ args) o = Parse start_flags args (put values o).
Proof.
  induction values as [|v values IH]; intros args o Hc Hb Hs Hn Ha; [cbn; by rewrite Hn|].
  change (flag_words name (v :: values) ++ args)
    with (("--" +:+ name)%string :: v :: flag_words name values ++ args).
  rewrite (Parse_value name v _ o (put [v] o)); [|done|done|done|].
  - rewrite IH by done. by rewrite Ha.
  - unfold defined. cbn [fs_set start_flags]. by rewrite Hs.
Qed.

Ltac collect name put :=
  rewrite (Parse_repeated name put);
  [|done|done|by intros v []|intros []; cbn; by rewrite app_nil_r
   |intros v l []; cbn; by rewrite <-app_assoc].

(** a command line says what it is made to say: the words render_options
    writes for any options (any values, even ones that look like flags), followed
    by [--] and any words, are parsed back to exactly those options and those
    words, whatever the defaults for the socket and the address are. *)
Theorem flags_roundtrip o socket tcp rest :
  Parse start_flags (render_options o ++ "--" :: rest) (default_options socket tcp) = Good (o, rest).
Proof.
  unfold render_options. rewrite <-!app_assoc. destruct o as [m a d t s b e n k p]. cbn [o_mounts
    o_allow o_deny o_trusted o_secrets o_blockPrivate o_egress o_dns o_socket o_tcp].
  collect "mount" (λ l '(Build_options m a d t s b e n k p), Build_options (m ++ l) a d t s b e n k p).
  collect "allow-host" (λ l '(Build_options m a d t s b e n k p), Build_options m (a ++ l) d t s b e n k p).
  collect "deny-host" (λ l '(Build_options m a d t s b e n k p), Build_options m a (d ++ l) t s b e n k p).
  collect "trusted-dns" (λ l '(Build_options m a d t s b e n k p), Build_options m a d (t ++ l) s b e n k p).
  collect "secret" (λ l '(Build_options m a d t s b e n k p), Build_options m a d t (s ++ l) b e n k p).
  by destruct b.
Qed.

Lemma shell_shows_command_witness :
  ∃ s', shell_receive (map GotResponse (st_sent (end_of false half_read))) (begun ())
        = (Next (Some 3), s')
  ∧ c_stdout s' = c_stdout (begun ()) ++ data_of Stdout (st_sent (end_of false half_read)).
Proof.
  destruct (shell_shows_command false half_read (end_of false half_read) 3 (begun ()))
    as (s' & H1 & H2 & _).
  - apply reached_end. by vm_compute.
  - vm_compute. by right; left.
  - by exists s'.
Defined.

(** The end of a shell: its VM was asked to stop; the terminal is restored only after
    a command that ended with 0, and stays raw otherwise. *)
Lemma shell_leaves_raw `{DC : DaemonClient W} vmID raw exitCode (s : cst W) :
  let '(r, s') := shell_finish vmID raw exitCode s in
  let stopped := (d_StopVM vmID (c_world s)).2 in
  c_calls s' = c_calls s ++ [CallStopVM vmID]
  ∧ (exitCode ≠ 0 → r = Exit exitCode ∧ c_world s' = stopped)
  ∧ (exitCode = 0 → r = Next (Some ()) ∧ c_world s' = if raw then d_restore stopped else stopped).
Proof.
  unfold shell_finish, stop_vm, do_, mbind, X_mbind. cbn. destruct (d_StopVM vmID (c_world s)) as [e w].
  destruct (Z.eqb_spec exitCode 0) as [->|H]; cbn; [by destruct raw|done].
Qed.

(** A daemon whose stream breaks when the shell sends its first message. *)
#[local] Instance broken_daemon : DaemonClient () := {|
  d_getenv _ _ := ""; d_defaultSocket _ := "/var/run/klitka.sock"; d_defaultTcp _ := "";
  d_connect _ _ w := (None, w);
  d_rewriteMounts mounts w := (Good mounts, w);
  d_StartVM _ w := (Good "vm-1", w);
  d_Exec _ _ _ w := (Good {| ex_ExitCode := 3; ex_Stdout := text_bytes "out"; ex_Stderr := [] |}, w);
  d_StopVM _ w := (None, w);
  d_sendStart _ w := (Some "broken pipe", w);
  d_session w := ([], w);
  d_isTerminal _ := false; d_makeRaw w := (true, w); d_restore w := w
|}.
#[local] Existing Instance ascii_tables.

Definition empty_request : StartVMRequest := {| Mounts := []; Network := None; Secrets := [] |}.

Theorem shell_leaves_vm :
  ∃ s, shellCommand [] (begun ()) = (Exit 1, s)
  ∧ c_calls s = [CallStartVM empty_request (Some "vm-1"); CallExecStream (shell_start "vm-1")].
Proof. eexists. split; [vm_compute; reflexivity|]. done. Qed.

Example exec_values :
  let '(r, s) := execCommand ["--mount"; "/srv:/work"; "--"; "ls -l"] (begun ()) in
  r = Exit 3 ∧ c_stdout s = text_bytes "out"
  ∧ c_calls s = [CallStartVM {| Mounts := [{| GuestPath := "/work"; HostPath := "/srv";
                                              Mount_Mode := MountMode.RO |}];
                                Network := None; Secrets := [] |} (Some "vm-1");
                 CallExec "vm-1" "sh" ["-c"; "ls -l"]; CallStopVM "vm-1"].
Proof. by vm_compute. Qed.
