(* ===== verification/ExecFlow.v ===== *)
(** * What Exec answers and the shell shows, in every interleaving

    [collectExecOutput] with its receives spread over a run of the console client
    ([VirtioFlow]): what it returns is what the guest's messages for its request
    say ([exec_reports_guest]).  With nothing in between it is the function of
    [VirtioClient] ([collect_alone]).  Likewise the loop of [vmBackend.ExecStream]
    ([VMStream], [stream_alone]), and the shell that receives what it sends
    ([CLICommands]): its terminal shows the guest's outputs and it takes the guest's
    exit code ([shell_shows_guest]). *)
From Stdlib Require Import Ascii.
From S2P Require Export VirtioFlow VMStream CLICommandsProps.
From S2P Require Import VirtioFindings.

(** ** The loop, a receive at a time *)
Inductive collecting := Collecting (outBuf errBuf : list byte) | Collected (r : exec_result).

Definition collect_take (st : collecting) (v : taken) : collecting :=
  match st with
  | Collected _ => st
  | Collecting outBuf errBuf =>
      match v with
      | TookOutput (Some output) =>
          if bool_decide (out_stream output = "stderr")
          then Collecting outBuf (errBuf ++ out_data output)
          else Collecting (outBuf ++ out_data output) errBuf
      | TookExit (Some exitMsg) =>
          Collected {| er_stdout := outBuf; er_stderr := errBuf; er_exit := exit_code exitMsg; er_err := None |}
      | TookErr (Some reqErr) =>
          Collected {| er_stdout := outBuf; er_stderr := errBuf; er_exit := 1; er_err := Some reqErr |}
      | TookOutput None | TookExit None | TookErr None => st
      end
  end.
Definition collect_step (p : nat) (st : collecting) (l : vlabel) : collecting :=
  match l with Took q v => if decide (q = p) then collect_take st v else st | _ => st end.

(** What the caller of the request [p] has, after a run. *)
Definition collected (p : nat) (ls : list vlabel) : collecting :=
  foldl (collect_step p) (Collecting [] []) ls.

Lemma collected_snoc p ls l : collected p (ls ++ [l]) = collect_step p (collected p ls) l.
Proof. unfold collected. by rewrite foldl_app. Qed.

(** *** Nothing in between: [collectExecOutput] *)
Inductive takes_all : virtioRequest → list taken → virtioRequest → Prop :=
| takes_nil r : takes_all r [] r
| takes_cons r v r1 vs r2 : receives v r r1 → takes_all r1 vs r2 → takes_all r (v :: vs) r2.

Lemma collect_alone choices o e r res :
  collectExecOutput choices o e r = Some res →
  ∃ vs r', takes_all r vs r' ∧ foldl collect_take (Collecting o e) vs = Collected res.
Proof.
  revert o e r. induction choices as [|ch choices IH]; intros o e r; [done|].
  destruct ch; cbn [collectExecOutput].
  - destruct (chan_recv (rq_output r)) as [[v ch]| |] eqn:Er; [|by apply IH..].
    assert (Hr : receives (TookOutput v) r {| rq_id := rq_id r; rq_output := ch; rq_exit := rq_exit r;
                                              rq_err := rq_err r |}) by (by constructor).
    destruct v as [output|]; [case_bool_decide as Hs|]; intros (vs & r' & H1 & H2)%IH;
      (match type of Hr with receives ?v _ _ => exists (v :: vs), r' end); (split; [by econstructor|]);
      cbn [foldl collect_take];
      first [by rewrite bool_decide_true|by rewrite bool_decide_false|done].
  - destruct (chan_recv (rq_exit r)) as [[[x|] ch]| |] eqn:Er; [|by apply IH..].
    intros [= <-]. exists [TookExit (Some x)]. eexists. split; [|done].
    econstructor; [by apply recv_exit|constructor].
  - destruct (chan_recv (rq_err r)) as [[[x|] ch]| |] eqn:Er; [|by apply IH..].
    intros [= <-]. exists [TookErr (Some x)]. eexists. split; [|done].
    econstructor; [by apply recv_err|constructor].
Qed.

(** ** What was collected *)
Definition split_outs (err : bool) (outs : list virtioOutput) : list byte :=
  mjoin (map (λ o, if Bool.eqb (bool_decide (out_stream o = "stderr")) err then out_data o else []) outs).

Lemma split_outs_app err l l' : split_outs err (l ++ l') = split_outs err l ++ split_outs err l'.
Proof. unfold split_outs. rewrite map_app. apply join_app. Qed.

(** The outputs received are in the buffers; a result ends the receiving. *)
Lemma collected_spec p ls :
  match collected p ls with
  | Collecting o e => o = split_outs false (outputs_taken p ls) ∧ e = split_outs true (outputs_taken p ls)
  | Collected res => ∃ outs, outs `prefix_of` outputs_taken p ls
      ∧ er_stdout res = split_outs false outs ∧ er_stderr res = split_outs true outs
      ∧ (er_err res = None → ∃ x, x ∈ exits_taken p ls ∧ er_exit res = exit_code x)
  end.
Proof.
  induction ls as [|l ls IH] using rev_ind; [done|].
  rewrite collected_snoc, outputs_taken_app, exits_taken_app.
  destruct (collected p ls) as [o e|res].
  2: { assert (Hk : collect_step p (Collected res) l = Collected res).
       { by destruct l as [| |q v]; [..|cbn; case_decide]. }
       rewrite Hk. destruct IH as (outs & H1 & H2 & H3 & H4). exists outs.
       split; [by apply prefix_app_r|]. split; [done|]. split; [done|].
       intros Hn. destruct (H4 Hn) as (x & Hx & He). exists x. split; [|done]. apply elem_of_app. by left. }
  destruct IH as [-> ->]. destruct l as [| |q v]; cbn [collect_step]; try (cbn; by rewrite app_nil_r).
  unfold outputs_taken, exits_taken in *. cbn [omap list_omap output_by exit_by].
  case_decide as Hq; cycle 1.
  { replace (match v with TookOutput v0 => None | _ => None end) with (@None virtioOutput) by (by destruct v).
    destruct v; by rewrite app_nil_r. }
  set (outs := omap (output_by p) ls). set (xs := omap (exit_by p) ls).
  destruct v as [[out|]|[x|]|[er|]]; cbn [collect_take]; try (rewrite app_nil_r; done).
  - rewrite !split_outs_app. unfold split_outs at 2 4 6 8. cbn [map mjoin list_join].
    case_bool_decide; cbn [Bool.eqb]; by rewrite !app_nil_r.
  - exists outs. rewrite app_nil_r. split_and!; [done..|]. intros _. exists x. split; [|done].
    apply elem_of_app. right. by left.
  - exists outs. rewrite app_nil_r. split_and!; [done..|]. by intros.
Qed.

Lemma exits_in_elem x ms :
  x ∈ exits_in ms → ∃ m, m ∈ ms ∧ vm_typ m = "exec_response" ∧ exit_code x = vm_exitCode m.
Proof.
  unfold exits_in. intros (m & -> & Hm)%list_elem_of_fmap. apply list_elem_of_filter in Hm as [Ht Hm].
  by exists m.
Qed.

Section flow.
Context `{C : Codec} `{OS : ConnOS CS}.

(** C17: what Exec answers is what the guest reported of that command, in every
    interleaving of the commands, the reader, the callers and Close: if the loop
    of collectExecOutput, its receives spread over the run, returns without an
    error, its exit code is that of an exit message the guest sent for the
    request, and its standard error and standard output are, split by stream, a
    selection in order of the outputs the guest sent for the request; a prefix of
    them if each found room in the channel. *)
Theorem exec_reports_guest race conn ls c rd p r res :
  lrun race (new_client conn, RIdle) ls (c, rd) → heap c !! p = Some r →
  collected p ls = Collected res → er_err res = None →
  let sent := sent_to p ls in
  Forall (λ m, vm_id m = rq_id r) sent
  ∧ (∃ m, m ∈ sent ∧ vm_typ m = "exec_response" ∧ er_exit res = vm_exitCode m)
  ∧ ∃ outs, er_stdout res = split_outs false outs ∧ er_stderr res = split_outs true outs
      ∧ sublist outs (outputs_in sent)
      ∧ (forallb (found_room p) ls = true → outs `prefix_of` outputs_in sent).
Proof.
  intros Hrun Hp Hc Herr sent.
  destruct (ci_flows _ _ _ (console_run _ _ _ _ Hrun) p r Hp) as [[F1 F2 F3 _ F5] _].
  pose proof (collected_spec p ls) as H. rewrite Hc in H. destruct H as (outs & H1 & H2 & H3 & H4).
  split; [done|]. split.
  - destruct (H4 Herr) as (x & Hx & ->). apply exits_in_elem. unfold sent. rewrite <-F5.
    apply elem_of_app. by left.
  - exists outs. split; [done|]. split; [done|].
    assert (Hpre : outs `prefix_of` outputs_taken p ls ++ ch_buf (rq_output r)) by (by apply prefix_app_r).
    split.
    + etrans; [|exact F2]. destruct Hpre as [k ->]. by apply sublist_inserts_r.
    + intros Hroom. unfold sent. by rewrite <-(F3 Hroom).
Qed.
End flow.

Lemma exec_reports_guest_witness :
  let sent := sent_to 0 demo_labels in
  collected 0 demo_labels
    = Collected {| er_stdout := text_bytes "hi"; er_stderr := []; er_exit := 0; er_err := None |}
  ∧ (∃ m, m ∈ sent ∧ vm_typ m = "exec_response" ∧ 0 = vm_exitCode m)
  ∧ ∃ outs, text_bytes "hi" = split_outs false outs ∧ [] = split_outs true outs
      ∧ sublist outs (outputs_in sent).
Proof.
  intros sent. split; [by vm_compute|].
  destruct (exec_reports_guest true [] demo_labels demo_after RIdle 0 demo_done
    {| er_stdout := text_bytes "hi"; er_stderr := []; er_exit := 0; er_err := None |}
    demo_lrun eq_refl eq_refl eq_refl) as (_ & H1 & outs & H2 & H3 & H4 & _).
  split; [exact H1|]. by exists outs.
Defined.

(** * The loop of ExecStream, and the shell

    [send sent resp]: what [stream.Send] of [resp] answers when [sent] was sent. *)
Inductive streaming :=
| Streaming (sent : list ExecStreamResponse)
| Streamed (sent : list ExecStreamResponse) (fail : option stream_fail).

Section loop.
Context (send : list ExecStreamResponse → ExecStreamResponse → option string).

Definition stream_take (st : streaming) (v : taken) : streaming :=
  match st with
  | Streamed _ _ => st
  | Streaming sent =>
      match v with
      | TookOutput (Some output) =>
          let resp := execOutput (out_stream output) (out_data output) in
          match send sent resp with
          | Some text => Streamed sent (Some (FailText text))
          | None => Streaming (sent ++ [resp])
          end
      | TookExit (Some exitMsg) =>
          let resp := execExit (exit_code exitMsg) in
          match send sent resp with
          | Some text => Streamed sent (Some (FailText text))
          | None => Streamed (sent ++ [resp]) None
          end
      | TookErr (Some reqErr) => Streamed sent (Some (FailRequest reqErr))
      | TookOutput None | TookExit None | TookErr None => st
      end
  end.
Definition stream_step (p : nat) (st : streaming) (l : vlabel) : streaming :=
  match l with Took q v => if decide (q = p) then stream_take st v else st | _ => st end.
Definition streamed (p : nat) (ls : list vlabel) : streaming := foldl (stream_step p) (Streaming []) ls.

Lemma streamed_snoc p ls l : streamed p (ls ++ [l]) = stream_step p (streamed p ls) l.
Proof. unfold streamed. by rewrite foldl_app. Qed.

(** What was sent: outputs that were received, and the exit behind them. *)
Definition pieces (outs : list virtioOutput) : list ExecStreamResponse :=
  map (λ o, execOutput (out_stream o) (out_data o)) outs.

Lemma streamed_spec p ls :
  match streamed p ls with
  | Streaming sent => sent = pieces (outputs_taken p ls)
  | Streamed sent fail => ∃ outs, outs `prefix_of` outputs_taken p ls
      ∧ match fail with
        | Some _ => sent = pieces outs
        | None => ∃ x, x ∈ exits_taken p ls ∧ sent = pieces outs ++ [execExit (exit_code x)]
        end
  end.
Proof.
  induction ls as [|l ls IH] using rev_ind; [done|].
  rewrite streamed_snoc, outputs_taken_app, exits_taken_app.
  destruct (streamed p ls) as [sent|sent fail].
  2: { assert (Hk : stream_step p (Streamed sent fail) l = Streamed sent fail).
       { by destruct l as [| |q v]; [..|cbn; case_decide]. }
       rewrite Hk. destruct IH as (outs & H1 & H2). exists outs. split; [by apply prefix_app_r|].
       destruct fail; [done|]. destruct H2 as (x & Hx & Hs). exists x. split; [|done].
       apply elem_of_app. by left. }
  subst sent. destruct l as [| |q v]; cbn [stream_step]; try (cbn; by rewrite app_nil_r).
  unfold outputs_taken, exits_taken. cbn [omap list_omap output_by exit_by].
  case_decide as Hq; cycle 1.
  { replace (match v with TookOutput _ => None | _ => None end) with (@None virtioOutput) by (by destruct v).
    destruct v; by rewrite app_nil_r. }
  set (outs := omap (output_by p) ls). set (xs := omap (exit_by p) ls).
  destruct v as [[out|]|[x|]|[er|]]; cbn [stream_take]; try (rewrite app_nil_r; done).
  - destruct (send _ _) as [t|]; [exists outs; split; [by apply prefix_app_r|done]|].
    unfold pieces. by rewrite map_app.
  - destruct (send _ _) as [t|]; exists outs; rewrite app_nil_r; (split; [done|]); [done|].
    exists x. split; [|done]. apply elem_of_app. right. by left.
  - exists outs. by rewrite app_nil_r.
Qed.
End loop.

(** With nothing in between, and a client that listens, it is the loop of
    [VMStream]. *)
Lemma stream_alone choices : ∀ r sent fail pre,
  vm_stream_loop (map loop_of choices) r = (sent, Some fail) →
  ∃ vs r', takes_all r vs r'
  ∧ foldl (stream_take (λ _ _, None)) (Streaming pre) vs = Streamed (pre ++ sent) fail.
Proof.
  induction choices as [|ch choices IH]; intros r sent fail pre; [done|].
  destruct ch; cbn [map loop_of vm_stream_loop].
  - destruct (chan_recv (rq_output r)) as [[v ch]| |] eqn:Er; [|by apply IH..].
    assert (Hr : receives (TookOutput v) r {| rq_id := rq_id r; rq_output := ch; rq_exit := rq_exit r;
                                              rq_err := rq_err r |}) by (by constructor).
    destruct v as [output|].
    + destruct (vm_stream_loop _ _) as [sent' e] eqn:El. intros [= <- ->].
      destruct (IH _ _ _ (pre ++ [execOutput (out_stream output) (out_data output)]) El) as (vs & r' & H1 & H2).
      exists (TookOutput (Some output) :: vs), r'. split; [by econstructor|]. cbn [foldl stream_take].
      by rewrite H2, <-app_assoc.
    + intros (vs & r' & H1 & H2)%(IH _ _ _ pre). exists (TookOutput None :: vs), r'.
      split; [by econstructor|done].
  - destruct (chan_recv (rq_exit r)) as [[[x|] ch]| |] eqn:Er; [|by apply IH..].
    intros [= <- <-]. exists [TookExit (Some x)]. eexists. split; [|done].
    econstructor; [by apply recv_exit|constructor].
  - destruct (chan_recv (rq_err r)) as [[[x|] ch]| |] eqn:Er; [|by apply IH..].
    intros [= <- <-]. exists [TookErr (Some x)]. eexists. split; [|by cbn; rewrite app_nil_r].
    econstructor; [by apply recv_err|constructor].
Qed.

(** ** The shell *)
Section shell.
Context `{UT : UnicodeTables} `{DC : DaemonClient W}.

Lemma shell_receive_pieces outs code (s : cst W) :
  shell_receive (map GotResponse (pieces outs ++ [execExit code])) s
  = (Next (Some code),
     Build_cst (c_world s) (c_calls s) (c_stdout s ++ split_outs false outs)
               (c_stderr s ++ split_outs true outs)).
Proof.
  revert s. induction outs as [|o outs IH]; intros s.
  { cbn. rewrite !app_nil_r. by destruct s. }
  cbn [pieces map app shell_receive execOutput]. unfold mbind, X_mbind.
  change (o :: outs) with ([o] ++ outs). rewrite !split_outs_app. unfold split_outs at 1 3.
  cbn [map mjoin list_join]. fold (pieces outs).
  case_bool_decide; cbn [write_err write_out Bool.eqb]; rewrite IH; cbn; by rewrite !app_nil_r, !app_assoc.
Qed.

Context `{C : Codec} `{OS : ConnOS CS}.

(** C18: from the guest to the terminal: in every interleaving of the commands, the
    reader of the console, the callers and Close, once the loop of
    vmBackend.ExecStream has ended without an error, the klitka shell that receives
    what was sent writes, to its standard output and its standard error, a
    selection in order of the outputs the guest sent for this command and no
    other, split by stream (a prefix of them if each found room in the request's
    channel), and ends with the exit code of an exit message the guest sent for it. *)
Theorem shell_shows_guest send race conn ls c rd p r sent (s : cst W) :
  lrun race (new_client conn, RIdle) ls (c, rd) → heap c !! p = Some r →
  streamed send p ls = Streamed sent None →
  let ms := sent_to p ls in
  Forall (λ m, vm_id m = rq_id r) ms
  ∧ ∃ outs m s', shell_receive (map GotResponse sent) s = (Next (Some (vm_exitCode m)), s')
      ∧ m ∈ ms ∧ vm_typ m = "exec_response"
      ∧ c_stdout s' = c_stdout s ++ split_outs false outs ∧ c_stderr s' = c_stderr s ++ split_outs true outs
      ∧ sublist outs (outputs_in ms)
      ∧ (forallb (found_room p) ls = true → outs `prefix_of` outputs_in ms).
Proof.
  intros Hrun Hp Hs ms.
  destruct (ci_flows _ _ _ (console_run _ _ _ _ Hrun) p r Hp) as [[F1 F2 F3 _ F5] _].
  split; [done|]. pose proof (streamed_spec send p ls) as H. rewrite Hs in H.
  destruct H as (outs & Hpre & x & Hx & ->).
  destruct (exits_in_elem x ms) as (m & Hm & Ht & ->).
  { unfold ms. rewrite <-F5. apply elem_of_app. by left. }
  exists outs, m. eexists. split; [apply shell_receive_pieces|]. split; [done|]. split; [done|].
  split; [done|]. split; [done|]. apply (prefix_app_r _ _ (ch_buf (rq_output r))) in Hpre. split.
  - etrans; [|exact F2]. destruct Hpre as [k ->]. by apply sublist_inserts_r.
  - intros Hroom. unfold ms. by rewrite <-(F3 Hroom).
Qed.
End shell.

(** ** A run *)
#[local] Instance demo_shell : DaemonClient () := {|
  d_getenv _ _ := ""; d_defaultSocket _ := "/var/run/klitka.sock"; d_defaultTcp _ := "";
  d_connect _ _ w := (None, w); d_rewriteMounts mounts w := (Good mounts, w);
  d_StartVM _ w := (Good "vm-1", w);
  d_Exec _ _ _ w := (Bad "unused", w); d_StopVM _ w := (None, w);
  d_sendStart _ w := (None, w); d_session w := ([GotEOF], w);
  d_isTerminal _ := false; d_makeRaw w := (true, w); d_restore w := w
|}.
Definition demo_sent : list ExecStreamResponse := [execOutput "stdout" (text_bytes "hi"); execExit 0].

Lemma shell_shows_guest_witness :
  streamed (λ _ _, None) 0 demo_labels = Streamed demo_sent None
  ∧ ∃ outs m s', shell_receive (map GotResponse demo_sent) (begun ()) = (Next (Some (vm_exitCode m)), s')
      ∧ m ∈ sent_to 0 demo_labels ∧ c_stdout s' = split_outs false outs ∧ c_stderr s' = split_outs true outs.
Proof.
  split; [by vm_compute|].
  destruct (shell_shows_guest (λ _ _, None) true [] demo_labels demo_after RIdle 0 demo_done demo_sent (begun ())
    demo_lrun eq_refl eq_refl) as (_ & outs & m & s' & H1 & H2 & _ & H3 & H4 & _).
  exists outs, m, s'. by split_and!.
Defined.
