(* ===== verification/GuestMounts.v ===== *)
(** * From [--mount] to what a guest can do with the host

    The composition of the client ([CLI], [CLICommands]), the VM backend
    ([VMBackend]) and the FS-RPC server ([FsrpcServer]): the server of a
    directory given with [--mount] names nothing outside of it, and changes it only
    if the flag ends in [:rw] ([flags_bind_guest]). *)
From Stdlib Require Import Ascii.
From S2P Require Import FsrpcTheorems.
From S2P Require Export VMBackendLife CLICommands.

(** ** What a flag asks for *)
Section flags.
Context `{UT : UnicodeTables}.

(** What follows the last colon is [rw]. *)
Definition writable_flag (flag : string) : bool :=
  match cut_last ":"%char (TrimSpace flag) with
  | Some (_, mode) => bool_decide (TrimSpace mode = "rw")
  | None => false
  end.

Lemma splitMountSpec_mode flag host guest mode :
  splitMountSpec flag = Good (host, guest, mode) →
  if writable_flag flag then mode = "rw" else mode = "" ∨ mode = "ro".
Proof.
  unfold splitMountSpec, writable_flag. case_bool_decide; [done|].
  destruct (cut_last _ (TrimSpace flag)) as [[before after]|]; cbv zeta.
  - destruct (bool_decide (TrimSpace after = "rw")) eqn:Erw.
    + apply bool_decide_eq_true in Erw. rewrite orb_true_r, Erw.
      destruct (cut_last _ _) as [[? ?]|]; [|done]. by intros [= _ _ <-].
    + rewrite orb_false_r. destruct (bool_decide (TrimSpace after = "ro")) eqn:Ero;
        [apply bool_decide_eq_true in Ero|]; destruct (cut_last _ _) as [[? ?]|]; try done;
        intros [= _ _ <-]; auto.
  - destruct (cut_last _ _) as [[? ?]|]; [|done]. intros [= _ _ <-]. by left.
Qed.

(** A mount is writable exactly when its flag says [rw]. *)
Lemma parseMountFlag_mode flag m :
  parseMountFlag flag = Good m →
  Mount_Mode m = if writable_flag flag then MountMode.RW else MountMode.RO.
Proof.
  unfold parseMountFlag. destruct (splitMountSpec flag) as [[[host guest] mode]|] eqn:E; [|done].
  apply splitMountSpec_mode in E. cbv zeta.
  assert (Hm : ToLower (TrimSpace mode) = mode).
  { destruct (writable_flag flag); [subst mode|destruct E; subst mode];
      (rewrite ToLower_ascii; by vm_compute). }
  rewrite Hm. destruct (writable_flag flag); [subst mode|destruct E; subst mode];
    cbn; destruct (bool_decide (host = "")), (bool_decide (guest = "")); by intros [= <-].
Qed.

Lemma parseMountFlags_each flags : ∀ mounts,
  parseMountFlags flags = Good mounts → Forall2 (λ flag m, parseMountFlag flag = Good m) flags mounts.
Proof.
  induction flags as [|flag flags IH]; intros mounts; cbn [parseMountFlags].
  { intros [= <-]. constructor. }
  destruct (parseMountFlag flag) as [m|] eqn:E; [|done].
  destruct (parseMountFlags flags) as [ms|]; [|done]. intros [= <-]. constructor; [done|by apply IH].
Qed.
End flags.

(** ** What a server lets its guest do *)
Section confined.
Context `{RTL : GoRuntimeLaws} `{CL : CodecLaws} `{OS : ConnOS CS} `{HO : HostOS HS}.

(** The directory a path names, other than [/], with its elements; a relative path
    is taken from the daemon's working directory [wd]. *)
Definition named_dir (wd : option string) (dir : string) (rcs : list string) : Prop :=
  FsrpcMount.Abs wd (Clean dir) = Some (abs_path rcs) ∧ Forall good rcs ∧ rcs ≠ [].

Lemma named_dir_abs wd dir rcs : mount_dir dir rcs → named_dir wd dir rcs.
Proof.
  intros [Ha Hg Hne Hc]. split; [|done]. unfold FsrpcMount.Abs.
  by rewrite Hc, IsAbs_abs_path, Clean_abs_path.
Qed.

(** Whatever a guest sends to a server of [m], fewer than [2^31] bytes, and whatever
    honest answers the host gives, every path the server names is the directory or
    below it; with [ro] it makes no call that changes the host's files. *)
Definition confined (wd : option string) (dir : string) (ro : bool) (m : FsrpcMount.fsrpcMount) : Prop :=
  ∀ rcs cfg (conn : CS) input t (s s' : HS) o tr,
    named_dir wd dir rcs → Z.of_nat (length input) < two31 →
    HostOS.run (FsrpcServer.serve cfg (FsrpcServer.newFSRPCServer conn input m t)) s = (o, s', tr) →
    trace_honest tr ∅ →
    Forall (λ e, Forall (within rcs) (event_paths e)) tr
    ∧ (ro = true → Forall (λ e, event_mutates e = false) tr).

(** The mount made of a path is that of the directory it names. *)
Lemma newFSRPCMount_named wd now dir rcs md :
  named_dir wd dir rcs →
  FsrpcMount.newFSRPCMount wd now (Clean dir) md = FsrpcMount.newFSRPCMount None now (abs_path rcs) md.
Proof.
  intros (Ha & Hg & _). unfold FsrpcMount.newFSRPCMount. rewrite Ha. unfold FsrpcMount.Abs.
  by rewrite IsAbs_abs_path, Clean_abs_path.
Qed.

Lemma serves_confined wd q m :
  serves wd q m →
  confined wd (HostPath q) (bool_decide (Mount_Mode q = MountMode.RO ∨ Mount_Mode q = MountMode.UNSPECIFIED)) m.
Proof.
  intros (now & md & -> & Hro) rcs cfg conn input t s s' o tr Hd Hl Hr Hh.
  rewrite (newFSRPCMount_named _ _ _ rcs) in Hr, Hro by done. destruct Hd as (_ & Hg & Hne).
  assert (Hd : mount_dir (abs_path rcs) rcs)
    by (split; [apply IsAbs_abs_path|done|done|by apply Clean_abs_path]).
  destruct (serve_confined cfg None now t _ rcs md conn input s s' tr o Hd Hl Hr Hh) as [Hp Hm].
  split; [done|]. intros Hq%bool_decide_eq_true. by apply Hm, Hro.
Qed.

(** ** From the command line to the guest *)
Context `{UT : UnicodeTables} `{DC : DaemonClient W1} `{VM : VMMachine W2}.

Lemma build_request_mounts o (s s' : cst W1) req :
  (∀ mounts w, (d_rewriteMounts mounts w).1 = Good mounts) →
  build_request o s = (Next req, s') → parseMountFlags (o_mounts o) = Good (Mounts req).
Proof.
  intros Hrw. unfold build_request. destruct (parseMountFlags (o_mounts o)) as [mounts|]; [|done].
  unfold mbind, X_mbind, do_, ask. specialize (Hrw mounts (c_world s)).
  destruct (d_rewriteMounts mounts (c_world s)) as [r w]. cbn in Hrw. subst r.
  destruct (parseSecretFlags _ _); [|done]. destruct (cli_buildNetworkPolicy _ _ _ _ _ _); [|done].
  by intros [= <- _].
Qed.

(** C9: what a server of a mount flag names of the host.  Off Windows, where the
    client sends the mounts as they are, take the request the client makes of its
    flags and a VM the daemon starts for it.  Either virtiofs serves the VM's
    mounts, and nothing is said here, or there is one FS-RPC server for each flag,
    in order, and one for the directory of the proxy's certificate, if there is
    one. Each is confined to its directory: for any input of less than 2^31 bytes
    that a guest sends it and any honest answers of the host, the paths it names in
    calls to the host are the directory and what lies below it, and it makes no call
    that changes the host's files unless what follows the flag's last colon is [rw].
    The flag's directory is any but the root of the file system; a relative path is
    taken from the daemon's working directory when the server was made, not from the
    client's. Names are what is confined: symbolic links below the directory are the
    host's to follow (finding symlink_escape). *)
Theorem flags_bind_guest o (s s' : cst W1) req id env network (w : W2) b :
  (∀ mounts w, (d_rewriteMounts mounts w).1 = Good mounts) →
  build_request o s = (Next req, s') →
  mkdir_law → (newVMBackend id req env network (unused w)).1 = Good b →
  (vb_servers b = [] ∧ Forall (λ m, v_rpc m = false) (vb_mounts b))
  ∨ ∃ own ca, vb_servers b = own ++ ca
      ∧ Forall2 (λ flag server, ∃ m (w' : W2), parseMountFlag flag = Good m
          ∧ confined (@e_getwd (m_env w')) (HostPath m) (negb (writable_flag flag)) server.2) (o_mounts o) own
      ∧ length ca = (if has_ca network then 1 else 0)%nat
      ∧ Forall (λ server, ∃ w' : W2, confined (@e_getwd (m_env w')) (HostPath (ca_mount (vb_tempDir b))) true server.2) ca.
Proof.
  intros Hrw Hb Hmk Hr. apply (build_request_mounts o s s' req Hrw), parseMountFlags_each in Hb.
  destruct (servers_serve id req env network w b Hmk Hr) as [?|Hall]; [by left|right].
  unfold all_mounts in Hall. apply Forall2_app_inv_l in Hall as (own & ca & Hown & Hca & Heq).
  exists own, ca. split; [done|]. split; [|destruct (has_ca network)].
  - clear Heq. revert own Hown. induction Hb as [|flag m flags ms Hf _ IH]; intros own Hown;
      inversion Hown as [|? server ? ? Hs Hrest]; subst; constructor; [|by apply IH].
    destruct Hs as [w' Hs]. exists m, w'. split; [done|]. apply serves_confined in Hs. apply parseMountFlag_mode in Hf.
    revert Hs. by destruct (writable_flag flag); rewrite Hf.
  - inversion Hca as [|? server ? ? Hs Hnil]; subst. inversion Hnil; subst. split; [done|].
    constructor; [|constructor]. destruct Hs as [w' Hs]. exists w'. by apply serves_confined in Hs.
  - inversion Hca. by subst.
Qed.
End confined.

(** ** On the example machines *)
Section demo.
#[local] Existing Instance ascii_tables.

(** A client off Windows. *)
#[local] Instance plain_client : DaemonClient () := {|
  d_getenv _ _ := ""; d_defaultSocket _ := "/run/klitka.sock"; d_defaultTcp _ := "";
  d_connect _ _ w := (None, w);
  d_rewriteMounts mounts w := (Good mounts, w);
  d_StartVM _ w := (Good "v", w);
  d_Exec _ _ _ w := (Bad "no daemon", w);
  d_StopVM _ w := (None, w); d_sendStart _ w := (None, w); d_session w := ([GotEOF], w);
  d_isTerminal _ := false; d_makeRaw w := (true, w); d_restore w := w
|}.

Definition flag_options : options :=
  {| o_mounts := ["/home/u/p:/work:rw"; "/home/u/d:/data"]; o_allow := []; o_deny := [];
     o_trusted := []; o_secrets := []; o_blockPrivate := true; o_egress := "compat";
     o_dns := "open"; o_socket := ""; o_tcp := "" |}.
Definition flag_request : StartVMRequest := {|
  Mounts := [ {| GuestPath := "/work"; HostPath := "/home/u/p"; Mount_Mode := MountMode.RW |};
              {| GuestPath := "/data"; HostPath := "/home/u/d"; Mount_Mode := MountMode.RO |} ];
  Network := None; Secrets := []
|}.
Definition flag_start :=
  @newVMBackend _ _ (demo_machine Accepted) "v" flag_request [] (Some demo_network) (unused 0).
Definition flag_backend : vmBackend := match flag_start.1 with Good b => b | Bad _ => demo_backend end.

Lemma flag_started : flag_start.1 = Good flag_backend.
Proof. by vm_compute. Qed.

Lemma flag_start_eq :
  @newVMBackend _ _ (demo_machine Accepted) "v" flag_request [] (Some demo_network) (unused 0) = flag_start.
Proof. unfold flag_start. reflexivity. Qed.

Lemma flags_bind_guest_witness :
  length (vb_servers flag_backend) = 3%nat ∧
  let bound := @confined mem_runtime demo_codec _ mem_conn _ mem_host in
  ((vb_servers flag_backend = [] ∧ Forall (λ m, v_rpc m = false) (vb_mounts flag_backend))
   ∨ ∃ own ca, vb_servers flag_backend = own ++ ca
       ∧ Forall2 (λ flag server, ∃ m (w' : Z), parseMountFlag flag = Good m
           ∧ bound (Some "/srv") (HostPath m) (negb (writable_flag flag)) server.2) (o_mounts flag_options) own
       ∧ length ca = 1%nat
       ∧ Forall (λ server, ∃ w' : Z, bound (Some "/srv") (HostPath (ca_mount "/tmp/klitka-vm-v-1")) true server.2) ca).
Proof.
  split; [by vm_compute|].
  exact (@flags_bind_guest mem_runtime mem_runtime_laws demo_codec demo_codec_laws
           _ mem_conn _ mem_host ascii_tables _ plain_client _ (demo_machine Accepted)
           flag_options (Build_cst () [] [] []) (Build_cst () [] [] []) flag_request "v" []
           (Some demo_network) 0 flag_backend (λ _ _, eq_refl) ltac:(by vm_compute)
           (demo_mkdir Accepted) (eq_trans (f_equal fst flag_start_eq) flag_started)).
Defined.
End demo.
