(* ===== verification/Endpoints.v ===== *)
(** * Where the daemon listens and where the client connects

    [StartServer] and [DefaultSocketPath] of [daemon/server.go], and [newClient]
    of [cli/main.go].  With no options on either side they meet
    ([client_finds_daemon]); and [main] of [cmd/klitka-daemon], which closes what
    it listens on ([klitka_daemon_closes]).  What is served is in [RpcStubs]; the
    debug wrappers are in [ServerDebug]. *)
From Stdlib Require Import Ascii.
From S2P Require Export Lifetimes CLI GoFlag GoPath.

(** A listener: its network and its address. *)
Definition listener : Type := string * string.

Class ListenHost (W : Type) := {
  l_goos : string;                                        (* runtime.GOOS *)
  l_home : W → osres string string;                       (* os.UserHomeDir *)
  l_mkdirAll : string → Z → W → option string * W;
  l_remove : string → W → W;                              (* os.Remove: its error is ignored *)
  l_listen : listener → W → option string * W
}.

Record ServerOptions := { SocketPath : string; TCPAddr : string }.

Record lstate (W : Type) := { l_world : W; l_trace : list (life listener) }.
Arguments l_world {W}. Arguments l_trace {W}. Arguments Build_lstate {W}.
Definition L (W A : Type) : Type := lstate W → A * lstate W.
#[export] Instance L_mret {W} : MRet (L W) := λ A a s, (a, s).
#[export] Instance L_mbind {W} : MBind (L W) := λ A B f m s, let '(a, s') := m s in f a s'.

Section code.
Context `{UT : UnicodeTables} `{LH : ListenHost W}.

Definition DefaultSocketPath (w : W) : string :=
  if bool_decide (l_goos = "darwin") then
    match l_home w with
    | Bad _ => ""
    | Good home => PathJoin [home; "Library"; "Application Support"; "klitka"; "daemon.sock"]
    end
  else if bool_decide (l_goos = "linux") then "/var/run/klitka.sock"
  else "".

Definition l_ask {A} (f : W → A) : L W A := λ s, (f (l_world s), s).
Definition l_do {A} (f : W → A * W) : L W A := λ s,
  let '(a, w) := f (l_world s) in (a, Build_lstate w (l_trace s)).
(** [net.Listen]: the listener, or the text of the error. *)
Definition listen (l : listener) : L W (option string) := λ s,
  match l_listen l (l_world s) with
  | (None, w) => (None, Build_lstate w (l_trace s ++ [EvOpened l]))
  | (Some t, w) => (Some t, Build_lstate w (l_trace s))
  end.

Inductive server_error := ListenFailed (l : listener) (text : string) | SocketDirFailed (text : string)
                        | NoListeners.

Definition listen_unix (socketPath : string) (listeners : list listener)
    : L W (osres server_error (list listener)) :=
  if bool_decide (socketPath = "") then mret (Good listeners)
  else
    e ← l_do (l_mkdirAll (Dir socketPath) 493);
    match e with Some t => mret (Bad (SocketDirFailed t)) | None =>
    _ ← l_do (λ w, ((), l_remove socketPath w));
    e ← listen ("unix", socketPath);
    match e with Some t => mret (Bad (ListenFailed ("unix", socketPath) t)) | None =>
    mret (Good (listeners ++ [("unix", socketPath)]))
    end end.

(** The listeners of the server that was started. *)
Definition StartServer (options : ServerOptions) : L W (osres server_error (list listener)) :=
  e ← (if bool_decide (TCPAddr options = "") then mret None else listen ("tcp", TCPAddr options));
  match e with Some t => mret (Bad (ListenFailed ("tcp", TCPAddr options) t)) | None =>
  let listeners := if bool_decide (TCPAddr options = "") then [] else [("tcp", TCPAddr options)] in
  fallback ← l_ask DefaultSocketPath;
  let socketPath :=
    if bool_decide (SocketPath options = "") && bool_decide (TCPAddr options = "") then fallback
    else SocketPath options in
  r ← listen_unix socketPath listeners;
  match r with
  | Bad e => mret (Bad e)
  | Good [] => mret (Bad NoListeners)
  | Good listeners => mret (Good listeners)
  end end.

(** *** [main] of klitka-daemon *)
Definition daemon_set (name value : string) (o : ServerOptions) : option (option ServerOptions) :=
  if bool_decide (name = "socket") then Some (Some {| SocketPath := value; TCPAddr := TCPAddr o |})
  else if bool_decide (name = "tcp") then Some (Some {| SocketPath := SocketPath o; TCPAddr := value |})
  else None.
Definition daemon_flags : flagset ServerOptions := {| fs_bool _ := false; fs_set := daemon_set |}.

Inductive daemon_exit := DaemonFlags (e : flag_error) | DaemonFailed (e : server_error).

(** Up to the wait for a signal; words that are not flags are ignored. *)
Definition klitka_daemon (args : list string) : L W (osres daemon_exit (list listener)) :=
  match Parse daemon_flags args {| SocketPath := ""; TCPAddr := "" |} with
  | Bad e => mret (Bad (DaemonFlags e))
  | Good (options, _) =>
      r ← StartServer options;
      mret (match r with Bad e => Bad (DaemonFailed e) | Good ls => Good ls end)
  end.

(** After the signal: [http.Server.Close] closes the listeners it serves. *)
Fixpoint shut_down (ls : list listener) : L W () :=
  match ls with
  | [] => mret ()
  | l :: ls' => _ ← (λ s, ((), Build_lstate (l_world s) (l_trace s ++ [EvClosed l]))); shut_down ls'
  end.
End code.

(** ** The client *)

(** Where the client's connections go: an address (with the base URL), or a
    socket. *)
Inductive endpoint := AtAddress (baseURL : string) | AtSocket (path : string).
Inductive client_error := NoUnixOnWindows | WslFailed (text : string) | NoEndpoint.

(** The transport of the client's HTTP/2: it makes no TLS connection. *)
Record http2_transport (Cfg R : Type) := {
  AllowHTTP : bool;
  DialTLS : string → string → Cfg → R
}.
Arguments AllowHTTP {Cfg R}. Arguments DialTLS {Cfg R}.
Definition http2Transport {Cfg R} (dial : string → string → R) : http2_transport Cfg R :=
  {| AllowHTTP := true; DialTLS network addr _ := dial network addr |}.
(** Where it dials: the socket, whatever HTTP/2 asks for, or the address. *)
Definition endpoint_dial (ep : endpoint) (network addr : string) : listener :=
  match ep with AtSocket path => ("unix", path) | AtAddress _ => (network, addr) end.

(** [ensure]: what ensureWslDaemon answers on Windows, for the address. *)
Definition newClient (windows : bool) (defaultTcpAddr : string) (ensure : string → option string)
    (socketPath tcpAddr : string) : osres client_error endpoint :=
  if windows then
    if negb (bool_decide (socketPath = "")) then Bad NoUnixOnWindows
    else
      let tcpAddr := if bool_decide (tcpAddr = "") then defaultTcpAddr else tcpAddr in
      match ensure tcpAddr with
      | Some t => Bad (WslFailed t)
      | None => Good (AtAddress (tcpBaseURL tcpAddr))
      end
  else if negb (bool_decide (tcpAddr = "")) then Good (AtAddress (tcpBaseURL tcpAddr))
  else if bool_decide (socketPath = "") then Bad NoEndpoint
  else Good (AtSocket socketPath).

(** ** What they do *)
Section props.
Context `{LH : ListenHost W}.

(** The listeners the options ask for. *)
Definition wanted (options : ServerOptions) (w : W) : list listener :=
  (if bool_decide (TCPAddr options = "") then [] else [("tcp", TCPAddr options)])
  ++ (let p := if bool_decide (SocketPath options = "") && bool_decide (TCPAddr options = "")
               then DefaultSocketPath w else SocketPath options in
      if bool_decide (p = "") then [] else [("unix", p)]).

(** Listening does not move the home directory. *)
Definition home_law : Prop := ∀ l w, l_home (l_listen l w).2 = l_home w.

Lemma DefaultSocketPath_listen l w : home_law → DefaultSocketPath (l_listen l w).2 = DefaultSocketPath w.
Proof. intros H. unfold DefaultSocketPath. by rewrite H. Qed.

Ltac on_listen l ls1 e s1 El :=
  match goal with
  | |- context [listen_unix ?p ?l0 ?s] => destruct (listen_unix p l0 s) as [[[|l ls1]|e] s1] eqn:El
  end.

Lemma StartServer_good (Hh : home_law) options w ls s :
  StartServer options (Build_lstate w []) = (Good ls, s) →
  ls = wanted options w ∧ ls ≠ [] ∧ l_trace s = map EvOpened ls.
Proof.
  assert (Hu : ∀ p ls w1 s1 ls1, listen_unix p ls {| l_world := w1; l_trace := map EvOpened ls |} = (Good ls1, s1) →
    ls1 = ls ++ (if bool_decide (p = "") then [] else [("unix", p)]) ∧ l_trace s1 = map EvOpened ls1).
  { intros p ls0 w1 s1 ls1. unfold listen_unix. case_bool_decide.
    { intros [= <- <-]. by rewrite app_nil_r. }
    unfold mbind, L_mbind, l_do, listen. cbn. destruct (l_mkdirAll _ _ w1) as [[t|] w2]; [done|]. cbn.
    destruct (l_listen _ _) as [[t|] w3]; [done|]. intros [= <- <-]. by rewrite map_app. }
  unfold StartServer, wanted. unfold mbind, L_mbind, l_ask, mret, L_mret.
  destruct (bool_decide (TCPAddr options = "")) eqn:Et; cbn [andb].
  - cbn [l_world]. on_listen l ls1 e s1 El; [done| |done].
    apply (Hu _ []) in El as [Hl Ht]. by intros [= <- <-].
  - unfold listen. cbn [l_world]. pose proof (DefaultSocketPath_listen ("tcp", TCPAddr options) w Hh) as Hd.
    destruct (l_listen _ w) as [[t|] w1]; [done|]. cbn [l_world l_trace app snd] in *. rewrite andb_false_r.
    on_listen l ls1 e s1 El; [done| |done].
    apply (Hu _ [("tcp", TCPAddr options)]) in El as [Hl Ht]. by intros [= <- <-].
Qed.

(** with no options on either side the client finds the daemon: if a daemon
    started without flags is listening, on a machine that is not Windows, then a
    client with the default socket and no address connects to a socket the daemon
    listens on, and a client given an address goes to that address instead. *)
Theorem client_finds_daemon (Hh : home_law) ensure w ls s addr :
  StartServer {| SocketPath := ""; TCPAddr := "" |} (Build_lstate w []) = (Good ls, s) →
  newClient false "" ensure (DefaultSocketPath w) "" = Good (AtSocket (DefaultSocketPath w))
  ∧ ls = [("unix", DefaultSocketPath w)] ∧ l_trace s = [EvOpened ("unix", DefaultSocketPath w)]
  ∧ (∀ network addr' (cfg : unit),
       DialTLS (http2Transport (endpoint_dial (AtSocket (DefaultSocketPath w)))) network addr' cfg ∈ ls)
  ∧ (addr ≠ "" → newClient false "" ensure (DefaultSocketPath w) addr = Good (AtAddress (tcpBaseURL addr))).
Proof.
  intros H. apply (StartServer_good Hh) in H as (Hl & Hne & Ht). unfold wanted in Hl.
  cbn [TCPAddr SocketPath] in Hl. rewrite (bool_decide_true ("" = "")) in Hl by done. cbn [andb app] in Hl.
  case_bool_decide as Hp; [done|]. subst ls.
  split_and!; [|done|done|by intros; left|].
  - unfold newClient. by rewrite (bool_decide_false (DefaultSocketPath w = "")).
  - intros Ha. unfold newClient. by rewrite (bool_decide_false (addr = "")).
Qed.

(** A daemon that ran, with whatever flags, has closed on its way out everything it
    listened on, each once. *)
Lemma klitka_daemon_closes (Hh : home_law) args w ls s :
  klitka_daemon args (Build_lstate w []) = (Good ls, s) →
  ls ≠ [] ∧ live_of (l_trace s) = list_to_set ls
  ∧ clean (l_trace (shut_down ls s).2) ∧ live_of (l_trace (shut_down ls s).2) = ∅.
Proof.
  unfold klitka_daemon. destruct (Parse _ _ _) as [[options rest]|]; [|done].
  unfold mbind, L_mbind. destruct (StartServer options _) as [[ls'|e] s'] eqn:E; [|done].
  intros [= -> ->]. apply (StartServer_good Hh) in E as (Hl & Hne & Ht). split; [done|].
  assert (Hsd : ∀ ks (s0 : lstate W), l_trace (shut_down ks s0).2 = l_trace s0 ++ map EvClosed ks).
  { induction ks as [|k ks IH]; intros s0; cbn; [by rewrite app_nil_r|].
    unfold mbind, L_mbind. rewrite IH. cbn [l_trace]. by rewrite <-app_assoc. }
  assert (Hnd : NoDup ls).
  { subst ls. unfold wanted. repeat case_bool_decide; cbn [app andb];
      repeat (apply NoDup_cons; split); try (by apply NoDup_nil);
      first [by intros ?%not_elem_of_nil|by intros ?%list_elem_of_singleton]. }
  pose proof (live_open [] ls) as Hlo. cbn [app] in Hlo.
  rewrite Hsd, Ht, live_close, Hlo. split; [set_solver|]. split; [|set_solver].
  apply clean_close; [apply (clean_open []); [apply clean_nil|done|set_solver]|done|].
  intros r Hr. rewrite Hlo. set_solver.
Qed.
End props.

(** ** Runs *)
#[local] Instance linux_host : ListenHost () := {|
  l_goos := "linux"; l_home _ := Good "/home/u"; l_mkdirAll _ _ w := (None, w); l_remove _ w := w;
  l_listen l w := (None, w)
|}.
Lemma linux_home : home_law (W := ()).
Proof. done. Qed.

Lemma client_finds_daemon_witness :
  newClient false "" (λ _, None) "/var/run/klitka.sock" "" = Good (AtSocket "/var/run/klitka.sock").
Proof.
  by apply (client_finds_daemon (W := ()) linux_home (λ _, None) () [("unix", "/var/run/klitka.sock")]
           {| l_world := (); l_trace := [EvOpened ("unix", "/var/run/klitka.sock")] |} "").
Defined.

(** When the socket cannot be listened on, the listener for the address stays
    open. *)
#[local] Instance busy_host : ListenHost () := {|
  l_goos := "linux"; l_home _ := Good "/home/u"; l_mkdirAll _ _ w := (None, w); l_remove _ w := w;
  l_listen l w := (if bool_decide (l.1 = "unix") then Some "permission denied" else None, w)
|}.
Theorem failed_start_keeps_listener :
  ∃ e s, @StartServer () busy_host {| SocketPath := "/run/k.sock"; TCPAddr := ":80" |}
           (Build_lstate () []) = (Bad e, s)
  ∧ l_trace s = [EvOpened ("tcp", ":80")].
Proof. do 2 eexists. split; [vm_compute; reflexivity|]. done. Qed.
