(* ===== verification/CLIDaemon.v ===== *)
(** * klitka over its daemon

    The command line's calls ([CLICommands]) made through the RPC stubs
    ([RpcStubs]) of the service, whose handlers are those of [ServiceCalls], while
    other clients' calls go on: before each action of a handler any actions of the
    others may come, and the machine may change by itself. *)
From Stdlib Require Import Ascii.
From S2P Require Export CLICommandsProps RpcStubs Endpoints ServiceCalls.

(** ** Messages *)

(** What a unary RPC takes and gives; of ExecStream, the first message and the
    end. *)
Definition rpc_request (r : rpc) : Type :=
  match r with
  | rpcStartVM => StartVMRequest
  | rpcExec => string * string * list string
  | rpcExecStream => exec_start
  | rpcStopVM => string
  end.
Definition rpc_reply (r : rpc) : Type :=
  match r with
  | rpcStartVM => string
  | rpcExec => exec_response
  | rpcExecStream => ()
  | rpcStopVM => ()
  end.

(** ** The others

    Their calls, the service and the machine; and what comes between two actions
    of ours: the turns of their calls, and changes of the machine. *)
Definition daemon_conf (W : Type) : Type := list (acts (service W) svc_reply) * service W.
Inductive gap_step (W : Type) := Turn (i : nat) | Machine (f : W → W).
Arguments Turn {W} i. Arguments Machine {W} f.

Definition set_host {W} (w : W) (s : service W) : service W :=
  {| vms := vms s; closed_managers := closed_managers s; host := w; trace := trace s |}.
Definition take_step {W} (g : gap_step W) (c : daemon_conf W) : daemon_conf W :=
  match g with
  | Turn i => turn i c
  | Machine f => (c.1, set_host (f (host c.2)) c.2)
  end.
Definition run_others {W} (gs : list (gap_step W)) (c : daemon_conf W) : daemon_conf W :=
  foldl (λ c g, take_step g c) c gs.

(** ** The client's world *)
Class CliEnv (E : Type) := {
  e_windows : bool;
  e_getenv : string → E → string;
  e_defaultSocket : E → string;
  e_defaultTcp : E → string;
  e_ensureWsl : string → E → option string;
  e_rewriteMounts : list Mount → E → osres string (list Mount) * E;
  e_dial : endpoint → E → option string;         (* [None]: it leads to this daemon *)
  e_uuid : nat → string;                         (* uuid.NewString's results *)
  e_clientText : client_error → string;
  e_sendStart : exec_start → E → option string * E;
  e_session : E → list CLICommands.answer * E;
  e_isTerminal : E → bool;
  e_makeRaw : E → bool * E;
  e_restore : E → E
}.

(** [dw_gaps]: what the others do each time they can. *)
Record dworld (E W : Type) := {
  dw_env : E;
  dw_client : option endpoint;
  dw_conf : daemon_conf W;
  dw_next : nat;
  dw_gaps : list (list (gap_step W))
}.
Arguments dw_env {E W}. Arguments dw_client {E W}. Arguments dw_conf {E W}.
Arguments dw_next {E W}. Arguments dw_gaps {E W}. Arguments Build_dworld {E W}.

Definition G (E W A : Type) : Type := dworld E W → A * dworld E W.
#[export] Instance G_mret {E W} : MRet (G E W) := λ A a w, (a, w).
#[export] Instance G_mbind {E W} : MBind (G E W) := λ A B f m w, let '(a, w') := m w in f a w'.

(** Connect: the handler of a method, and what a call of the method gives when its
    HTTP exchange is with a handler. *)
Class Connect (E W : Type) := {
  cn_handler : Type;
  cn_new : ∀ r, string → (rpc_request r → G E W (osres rpc_error (rpc_reply r))) → cn_handler;
  cn_call : ∀ r, cn_handler → rpc_request r → G E W (osres string (rpc_reply r));
  cn_text : rpc_error → string
}.
(** Over a connection that works, a call gives what the method gave, an error as
    its text. *)
Class ConnectLaws (E W : Type) `{Connect E W} := {
  law_call r p f x w :
    cn_call r (cn_new r p f) x w
    = let '(a, w') := f x w in (match a with Good y => Good y | Bad e => Bad (cn_text e) end, w')
}.

Section code.
Context `{UT : UnicodeTables} `{VH : VMHost W} `{CE : CliEnv E} `{CN : !Connect E W}.
Implicit Types w : dworld E W.

Definition gap : G E W () := λ w,
  match dw_gaps w with
  | [] => ((), w)
  | g :: gs => ((), Build_dworld (dw_env w) (dw_client w) (run_others g (dw_conf w)) (dw_next w) gs)
  end.
Definition newUuid : G E W string := λ w,
  (e_uuid (dw_next w),
   Build_dworld (dw_env w) (dw_client w) (dw_conf w) (S (dw_next w)) (dw_gaps w)).
Definition on_service (f : service W → service W) (w : dworld E W) : dworld E W :=
  Build_dworld (dw_env w) (dw_client w) ((dw_conf w).1, f (dw_conf w).2) (dw_next w) (dw_gaps w).

(** *** A handler among the others *)
Fixpoint served {A} (m : acts (service W) A) : G E W A :=
  match m with
  | Finished a => mret a
  | Act f k => λ w, let w' := (gap w).2 in served (k (dw_conf w').2) (on_service f w')
  end.

(** The service that is registered; of ExecStream, the first message. *)
Definition shared_service : DaemonServiceHandler (λ r, rpc_request r → G E W (osres rpc_error (rpc_reply r))) :=
  λ r, match r with
       | rpcStartVM => λ req, vmID ← newUuid; served (StartVM_calls vmID req)
       | rpcExec => λ '(vmID, command, args), served (Exec_calls vmID command args)
       | rpcExecStream => λ start, served (ExecStream_calls (Good (Some start)))
       | rpcStopVM => λ vmID, served (StopVM_calls vmID)
       end.

(** *** A call *)
Definition base_url (ep : endpoint) : string :=
  match ep with AtAddress baseURL => baseURL | AtSocket _ => "http://unix" end.
Definition call_rpc (r : rpc) (x : rpc_request r) : G E W (osres string (rpc_reply r)) := λ w,
  match dw_client w with
  | None => (Bad "no client", w)
  | Some ep =>
  match e_dial ep (dw_env w) with
  | Some t => (Bad t, w)
  | None =>
      let client := NewDaemonServiceClient (C := λ _, string) (λ _ url, url) (base_url ep) in
      match url_path (client_method client r) with
      | None => (Bad "unsupported URL", w)
      | Some path =>
          match daemon_handler cn_new shared_service path with
          | Handled h => cn_call r h x w
          | Redirected _ | PageNotFound => (Bad "404 Not Found", w)
          end
      end
  end end.

Definition on_env {A} (f : E → A * E) : G E W A := λ w,
  let '(a, e) := f (dw_env w) in
  (a, Build_dworld e (dw_client w) (dw_conf w) (dw_next w) (dw_gaps w)).
Definition connect (socket tcp : string) : G E W (option string) := λ w,
  match newClient e_windows (e_defaultTcp (dw_env w)) (λ a, e_ensureWsl a (dw_env w)) socket tcp with
  | Bad e => (Some (e_clientText e), w)
  | Good ep => (None, Build_dworld (dw_env w) (Some ep) (dw_conf w) (dw_next w) (dw_gaps w))
  end.

(** The first message of the stream starts the handler, whose answers the session is. *)
Definition start_stream (start : exec_start) : G E W (option string) :=
  e ← on_env (e_sendStart start);
  match e with
  | Some t => mret (Some t)
  | None => _ ← call_rpc rpcExecStream start; mret None
  end.

#[local] Instance daemon_client : DaemonClient (dworld E W) := {|
  d_getenv k w := e_getenv k (dw_env w);
  d_defaultSocket w := e_defaultSocket (dw_env w);
  d_defaultTcp w := e_defaultTcp (dw_env w);
  d_connect := connect;
  d_rewriteMounts mounts := on_env (e_rewriteMounts mounts);
  d_StartVM req := call_rpc rpcStartVM req;
  d_Exec vm command args := call_rpc rpcExec (vm, command, args);
  d_StopVM vm w := let '(r, w') := call_rpc rpcStopVM vm w in
                   (match r with Good _ => None | Bad e => Some e end, w');
  d_sendStart := start_stream;
  d_session := _ ← gap; on_env e_session;
  d_isTerminal w := e_isTerminal (dw_env w);
  d_makeRaw := on_env e_makeRaw;
  d_restore w := (on_env (λ e, ((), e_restore e)) w).2
|}.
End code.
