(* ===== verification/CLIDaemonProps.v ===== *)
(** * A command of klitka leaves nothing in the daemon

    [klitka exec] against the service, through the stubs, while other clients
    start and stop VMs: when it ends, the daemon has and holds nothing of the VM
    that it started ([exec_leaves_nothing]); so for [klitka shell], but for its two
    ways to leave a VM ([shell_leaves_nothing]), and for [klitka start] with
    [klitka stop] ([start_stop_leaves_nothing]). Throughout, the others do anything
    but stop this VM ([others_stop]), draw other uuids, and the connection of this
    client holds ([ConnectLaws], [dial_kept]). *)
From Stdlib Require Import Ascii.
From S2P Require Export CLIDaemon ServiceCallsProps.
From S2P Require Import MemVM.
From stdpp Require Import relations functions.
#[local] Open Scope Z_scope.
#[local] Existing Instance no_view.

(** ** The steps of the others *)
Section others.
Context `{UT : UnicodeTables} `{VH : VMHost W}.
Implicit Types c : daemon_conf W.

Lemma take_step_run g c : rtc (gstep others) c (take_step g c).
Proof.
  destruct g as [i|f]; [exact (turns_run others [i] c)|]. destruct c as [ts s].
  apply rtc_once, step_env. by split.
Qed.
Lemma run_others_run gs c : rtc (gstep others) c (run_others gs c).
Proof.
  revert c. induction gs as [|g gs IH]; intros c; [done|].
  etransitivity; [apply take_step_run|apply IH].
Qed.
Lemma others_unchanged (s s' : service W) : others s s' → unchanged s s'.
Proof. intros (H1 & H2 & H3). by split. Qed.
End others.

(** ** With nobody else a handler is that of the service *)
Lemma served_alone `{VH : VMHost W} `{CE : CliEnv E} {A} (m : acts (service W) A) (w : dworld E W) :
  dw_gaps w = [] →
  served m w = ((run_alone m (dw_conf w).2).1, on_service (λ _, (run_alone m (dw_conf w).2).2) w).
Proof.
  revert w. induction m as [a|f k IH]; intros w Hw; cbn [served run_alone].
  - by destruct w as [env cl [ts s] next gs].
  - destruct w as [env cl [ts s] next gs]. cbn in Hw. subst gs. unfold gap. cbn [dw_gaps snd dw_conf].
    by rewrite IH.
Qed.

(** ** A VM of our own beside the others' *)
Section own.
Context `{UT : UnicodeTables} `{VH : VMHost W} (calls : list svc_call) (id : string).
Hypothesis id_ne : id ≠ "".
Hypothesis others_stop : SvcStop id ∉ calls.
Implicit Types (s : service W) (c : daemon_conf W) (req : StartVMRequest).
Abbreviation thread := (acts (service W) svc_reply).

(** Our calls: one that starts the VM, one that stops it. *)
Definition with_own req : list svc_call := calls ++ [SvcStart id req; SvcStop id].

Record beside req (m1 m2 : thread) (os : nat → owner) c : Prop := {
  be_ok : all_ok (with_own req) os (c.1 ++ [m1; m2]) c.2;
  be_length : length c.1 = length calls
}.

(** The others leave what is ours alone. *)
Record same_own (os os' : nat → owner) c c' : Prop := {
  so_start : os' (length calls) = os (length calls);
  so_stop : os' (S (length calls)) = os (S (length calls));
  so_table : ∀ vm, vms c.2 !! id = Some vm → vms c'.2 !! id = Some vm
}.
Lemma own_refl os c : same_own os os c c.
Proof. by split. Qed.
Lemma own_trans os1 os2 os3 c1 c2 c3 : same_own os1 os2 c1 c2 → same_own os2 os3 c2 c3 → same_own os1 os3 c1 c3.
Proof. intros [A1 A2 A3] [B1 B2 B3]. split; [congruence..|auto]. Qed.

Lemma beside_gstep req m1 m2 os c c' :
  gstep others c c' → beside req m1 m2 os c → ∃ os', beside req m1 m2 os' c' ∧ same_own os os' c c'.
Proof.
  intros Hs [Hok Hl]. destruct Hs as [ts s i f k Hi|ts s s' Ho]; cbn [fst snd] in *.
  - pose proof (lookup_lt_Some _ _ _ Hi) as Hlt.
    assert (Hi' : (ts ++ [m1; m2]) !! i = Some (Act f k)) by (by apply lookup_app_l_Some).
    assert (Hcall : ∃ call, calls !! i = Some call) by (apply lookup_lt_is_Some; lia). destruct Hcall as [call Hcall].
    assert (Hcall' : with_own req !! i = Some call) by (by apply lookup_app_l_Some).
    destruct (all_ok_act _ _ _ _ _ _ _ _ Hok Hi' Hcall') as (os' & H1 & H2 & _ & H4).
    exists os'. rewrite insert_app_l in H1 by done. split; [split; [exact H1|by cbn; rewrite length_insert]|].
    split; cbn; [apply H2; lia..|]. intros vm. apply H4. intros ->. by apply others_stop; eapply list_elem_of_lookup_2.
  - exists os. split; [split; [|done]|].
    + eapply all_ok_unchanged; [by apply others_unchanged|done].
    + split; [done..|]. cbn. intros vm. destruct Ho as [-> _]. done.
Qed.
Lemma beside_others req m1 m2 os c c' :
  rtc (gstep others) c c' → beside req m1 m2 os c → ∃ os', beside req m1 m2 os' c' ∧ same_own os os' c c'.
Proof.
  intros Hs. revert os. induction Hs as [c|c c1 c2 Hstep _ IH]; intros os Hb.
  { exists os. split; [done|apply own_refl]. }
  destruct (beside_gstep _ _ _ _ _ _ Hstep Hb) as (os1 & Hb1 & Ho1).
  destruct (IH os1 Hb1) as (os2 & Hb2 & Ho2). exists os2. split; [done|]. by eapply own_trans.
Qed.

(** *** Where our calls are *)
Abbreviation stop_call := (serve_call (SvcStop id)).

(** The VM is being started; it is in the table; it is being stopped. *)
Definition starting req (t : thread) c : Prop :=
  ∃ os m K, beside req t stop_call os c ∧ os (length calls) = Some (id, K)
    ∧ t = start_in id m ∧ wp id K (newVM_has id req) m.
Definition published c : Prop :=
  ∃ req os t, beside req t stop_call os c ∧ is_Some (vms c.2 !! id).
Definition stopping (t : thread) c : Prop :=
  ∃ req os t1 m K, beside req t1 t os c ∧ os (S (length calls)) = Some (id, K)
    ∧ t = stop_in m ∧ wp id K (λ _ K', nothing K') m.

Lemma starting_others req t c c' : rtc (gstep others) c c' → starting req t c → starting req t c'.
Proof.
  intros Hs (os & m & K & Hb & Ho & Ht & Hwp). destruct (beside_others _ _ _ _ _ _ Hs Hb) as (os' & Hb' & [H1 _ _]).
  exists os', m, K. by rewrite H1.
Qed.
Lemma published_others c c' : rtc (gstep others) c c' → published c → published c'.
Proof.
  intros Hs (req & os & t & Hb & [vm Hv]). destruct (beside_others _ _ _ _ _ _ Hs Hb) as (os' & Hb' & [_ _ H3]).
  exists req, os', t. split; [done|]. exists vm. by apply H3.
Qed.
Lemma stopping_others t c c' : rtc (gstep others) c c' → stopping t c → stopping t c'.
Proof.
  intros Hs (req & os & t1 & m & K & Hb & Ho & Ht & Hwp).
  destruct (beside_others _ _ _ _ _ _ Hs Hb) as (os' & Hb' & [_ H2 _]). exists req, os', t1, m, K. by rewrite H2.
Qed.

(** *** Our own actions *)
Lemma own_act req m1 m2 os c j f k call :
  beside req m1 m2 os c → [m1; m2] !! j = Some (Act f k) → [SvcStart id req; SvcStop id] !! j = Some call →
  ∃ os', all_ok (with_own req) os' (c.1 ++ <[j := k c.2]> [m1; m2]) (f c.2)
    ∧ went call (os (length calls + j)%nat) c.2 (k c.2) (os' (length calls + j)%nat) (f c.2).
Proof.
  intros [Hok Hl] Hj Hcall.
  destruct (all_ok_act (with_own req) os (c.1 ++ [m1; m2]) c.2 (length calls + j) f k call Hok) as (os' & H1 & _ & H3 & _).
  - rewrite <-Hl, lookup_app_r by lia. by replace (length c.1 + j - length c.1)%nat with j by lia.
  - unfold with_own. rewrite lookup_app_r by lia. by replace (length calls + j - length calls)%nat with j by lia.
  - exists os'. split; [|done]. rewrite <-Hl, insert_app_r_alt in H1 by lia.
    by replace (length c.1 + j - length c.1)%nat with j in H1 by lia.
Qed.

Lemma starting_act req f k c :
  starting req (Act f k) c →
  starting req (k c.2) (c.1, f c.2)
  ∨ k c.2 = Finished (ReStart (Good id)) ∧ published (c.1, f c.2).
Proof.
  intros (os & m & K & Hb & _ & _ & _). pose proof (be_length _ _ _ _ _ Hb) as Hl.
  destruct (own_act req _ _ _ _ 0 f k (SvcStart id req) Hb eq_refl eq_refl) as (os' & Hok & Hw).
  rewrite Nat.add_0_r in Hw. destruct Hw as [(m' & K' & Hm & Ho & Hwp)|(Hm & _ & Hv)].
  - left. by exists os', m', K'.
  - right. split; [done|]. by exists req, os', (k c.2).
Qed.
Lemma published_stop f k c :
  published c → stop_call = Act f k → stopping (k c.2) (c.1, f c.2).
Proof.
  intros (req & os & t & Hb & Hv) Ht. pose proof (be_length _ _ _ _ _ Hb) as Hl.
  destruct (own_act req _ _ _ _ 1 f k (SvcStop id) Hb) as (os' & Hok & Hw); [by rewrite Ht|done|].
  rewrite Nat.add_1_r in Hw. destruct Hw as [(m & K & Hm & Ho & Hwp)|(_ & _ & Hn)].
  - by exists req, os', t, m, K.
  - rewrite Hn in Hv. by destruct Hv.
Qed.
Lemma stopping_act f k c : stopping (Act f k) c → stopping (k c.2) (c.1, f c.2).
Proof.
  intros (req & os & t & m & K & Hb & Hk & Hm & Hwp). pose proof (be_length _ _ _ _ _ Hb) as Hl.
  destruct (own_act req _ _ _ _ 1 f k (SvcStop id) Hb eq_refl eq_refl) as (os' & Hok & Hw).
  rewrite Nat.add_1_r in Hw. destruct Hw as [(m' & K' & Hm' & Ho & Hwp')|(Hn & _)].
  - by exists req, os', t, m', K'.
  - by rewrite Hk in Hn.
Qed.

(** What is left when nothing of [id] is. *)
Definition gone c : Prop :=
  clean (trace c.2) ∧ vms c.2 !! id = None
  ∧ ∀ r, r ∈ live_of (trace c.2) → res_vm r ≠ id
      ∧ ((∃ vm, vms c.2 !! res_vm r = Some vm ∧ r ∈ held vm) ∨ in_progress calls c.1 (res_vm r)).

Lemma in_progress_others req (ts : list thread) m1 m2 k :
  length ts = length calls → k ≠ id → in_progress (with_own req) (ts ++ [m1; m2]) k → in_progress calls ts k.
Proof.
  intros Hl Hk (i & call & m & Hc & Hid & Hm & Hf). unfold with_own in Hc.
  apply lookup_app_Some in Hc as [Hc|[Hge Hc]].
  - exists i, call, m. split_and!; try done. rewrite lookup_app_l in Hm; [done|].
    rewrite Hl. by eapply lookup_lt_Some.
  - exfalso. apply Hk. destruct (i - length calls)%nat as [|[|n]]; cbn in Hc; [| |done];
      injection Hc as <-; by injection Hid.
Qed.
Lemma beside_gone req m1 m2 os c i K :
  beside req m1 m2 os c → os i = Some (id, K) → nothing K → gone c.
Proof.
  intros [Hok Hl] Ho [Hopen _]. destruct (ao_mine _ _ _ _ Hok _ _ _ Ho) as [[M1 _ _ _] Hv].
  split; [apply Hok|]. split; [done|]. intros r Hr.
  assert (Hne : res_vm r ≠ id) by (intros He; apply (M1 r He) in Hr; rewrite Hopen in Hr; set_solver).
  split; [done|]. destruct (all_ok_live _ _ _ _ _ Hok Hr) as [H|H]; [by left|right].
  by eapply in_progress_others.
Qed.

(** Before the call that starts the VM does anything. *)
Definition waiting req c : Prop :=
  ∃ os, beside req (serve_call (SvcStart id req)) stop_call os c
    ∧ os (length calls) = Some (id, Stake ∅ false None false).
Lemma waiting_starting req c : waiting req c → starting req (serve_call (SvcStart id req)) c.
Proof.
  intros (os & Hb & Ho). eexists os, (newVM_calls id req), _. split_and!; [done..|]. by apply wp_newVM.
Qed.
Lemma waiting_gone req c : waiting req c → gone c.
Proof. intros (os & Hb & Ho). by eapply beside_gone. Qed.

Lemma reached_waiting req (w0 : W) ts s :
  NoDup (omap svc_drawn calls) → id ∉ omap svc_drawn calls →
  rtc (gstep others) (serve_call <$> calls, NewService w0) (ts, s) → waiting req (ts, s).
Proof.
  intros Hn Hid Hs.
  assert (Hb : beside req (serve_call (SvcStart id req)) stop_call (first_owner (with_own req))
                 (serve_call <$> calls, NewService w0)).
  { split; [|by cbn; rewrite length_fmap]. cbn [fst snd].
    change [serve_call (SvcStart id req); stop_call] with (serve_call (W := W) <$> [SvcStart id req; SvcStop id]).
    rewrite <-fmap_app. apply all_ok_start; [|done..]. unfold with_own. rewrite omap_app. cbn.
    rewrite Permutation_app_comm. by apply stdpp.list_relations.list.NoDup_cons. }
  destruct (beside_others _ _ _ _ _ _ Hs Hb) as (os & Hb' & [H1 _ _]). exists os. split; [exact Hb'|].
  rewrite H1. unfold first_owner, with_own. by rewrite lookup_app_r, Nat.sub_diag by lia.
Qed.

(** An action that concerns no VM. *)
Lemma published_unchanged s s' ts : unchanged s s' → published (ts, s) → published (ts, s').
Proof.
  intros Hu (req & os & t & [Hok Hl] & Hv). exists req, os, t. cbn [fst snd] in *. split.
  - split; [by eapply all_ok_unchanged|done].
  - by rewrite (un_vms _ _ Hu).
Qed.
End own.

(** ** The command *)
Section command.
Context `{UT : UnicodeTables} `{VH : VMHost W} `{CE : CliEnv E} `{CN : !Connect E W}
        `{CL : !ConnectLaws E W}.
#[local] Existing Instance daemon_client.
Implicit Types w : dworld E W.

(** The endpoints that lead to the daemon have a base URL of a scheme, a host and
    slashes. *)
Definition plain_endpoint (ep : endpoint) : Prop :=
  ∃ scheme host n, base_url ep = scheme +:+ host +:+ slashes n
    ∧ scheme ∈ ["http://"; "https://"] ∧ plain_host host.
Hypothesis dial_plain : ∀ ep e, e_dial ep e = None → plain_endpoint ep.

Lemma socket_plain path : plain_endpoint (AtSocket path).
Proof.
  exists "http://", "unix", O. split; [by vm_compute|]. split; [by left|]. split; [done|].
  by repeat constructor.
Qed.

(** *** Calls *)
Definition connected w : Prop := ∃ ep, dw_client w = Some ep ∧ e_dial ep (dw_env w) = None.
Definition texts {A} (r : osres rpc_error A) : osres string A :=
  match r with Good y => Good y | Bad e => Bad (cn_text e) end.

Lemma url_of_method base r scheme host n :
  base = scheme +:+ host +:+ slashes n → scheme ∈ ["http://"; "https://"] → plain_host host →
  url_path (client_method (NewDaemonServiceClient (C := λ _, string) (λ _ url, url) base) r)
  = Some (procedure r).
Proof.
  intros -> Hs Hh. unfold NewDaemonServiceClient. rewrite TrimRight_slashes; [|apply Hh|].
  - rewrite <-(url_path_host scheme host r Hs Hh). destruct r; cbn [client_method]; by rewrite sapp_assoc.
  - destruct Hh as [_ Hh]. by apply Forall_inv in Hh.
Qed.

Lemma call_connected r x w :
  connected w → call_rpc r x w = let '(a, w') := shared_service r x w in (texts a, w').
Proof.
  intros (ep & Hep & Hd). destruct (dial_plain _ _ Hd) as (scheme & host & n & Hb & Hs & Hh).
  unfold call_rpc. rewrite Hep, Hd, (url_of_method _ r _ _ _ Hb Hs Hh), daemon_handler_procedure.
  by rewrite law_call.
Qed.

Lemma call_cases r x w :
  connected w ∨ ∃ t, call_rpc r x w = (Bad t, w).
Proof.
  unfold call_rpc, connected. destruct (dw_client w) as [ep|]; [|right; by eexists].
  destruct (e_dial ep (dw_env w)) eqn:Ed; [right; by eexists|]. left. by exists ep.
Qed.

(** *** What a handler keeps of the client's side *)
Definition same_side w w' : Prop := dw_env w' = dw_env w ∧ dw_client w' = dw_client w.
Lemma same_side_trans w1 w2 w3 : same_side w1 w2 → same_side w2 w3 → same_side w1 w3.
Proof. intros [A1 A2] [B1 B2]. split; congruence. Qed.
Lemma gap_side w : same_side w (gap w).2 ∧ dw_next (gap w).2 = dw_next w.
Proof. unfold gap. by destruct (dw_gaps w). Qed.
Lemma served_side {A} (m : acts (service W) A) w :
  same_side w (served m w).2 ∧ dw_next (served m w).2 = dw_next w.
Proof.
  revert w. induction m as [a|f k IH]; intros w; [done|]. cbn [served]. destruct (gap_side w) as [G1 G2].
  destruct (IH (dw_conf (gap w).2).2 (on_service f (gap w).2)) as [H1 H2]. split.
  - eapply same_side_trans; [exact G1|]. by eapply same_side_trans; [|exact H1].
  - by rewrite H2.
Qed.
Lemma shared_side r (x : rpc_request r) w : same_side w (shared_service r x w).2.
Proof.
  destruct r; cbn [shared_service]; [| |apply served_side|apply served_side].
  - unfold mbind, G_mbind, newUuid. by destruct (served_side (StartVM_calls (e_uuid (dw_next w)) x)
      (Build_dworld (dw_env w) (dw_client w) (dw_conf w) (S (dw_next w)) (dw_gaps w))) as [H _].
  - destruct x as [[vmID command] args]. apply served_side.
Qed.

(** *** What a handler does to the service *)
Variables (calls : list svc_call) (id : string).
Hypothesis id_ne : id ≠ "".
Hypothesis others_stop : SvcStop id ∉ calls.
Implicit Types req : StartVMRequest.

Abbreviation waiting := (waiting calls id).
Abbreviation starting := (starting calls id).
Abbreviation published := (published calls id).
Abbreviation stopping := (stopping calls id).
Abbreviation gone := (gone calls id).

Lemma gap_run w : rtc (gstep others) (dw_conf w) (dw_conf (gap w).2).
Proof. unfold gap. destruct (dw_gaps w); [done|apply run_others_run]. Qed.
Lemma on_service_conf f w : dw_conf (on_service f w) = ((dw_conf w).1, f (dw_conf w).2).
Proof. done. Qed.

Lemma served_bind {A B} (m : acts (service W) A) (g : A → acts (service W) B) w :
  served (m ≫= g) w = let '(a, w') := served m w in served (g a) w'.
Proof. revert w. induction m as [a|f k IH]; intros w; [done|]. exact (IH _ _). Qed.

Lemma served_starting req t w :
  starting req t (dw_conf w) →
  (served t w).1 = ReStart (Good id) ∧ published (dw_conf (served t w).2)
  ∨ ∃ e, (served t w).1 = ReStart (Bad e) ∧ gone (dw_conf (served t w).2).
Proof.
  revert w. induction t as [r|f k IH]; intros w H.
  - destruct H as (os & m & K & Hb & Ho & Hm & Hwp). right. destruct m as [[vm|e]|]; [done| |done].
    injection Hm as ->. eexists. split; [done|]. by eapply beside_gone.
  - cbn [served]. apply (starting_others _ _ others_stop _ _ _ _ (gap_run w)) in H.
    apply starting_act in H as [H|[Hk H]].
    + by apply IH.
    + rewrite Hk. by left.
Qed.

Lemma StartVM_spec req w :
  e_uuid (dw_next w) = id → waiting req (dw_conf w) →
  let '(r, w') := shared_service rpcStartVM req w in
  match r with
  | Good vmID => vmID = id ∧ published (dw_conf w')
  | Bad _ => gone (dw_conf w')
  end.
Proof.
  intros Hid Hw%waiting_starting. cbn [shared_service]. unfold newUuid, mbind, G_mbind. rewrite Hid.
  set (w1 := Build_dworld _ _ _ _ _). pose proof (served_starting req _ w1 Hw) as H.
  cbn [serve_call] in H. rewrite served_bind in H. destruct (served (StartVM_calls id req) w1) as [r w2].
  cbn in H. destruct H as [[[= ->] H]|(e & [= ->] & H)]; done.
Qed.

Lemma served_idle {A} (m : acts (service W) A) w :
  idle m → published (dw_conf w) → published (dw_conf (served m w).2).
Proof.
  revert w. induction m as [a|f k IH]; intros w Hm Hp; [done|]. cbn [served].
  apply (published_others _ _ others_stop _ _ (gap_run w)) in Hp.
  destruct (Hm (dw_conf (gap w).2).2) as [Hu Hk]. apply IH; [done|]. rewrite on_service_conf.
  eapply published_unchanged; [done|]. by rewrite <-surjective_pairing.
Qed.

Lemma served_stopping t w : stopping t (dw_conf w) → gone (dw_conf (served t w).2).
Proof.
  revert w. induction t as [r|f k IH]; intros w H.
  - destruct H as (req & os & t1 & m & K & Hb & Ho & Hm & Hwp). destruct m as [e|]; [|done].
    by eapply beside_gone.
  - cbn [served]. apply (stopping_others _ _ others_stop _ _ _ (gap_run w)) in H. by apply IH, stopping_act.
Qed.
Lemma StopVM_spec w : published (dw_conf w) → gone (dw_conf (shared_service rpcStopVM id w).2).
Proof.
  intros Hp. cbn [shared_service].
  assert (H : gone (dw_conf (served (serve_call (SvcStop id)) w).2)).
  { destruct (serve_call (SvcStop id)) as [r|f k] eqn:Est.
    { exfalso. revert Est. cbn [serve_call]. unfold StopVM_calls. by rewrite bool_decide_false. }
    cbn [served]. apply served_stopping. rewrite on_service_conf.
    eapply published_stop; [|exact Est]. by eapply published_others, Hp; [|apply gap_run]. }
  cbn [serve_call] in H. rewrite served_bind in H. by destruct (served (StopVM_calls id) w).
Qed.

(** *** From the command line to the calls *)
Definition conf_of (st : cst (dworld E W)) : daemon_conf W := dw_conf (c_world st).
Definition ready (st : cst (dworld E W)) : Prop :=
  (∀ req, waiting req (conf_of st)) ∧ e_uuid (dw_next (c_world st)) = id.
Definition leaves {A} (m : X (dworld E W) A) : Prop := ∀ st, ready st → gone (conf_of (m st).2).

(** Parts that leave the daemon and the uuids alone. *)
Definition calm {A} (m : X (dworld E W) A) : Prop :=
  ∀ st, conf_of (m st).2 = conf_of st ∧ dw_next (c_world (m st).2) = dw_next (c_world st).

Lemma ready_gone st : ready st → gone (conf_of st).
Proof.
  intros [Hb _]. eapply waiting_gone; [done..|]. exact (Hb {| Mounts := []; Secrets := []; Network := None |}).
Qed.
Lemma calm_ready {A} (m : X _ A) st : calm m → ready st → ready (m st).2.
Proof. intros Hm [Hb Hn]. destruct (Hm st) as [H1 H2]. split; [by rewrite H1|by rewrite H2]. Qed.
Lemma leaves_calm {A} (m : X _ A) : calm m → leaves m.
Proof. intros Hm st Hr. by apply ready_gone, calm_ready. Qed.
Lemma leaves_bind {A B} (m : X _ A) (k : A → X _ B) : calm m → (∀ a, leaves (k a)) → leaves (x ← m; k x).
Proof.
  intros Hm Hk st Hr. apply (calm_ready m) in Hr; [|done]. unfold mbind, X_mbind.
  destruct (m st) as [[a|code] st1]; [by apply Hk|by apply ready_gone].
Qed.

Lemma calm_ret {A} (a : A) : calm (mret a).
Proof. by intros st. Qed.
Lemma calm_exit {A} code : calm (exit (A := A) code).
Proof. by intros st. Qed.
Lemma calm_ask {A} (f : dworld E W → A) : calm (ask f).
Proof. by intros st. Qed.
Lemma calm_bind {A B} (m : X _ A) (k : A → X _ B) : calm m → (∀ a, calm (k a)) → calm (x ← m; k x).
Proof.
  intros Hm Hk st. destruct (Hm st) as [H1 H2]. unfold mbind, X_mbind.
  destruct (m st) as [[a|code] st1]; [|done]. destruct (Hk a st1) as [H3 H4]. cbn [snd] in *.
  by rewrite H3, H4.
Qed.
#[local] Hint Resolve calm_ret calm_exit calm_ask : klitka.
Ltac calm := repeat (apply calm_bind; [eauto with klitka|intros ?]); eauto with klitka.

Lemma calm_start_options args : calm (start_options args).
Proof.
  unfold start_options. apply calm_bind; [unfold socketDefault; calm|intros socket].
  apply calm_bind; [unfold tcpDefault; calm|intros tcp].
  unfold parse_flags. destruct (Parse _ _ _); eauto with klitka.
Qed.
Lemma calm_open_client socket tcp : calm (open_client socket tcp).
Proof.
  apply calm_bind; [|intros []; [apply calm_exit|apply calm_ret]].
  intros [[env cl conf next gs] cs o e]. unfold do_, conf_of. cbn. unfold connect.
  cbn. by destruct (newClient _ _ _ socket tcp).
Qed.
Lemma calm_build_request o : calm (build_request o).
Proof.
  unfold build_request, fatal. destruct (parseMountFlags _) as [mounts|]; [|apply calm_exit].
  apply calm_bind.
  { intros [[env cl conf next gs] cs o' e]. unfold do_, conf_of. cbn. unfold on_env. cbn.
    by destruct (e_rewriteMounts mounts env). }
  intros [ms|]; [|apply calm_exit]. apply calm_bind; [apply calm_ask|intros getenv].
  destruct (parseSecretFlags _ _); [|apply calm_exit].
  destruct (cli_buildNetworkPolicy _ _ _ _ _ _); [apply calm_ret|apply calm_exit].
Qed.

(** *** The VM *)
Lemma connected_side w w' : same_side w w' → connected w → connected w'.
Proof. intros [H1 H2] (ep & Hep & Hd). exists ep. by rewrite H1, H2. Qed.

Lemma stop_gone st :
  published (conf_of st) → connected (c_world st) →
  (stop_vm id st).1 = Next () ∧ gone (conf_of (stop_vm id st).2).
Proof.
  intros Hp Hc. unfold stop_vm, called, do_, mbind, X_mbind. cbn [c_world d_StopVM daemon_client].
  rewrite (call_connected rpcStopVM id (c_world st) Hc). pose proof (StopVM_spec (c_world st) Hp) as Hg.
  destruct (shared_service rpcStopVM id (c_world st)) as [r w']. by destruct r.
Qed.

(** What [exec] does with the VM it started. *)
Definition exec_in (vmID command : string) (args : list string) : X (dworld E W) () :=
  _ ← called (CallExec vmID command args);
  r ← do_ (d_Exec vmID command args);
  match r with
  | Bad _ => _ ← stop_vm vmID; fatal
  | Good resp =>
      _ ← stop_vm vmID; _ ← write_out (ex_Stdout resp); _ ← write_err (ex_Stderr resp);
      if ex_ExitCode resp =? 0 then mret () else exit (ex_ExitCode resp)
  end.

Lemma exec_in_gone command args st :
  published (conf_of st) → connected (c_world st) → gone (conf_of (exec_in id command args st).2).
Proof.
  intros Hp Hc. unfold exec_in, called, do_. unfold mbind at 1 2, X_mbind at 1 2.
  cbn [c_world d_Exec daemon_client c_calls c_stdout c_stderr].
  rewrite (call_connected rpcExec (id, command, args) (c_world st) Hc).
  pose proof (served_idle _ (c_world st) (idle_Exec id command args) Hp) as Hp1.
  pose proof (connected_side _ _ (shared_side rpcExec (id, command, args) (c_world st)) Hc) as Hc1.
  cbn [shared_service] in *. destruct (served (Exec_calls id command args) (c_world st)) as [r w1]. cbn [snd] in *.
  set (st1 := Build_cst w1 _ _ _).
  destruct (stop_gone st1 Hp1 Hc1) as [H1 H2].
  destruct r as [resp|e]; cbn [texts]; unfold mbind, X_mbind;
    destruct (stop_vm id st1) as [[[]|code] st2]; cbn [fst snd] in *; try done.
  unfold write_out, write_err. by destruct (ex_ExitCode resp =? 0).
Qed.

(** The VM that is started is in the daemon's table; else the daemon has nothing of
    it. *)
Lemma start_vm_ends req st :
  ready st →
  match start_vm req st with
  | (Next vmID, st1) => vmID = id ∧ connected (c_world st1) ∧ published (conf_of st1)
  | (Exit _, st1) => gone (conf_of st1)
  end.
Proof.
  intros [Hb Hn]. unfold start_vm, do_, mbind, X_mbind. cbn [d_StartVM daemon_client].
  destruct (call_cases rpcStartVM req (c_world st)) as [Hc|[t Ht]].
  2: { rewrite Ht. by apply (ready_gone (Build_cst (c_world st) [] [] [])). }
  rewrite (call_connected rpcStartVM req (c_world st) Hc).
  pose proof (StartVM_spec req (c_world st) Hn (Hb req)) as Hs.
  pose proof (connected_side _ _ (shared_side rpcStartVM req (c_world st)) Hc) as Hc1.
  destruct (shared_service rpcStartVM req (c_world st)) as [[vmID|e] w1]; cbn [texts snd] in *; [|done].
  by destruct Hs as (-> & Hp).
Qed.
Lemma start_vm_writes req st vmID st1 : start_vm req st = (Next vmID, st1) → c_stdout st1 = c_stdout st.
Proof.
  unfold start_vm, do_, mbind, X_mbind. destruct (d_StartVM req (c_world st)) as [[v|e] w1]; [|done].
  by intros [= _ <-].
Qed.

Lemma leaves_vm command args req :
  leaves (vmID ← start_vm req; exec_in vmID command args).
Proof.
  intros st Hr. pose proof (start_vm_ends req st Hr) as Hs. unfold mbind, X_mbind.
  destruct (start_vm req st) as [[vmID|code] st1]; [|done].
  destruct Hs as (-> & Hc & Hp). by apply exec_in_gone.
Qed.

Lemma leaves_execCommand args : leaves (execCommand args).
Proof.
  apply leaves_bind; [apply calm_start_options|]. intros [o cmdArgs].
  destruct (exec_command cmdArgs) as [[command cargs]|]; [|apply leaves_calm, calm_exit].
  apply leaves_bind; [apply calm_open_client|intros _].
  apply leaves_bind; [apply calm_build_request|intros req]. apply leaves_vm.
Qed.

(** The daemon at any time: no call used the uuid that is drawn next. *)
Lemma reached_ready (w0 : W) w ts s :
  NoDup (omap svc_drawn calls) → id ∉ omap svc_drawn calls →
  rtc (gstep others) (serve_call <$> calls, NewService w0) (ts, s) →
  dw_conf w = (ts, s) → e_uuid (dw_next w) = id → ready (begun w).
Proof.
  intros Hn Hid Hs Hw Hu. split; [|done]. intros req. unfold conf_of. cbn [begun c_world]. rewrite Hw.
  by eapply reached_waiting.
Qed.

(** C6: klitka exec leaves nothing in the daemon, whatever other clients do
    meanwhile.  Take any state that the daemon is in after any actions of any calls of
    StartVM, Exec, ExecStream and StopVM, some of them perhaps not finished; a uuid
    that no call drew and no other client stops; and a command line.  If the connection
    to the daemon holds, then when klitka exec has ended (however it does, and with any
    actions of the others' calls and any changes of the machine before each action of
    its own handlers) the daemon's table does not have its VM, nothing that is open
    belongs to it, and what is open is held by another VM of the table, or a call that
    starts or stops its VM is still running. *)
Theorem exec_leaves_nothing (w0 : W) w ts s args :
  NoDup (omap svc_drawn calls) → id ∉ omap svc_drawn calls →
  rtc (gstep others) (serve_call <$> calls, NewService w0) (ts, s) →
  dw_conf w = (ts, s) → e_uuid (dw_next w) = id →
  gone (dw_conf (c_world (execCommand args (begun w)).2)).
Proof. intros. by eapply leaves_execCommand, reached_ready. Qed.

(** *** [start], then [stop] *)
Lemma bind_next {A B} (m : X (dworld E W) A) (k : A → X (dworld E W) B) st b st' :
  (x ← m; k x) st = (Next b, st') → ∃ a st1, m st = (Next a, st1) ∧ k a st1 = (Next b, st').
Proof. unfold mbind, X_mbind. destruct (m st) as [[a|code] st1]; [|done]. intros H. by exists a, st1. Qed.

Lemma quiet_next {A} (m : X (dworld E W) A) st a st1 :
  silent m → calm m → quiet_state st → ready st → m st = (Next a, st1) → quiet_state st1 ∧ ready st1.
Proof.
  intros Hs Hc Hq Hr Hm. split; [by eapply silent_next|].
  apply (calm_ready m) in Hr; [|done]. by rewrite Hm in Hr.
Qed.

(** [start] prints the id of a VM that is in the daemon's table from then on. *)
Lemma start_publishes args w st1 :
  ready (begun w) → cli_startCommand args (begun w) = (Next (), st1) →
  c_stdout st1 = text_bytes (id +:+ String (ascii_of_nat 10) "")
  ∧ published (conf_of st1).
Proof.
  intros Hr H. assert (Hq : quiet_state (begun w)) by done. unfold cli_startCommand in H.
  apply bind_next in H as ([o rest] & sa & E1 & H).
  destruct (quiet_next _ _ _ _ (silent_start_options args) (calm_start_options args) Hq Hr E1) as [Qa Ra].
  apply bind_next in H as ([] & sb & E2 & H).
  destruct (quiet_next _ _ _ _ (silent_open_client _ _) (calm_open_client _ _) Qa Ra E2) as [Qb Rb].
  apply bind_next in H as (req & sc & E3 & H).
  destruct (quiet_next _ _ _ _ (silent_build_request _) (calm_build_request _) Qb Rb E3) as [(Q1 & Q2 & Q3) [Hb Hn]].
  apply bind_next in H as (vmID & sd & E4 & H).
  pose proof (start_vm_ends req sc (conj Hb Hn)) as Hs. rewrite E4 in Hs.
  destruct Hs as (-> & _ & Hp). injection H as <-. cbn [c_stdout].
  by rewrite (start_vm_writes _ _ _ _ E4), Q2.
Qed.

Lemma stop_by_id w st :
  published (dw_conf w) →
  stopCommand ["--id"; id] (begun w) = (Next (), st) → gone (conf_of st).
Proof.
  intros Hp H. unfold stopCommand in H.
  apply bind_next in H as (socket & s1 & E1 & H).
  apply bind_next in H as (tcp & s2 & E2 & H).
  assert (Es : conf_of s2 = dw_conf w).
  { unfold socketDefault, tcpDefault, mbind, X_mbind, ask, mret, X_mret in E1, E2.
    injection E1 as _ <-. by injection E2 as _ <-. }
  change (parse_flags stop_flags {| so_id := ""; so_socket := socket; so_tcp := tcp |} ["--id"; id])
    with (mret (M := X (dworld E W)) ({| so_id := id; so_socket := socket; so_tcp := tcp |}, @nil string)) in H.
  apply bind_next in H as (p & s3 & [= <- <-] & H). cbn [so_id so_socket so_tcp] in H.
  rewrite bool_decide_false in H by done.
  apply bind_next in H as ([] & s4 & E4 & H).
  destruct (calm_open_client socket tcp s2) as [E5 _]. rewrite E4 in E5. cbn [snd] in E5.
  apply bind_next in H as ([] & s5 & [= <-] & H).
  apply bind_next in H as (r & s6 & E6 & H). unfold do_ in E6. cbn [d_StopVM daemon_client c_world] in E6.
  destruct (call_cases rpcStopVM id (c_world s4)) as [Hc|[t Ht]].
  2: { rewrite Ht in E6. by injection E6 as <- <-. }
  rewrite (call_connected rpcStopVM id (c_world s4) Hc) in E6.
  assert (Hp4 : published (dw_conf (c_world s4))).
  { unfold conf_of in E5, Es. by rewrite E5, Es. }
  pose proof (StopVM_spec (c_world s4) Hp4) as Hg.
  destruct (shared_service rpcStopVM id (c_world s4)) as [[y|e] w1]; cbn [texts snd] in *.
  - injection E6 as <- <-. by injection H as <-.
  - by injection E6 as <- <-.
Qed.

(** C12: klitka start and klitka stop --id belong together, as long as no other
    client stops the VM.  Take any state that the daemon is in after any actions of any
    calls of StartVM, Exec, ExecStream and StopVM, some of them perhaps not finished; a
    uuid that no call drew and that none of the others' calls is a StopVM of; and a
    connection to the daemon, at an endpoint whose URL is a scheme, a host and perhaps
    slashes, on which each call arrives and its reply returns. If start
    succeeds it prints one line, the id of its VM; the VM is in the daemon's table then
    and at any later time, with any actions of those calls and any changes of the
    machine in between; and if stop, given that id, succeeds at that time, then the
    daemon has and holds nothing of that VM. *)
Theorem start_stop_leaves_nothing (w0 : W) w ts s args st1 sched st2 :
  NoDup (omap svc_drawn calls) → id ∉ omap svc_drawn calls →
  rtc (gstep others) (serve_call <$> calls, NewService w0) (ts, s) →
  dw_conf w = (ts, s) → e_uuid (dw_next w) = id →
  cli_startCommand args (begun w) = (Next (), st1) →
  c_stdout st1 = text_bytes (id +:+ String (ascii_of_nat 10) "")
  ∧ let w' := c_world st1 in
    is_Some (vms (run_others sched (dw_conf w')).2 !! id)
    ∧ (stopCommand ["--id"; id]
         (begun (Build_dworld (dw_env w') (dw_client w') (run_others sched (dw_conf w')) (dw_next w') (dw_gaps w')))
       = (Next (), st2) → gone (conf_of st2)).
Proof.
  intros H1 H2 H3 H4 H5 Hstart.
  destruct (start_publishes args w st1) as (Ho & Hp); [by eapply reached_ready|done|].
  split; [done|]. intros w'.
  assert (Hp' : published (run_others sched (dw_conf w'))) by (by eapply published_others; [|apply run_others_run|]).
  split; [by destruct Hp' as (req & os & t & _ & Hv)|]. intros Hstop. by eapply stop_by_id; [|exact Hstop].
Qed.

(** *** [shell] *)
Hypothesis dial_kept : ∀ ep e start,
  e_dial ep (e_sendStart start e).2 = e_dial ep e ∧ e_dial ep (e_session e).2 = e_dial ep e
  ∧ e_dial ep (e_makeRaw e).2 = e_dial ep e.

Lemma shell_receive_world answers (st : cst (dworld E W)) :
  ∃ r st', shell_receive answers st = (Next r, st') ∧ c_world st' = c_world st.
Proof.
  revert st. induction answers as [|a answers IH]; intros st; [by eexists _, _|].
  destruct a as [[name data|code]| |t]; try (by eexists _, _). cbn [shell_receive]. unfold mbind, X_mbind.
  case_bool_decide; cbn [write_err write_out];
    match goal with |- context [shell_receive answers ?s1] => destruct (IH s1) as (r & st' & -> & Hw) end;
    exists r, st'; by rewrite Hw.
Qed.

Lemma connected_env {A} (f : E → A * E) (w : dworld E W) :
  (∀ ep, e_dial ep (f (dw_env w)).2 = e_dial ep (dw_env w)) → connected w → connected (on_env f w).2.
Proof.
  intros Hf (ep & Hep & Hd). exists ep. specialize (Hf ep). unfold on_env.
  destruct (f (dw_env w)) as [a e]. cbn in *. split; [done|congruence].
Qed.
Lemma on_env_conf {A} (f : E → A * E) (w : dworld E W) :
  dw_conf (on_env f w).2 = dw_conf w ∧ (on_env f w).1 = (f (dw_env w)).1.
Proof. unfold on_env. by destruct (f (dw_env w)). Qed.

(** How a run of [shell] can leave its VM: gone; or in the table, because the first
    message of the stream was not sent, or because the stream ended without an exit
    code and the program still waits. *)
Definition shell_end (r : finish (option ())) (st : cst (dworld E W)) : Prop :=
  gone (conf_of st)
  ∨ ((r = Next None ∨ r = Exit 1 ∧ ∃ e t, (e_sendStart (shell_start id) e).1 = Some t)
     ∧ is_Some (vms (conf_of st).2 !! id)).

Definition shell_in (vmID : string) : X (dworld E W) (option ()) :=
  _ ← called (CallExecStream (shell_start vmID));
  e ← do_ (d_sendStart (shell_start vmID));
  match e with
  | Some _ => fatal
  | None =>
      raw ← make_raw;
      answers ← do_ d_session;
      r ← shell_receive answers;
      match r with
      | None => mret None
      | Some exitCode => shell_finish vmID raw exitCode
      end
  end.

(** A bind after a step that goes on; the two steps of the stream. *)
Lemma bind_is {A B} (m : X (dworld E W) A) (k : A → X (dworld E W) B) st a st1 :
  m st = (Next a, st1) → (m ≫= k) st = k a st1.
Proof. intros H. unfold mbind, X_mbind. by rewrite H. Qed.
Lemma published_table c : published c → is_Some (vms c.2 !! id).
Proof. by intros (req & os & t & _ & Hv). Qed.

Lemma start_stream_keeps start w :
  connected w → published (dw_conf w) →
  connected (start_stream start w).2 ∧ published (dw_conf (start_stream start w).2)
  ∧ (start_stream start w).1 = (e_sendStart start (dw_env w)).1.
Proof.
  intros Hc Hp. unfold start_stream, mbind, G_mbind. destruct (on_env_conf (e_sendStart start) w) as [E1 E2].
  assert (Hc1 : connected (on_env (e_sendStart start) w).2).
  { apply connected_env; [|done]. intros ep. apply dial_kept. }
  destruct (on_env (e_sendStart start) w) as [a w1]. cbn [fst snd] in *. subst a.
  destruct ((e_sendStart start (dw_env w)).1) as [t|];
    [change (connected w1 ∧ published (dw_conf w1) ∧ Some t = Some t); by rewrite E1|].
  rewrite (call_connected rpcExecStream start w1 Hc1).
  pose proof (shared_side rpcExecStream start w1) as Hside.
  pose proof (served_idle _ w1 (idle_ExecStream (Good (Some start))) : _ → published (dw_conf
    (shared_service rpcExecStream start w1).2)) as Hidle.
  destruct (shared_service rpcExecStream start w1) as [r w2]. cbn [fst snd] in *.
  split; [by eapply connected_side|]. split; [|done]. apply Hidle. by rewrite E1.
Qed.
Lemma session_keeps w :
  connected w → published (dw_conf w) →
  connected (d_session w).2 ∧ published (dw_conf (d_session w).2).
Proof.
  intros Hc Hp. cbn [d_session daemon_client]. unfold mbind, G_mbind.
  destruct (gap_side w) as [Hs _]. pose proof (published_others _ _ others_stop _ _ (gap_run w) Hp) as Hp1.
  apply (connected_side _ _ Hs) in Hc. destruct (gap w) as [[] w1]. cbn [snd] in *.
  destruct (on_env_conf e_session w1) as [E1 _]. split; [|by rewrite E1].
  apply connected_env; [|done]. intros ep. apply (dial_kept ep _ (shell_start id)).
Qed.

Lemma do_keeps {A} (f : dworld E W → A * dworld E W) st :
  connected (f (c_world st)).2 → published (dw_conf (f (c_world st)).2) →
  ∃ st1, do_ f st = (Next (f (c_world st)).1, st1) ∧ connected (c_world st1) ∧ published (conf_of st1).
Proof. intros Hc Hp. unfold do_, conf_of. destruct (f (c_world st)) as [a w1]. by eexists. Qed.

Lemma make_raw_keeps st :
  published (conf_of st) → connected (c_world st) →
  ∃ raw st1, make_raw st = (Next raw, st1) ∧ connected (c_world st1) ∧ published (conf_of st1).
Proof.
  intros Hp Hc. unfold make_raw, ask, mbind, X_mbind. cbn [d_isTerminal d_makeRaw daemon_client].
  destruct (e_isTerminal (dw_env (c_world st))); [|by exists false, st].
  destruct (do_keeps (on_env e_makeRaw) st) as (s1 & D1 & Hc1 & Hp1); [| |by eexists _, s1].
  - apply connected_env; [|done]. intros ep. apply (dial_kept ep _ (shell_start id)).
  - by destruct (on_env_conf e_makeRaw (c_world st)) as [-> _].
Qed.
(** ... and its end. *)
Lemma shell_finish_gone raw code st :
  published (conf_of st) → connected (c_world st) → gone (conf_of (shell_finish id raw code st).2).
Proof.
  intros Hp Hc. destruct (stop_gone st Hp Hc) as [H1 H2]. unfold shell_finish, mbind, X_mbind.
  destruct (stop_vm id st) as [[[]|code'] s4]; cbn [fst snd] in *; [|done].
  destruct (negb (code =? 0)); [done|]. destruct raw; [|done]. 
  change (gone (dw_conf (on_env (λ e, ((), e_restore e)) (c_world s4)).2)).
  by destruct (on_env_conf (λ e, ((), e_restore e)) (c_world s4)) as [-> _].
Qed.

Lemma shell_in_ends st :
  published (conf_of st) → connected (c_world st) → shell_end (shell_in id st).1 (shell_in id st).2.
Proof.
  intros Hp Hc. unfold shell_in.
  rewrite (bind_is (called (CallExecStream (shell_start id))) _ st () _ eq_refl).
  destruct (start_stream_keeps (shell_start id) (c_world st) Hc Hp) as (Hc1 & Hp1 & Er).
  destruct (do_keeps (start_stream (shell_start id))
    (Build_cst (c_world st) (c_calls st ++ [CallExecStream (shell_start id)]) (c_stdout st) (c_stderr st)) Hc1 Hp1)
    as (s1 & D1 & Hc1' & Hp1').
  rewrite (bind_is _ _ _ _ _ D1). cbn [c_world] in *. rewrite Er in *. clear D1 Hc1 Hp1.
  destruct ((e_sendStart (shell_start id) (dw_env (c_world st))).1) as [t|] eqn:Es.
  { right. split; [right; split; [done|by exists (dw_env (c_world st)), t]|by apply published_table]. }
  destruct (make_raw_keeps s1 Hp1' Hc1') as (raw & sr & Dr & Hcr & Hpr).
  rewrite (bind_is _ _ _ _ _ Dr). clear Dr.
  destruct (session_keeps (c_world sr) Hcr Hpr) as [Hc2 Hp2].
  destruct (do_keeps d_session sr Hc2 Hp2) as (s2 & D2 & Hc2' & Hp2').
  rewrite (bind_is _ _ _ _ _ D2). clear D2.
  destruct (shell_receive_world (d_session (c_world sr)).1 s2) as (r & s3 & D3 & Hw).
  rewrite (bind_is _ _ _ _ _ D3).
  assert (Hp3 : published (conf_of s3)) by (unfold conf_of in *; by rewrite Hw).
  destruct r as [code|]; [|right; split; [by left|by apply published_table]].
  left. apply shell_finish_gone; [done|by rewrite Hw].
Qed.

Lemma shell_end_calm {A} (m : X (dworld E W) A) (k : A → X (dworld E W) (option ())) st :
  calm m → ready st →
  (∀ a st1, m st = (Next a, st1) → ready st1 → shell_end (k a st1).1 (k a st1).2) →
  shell_end ((x ← m; k x) st).1 ((x ← m; k x) st).2.
Proof.
  intros Hm Hr Hk. apply (calm_ready m) in Hr; [|done]. unfold mbind, X_mbind.
  destruct (m st) as [[a|code] st1]; [by apply Hk|]. left. by apply ready_gone.
Qed.

(** C11: klitka shell stops the VM it started, but in two cases, as long as no other
    client stops that VM and the connection to the daemon holds (at an endpoint whose
    URL is a scheme, a host and perhaps slashes, each call arrives and its reply
    returns, before and after the stream).  Take any state that the daemon is
    in after any actions of any calls of StartVM, Exec, ExecStream and StopVM, some of
    them perhaps not finished, and a uuid that no call drew and that none of the
    others' calls is a StopVM of, with any actions of these calls and any changes of
    the machine between its own actions: when the command ends the daemon has and holds
    nothing of its VM, unless the first message of the stream could not be sent (it then
    exits with 1), or the stream ended without an exit code (it then waits for ever); in
    these two the VM is still in the daemon's table. A lost reply of StartVM or StopVM
    is not covered. *)
Theorem shell_leaves_nothing (w0 : W) w ts s args :
  NoDup (omap svc_drawn calls) → id ∉ omap svc_drawn calls →
  rtc (gstep others) (serve_call <$> calls, NewService w0) (ts, s) →
  dw_conf w = (ts, s) → e_uuid (dw_next w) = id →
  let run := shellCommand args (begun w) in shell_end run.1 run.2.
Proof.
  intros H1 H2 H3 H4 H5. assert (Hr : ready (begun w)) by (by eapply reached_ready).
  cbv zeta.
  apply shell_end_calm; [apply calm_start_options|done|]. intros [o rest] sa _ Ra.
  apply shell_end_calm; [apply calm_open_client|done|]. intros [] sb _ Rb.
  apply shell_end_calm; [apply calm_build_request|done|]. intros req sc _ Rc.
  pose proof (start_vm_ends req sc Rc) as Hs.
  destruct (start_vm req sc) as [[vmID|code] sd] eqn:Ev; [rewrite (bind_is _ _ _ _ _ Ev)|].
  2: { left. unfold mbind, X_mbind. by rewrite Ev. }
  destruct Hs as (-> & Hc & Hp). by apply shell_in_ends.
Qed.
End command.

(** ** A run

    Two VMs of other clients, one being stopped; [klitka exec -- true] beside
    them. *)
#[local] Existing Instance ascii_tables.
#[local] Existing Instance daemon_client.
#[local] Instance demo_env : CliEnv () := {|
  e_windows := false; e_getenv _ _ := ""; e_defaultSocket _ := "/var/run/klitka.sock";
  e_defaultTcp _ := ""; e_ensureWsl _ _ := None; e_rewriteMounts ms e := (Good ms, e);
  e_dial ep _ := match ep with AtSocket _ => None | AtAddress _ => Some "refused" end;
  e_uuid n := "ours" +:+ Itoa (Z.of_nat n); e_clientText _ := "client";
  e_sendStart _ e := (None, e); e_session e := ([GotResponse (RespExit 3)], e);
  e_isTerminal _ := true; e_makeRaw e := (true, e); e_restore e := e
|}.

(** A connect whose handlers are the methods. *)
#[local] Instance demo_connect : Connect () machine := {|
  cn_handler := { r : rpc & rpc_request r → G () machine (osres rpc_error (rpc_reply r)) };
  cn_new r _ f := existT r f;
  cn_call r h x w :=
    match decide (projT1 h = r) with
    | left e =>
        let '(a, w') := eq_rect (projT1 h) (λ r, rpc_request r → G () machine (osres rpc_error (rpc_reply r)))
                          (projT2 h) r e x w in
        (match a with Good y => Good y | Bad _ => Bad "error" end, w')
    | right _ => (Bad "wrong method", w)
    end;
  cn_text _ := "error"
|}.
#[local] Instance demo_connect_laws : ConnectLaws () machine.
Proof.
  split. intros r p f x w. cbn. destruct (decide (r = r)) as [e|]; [|done].
  by rewrite (proof_irrel e eq_refl).
Qed.

(** The others: [a] is started, and is being stopped; [b] is to be started. *)
Definition demo_others : list svc_call :=
  [SvcStart "a" strict_request; SvcStop "a"; SvcStart "b" plain_request].
Definition demo_reached : daemon_conf machine :=
  turns [0; 0; 0; 0; 0; 0; 0; 1]%nat (serve_call <$> demo_others, NewService ("", true)).
Lemma demo_reached_run :
  rtc (gstep others) (serve_call <$> demo_others, NewService ("", true)) (demo_reached.1, demo_reached.2).
Proof. rewrite <-surjective_pairing. apply turns_run. Qed.
Lemma demo_others_drawn : NoDup (omap svc_drawn demo_others).
Proof. apply (bool_decide_unpack (NoDup (omap svc_drawn demo_others))). by vm_compute. Qed.
Lemma demo_others_ours : "ours0" ∉ omap svc_drawn demo_others.
Proof. apply (bool_decide_unpack ("ours0" ∉ omap svc_drawn demo_others)). by vm_compute. Qed.
Lemma demo_others_stop : SvcStop "ours0" ∉ demo_others.
Proof.
  unfold demo_others. intros Hin. repeat (apply elem_of_cons in Hin as [Hin|Hin]; [discriminate Hin|]).
  by apply not_elem_of_nil in Hin.
Qed.

(** What they do between our actions; once the machine changes as well. *)
Definition demo_gaps : list (list (gap_step machine)) :=
  [[Turn 1]; [Turn 2; Machine (λ w, (w.1, true))]; []; [Turn 1; Turn 2]; [Turn 2]; [Turn 1; Turn 2]].
Definition demo_world : dworld () machine := Build_dworld () None demo_reached 0 demo_gaps.
Definition demo_exec := execCommand ["--"; "true"] (begun demo_world).

(** The others' VM b is there in the end, ours is not; a is still being closed. *)
Example demo_exec_ends :
  demo_exec.1 = Next ()
  ∧ map fst (map_to_list (vms (conf_of demo_exec.2).2)) = ["b"]
  ∧ trace (conf_of demo_exec.2).2
    = [EvOpened (RProxy "a"); EvOpened (RStrict "a"); EvOpened (RBackend "a"); EvClosed (RBackend "a");
       EvOpened (RBackend "ours0"); EvOpened (RBackend "b"); EvClosed (RStrict "a"); EvClosed (RBackend "ours0")].
Proof. by vm_compute. Qed.

Lemma demo_dial_plain ep e : e_dial ep e = None → plain_endpoint ep.
Proof. destruct ep as [u|path]; [done|]. intros _. apply socket_plain. Qed.

Lemma exec_leaves_nothing_witness : gone demo_others "ours0" (dw_conf (c_world demo_exec.2)).
Proof.
  refine (exec_leaves_nothing demo_dial_plain demo_others "ours0" _ demo_others_stop ("", true) demo_world
            demo_reached.1 demo_reached.2 ["--"; "true"] demo_others_drawn demo_others_ours demo_reached_run _ _).
  - done.
  - apply surjective_pairing.
  - by vm_compute.
Defined.

Definition demo_started : cst (dworld () machine) := (cli_startCommand [] (begun demo_world)).2.
Definition demo_sched : list (gap_step machine) := [Turn 1; Turn 2; Machine (λ w, (w.1, false)); Turn 2].
Definition demo_later : dworld () machine :=
  let w := c_world demo_started in
  Build_dworld (dw_env w) (dw_client w) (run_others demo_sched (dw_conf w)) (dw_next w) (dw_gaps w).
Definition demo_stopped : cst (dworld () machine) := (stopCommand ["--id"; "ours0"] (begun demo_later)).2.

Lemma start_stop_leaves_nothing_witness :
  c_stdout demo_started = text_bytes ("ours0" +:+ String (ascii_of_nat 10) "")
  ∧ is_Some (vms (dw_conf demo_later).2 !! "ours0")
  ∧ gone demo_others "ours0" (conf_of demo_stopped).
Proof.
  destruct (start_stop_leaves_nothing demo_dial_plain demo_others "ours0" ltac:(discriminate) demo_others_stop
    ("", true) demo_world demo_reached.1 demo_reached.2 [] demo_started demo_sched demo_stopped
    demo_others_drawn demo_others_ours demo_reached_run) as (H1 & H2 & H3).
  - apply surjective_pairing.
  - by vm_compute.
  - unfold demo_started. assert (E : (cli_startCommand [] (begun demo_world)).1 = Next ()) by (by vm_compute).
    rewrite <-E. apply surjective_pairing.
  - split; [exact H1|]. split; [exact H2|]. apply H3.
    assert (E : (stopCommand ["--id"; "ours0"] (begun demo_later)).1 = Next ()) by (by vm_compute).
    rewrite <-E. apply surjective_pairing.
Defined.

Definition demo_shell := shellCommand [] (begun demo_world).

(** The command in the shell exits with 3. *)
Lemma shell_leaves_nothing_witness :
  demo_shell.1 = Exit 3 ∧ gone demo_others "ours0" (conf_of demo_shell.2).
Proof.
  assert (E : demo_shell.1 = Exit 3) by (by vm_compute). split; [exact E|].
  assert (H : shell_end demo_others "ours0" demo_shell.1 demo_shell.2).
  { refine (shell_leaves_nothing demo_dial_plain demo_others "ours0" _ demo_others_stop _ ("", true) demo_world
      demo_reached.1 demo_reached.2 [] demo_others_drawn demo_others_ours demo_reached_run _ _).
    - discriminate.
    - intros ep e start. split; [|split]; reflexivity.
    - apply surjective_pairing.
    - by vm_compute. }
  destruct H as [H|[[Hr|(_ & e & t & Ht)] _]]; [exact H| |].
  - exfalso. rewrite E in Hr. discriminate Hr.
  - exfalso. discriminate Ht.
Defined.
