(* ===== verification/Wsl.v ===== *)
(** * The daemon inside WSL ([cli/wsl_windows.go])

    On Windows the client runs the daemon inside the Windows Subsystem for Linux:
    it converts paths, builds what is missing, starts the daemon with a shell
    command and waits for its address to answer.  Programs are run by the host
    ([WslHost]); the command lines they are given are recorded. *)
From Stdlib Require Import Ascii.
From S2P Require Export CLI GoPath.

Definition defaultWslTcpAddr : string := "127.0.0.1:5711".

Class WslHost (W : Type) := {
  w_getenv : string → W → string;
  w_lookPath : string → W → osres string string;             (* exec.LookPath *)
  w_exec : string → list string → W → osres string string * W;   (* a program: its output *)
  w_dialTimeout : string → Z → W → osres string () * W;      (* net.DialTimeout, over TCP *)
  w_hangUp : W → W;                                          (* closing that connection *)
  w_now : W → Z;                                             (* in nanoseconds *)
  w_sleep : Z → W → W;
  w_getwd : W → osres string string;
  w_stat : string → W → osres string bool;                   (* os.Stat: is it a directory? *)
  w_winJoin : string → string → string;                      (* filepath, on Windows *)
  w_winDir : string → string
}.

Record wslContext := { exePath : string; distro : string }.

Inductive wsl_error :=
| WslNotFound
| WslCommandFailed (text : string)
| WslMissingSetting
| WslAssetsMissing (kernel initrd : string)
| WslTimeout (addr : string)
| WslNoGoMod
| WslInvalidHostPath.

(** ** Quoting *)
Definition double_quote : string := String (ascii_of_nat 34) "".
Definition escaped_quote : string := "'" +:+ double_quote +:+ "'" +:+ double_quote +:+ "'".
Definition shellEscape (value : string) : string :=
  if bool_decide (value = "") then "''"
  else "'" +:+ ReplaceAll value "'" escaped_quote +:+ "'".

Definition isLikelyWslPath (value : string) : bool := HasPrefix value "/".

(** State passing: the host, and the programs run on it. *)
Record wst (W : Type) := { ws_world : W; ws_ran : list (list string) }.
Arguments ws_world {W}. Arguments ws_ran {W}. Arguments Build_wst {W}.
Definition S_ (W A : Type) : Type := wst W → A * wst W.
#[export] Instance S_mret {W} : MRet (S_ W) := λ A a s, (a, s).
#[export] Instance S_mbind {W} : MBind (S_ W) := λ A B f m s, let '(a, s') := m s in f a s'.

Section code.
Context `{UT : UnicodeTables} `{WH : WslHost W}.

Definition wread {A} (f : W → A) : S_ W A := λ s, (f (ws_world s), s).
Definition wdo {A} (f : W → A * W) : S_ W A := λ s,
  let '(a, w) := f (ws_world s) in (a, Build_wst w (ws_ran s)).
Definition env (k : string) : S_ W string := v ← wread (w_getenv k); mret (TrimSpace v).

(** ** Running programs in WSL *)
Definition commandArgs (wsl : wslContext) (cmd : list string) : list string :=
  (if bool_decide (distro wsl = "") then [] else ["-d"; distro wsl]) ++ ["--"] ++ cmd.

Definition wsl_exec (wsl : wslContext) (cmd : list string) : S_ W (osres string string) := λ s,
  let args := commandArgs wsl cmd in
  let '(r, w) := w_exec (exePath wsl) args (ws_world s) in
  (r, Build_wst w (ws_ran s ++ [args])).

Definition toWslPath (wsl : wslContext) (windowsPath : string) : S_ W (osres wsl_error string) :=
  r ← wsl_exec wsl ["wslpath"; "-a"; "-u"; windowsPath];
  mret (match r with Good out => Good (TrimSpace out) | Bad t => Bad (WslCommandFailed t) end).
Definition wsl_run (wsl : wslContext) (cmd : list string) : S_ W (option wsl_error) :=
  r ← wsl_exec wsl cmd;
  mret (match r with Good _ => None | Bad t => Some (WslCommandFailed t) end).
Definition wsl_fileExists (wsl : wslContext) (target : string) : S_ W bool :=
  r ← wsl_exec wsl ["bash"; "-lc"; "test -e " +:+ shellEscape target];
  mret (is_good r).
Definition requireCommand (wsl : wslContext) (name : string) : S_ W (option wsl_error) :=
  wsl_run wsl ["bash"; "-lc"; "command -v " +:+ shellEscape name +:+ " >/dev/null"].

(** ** Paths *)
Definition newWslContext : S_ W (osres wsl_error wslContext) :=
  a ← wread (w_lookPath "wsl.exe");
  b ← wread (w_lookPath "wsl");
  distro ← env "KLITKA_WSL_DISTRO";
  mret (match a, b with
        | Good exe, _ | Bad _, Good exe => Good {| exePath := exe; distro := distro |}
        | Bad _, Bad _ => Bad WslNotFound
        end).

Definition fileExists (path : string) (w : W) : bool :=
  match w_stat path w with Bad _ => false | Good isDir => negb isDir end.

(** The loop of [findRepoRoot], up the directories; [None]: out of fuel. *)
Fixpoint find_up (fuel : nat) (path : string) (w : W) : option (osres wsl_error string) :=
  match fuel with
  | O => None
  | S k =>
      if fileExists (w_winJoin path "go.mod") w then Some (Good path)
      else
        let parent := w_winDir path in
        if bool_decide (parent = path) then Some (Bad WslNoGoMod) else find_up k parent w
  end.
Definition find_fuel (path : string) : nat := S (slen path).

Definition findRepoRoot : S_ W (option (osres wsl_error string)) :=
  override ← env "KLITKA_REPO_ROOT";
  if negb (bool_decide (override = "")) then mret (Some (Good override))
  else
    cwd ← wread w_getwd;
    match cwd with
    | Bad t => mret (Some (Bad (WslCommandFailed t)))
    | Good cwd => wread (find_up (find_fuel cwd) cwd)
    end.

(** The repository's path on Windows and in WSL. *)
Definition resolveRepoRoot (wsl : wslContext) : S_ W (option (osres wsl_error (string * string))) :=
  override ← env "KLITKA_WSL_REPO";
  if negb (bool_decide (override = "")) then
    if isLikelyWslPath override then mret (Some (Good ("", override)))
    else
      c ← toWslPath wsl override;
      mret (Some (osres_map (λ p, (override, p)) c))
  else
    r ← findRepoRoot;
    match r with
    | None => mret None
    | Some (Bad e) => mret (Some (Bad e))
    | Some (Good root) => p ← toWslPath wsl root; mret (Some (osres_map (λ p, (root, p)) p))
    end.

Definition resolveDaemonPath (wsl : wslContext) (repoRootWsl : string) : S_ W (osres wsl_error string) :=
  override ← env "KLITKA_WSL_DAEMON_PATH";
  if negb (bool_decide (override = "")) then
    if isLikelyWslPath override then mret (Good override) else toWslPath wsl override
  else if bool_decide (repoRootWsl = "") then mret (Bad WslMissingSetting)
  else mret (Good (PathJoin [repoRootWsl; "bin"; "klitka-daemon"])).

Definition both_exist (wsl : wslContext) (kernel initrd : string) : S_ W bool :=
  k ← wsl_fileExists wsl kernel;
  if (k : bool) then wsl_fileExists wsl initrd else mret false.

(** The kernel and the initrd, named by the environment or under the repository;
    built when they are missing. *)
Definition wsl_asset_paths (repoRootWsl : string) : S_ W (osres wsl_error (string * string)) :=
  kernel ← env "KLITKA_WSL_GUEST_KERNEL";
  initrd ← env "KLITKA_WSL_GUEST_INITRD";
  if bool_decide (kernel = "") || bool_decide (initrd = "") then
    base ← env "KLITKA_WSL_GUEST_DIR";
    if bool_decide (base = "") && bool_decide (repoRootWsl = "") then mret (Bad WslMissingSetting)
    else
      let base := if bool_decide (base = "") then PathJoin [repoRootWsl; "guest"; "image"; "out"]
                  else base in
      mret (Good (PathJoin [base; "vmlinuz"], PathJoin [base; "initramfs.cpio.gz"]))
  else mret (Good (kernel, initrd)).

Definition wsl_resolveGuestAssets (wsl : wslContext) (repoRootWsl : string)
    : S_ W (osres wsl_error (string * string)) :=
  r ← wsl_asset_paths repoRootWsl;
  match r with
  | Bad e => mret (Bad e)
  | Good (kernel, initrd) =>
      there ← both_exist wsl kernel initrd;
      built ← (if (there : bool) then mret None
               else if bool_decide (repoRootWsl = "") then mret (Some (WslAssetsMissing kernel initrd))
               else wsl_run wsl ["bash"; "-lc"; "cd " +:+ shellEscape repoRootWsl
                                                +:+ " && ./guest/image/build.sh"]);
      match built with
      | Some e => mret (Bad e)
      | None =>
          there ← both_exist wsl kernel initrd;
          mret (if (there : bool) then Good (kernel, initrd) else Bad (WslAssetsMissing kernel initrd))
      end
  end.

(** ** Waiting for the daemon *)
Definition ms : Z := 1000000.

Definition isTcpReachable (addr : string) : S_ W bool :=
  r ← wdo (w_dialTimeout addr (200 * ms));
  match r with
  | Bad _ => mret false
  | Good _ => _ ← wdo (λ w, ((), w_hangUp w)); mret true
  end.

(** [None]: out of fuel; each turn sleeps 250 ms. *)
Fixpoint wait_loop (fuel : nat) (addr : string) (deadline : Z) : S_ W (option (option wsl_error)) :=
  match fuel with
  | O => mret None
  | S k =>
      now ← wread w_now;
      if negb (now <? deadline) then mret (Some (Some (WslTimeout addr)))
      else
        ok ← isTcpReachable addr;
        if (ok : bool) then mret (Some None)
        else _ ← wdo (λ w, ((), w_sleep (250 * ms) w)); wait_loop k addr deadline
  end.
Definition wait_fuel (timeout : Z) : nat := S (S (Z.to_nat (timeout / (250 * ms)))).
Definition waitForTcp (addr : string) (timeout : Z) : S_ W (option (option wsl_error)) :=
  now ← wread w_now; wait_loop (wait_fuel timeout) addr (now + timeout).

(** ** Starting it *)
Definition build_command (repoRootWsl daemonPath : string) : string :=
  "cd " +:+ shellEscape repoRootWsl +:+ " && mkdir -p bin && go build -o " +:+ shellEscape daemonPath
  +:+ " ./cmd/klitka-daemon".
Definition start_command (kernelPath initrdPath daemonPath tcpAddr : string) : string :=
  Join [ "KLITKA_BACKEND=vm"; "KLITKA_TMPDIR=/tmp";
         "KLITKA_GUEST_KERNEL=" +:+ shellEscape kernelPath;
         "KLITKA_GUEST_INITRD=" +:+ shellEscape initrdPath;
         "nohup"; shellEscape daemonPath; "--tcp"; shellEscape tcpAddr; ">";
         shellEscape "/tmp/klitka-daemon.log"; "2>&1"; "&" ] " ".

(** Building the daemon when it is not there. *)
Definition ensure_built (wsl : wslContext) (repoRootWsl daemonPath : string) : S_ W (option wsl_error) :=
  there ← wsl_fileExists wsl daemonPath;
  if (there : bool) then mret None
  else
    e ← requireCommand wsl "go";
    match e with
    | Some e => mret (Some e)
    | None => wsl_run wsl ["bash"; "-lc"; build_command repoRootWsl daemonPath]
    end.

Definition ensureWslDaemon (tcpAddr : string) : S_ W (option (osres wsl_error wslContext)) :=
  c ← newWslContext;
  try wsl := c catch e => mret (Some (Bad e)) in
  let tcpAddr := if bool_decide (tcpAddr = "") then defaultWslTcpAddr else tcpAddr in
  up ← isTcpReachable tcpAddr;
  if (up : bool) then mret (Some (Good wsl))
  else
    r ← resolveRepoRoot wsl;
    match r with
    | None => mret None
    | Some (Bad e) => mret (Some (Bad e))
    | Some (Good (_, repoRootWsl)) =>
    d ← resolveDaemonPath wsl repoRootWsl;
    try daemonPath := d catch e => mret (Some (Bad e)) in
    e ← ensure_built wsl repoRootWsl daemonPath;
    match e with Some e => mret (Some (Bad e)) | None =>
    a ← wsl_resolveGuestAssets wsl repoRootWsl;
    try assets := a catch e => mret (Some (Bad e)) in
    e ← wsl_run wsl ["bash"; "-lc"; start_command assets.1 assets.2 daemonPath tcpAddr];
    match e with Some e => mret (Some (Bad e)) | None =>
    t ← waitForTcp tcpAddr (15000 * ms);
    match t with
    | None => mret None
    | Some (Some e) => mret (Some (Bad e))
    | Some None => mret (Some (Good wsl))
    end end end end.

(** ** The mounts of a request *)
Fixpoint rewriteMountsForWsl (wsl : option wslContext) (mounts : list Mount)
    : S_ W (osres wsl_error (list Mount)) :=
  match wsl with
  | None => mret (Good mounts)
  | Some c =>
      match mounts with
      | [] => mret (Good [])
      | mount :: mounts' =>
          let hostPath := TrimSpace (HostPath mount) in
          if bool_decide (hostPath = "") then mret (Bad WslInvalidHostPath)
          else
            p ← (if isLikelyWslPath hostPath then mret (Good hostPath) else toWslPath c hostPath);
            match p with
            | Bad e => mret (Bad e)
            | Good hostPath =>
                rest ← rewriteMountsForWsl wsl mounts';
                mret (osres_map (cons {| GuestPath := GuestPath mount; HostPath := hostPath;
                                         Mount_Mode := Mount_Mode mount |}) rest)
            end
      end
  end.
End code.

(** ** The two builds of the client

    [wsl_windows.go] and, on every other system, [wsl_stub.go]. *)
Module Windows.
Definition isWindows : bool := true.
Definition defaultTcpAddr : string := defaultWslTcpAddr.
End Windows.

Module Stub.
Definition isWindows : bool := false.
Definition defaultTcpAddr : string := "".
(** A nil context, and no error. *)
Definition ensureWslDaemon (tcpAddr : string) : osres wsl_error (option wslContext) := Good None.
Definition rewriteMountsForWsl (wsl : option wslContext) (mounts : list Mount)
    : osres wsl_error (list Mount) := Good mounts.
End Stub.
