(* ===== verification/WslProps.v ===== *)
(** * Quoting, waiting and mounts for WSL

    A quoted value is one word of the shell that reads as the value
    ([shellEscape_reads]); starting the daemon ends ([ensureWslDaemon_returns]); and
    mounts keep their guest paths and modes ([wsl_mounts_kept]). *)
From Stdlib Require Import Ascii.
From S2P Require Export Wsl.

(** ** Quoting *)

(** What a POSIX shell documents of quotes: between single quotes every character
    stands for itself; so does, between double quotes, every character but the
    dollar sign, the back-quote, the backslash and the double quote; and pieces
    next to each other make one word. *)
Definition plain_in_double (c : ascii) : bool :=
  negb (existsb (λ x, bool_decide (c = x)) ["$"; "`"; "\"; ascii_of_nat 34]%char).
Fixpoint all_chars (f : ascii → bool) (s : string) : bool :=
  match s with "" => true | String c s' => f c && all_chars f s' end.

Class ShellReads (reads : string → string → Prop) := {
  single_quoted v : has_char "'" v = false → reads ("'" +:+ v +:+ "'") v;
  double_quoted v : all_chars plain_in_double v = true → reads (double_quote +:+ v +:+ double_quote) v;
  adjacent s t v w : reads s v → reads t w → reads (s +:+ t) (v +:+ w)
}.

Lemma replace_quote c v new :
  ReplaceAll (String c v) "'" new
  = (if bool_decide (c = "'"%char) then new else String c "") +:+ ReplaceAll v "'" new.
Proof.
  unfold ReplaceAll. cbn [replace_go]. case_bool_decide as Hc.
  - subst c. replace (HasPrefix (String "'" v) "'") with true; [done|].
    symmetry. apply HasPrefix_true. by exists v.
  - replace (HasPrefix (String c v) "'") with false; [done|]. symmetry.
    apply not_true_iff_false. rewrite HasPrefix_true. intros [r Hr]. by injection Hr.
Qed.

Section quoting.
Context {reads : string → string → Prop} `{SR : !ShellReads reads}.

Lemma reads_quoted v : ∀ a, has_char "'" a = false →
  reads ("'" +:+ a +:+ ReplaceAll v "'" escaped_quote +:+ "'") (a +:+ v).
Proof.
  induction v as [|c v IH]; intros a Ha.
  - rewrite sapp_nil_r. change (ReplaceAll "" "'" escaped_quote) with "". rewrite sapp_nil_l.
    by apply single_quoted.
  - rewrite replace_quote. case_bool_decide as Hc.
    + subst c. change (String "'" v) with ("'" +:+ v).
      replace ("'" +:+ a +:+ (escaped_quote +:+ ReplaceAll v "'" escaped_quote) +:+ "'")
        with (("'" +:+ a +:+ "'") +:+ (double_quote +:+ "'" +:+ double_quote)
              +:+ ("'" +:+ "" +:+ ReplaceAll v "'" escaped_quote +:+ "'")).
      * apply adjacent; [by apply single_quoted|]. apply adjacent; [by apply double_quoted|].
        by apply IH.
      * unfold escaped_quote. by rewrite sapp_nil_l, <-!sapp_assoc.
    + replace ("'" +:+ a +:+ (String c "" +:+ ReplaceAll v "'" escaped_quote) +:+ "'")
        with ("'" +:+ (a +:+ String c "") +:+ ReplaceAll v "'" escaped_quote +:+ "'")
        by by rewrite <-!sapp_assoc.
      replace (a +:+ String c v) with ((a +:+ String c "") +:+ v) by by rewrite <-sapp_assoc.
      apply IH. rewrite has_char_app, Ha. cbn. by rewrite bool_decide_false.
Qed.

(** C37: quoting is safe: for a shell with the documented meaning of quotes,
    shellEscape of any value (quotes, spaces, dollar signs and newlines included)
    is one word that reads as exactly that value. *)
Theorem shellEscape_reads value : reads (shellEscape value) value.
Proof.
  unfold shellEscape. case_bool_decide as Hv.
  - subst value. by apply (single_quoted "").
  - by apply (reads_quoted value "").
Qed.
End quoting.

(** ** It ends *)
Section ends.
Context `{WH : WslHost W}.
Implicit Types s : wst W.

(** The parent of a directory is shorter, or it is a root; and time passes. *)
Definition dir_law : Prop := ∀ p, w_winDir p = p ∨ (slen (w_winDir p) < slen p)%nat.
Definition wsl_clock_laws : Prop :=
  (∀ d w, 0 ≤ d → w_now w + d ≤ w_now (w_sleep d w)) ∧ ∀ a d w, w_now w ≤ w_now (w_dialTimeout a d w).2.

Lemma find_up_ends fuel path w : dir_law → (slen path < fuel)%nat →
  ∃ r, find_up fuel path w = Some r
  ∧ (∀ p, r = Good p → fileExists (w_winJoin p "go.mod") w = true).
Proof.
  intros Hd. revert path. induction fuel as [|k IH]; intros path Hf; [lia|]. cbn [find_up].
  destruct (fileExists _ w) eqn:E; [exists (Good path); split; [done|]; naive_solver|].
  case_bool_decide as Hp; [by exists (Bad WslNoGoMod)|].
  apply IH. destruct (Hd path); [done|lia].
Qed.

Lemma wait_loop_ends addr deadline fuel : wsl_clock_laws → ∀ s,
  deadline ≤ w_now (ws_world s) + Z.of_nat fuel * (250 * ms) - 250 * ms → (1 ≤ fuel)%nat →
  ∃ r, (wait_loop fuel addr deadline s).1 = Some r.
Proof.
  intros [Hsleep Hdial]. induction fuel as [|k IH]; intros s Hd Hf; [lia|]. cbn [wait_loop].
  unfold isTcpReachable, mbind, S_mbind, wread, wdo.
  destruct (Z.ltb_spec (w_now (ws_world s)) deadline); cbn [negb]; [|by eexists].
  pose proof (Hdial addr (200 * ms) (ws_world s)) as Hw.
  destruct (w_dialTimeout addr (200 * ms) (ws_world s)) as [[u|t] w]; [by eexists|].
  cbn [snd] in Hw. pose proof (Hsleep (250 * ms) w ltac:(unfold ms; lia)).
  assert (1 ≤ k)%nat by (destruct k; unfold ms in *; lia).
  apply IH; [cbn; unfold ms in *; lia|done].
Qed.

Lemma waitForTcp_ends addr timeout s : wsl_clock_laws → 0 ≤ timeout →
  ∃ r, (waitForTcp addr timeout s).1 = Some r.
Proof.
  intros Hc Ht. unfold waitForTcp, mbind, S_mbind, wread. apply wait_loop_ends; [done| |unfold wait_fuel; lia].
  unfold wait_fuel. pose proof (Z.div_pos timeout (250 * ms) ltac:(done) ltac:(done)).
  rewrite !Nat2Z.inj_succ, Z2Nat.id by done.
  pose proof (Z.mod_pos_bound timeout (250 * ms) ltac:(done)).
  pose proof (Z.div_mod timeout (250 * ms) ltac:(done)). lia.
Qed.

(** Parts whose answer is never out of fuel. *)
Definition ends {A} (m : S_ W (option A)) : Prop := ∀ s, ∃ r, (m s).1 = Some r.
Lemma ends_ret {A} (a : A) : ends (mret (Some a)). Proof. intros s. by eexists. Qed.
Lemma ends_bind {A B} (m : S_ W A) (k : A → S_ W (option B)) : (∀ a, ends (k a)) → ends (x ← m; k x).
Proof. intros Hk s. unfold mbind, S_mbind. destruct (m s) as [a s']. apply Hk. Qed.
Lemma ends_then {A B} (m : S_ W (option A)) (k : option A → S_ W (option B)) :
  ends m → (∀ a, ends (k (Some a))) → ends (x ← m; k x).
Proof.
  intros Hm Hk s. unfold mbind, S_mbind. destruct (Hm s) as [a Ha]. destruct (m s) as [x s'].
  cbn in Ha. subst x. apply Hk.
Qed.
#[local] Hint Resolve ends_ret : klitka.

Lemma findRepoRoot_ends : dir_law → ends findRepoRoot.
Proof.
  intros Hd. unfold findRepoRoot. apply ends_bind. intros override.
  destruct (bool_decide _); cbn; [|apply ends_ret]. apply ends_bind. intros [cwd|t]; [|apply ends_ret].
  intros s. destruct (find_up_ends (find_fuel cwd) cwd (ws_world s) Hd) as (r & Hr & _);
    [unfold find_fuel; lia|]. by exists r.
Qed.

Lemma resolveRepoRoot_ends wsl : dir_law → ends (resolveRepoRoot wsl).
Proof.
  intros Hd. unfold resolveRepoRoot. apply ends_bind. intros override.
  destruct (bool_decide _); cbn.
  - apply ends_then; [by apply findRepoRoot_ends|]. intros [root|e]; [|apply ends_ret].
    apply ends_bind. intros p. apply ends_ret.
  - destruct (isLikelyWslPath _); [apply ends_ret|]. apply ends_bind. intros c. apply ends_ret.
Qed.

(** starting the daemon in WSL ends, with the context or an error: the search
    for the repository climbs to a root, and the wait for the address stops at its
    timeout, if a directory's parent is shorter or itself and the clock advances
    while the program sleeps. *)
Theorem ensureWslDaemon_returns tcpAddr s :
  dir_law → wsl_clock_laws → ∃ r, (ensureWslDaemon tcpAddr s).1 = Some r.
Proof.
  intros Hd Hc. revert s. change (ends (ensureWslDaemon tcpAddr)). unfold ensureWslDaemon.
  apply ends_bind. intros [wsl|e]; [|apply ends_ret]. apply ends_bind. intros []; [apply ends_ret|].
  apply ends_then; [by apply resolveRepoRoot_ends|]. intros [[rootWin rootWsl]|e]; [|apply ends_ret].
  apply ends_bind. intros [daemon|e]; [|apply ends_ret].
  apply ends_bind. intros [e|]; [apply ends_ret|].
  apply ends_bind. intros [assets|e]; [|apply ends_ret].
  apply ends_bind. intros [e|]; [apply ends_ret|].
  apply ends_then; [intros s; by apply waitForTcp_ends; [|unfold ms; lia]|].
  intros [e|]; apply ends_ret.
Qed.

(** ** Mounts *)

(** What the rewriting of a mount may change. *)
Definition moved (m m' : Mount) : Prop :=
  GuestPath m' = GuestPath m ∧ Mount_Mode m' = Mount_Mode m
  ∧ (isLikelyWslPath (TrimSpace (HostPath m)) = true → HostPath m' = TrimSpace (HostPath m)).

(** rewriting the mounts for WSL keeps their number, order, guest paths and
    modes (so a read-only mount stays read-only), and leaves alone host paths that
    are WSL paths already. *)
Theorem wsl_mounts_kept c mounts mounts' s s' :
  rewriteMountsForWsl (Some c) mounts s = (Good mounts', s') → Forall2 moved mounts mounts'.
Proof.
  revert mounts' s s'. induction mounts as [|m mounts IH]; intros mounts' s s'; cbn [rewriteMountsForWsl].
  { intros [= <- _]. constructor. }
  case_bool_decide; [done|]. unfold mbind, S_mbind.
  assert (Hp : ∀ r s1, (if isLikelyWslPath (TrimSpace (HostPath m)) then mret (Good (TrimSpace (HostPath m)))
                        else toWslPath c (TrimSpace (HostPath m))) s = (Good r, s1) →
             isLikelyWslPath (TrimSpace (HostPath m)) = true → r = TrimSpace (HostPath m)).
  { intros r s1 Hr Hw. rewrite Hw in Hr. by injection Hr. }
  destruct (_ s) as [[p|e] s1]; [|done].
  destruct (rewriteMountsForWsl (Some c) mounts s1) as [[rest|e] s2] eqn:E; [|done].
  intros [= <- _]. constructor; [|by eapply IH]. split_and!; [done|done|]. intros Hw. by eapply Hp.
Qed.
End ends.

(** ** A shell, and a machine *)

(** The least shell the laws describe. *)
Inductive shell_reads : string → string → Prop :=
| reads_single v : has_char "'" v = false → shell_reads ("'" +:+ v +:+ "'") v
| reads_double v : all_chars plain_in_double v = true → shell_reads (double_quote +:+ v +:+ double_quote) v
| reads_adjacent s t v w : shell_reads s v → shell_reads t w → shell_reads (s +:+ t) (v +:+ w).
#[export] Instance shell_reads_laws : ShellReads shell_reads.
Proof. split; [exact reads_single|exact reads_double|exact reads_adjacent]. Qed.

Lemma shellEscape_reads_witness : shell_reads (shellEscape "it's $5") "it's $5".
Proof. exact (shellEscape_reads "it's $5"). Defined.

#[local] Instance demo_windows : WslHost Z := {|
  w_getenv k w := if bool_decide (k = "KLITKA_WSL_REPO") then "/src" else "";
  w_lookPath _ w := Good "wsl.exe";
  w_exec _ args w := (Good " /mnt/c/x ", w);
  w_dialTimeout _ _ w := (if bool_decide (5000 * ms ≤ w) then Good () else Bad "refused", w); w_hangUp w := w;
  w_now w := w; w_sleep d w := w + d;
  w_getwd w := Good ""; w_stat _ w := Bad "not found"; w_winJoin a b := a; w_winDir p := p
|}.

Lemma ensureWslDaemon_returns_witness :
  ∃ r, (ensureWslDaemon "" (Build_wst 0 [])).1 = Some r.
Proof.
  apply (ensureWslDaemon_returns "" (Build_wst 0 [])).
  - intros p. by left.
  - by split; intros; cbn; lia.
Defined.

Lemma wsl_mounts_kept_witness :
  Forall2 moved [{| GuestPath := "/work"; HostPath := "C:\proj"; Mount_Mode := MountMode.RO |}]
    [{| GuestPath := "/work"; HostPath := "/mnt/c/x"; Mount_Mode := MountMode.RO |}].
Proof.
  by apply (wsl_mounts_kept {| exePath := "wsl.exe"; distro := "" |} _ _ (Build_wst 0 [])
           (rewriteMountsForWsl (Some {| exePath := "wsl.exe"; distro := "" |})
              [{| GuestPath := "/work"; HostPath := "C:\proj"; Mount_Mode := MountMode.RO |}]
              (Build_wst 0 [])).2).
Defined.
